(* ===== verification/_CoqProject ===== *)
-Q . S2P
Prelude.v
SuiteId.v
Padding.v
Platform.v
Wp.v
Classic.v
Toy.v
RatchetTypes.v
WirePayload.v
RatchetPq.v
Ratchet.v
RatchetDemo.v
RatchetRollback.v
RatchetPqInv.v
RatchetPqKeys.v
RatchetInv.v
RatchetClean.v
RatchetPqSync.v
RatchetChains.v
RatchetDeliver.v
RatchetPqLink.v
RatchetSend.v
RatchetLink.v
RatchetNetwork.v
RatchetStorage.v
RatchetStorageProps.v
RatchetCfe.v
RatchetReach.v
RatchetConversation.v
RatchetStale.v
RatchetTermination.v
Crates.v
Gf256.v
Shamir.v
Wordlist.v
SocialRecovery.v
Mnemonic.v
CfeEnvelope.v
SealedBox.v
Envelope.v
FirstFlight.v
EnvelopeBook.v
SessionMachine.v
SendPlan.v
KyberPrekeys.v
X3dh.v
KeyManager.v
Client.v
HybridSuite.v
ServerTrust.v
KeyTransparency.v
AckStore.v
Lifecycle.v
LifecycleProps.v
LifecycleStorage.v
Router.v
RouterProps.v
PqPrekeyPlan.v
DeviceTrust.v
SenderCert.v
Media.v
Knst.v
