(* ===== verification/Prelude.v ===== *)
(** * A verification development for construct-core

    construct-core is the cryptographic engine of the Construct messenger: a
    Rust crate that a host application drives. This development models the
    parts of it listed below as Rocq functions, one definition per operation of
    the source, and proves what makes them correct.

    ** The program and its model

    A device has keys ([KeyManager]) and publishes prekeys. Another device opens
    a session from its bundle (the handshake, [Client]) and sends first messages,
    from which the owner builds the other end. A session is a double ratchet; its
    messages leave [encrypt], are framed by [wire_payload], sealed, travel, are
    unframed and reach [decrypt]. Each device keeps, per peer device, a current
    session and the ones it replaced (the lifecycle manager), and a router decides
    for every arriving message: a duplicate, one to ask the platform about, one
    that waits for a session, or one to decrypt. What must survive a restart is
    stored as CFE records. Source paths are relative to [src/src/].

    Foundations:
    - [Prelude]: outcomes ([res]: a value, an error or a panic), state-passing
      methods ([stm]), record update, machine integers, bytes, slices, strings.
    - [Platform]: [config.rs]; the clock and the random generator as a class;
      the [hex] and [ml_kem] crates as classes with the laws their
      documentation gives; the wrappers of [crypto/pq_x3dh.rs]; the
      [CryptoProvider] trait of [crypto/provider.rs] as a class, with the laws
      the ratchet relies on.
    - [Wp]: a weakest precondition for methods and its tactics.
    - [Classic]: [crypto/suites/classic.rs] as an instance of the provider, and
      the proof that it has the laws.
    - [Toy]: concrete functions in the place of the crates, with the laws
      proved, so that every theorem can be applied to a run that evaluates.
    - [Crates]: the hash and MAC crates, and the error type of [utils/error.rs].

    The ratchet:
    - [SuiteId]: [crypto/suite_id.rs] and the labels of
      [crypto/kyber_prekey_auth.rs]; [Padding]: [traffic_protection/padding.rs];
      [WirePayload]: [wire_payload.rs].
    - [RatchetTypes], [RatchetPq], [Ratchet]: [mod.rs], [internals.rs] and
      [messaging.rs] of [crypto/messaging/double_ratchet/]: the session, the
      post-quantum ratchet, and the operations of a session.
    - [RatchetStorage], [RatchetCfe]: [storage.rs] and the session record of
      [cfe/types.rs].
    - [RatchetDemo]: a conversation over [Toy], for the witnesses.
    - [RatchetPqKeys], [RatchetPqSync], [RatchetChains], [RatchetClean],
      [RatchetDeliver], [RatchetSend], [RatchetPqLink], [RatchetLink],
      [RatchetNetwork]: what one call does to the keys a session has, and the
      relation between the two ends and the messages between them;
      [RatchetConversation]: the conversations of two ends, as a step relation,
      and the theorems on them.

    Storage and envelopes:
    - [CfeEnvelope]: [cfe/envelope.rs], [cfe/compat.rs], [cfe/error.rs].
    - [SealedBox]: the box of [crypto/sealed_sender/mod.rs] and
      [orchestration/decryption_error.rs]; [Envelope], [FirstFlight],
      [EnvelopeBook]: [envelope.rs], [first_flight.rs] and [book.rs] of
      [crypto/sealed_sender/].
    - [Gf256], [Shamir], [Wordlist], [SocialRecovery], [Mnemonic]:
      [crypto/social_recovery.rs].

    Keys, handshake and client:
    - [KyberPrekeys]: [crypto/kyber_prekeys.rs]; [KeyManager]: [crypto/keys.rs];
      [X3dh]: [crypto/handshake/]; [Client]: [crypto/session_api.rs],
      [crypto/client_api.rs], [device_id.rs].

    Orchestration ([orchestration/]):
    - [SessionMachine]: [session_machine.rs]; [SendPlan]: [send_plan.rs],
      [initiation_plan.rs], [receiving_init_plan.rs]; [AckStore]: [ack_store.rs].
    - [Lifecycle], with its proofs in [LifecycleProps] and [LifecycleStorage]:
      [session_lifecycle.rs], [reorder_stats.rs].
    - [Router], with its proofs in [RouterProps]: [message_router.rs].

    Signed statements and what a device trusts:
    - [HybridSuite]: the signatures of [crypto/suites/hybrid.rs], with the
      [ml_dsa] crate as a class.
    - [ServerTrust]: [server-trust/src/lib.rs] (beside [src/src/]) and
      [crypto/server_trust.rs]: delegations of a root to server keys;
      [SenderCert]: the certificate checks of [crypto/sealed_sender/mod.rs];
      [KeyTransparency]: [crypto/key_transparency.rs].
    - [PqPrekeyPlan]: the hybrid key and the uploads of [crypto/keys.rs], the
      checks of [crypto/kyber_prekey_auth.rs], and
      [orchestration/pq_prekey_plan.rs].
    - [DeviceTrust]: [crypto/device_certificate.rs].

    Contents of messages: [Media]: [media.rs]; [Knst]: [knst.rs].

    A component's state is a record with the fields of its struct; a method with
    [&mut self] is a [method]: from that record and the state of the outside
    world to both and an outcome. A [HashMap] is a [gmap], a [Vec] a list, an
    unsigned integer a [Z] with its width written out where it can overflow, and
    a [debug_assert!], an [unwrap] or a slice index out of range is a panic. A
    crate is a class with its documented laws as a second class; the client's
    theorems are proved against the class, and [Toy] and [Classic] discharge it.
    Where the two builds differ, a [debug_assert!] is that of the debug build, so
    that the absence of panics covers it, and the subtraction of clock readings as
    [i64] wraps as in the release build; a [usize] has 64 bits.

    ** What is proved

    - [RatchetConversation]: in every state that two ends and an asynchronous
      network lead to - any interleaving of sends, deliveries, losses, refused
      messages, storing and loading - each message under way decrypts to what
      was sent, or is beyond a configured limit; within the limits it always
      decrypts; and a session opens with whichever of the first thousand messages
      arrives first. These theorems, and the one of [Client] that rests on them,
      assume that all clock readings lie within a week, the age at which kept keys
      are dropped, and that generated ratchet keys do not repeat. [RatchetStale]
      shows what happens outside of the week: a proposal that comes late replaces
      the chains of the epoch agreed on since, for every responder in that place.
    - [RatchetReach]: over every session the constructors and any sequence of
      calls lead to: the invariant, no panic, the only errors of a send, and
      the round trip through the stored record. The lemmas are in
      [RatchetPqInv], [RatchetInv] and [RatchetStorageProps].
    - [RatchetRollback]: a failing [decrypt] restores the session;
      [RatchetTermination]: the loops a header drives end within the
      configured jump.
    - [WirePayload], [Padding], [CfeEnvelope]: encoders and decoders invert each
      other, accept exactly what they should, and never panic.
    - [SealedBox], [FirstFlight], [EnvelopeBook]: what is sealed opens, at its
      recipient, as what was sealed, under the session it was sealed on.
    - [SocialRecovery], [Mnemonic], [Gf256]: the tables compute in the field,
      enough shares recover the key in any form, fewer determine nothing.
    - [KyberPrekeys], [KeyManager]: ids are never handed out twice, a prekey
      outlives the handshakes that can name it, through rotations and restarts
      whose clock readings lie in the retention window.
    - [Client]: two clients that meet through a bundle and first messages hold
      the two ends of one session, under the assumptions of
      [RatchetConversation]; a failed receiving open loses no key.
    - [SessionMachine], [SendPlan]: one open in flight, and the plan of a send
      names exactly the devices it should.
    - [LifecycleProps], [LifecycleStorage]: a message nothing reads costs no
      state; a session the peer cannot read never returns; the previous states
      are bounded; the record, the coordination state and the pins survive
      restarts; and a promotion retires the envelope keys of the session it
      promotes, which is a defect.
    - [RouterProps]: a message id is delivered once, over any history and any
      restarts; a drain loses nothing and keeps the order; the queues are
      well formed and bounded.
    - [PqPrekeyPlan]: the initiator takes a Kyber prekey exactly when both of
      its signatures, its age and the identity that signed it are right, and what
      a device uploads passes and decapsulates.
    - [DeviceTrust]: a verdict of trust on a device of an account always comes of
      a pin, of the account being new, or of a chain of certificates from a pinned
      device, whatever list the server sends; where no device is listed twice the
      verdicts are exactly these. A device issues a certificate just on evidence of
      the keys, and the certificate then vouches.
    - [ServerTrust], [SenderCert]: what is signed determines what is meant;
      which certificates open a session, with the keys a root granted.
    - [KeyTransparency]: a verified key is in the log that the head names, or
      SHA-256 collides on inputs that are computed; each logged key is provable.
    - [Media], [Knst]: a sealed file and a framed body come back as they were, and
      the size of a sealed file is that of its bucket.

    ** Bounds and fuel

    The loops of [decrypt_message] and [pq_receive_key] recurse on a count of
    rounds, set to the distance the loop has to cover; running out is a panic
    of the model. [RatchetTermination] shows that the loop without a count leaves
    within these rounds, and the theorems on the absence of panics that none of
    its outcomes is one. The LEB128 loops run at most five rounds, as the
    source's do. The split of a text into words recurses on its length. The
    passes of [judge] have one unit of fuel more than there are devices, and the
    theorem on it says that this is enough, since a pass that is not the last
    settles a device. A Merkle tree has a depth of at most its number of leaves.
    All other recursion is on the data.

    ** What is not modelled

    Logging, zeroisation of memory and [Debug] output, which no result depends
    on; the contents of error messages, of which the model keeps the case and
    the numbers. Of the orchestrator, the event handlers that compose the
    components above and turn results into actions for the platform, and the
    protobuf form of a certificate. Of key transparency the consistency proofs,
    which are compiled for tests only; of the server keys the words a root is
    written down as. Invites, copy tags and Privacy Pass tokens, which are
    single calls into crates; the local store (SQL), MLS groups (a crate),
    history transfer (a second protocol with its own channel), and the bindings.
    The manifest names every part with its status and the reason. *)

From Stdlib Require Export ZArith Lia.
From Stdlib Require Import Strings.Byte.
From stdpp Require Export base tactics numbers gmap strings countable.
From stdpp Require Export list.

#[global] Open Scope Z_scope.
Set Default Goal Selector "!".

(** ** Outcomes

    A Rust function that returns [Result<A, E>] and may panic (a slice out of
    range, an [expect] on [None]) is a function into [res E A]. Keeping the
    panic as a value of its own is what lets a theorem say that a parser fed
    with attacker-controlled bytes never reaches one. *)

Inductive res (E A : Type) : Type :=
  | Ok (a : A)
  | Err (e : E)
  | Panic.
Arguments Ok {E A} a.
Arguments Err {E A} e.
Arguments Panic {E A}.

#[global] Instance res_ret E : MRet (res E) := λ A a, Ok a.
#[global] Instance res_bind E : MBind (res E) := λ A B f m,
  match m with Ok a => f a | Err e => Err e | Panic => Panic end.
#[global] Arguments res_bind E A B f !m / : assert.

(** [e.map_err(f)] *)
Definition map_err {E E' A} (f : E → E') (m : res E A) : res E' A :=
  match m with Ok a => Ok a | Err e => Err (f e) | Panic => Panic end.

(** [opt.ok_or(e)] *)
Definition ok_or {E A} (o : option A) (e : E) : res E A :=
  match o with Some a => Ok a | None => Err e end.

(** [if c { return Err(e) }] *)
Definition guard_err {E} (c : bool) (e : E) : res E unit :=
  if c then Err e else Ok tt.

Lemma res_bind_inv {E A B} (m : res E A) (f : A → res E B) b :
  m ≫= f = Ok b → ∃ a, m = Ok a ∧ f a = Ok b.
Proof. destruct m; naive_solver. Qed.

Definition res_ok {E A} (m : res E A) : option A :=
  match m with Ok a => Some a | _ => None end.
Definition is_ok {E A} (m : res E A) : bool :=
  match m with Ok _ => true | _ => false end.

(** ** Methods on [&mut self]

    [stm S E A] is a method that takes [&mut self] and returns
    [Result<A, E>]: the state it leaves behind is part of the outcome also
    when it fails, which is what makes roll-back on error a property to prove
    and not a property of the encoding. *)

Definition stm (S E A : Type) : Type := S → S * res E A.

#[global] Instance stm_ret S E : MRet (stm S E) := λ A a s, (s, Ok a).
#[global] Instance stm_bind S E : MBind (stm S E) := λ A B f m s,
  match m s with
  | (s', Ok a) => f a s'
  | (s', Err e) => (s', Err e)
  | (s', Panic) => (s', Panic)
  end.
#[global] Arguments stm_ret S E A a s / : assert.
#[global] Arguments stm_bind S E A B f m s / : assert.

Definition get {S E} : stm S E S := λ s, (s, Ok s).
Definition put {S E} (s' : S) : stm S E unit := λ _, (s', Ok tt).
Definition modify {S E} (f : S → S) : stm S E unit := λ s, (f s, Ok tt).
Definition lift {S E A} (m : res E A) : stm S E A := λ s, (s, m).
Definition throw {S E A} (e : E) : stm S E A := λ s, (s, Err e).

(** [m.inspect_err(|_| handler)] and [m.map_err(|e| { handler; e })]: the
    handler runs on the state the failing method left. A panic is not an
    [Err] and does not run it. *)
Definition on_err {S E A} (h : S → S) (m : stm S E A) : stm S E A := λ s,
  match m s with
  | (s', Err e) => (h s', Err e)
  | r => r
  end.

(** ** Record update

    [s <| f := v |>] is [s] with the field [f] replaced, as [self.f = v]. A
    record makes its fields updatable by an [Eta] instance that rebuilds it
    from its projections. *)

Class Eta (R : Type) := eta : R → R.
Class Setter {R E : Type} (proj : R → E) := set_field : (E → E) → R → R.
#[global] Arguments set_field {R E} proj {_} _ _ /.

Ltac solve_setter :=
  match goal with
  | |- @Setter ?R ?E ?proj =>
      let h := constr:(_ : Eta R) in
      let h' := eval unfold eta in h in
      let b := eval red in h' in
      let b' := (match eval pattern proj in b with ?abs _ => abs end) in
      let t := eval cbv beta in (fun (f : E → E) => b' (fun r : R => f (proj r))) in
      exact t
  end.
#[global] Hint Extern 1 (Setter _) => solve_setter : typeclass_instances.

Declare Scope upd_scope.
Notation "s <| f := v |>" := (set_field f (λ _, v) s)
  (at level 1, f at next level, v at level 99, left associativity,
   format "s  <| f  :=  v |>") : upd_scope.
#[global] Open Scope upd_scope.

(** ** Machine integers

    Integers are [Z]; a width is a bound on them. *)

Definition u8_max : Z := 255.
Definition u16_max : Z := 65535.
Definition u32_max : Z := 4294967295.
Definition u64_max : Z := 18446744073709551615.

Definition is_u8 (z : Z) : Prop := 0 ≤ z ≤ u8_max.
Definition is_u16 (z : Z) : Prop := 0 ≤ z ≤ u16_max.
Definition is_u32 (z : Z) : Prop := 0 ≤ z ≤ u32_max.
Definition is_u64 (z : Z) : Prop := 0 ≤ z ≤ u64_max.

(** [a.saturating_sub(b)] on an unsigned type. *)
Definition sat_sub (a b : Z) : Z := Z.max 0 (a - b).
(** [a.saturating_add(b)] on [u32]. *)
Definition sat_add32 (a b : Z) : Z := Z.min u32_max (a + b).
(** [a.checked_add(b)] on [u32]. *)
Definition checked_add32 (a b : Z) : option Z :=
  if a + b <=? u32_max then Some (a + b) else None.

(** ** Bytes *)

Abbreviation byte := Byte.byte.
Abbreviation bytes := (list Byte.byte).

#[global] Instance byte_eq_dec : EqDecision byte := Byte.byte_eq_dec.
#[global] Instance byte_countable : Countable byte :=
  inj_countable Byte.to_N Byte.of_N Byte.of_to_N.
#[global] Instance byte_inhabited : Inhabited byte := populate Byte.x00.

(** [x as u8] *)
Definition byte_of_Z (z : Z) : byte :=
  default Byte.x00 (Byte.of_N (Z.to_N (z `mod` 256))).
(** [b as uN] *)
Definition byte_to_Z (b : byte) : Z := Z.of_N (Byte.to_N b).

Lemma byte_to_Z_range b : 0 ≤ byte_to_Z b < 256.
Proof. unfold byte_to_Z. pose proof (Byte.to_N_bounded b). lia. Qed.

Lemma byte_to_of_Z z : byte_to_Z (byte_of_Z z) = z `mod` 256.
Proof.
  unfold byte_to_Z, byte_of_Z.
  assert (0 ≤ z `mod` 256 < 256) by (apply Z.mod_pos_bound; lia).
  destruct (Byte.of_N _) as [b|] eqn:Hb; simpl.
  - apply Byte.to_of_N in Hb. rewrite Hb. lia.
  - apply Byte.of_N_None_iff in Hb. lia.
Qed.

Lemma byte_to_Z_inj b c : byte_to_Z b = byte_to_Z c → b = c.
Proof.
  unfold byte_to_Z. intros H. apply N2Z.inj in H.
  pose proof (Byte.of_to_N b) as Hb. rewrite H, Byte.of_to_N in Hb. congruence.
Qed.

Lemma byte_of_to_Z b : byte_of_Z (byte_to_Z b) = b.
Proof.
  apply byte_to_Z_inj. rewrite byte_to_of_Z.
  apply Z.mod_small, byte_to_Z_range.
Qed.

Lemma byte_to_of_Z_small z : is_u8 z → byte_to_Z (byte_of_Z z) = z.
Proof. intros [??]. rewrite byte_to_of_Z. apply Z.mod_small. unfold u8_max in *. lia. Qed.

(** [byte] comparisons of the source, as booleans on the value. *)
Definition byte_eqb (b : byte) (z : Z) : bool := byte_to_Z b =? z.

(** ** Lengths and slices *)

(** [v.len()] *)
Definition len {A} (l : list A) : Z := Z.of_nat (length l).

Lemma len_nonneg {A} (l : list A) : 0 ≤ len l.
Proof. unfold len. lia. Qed.
Lemma len_nil {A} : len (@nil A) = 0.
Proof. done. Qed.
Lemma len_cons {A} (x : A) l : len (x :: l) = 1 + len l.
Proof. unfold len. simpl length. lia. Qed.
Lemma len_replicate {A} n (x : A) : len (replicate n x) = Z.of_nat n.
Proof. unfold len. by rewrite length_replicate. Qed.
Lemma len_app {A} (l k : list A) : len (l ++ k) = len l + len k.
Proof. unfold len. rewrite length_app. lia. Qed.
Lemma len_zero_nil {A} (l : list A) : len l = 0 → l = [].
Proof. destruct l; [done|]. rewrite len_cons. pose proof (len_nonneg l). lia. Qed.

(** [&v[a..b]]: a panic when the range does not fit. *)
Definition slice {E A} (a b : Z) (l : list A) : res E (list A) :=
  if (0 <=? a) && (a <=? b) && (b <=? len l)
  then Ok (take (Z.to_nat (b - a)) (drop (Z.to_nat a) l))
  else Panic.

(** [&v[a..]] *)
Definition slice_from {E A} (a : Z) (l : list A) : res E (list A) :=
  slice a (len l) l.

(** [v[i]] *)
Definition index {E A} (i : Z) (l : list A) : res E A :=
  if 0 <=? i then match l !! Z.to_nat i with Some x => Ok x | None => Panic end
  else Panic.

(** [v.get(i)] *)
Definition get_at {A} (i : Z) (l : list A) : option A :=
  if 0 <=? i then l !! Z.to_nat i else None.

(** The part of [l] that starts at offset [a], the view a cursor has. *)
Definition tail_at {A} (a : Z) (l : list A) : list A := drop (Z.to_nat a) l.

Lemma slice_inv {E A} a b (l : list A) :
  0 ≤ a ≤ b → b ≤ len l →
  @slice E A a b l = Ok (take (Z.to_nat (b - a)) (drop (Z.to_nat a) l)).
Proof.
  intros. unfold slice.
  by rewrite (proj2 (Z.leb_le 0 a)), (proj2 (Z.leb_le a b)),
    (proj2 (Z.leb_le b (len l))) by lia.
Qed.

Lemma slice_ok_len {E A} a b (l x : list A) :
  @slice E A a b l = Ok x → len x = b - a.
Proof.
  unfold slice, len. repeat case_match; [|done]. intros [= <-].
  rewrite length_take, length_drop.
  rewrite !andb_true_iff, !Z.leb_le in *. unfold len in *. lia.
Qed.

Lemma slice_skip {E A} a b (p l : list A) :
  len p ≤ a → a ≤ b → b ≤ len p + len l →
  @slice E A a b (p ++ l) = slice (a - len p) (b - len p) l.
Proof.
  intros. pose proof (len_nonneg p).
  rewrite !slice_inv by (rewrite ?len_app; lia).
  rewrite drop_app_ge by (unfold len in *; lia).
  f_equal. f_equal; [lia|]. f_equal. unfold len. lia.
Qed.

Lemma slice_here {E A} b (x l : list A) :
  b = len x → @slice E A 0 b (x ++ l) = Ok x.
Proof.
  intros ->. pose proof (len_nonneg x). pose proof (len_nonneg l).
  rewrite slice_inv by (rewrite ?len_app; lia).
  rewrite drop_0, Z.sub_0_r. unfold len. rewrite Nat2Z.id.
  by rewrite take_app_length.
Qed.

Lemma slice_here_all {E A} b (x : list A) :
  b = len x → @slice E A 0 b x = Ok x.
Proof. intros. rewrite <- (app_nil_r x) at 1. by apply slice_here. Qed.

(** A field [x] of a message laid out as [p ++ x ++ r]. *)
Lemma slice_mid {E A} a b (p x r : list A) :
  a = len p → b = len p + len x → @slice E A a b (p ++ x ++ r) = Ok x.
Proof.
  intros -> ->. pose proof (len_nonneg x). pose proof (len_nonneg r).
  rewrite slice_skip by (rewrite ?len_app; lia).
  rewrite Z.sub_diag. apply slice_here. lia.
Qed.

Lemma slice_from_app {E A} a (p x : list A) :
  a = len p → @slice_from E A a (p ++ x) = Ok x.
Proof.
  intros ->. unfold slice_from. rewrite len_app. rewrite <- (app_nil_r x) at 2.
  by apply slice_mid.
Qed.

Lemma index_app {E A} i (p : list A) x r :
  i = len p → @index E A i (p ++ x :: r) = Ok x.
Proof.
  intros ->. unfold index. pose proof (len_nonneg p).
  rewrite (proj2 (Z.leb_le _ _)) by done.
  unfold len. by rewrite Nat2Z.id, list_lookup_middle.
Qed.

Lemma index_ok {E A} i (l : list A) :
  0 ≤ i < len l → ∃ x, @index E A i l = Ok x.
Proof.
  intros [H1 H2]. unfold index. rewrite (proj2 (Z.leb_le _ _)) by done.
  destruct (lookup_lt_is_Some_2 l (Z.to_nat i)) as [x ->]; [unfold len in *; lia|]. eauto.
Qed.

(** ** Cursors

    [view c l r]: a reader of [l] that stands at offset [c] has [r] in front
    of it. Parsers advance a cursor over the input; their proofs advance a
    view. *)

Definition view {A} (c : Z) (l r : list A) : Prop := ∃ p, l = p ++ r ∧ c = len p.

Lemma view_start {A} (l : list A) : view 0 l l.
Proof. by exists []. Qed.

Lemma view_len {A} c (l r : list A) : view c l r → len l = c + len r.
Proof. intros (p & -> & ->). by rewrite len_app. Qed.

Lemma view_nonneg {A} c (l r : list A) : view c l r → 0 ≤ c.
Proof. intros (p & -> & ->). apply len_nonneg. Qed.

Lemma view_next {A} c c' (l x r : list A) :
  view c l (x ++ r) → c' = c + len x → view c' l r.
Proof.
  intros (p & -> & ->) ->. exists (p ++ x). by rewrite len_app, app_assoc.
Qed.

Lemma view_cons {A} c c' (l r : list A) x :
  view c l (x :: r) → c' = c + 1 → view c' l r.
Proof. intros H ->. by apply (view_next c _ l [x] r). Qed.

Lemma view_slice {E A} c c' (l x r : list A) :
  view c l (x ++ r) → c' = c + len x → @slice E A c c' l = Ok x.
Proof. intros (p & -> & ->) ->. by apply slice_mid. Qed.

Lemma view_index {E A} c (l r : list A) x :
  view c l (x :: r) → @index E A c l = Ok x.
Proof. intros (p & -> & ->). by apply index_app. Qed.

Lemma view_get_at {A} c (l r : list A) x :
  view c l (x :: r) → get_at c l = Some x.
Proof.
  intros (p & -> & ->). unfold get_at, len. rewrite (proj2 (Z.leb_le _ _)) by lia.
  by rewrite Nat2Z.id, list_lookup_middle.
Qed.

Lemma view_from {E A} c (l r : list A) : view c l r → @slice_from E A c l = Ok r.
Proof. intros (p & -> & ->). by apply slice_from_app. Qed.

(** Reading backwards: a slice that was taken is the head of the view. *)
Lemma slice_view {E A} a b (l r x : list A) :
  view a l r → @slice E A a b l = Ok x → ∃ r', r = x ++ r' ∧ view b l r'.
Proof.
  intros Hv Hs. pose proof (slice_ok_len _ _ _ _ Hs) as Hx.
  pose proof (view_len _ _ _ Hv). destruct Hv as (p & -> & ->).
  unfold slice in Hs. case_match eqn:Hg; [|done].
  rewrite !andb_true_iff, !Z.leb_le in Hg.
  injection Hs as Hs. rewrite drop_app_ge in Hs by (unfold len in *; lia).
  replace (Z.to_nat (len p) - length p)%nat with O in Hs by (unfold len; lia).
  rewrite drop_0 in Hs.
  exists (drop (Z.to_nat (b - len p)) r). split.
  - by rewrite <- Hs, take_drop.
  - exists (p ++ x). rewrite <- Hs at 1. rewrite <- app_assoc, take_drop.
    split; [done|]. rewrite len_app. lia.
Qed.

Lemma index_view {E A} a (l r : list A) x :
  view a l r → @index E A a l = Ok x → ∃ r', r = x :: r' ∧ view (a + 1) l r'.
Proof.
  intros (p & -> & ->). unfold index. pose proof (len_nonneg p).
  rewrite (proj2 (Z.leb_le _ _)) by done.
  case_match eqn:Hl; [|done]. intros [= ->].
  unfold len in Hl. rewrite Nat2Z.id, lookup_app_r, Nat.sub_diag in Hl by lia.
  destruct r as [|y r]; [done|]. injection Hl as ->. exists r. split; [done|].
  exists (p ++ [x]). split; [by rewrite <- app_assoc|by rewrite len_app].
Qed.

Lemma get_at_view {A} a (l r : list A) x :
  view a l r → get_at a l = Some x → ∃ r', r = x :: r' ∧ view (a + 1) l r'.
Proof.
  intros Hv Hg. apply (index_view (E := unit)); [done|].
  unfold get_at, index in *. case_match; [|done]. by rewrite Hg.
Qed.

Lemma slice_from_view {E A} a (l r x : list A) :
  view a l r → @slice_from E A a l = Ok x → x = r.
Proof. intros Hv. rewrite (view_from _ _ _ Hv). congruence. Qed.

(** A slice within the bounds does not panic. *)
Lemma slice_total {E A} a b (l : list A) :
  0 ≤ a ≤ b → b ≤ len l → ∃ x, @slice E A a b l = Ok x ∧ len x = b - a.
Proof.
  intros. rewrite slice_inv by done. eexists; split; [done|].
  eapply (slice_ok_len (E := E)). by apply slice_inv.
Qed.

(** ** Fixed-width integers as bytes

    [to_le_bytes]/[from_le_bytes] and their big-endian forms, for any number
    of bytes. *)

Fixpoint le_bytes (n : nat) (z : Z) : bytes :=
  match n with
  | O => []
  | S n => byte_of_Z z :: le_bytes n (z `div` 256)
  end.

Fixpoint le_val (l : bytes) : Z :=
  match l with
  | [] => 0
  | b :: l => byte_to_Z b + 256 * le_val l
  end.

Definition be_bytes (n : nat) (z : Z) : bytes := reverse (le_bytes n z).
Definition be_val (l : bytes) : Z := le_val (reverse l).

Lemma length_le_bytes n z : length (le_bytes n z) = n.
Proof. revert z. induction n; intros; simpl; auto. Qed.
Lemma len_le_bytes n z : len (le_bytes n z) = Z.of_nat n.
Proof. unfold len. by rewrite length_le_bytes. Qed.
Lemma len_be_bytes n z : len (be_bytes n z) = Z.of_nat n.
Proof. unfold be_bytes, len. by rewrite length_reverse, length_le_bytes. Qed.

Lemma le_val_range l : 0 ≤ le_val l < 256 ^ len l.
Proof.
  induction l as [|b l IH]; [unfold len; simpl; lia|].
  rewrite len_cons, Z.pow_add_r by (try lia; apply len_nonneg). simpl.
  pose proof (byte_to_Z_range b). lia.
Qed.

Lemma le_val_bytes n z : le_val (le_bytes n z) = z `mod` 256 ^ Z.of_nat n.
Proof.
  revert z. induction n as [|n IH]; intros z; [simpl; by rewrite Z.mod_1_r|].
  cbn [le_bytes le_val]. rewrite byte_to_of_Z, IH, Nat2Z.inj_succ, Z.pow_succ_r by lia.
  rewrite Z.rem_mul_r by lia. done.
Qed.

Lemma le_val_bytes_small n z :
  0 ≤ z < 256 ^ Z.of_nat n → le_val (le_bytes n z) = z.
Proof. intros. rewrite le_val_bytes. by apply Z.mod_small. Qed.

Lemma le_bytes_val l : le_bytes (length l) (le_val l) = l.
Proof.
  induction l as [|b l IH]; [done|].
  cbn [length le_bytes le_val]. pose proof (byte_to_Z_range b). f_equal.
  - apply byte_to_Z_inj. rewrite byte_to_of_Z, Z.mul_comm, Z.mod_add by lia.
    by apply Z.mod_small.
  - rewrite Z.mul_comm, Z.div_add, Z.div_small by lia.
    by rewrite Z.add_0_l.
Qed.

Lemma le_val_inj l k : length l = length k → le_val l = le_val k → l = k.
Proof.
  intros Hl Hv. pose proof (le_bytes_val l) as E. rewrite Hl, Hv, le_bytes_val in E. done.
Qed.

Lemma be_val_bytes_small n z :
  0 ≤ z < 256 ^ Z.of_nat n → be_val (be_bytes n z) = z.
Proof. intros. unfold be_val, be_bytes. rewrite reverse_involutive. by apply le_val_bytes_small. Qed.

Lemma be_bytes_val n l : len l = Z.of_nat n → be_bytes n (be_val l) = l.
Proof.
  intros Hl. assert (n = length (reverse l)) as -> by (rewrite length_reverse; unfold len in Hl; lia).
  unfold be_bytes, be_val. by rewrite le_bytes_val, reverse_involutive.
Qed.
Lemma be_val_range l : 0 ≤ be_val l < 256 ^ len l.
Proof. unfold be_val. pose proof (le_val_range (reverse l)) as Hr. unfold len in *. by rewrite length_reverse in Hr. Qed.

Lemma le_bytes_inj n z z' :
  0 ≤ z < 256 ^ Z.of_nat n → 0 ≤ z' < 256 ^ Z.of_nat n →
  le_bytes n z = le_bytes n z' → z = z'.
Proof.
  intros H H' E. pose proof (le_val_bytes_small n z H) as V.
  rewrite E, le_val_bytes_small in V by done. done.
Qed.

Lemma be_bytes_inj n z z' :
  0 ≤ z < 256 ^ Z.of_nat n → 0 ≤ z' < 256 ^ Z.of_nat n →
  be_bytes n z = be_bytes n z' → z = z'.
Proof.
  intros H H' E. apply (f_equal reverse) in E. unfold be_bytes in E.
  rewrite !reverse_involutive in E. by apply (le_bytes_inj n).
Qed.

(** [iter().map(f).collect::<Result<_, _>>()] *)
Lemma mapM_res_spec {E A B} (f : A → res E B) (g : A → B) l :
  (∀ x, x ∈ l → f x = Ok (g x)) → mapM f l = Ok (g <$> l).
Proof.
  induction l as [|x l IH]; intros Hf; [done|]. simpl. rewrite Hf by set_solver.
  cbn [mbind res_bind]. rewrite IH by set_solver. done.
Qed.
Lemma mapM_res_fmap {E A B} (f : B → res E A) (g : A → B) l :
  (∀ x, x ∈ l → f (g x) = Ok x) → mapM f (g <$> l) = Ok l.
Proof.
  induction l as [|x l IH]; intros Hf; [done|]. rewrite fmap_cons. cbn [mapM]. rewrite Hf by set_solver.
  cbn [mbind res_bind]. rewrite IH by set_solver. done.
Qed.
Lemma mapM_res_inv {E A B} (f : A → res E B) l k :
  mapM f l = Ok k → Forall2 (λ x y, f x = Ok y) l k.
Proof.
  revert k. induction l as [|x l IH]; intros k; simpl.
  - intros [= <-]. constructor.
  - destruct (f x) as [y| |] eqn:Hx; [|done..]. cbn [mbind res_bind].
    destruct (mapM f l) as [k'| |]; [|done..]. intros [= <-]. constructor; [done|by apply IH].
Qed.

(** A list of a known length, cut. *)
Lemma cut_at {A} a b (l : list A) : 0 ≤ a → 0 ≤ b → len l = a + b → ∃ x y, l = x ++ y ∧ len x = a ∧ len y = b.
Proof.
  intros Ha Hb Hl. exists (take (Z.to_nat a) l), (drop (Z.to_nat a) l). rewrite take_drop. split; [done|].
  unfold len in *. rewrite length_take, length_drop. lia.
Qed.
#[global] Opaque le_bytes le_val.
#[global] Arguments len : simpl never.

(** [len_lia] closes an arithmetic goal about the lengths of a layout. *)
Ltac len_nonnegs :=
  repeat match goal with
  | |- context [len ?x] =>
      lazymatch goal with _ : 0 ≤ len x |- _ => fail | _ => pose proof (len_nonneg x) end
  | _ : context [len ?x] |- _ =>
      lazymatch goal with _ : 0 ≤ len x |- _ => fail | _ => pose proof (len_nonneg x) end
  end.
Ltac len_lia :=
  repeat (rewrite ?len_app, ?len_cons, ?len_nil, ?len_le_bytes, ?len_be_bytes in * );
  len_nonnegs; lia.

(** ** Strings

    A Rust [String] is a byte string that is valid UTF-8. *)

Definition as_bytes (s : string) : bytes := String.list_byte_of_string s.
Definition str_of_bytes (l : bytes) : string := String.string_of_list_byte l.

Lemma str_of_as_bytes s : str_of_bytes (as_bytes s) = s.
Proof. apply String.string_of_list_byte_of_string. Qed.
Lemma as_bytes_of_str l : as_bytes (str_of_bytes l) = l.
Proof. apply String.list_byte_of_string_of_list_byte. Qed.
#[global] Instance as_bytes_inj : Inj (=) (=) as_bytes.
Proof.
  intros s s' H. apply (f_equal str_of_bytes) in H. by rewrite !str_of_as_bytes in H.
Qed.

(** The well-formedness table of UTF-8 that [String::from_utf8] enforces. *)
Definition utf8_in (lo hi : Z) (b : byte) : bool :=
  (lo <=? byte_to_Z b) && (byte_to_Z b <=? hi).
Definition utf8_cont : byte → bool := utf8_in 128 191.

Fixpoint utf8_valid (l : bytes) : bool :=
  match l with
  | [] => true
  | a :: r =>
      if utf8_in 0 127 a then utf8_valid r
      else match r with
      | [] => false
      | b :: r1 =>
          if utf8_in 194 223 a then utf8_cont b && utf8_valid r1
          else match r1 with
          | [] => false
          | c :: r2 =>
              if utf8_in 224 239 a then
                (if byte_eqb a 224 then utf8_in 160 191 b
                 else if byte_eqb a 237 then utf8_in 128 159 b
                 else utf8_cont b) && utf8_cont c && utf8_valid r2
              else match r2 with
              | [] => false
              | d :: r3 =>
                  utf8_in 240 244 a &&
                  (if byte_eqb a 240 then utf8_in 144 191 b
                   else if byte_eqb a 244 then utf8_in 128 143 b
                   else utf8_cont b) && utf8_cont c && utf8_cont d && utf8_valid r3
              end
          end
      end
  end.

(** [String::from_utf8] *)
Definition from_utf8 (l : bytes) : option string :=
  if utf8_valid l then Some (str_of_bytes l) else None.

Lemma from_utf8_as_bytes s :
  utf8_valid (as_bytes s) = true → from_utf8 (as_bytes s) = Some s.
Proof. intros H. unfold from_utf8. by rewrite H, str_of_as_bytes. Qed.
