(* ===== verification/SuiteId.v ===== *)
(** * Suite identifiers and the labels of a session's post-quantum layer

    Models [src/src/crypto/suite_id.rs] and the two label enums of
    [src/src/crypto/kyber_prekey_auth.rs] ([PqAuthentication],
    [PqHandshake]). *)

From S2P Require Import Prelude.

(** ** SuiteID *)

(** [SuiteID(u16)]: a wrapper whose field is private, so every value is made
    by [new] or [from_u16_unchecked]. *)
Record SuiteID := mkSuiteID { as_u16 : Z }.

#[global] Instance suite_id_eq_dec : EqDecision SuiteID.
Proof. solve_decision. Defined.

Definition CLASSIC : SuiteID := mkSuiteID 1.
Definition PQ_HYBRID : SuiteID := mkSuiteID 2.
Definition PQ_RATCHET : SuiteID := mkSuiteID 4.
Definition RETIRED_PQ_RATCHET_V1 : Z := 3.

Record InvalidSuiteId := mkInvalidSuiteId { invalid_suite_id : Z }.

Definition suite_new (suite_id : Z) : res InvalidSuiteId SuiteID :=
  match suite_id with
  | 1 => Ok CLASSIC
  | 2 => Ok PQ_HYBRID
  | 4 => Ok PQ_RATCHET
  | _ => Err (mkInvalidSuiteId suite_id)
  end.

Definition from_u16_unchecked (suite_id : Z) : SuiteID := mkSuiteID suite_id.

Definition is_classic (s : SuiteID) : bool := as_u16 s =? 1.
Definition is_pq_hybrid (s : SuiteID) : bool := as_u16 s =? 2.
Definition is_pq_ratchet (s : SuiteID) : bool := as_u16 s =? 4.

Definition is_supported (suite_id : Z) : bool :=
  (suite_id =? 1) || (suite_id =? 2) || (suite_id =? 4).

Definition suite_name (s : SuiteID) : string :=
  match as_u16 s with
  | 1 => "CLASSIC"
  | 2 => "PQ_HYBRID"
  | 4 => "PQ_RATCHET"
  | _ => "UNKNOWN"
  end%string.

(** [new] accepts exactly the supported numbers, and gives back a value that
    carries the number. *)
Lemma suite_new_spec z :
  match suite_new z with
  | Ok s => is_supported z = true ∧ as_u16 s = z
  | Err e => is_supported z = false ∧ invalid_suite_id e = z
  | Panic => False
  end.
Proof.
  unfold suite_new, is_supported.
  destruct z as [|p|p]; [done| |done].
  by do 3 (destruct p as [p|p|]; try done).
Qed.

Lemma suite_new_as_u16 z s : suite_new z = Ok s → as_u16 s = z.
Proof. intros H. pose proof (suite_new_spec z) as Hz. rewrite H in Hz. apply Hz. Qed.

Lemma suite_new_roundtrip s :
  is_supported (as_u16 s) = true → suite_new (as_u16 s) = Ok s.
Proof.
  intros H. pose proof (suite_new_spec (as_u16 s)) as Hz.
  destruct (suite_new (as_u16 s)) as [s'|e|]; [|destruct Hz; congruence|done].
  destruct s, s'; simpl in *. destruct Hz as [_ ->]. done.
Qed.

(** ** Labels *)

Inductive PqAuthentication :=
  | PaUnknown
  | PaClassic
  | PaAuthenticated
  | PaUnauthenticated
  | PaReceived
  | PaReceivedProven.

#[global] Instance pq_authentication_eq_dec : EqDecision PqAuthentication.
Proof. solve_decision. Defined.

Definition pa_as_u8 (p : PqAuthentication) : Z :=
  match p with
  | PaUnknown => 0
  | PaClassic => 1
  | PaAuthenticated => 2
  | PaUnauthenticated => 3
  | PaReceived => 4
  | PaReceivedProven => 5
  end.

Definition pa_from_u8 (value : Z) : PqAuthentication :=
  match value with
  | 1 => PaClassic
  | 2 => PaAuthenticated
  | 3 => PaUnauthenticated
  | 4 => PaReceived
  | 5 => PaReceivedProven
  | _ => PaUnknown
  end.

Inductive PqHandshake :=
  | PhNone
  | PhDeferredV1
  | PhInitialV2.

#[global] Instance pq_handshake_eq_dec : EqDecision PqHandshake.
Proof. solve_decision. Defined.

Definition ph_as_u8 (p : PqHandshake) : Z :=
  match p with
  | PhNone => 0
  | PhDeferredV1 => 1
  | PhInitialV2 => 2
  end.

Definition ph_from_u8 (value : Z) : PqHandshake :=
  match value with
  | 1 => PhDeferredV1
  | 2 => PhInitialV2
  | _ => PhNone
  end.

(** A record written before the label existed. *)
Definition ph_legacy (pq_applied : option bool) : PqHandshake :=
  match pq_applied with
  | Some true => PhDeferredV1
  | _ => PhNone
  end.

Lemma pa_roundtrip p : pa_from_u8 (pa_as_u8 p) = p.
Proof. by destruct p. Qed.
Lemma ph_roundtrip p : ph_from_u8 (ph_as_u8 p) = p.
Proof. by destruct p. Qed.

Lemma supported_u8 n : is_supported n = true → n ≤ u8_max.
Proof. unfold is_supported, u8_max. lia. Qed.
