(* ===== verification/Padding.v ===== *)
(** * Message padding

    Models [src/src/traffic_protection/padding.rs]: PKCS#7-style padding to a
    block size, and its removal. *)

From S2P Require Import Prelude.

Definition DEFAULT_BLOCK_SIZE : Z := 255.
Definition MAX_BLOCK_SIZE : Z := 255.
Definition MAX_MESSAGE_SIZE : Z := 65536.

Inductive PaddingError :=
  | MessageTooLarge (got max : Z)
  | InvalidPadding
  | EmptyMessage
  | InvalidBlockSize (n : Z).

Definition pad_message (plaintext : bytes) (block_size : Z) : res PaddingError bytes :=
  if (block_size =? 0) || (block_size >? MAX_BLOCK_SIZE)
  then Err (InvalidBlockSize block_size) else
  if len plaintext >? MAX_MESSAGE_SIZE
  then Err (MessageTooLarge (len plaintext) MAX_MESSAGE_SIZE) else
  let blocks := len plaintext `div` block_size + 1 in
  let padded_len := blocks * block_size in
  let padding_len := padded_len - len plaintext in
  let padding_byte := byte_of_Z padding_len in
  Ok (plaintext ++ replicate (Z.to_nat padding_len) padding_byte).

Definition pad_message_default (plaintext : bytes) : res PaddingError bytes :=
  pad_message plaintext DEFAULT_BLOCK_SIZE.

(** The constant-time comparison loop: [diff |= byte ^ expected]. *)
Definition padding_diff (expected : Z) (l : bytes) : Z :=
  foldl (λ diff b, Z.lor diff (Z.lxor (byte_to_Z b) expected)) 0 l.

Definition unpad_message (padded : bytes) : res PaddingError bytes :=
  match list.last padded with
  | None => Err EmptyMessage
  | Some lb =>
      let padding_len := byte_to_Z lb in
      if (padding_len =? 0) || (padding_len >? len padded) || (padding_len >? 255)
      then Err InvalidPadding else
      let start := len padded - padding_len in
      let expected_byte := byte_to_Z (byte_of_Z padding_len) in
      pad ← slice_from start padded;
      if negb (padding_diff expected_byte pad =? 0) then Err InvalidPadding else
      slice 0 start padded
  end.

(** ** Lemmas *)

Lemma padding_diff_zero e l acc :
  foldl (λ diff b, Z.lor diff (Z.lxor (byte_to_Z b) e)) acc l = 0 ↔
  acc = 0 ∧ Forall (λ b, byte_to_Z b = e) l.
Proof.
  revert acc. induction l as [|b l IH]; intros acc; simpl.
  - split; [by intros ->|by intros [-> _]].
  - rewrite IH, Z.lor_eq_0_iff, Z.lxor_eq_0_iff, Forall_cons_iff. tauto.
Qed.

(** How many bytes [pad_message] adds: between one and a whole block, and
    the result is a whole number of blocks. *)
Lemma padding_len_bounds n b :
  0 ≤ n → 0 < b →
  1 ≤ (n `div` b + 1) * b - n ≤ b.
Proof.
  intros. pose proof (Z.mod_pos_bound n b). pose proof (Z.div_mod n b). nia.
Qed.

Lemma pad_message_ok plaintext block_size :
  1 ≤ block_size ≤ MAX_BLOCK_SIZE → len plaintext ≤ MAX_MESSAGE_SIZE →
  ∃ k : nat,
    1 ≤ Z.of_nat k ≤ block_size ∧
    (len plaintext + Z.of_nat k) `mod` block_size = 0 ∧
    pad_message plaintext block_size =
      Ok (plaintext ++ replicate k (byte_of_Z (Z.of_nat k))).
Proof.
  intros Hb Hl. unfold pad_message.
  rewrite (proj2 (Z.eqb_neq _ _)), (Z.gtb_ltb block_size), (proj2 (Z.ltb_ge _ _)) by lia.
  rewrite Z.gtb_ltb, (proj2 (Z.ltb_ge _ _)) by lia. simpl.
  set (k := (len plaintext `div` block_size + 1) * block_size - len plaintext).
  assert (1 ≤ k ≤ block_size).
  { apply padding_len_bounds; [apply len_nonneg|lia]. }
  exists (Z.to_nat k). rewrite Z2Nat.id by lia.
  split; [done|]. split; [|done].
  subst k. rewrite Zplus_minus. apply Z_mod_mult.
Qed.

(** What [unpad_message] accepts: its constant-time check passes exactly on
    a plaintext followed by [k] copies of the byte [k], with [1 <= k <= 255],
    and what it returns is that plaintext. *)
Lemma unpad_message_spec padded plaintext :
  unpad_message padded = Ok plaintext ↔
  ∃ k : nat, 1 ≤ Z.of_nat k ≤ 255 ∧
    padded = plaintext ++ replicate k (byte_of_Z (Z.of_nat k)).
Proof.
  unfold unpad_message. split.
  - destruct (list.last padded) as [lb|] eqn:Hlast; [|done].
    case_match eqn:Hg; [done|].
    rewrite !orb_false_iff, Z.eqb_neq, !Z.gtb_ltb, !Z.ltb_ge in Hg.
    destruct Hg as [[H0 H1] H2]. pose proof (byte_to_Z_range lb).
    rewrite byte_of_to_Z. set (k := byte_to_Z lb) in *.
    unfold slice_from. rewrite !slice_inv by lia. simpl.
    case_match eqn:Hd; [done|]. intros [= <-].
    apply negb_false_iff, Z.eqb_eq in Hd. unfold padding_diff in Hd.
    apply padding_diff_zero in Hd as [_ Hd].
    exists (Z.to_nat k). rewrite Z2Nat.id by lia. split; [lia|].
    rewrite drop_0, Z.sub_0_r.
    rewrite <- (take_drop (Z.to_nat (len padded - k)) padded) at 1. f_equal.
    set (d := drop _ _) in *.
    assert (length d = Z.to_nat k) as Hdl.
    { subst d. rewrite length_drop. unfold len in *. lia. }
    rewrite take_ge in Hd by (rewrite Hdl; lia).
    rewrite <- Hdl. symmetry. apply replicate_as_Forall. split; [done|].
    eapply Forall_impl; [exact Hd|]. intros b Hb. simpl in Hb.
    by rewrite <- Hb, byte_of_to_Z.
  - intros (k & Hk & ->). destruct k as [|k]; [lia|].
    rewrite replicate_S_end, app_assoc, last_snoc.
    rewrite byte_to_of_Z_small by (unfold is_u8, u8_max; lia).
    set (kz := Z.of_nat (S k)) in *. set (b := byte_of_Z kz).
    rewrite <- app_assoc. rewrite <- replicate_S_end.
    rewrite len_app, len_replicate. fold kz.
    pose proof (len_nonneg plaintext).
    rewrite (proj2 (Z.eqb_neq _ _)), Z.gtb_ltb, (proj2 (Z.ltb_ge _ _)),
      Z.gtb_ltb, (proj2 (Z.ltb_ge _ _)) by lia.
    cbn [orb]. rewrite slice_from_app by lia. cbn [mbind res_bind].
    assert (padding_diff (byte_to_Z b) (replicate (S k) b) = 0) as ->.
    { apply padding_diff_zero. split; [done|]. by apply Forall_replicate. }
    apply slice_here. lia.
Qed.

Lemma unpad_message_no_panic padded : unpad_message padded ≠ Panic.
Proof.
  unfold unpad_message. destruct (list.last padded) as [lb|]; [|done].
  case_match eqn:Hg; [done|].
  rewrite !orb_false_iff, Z.eqb_neq, !Z.gtb_ltb, !Z.ltb_ge in Hg.
  pose proof (byte_to_Z_range lb).
  unfold slice_from. rewrite !slice_inv by lia. simpl. by case_match.
Qed.

(** Padding round-trips and hides the length up to a block. For every
    legal block size and every message within the size limit, [pad_message]
    succeeds with a whole number of blocks, at least one byte and at most one
    block longer than the message, and [unpad_message] gives the message
    back. *)
Theorem pad_message_roundtrip plaintext block_size :
  1 ≤ block_size ≤ MAX_BLOCK_SIZE → len plaintext ≤ MAX_MESSAGE_SIZE →
  ∃ padded, pad_message plaintext block_size = Ok padded ∧
    len padded `mod` block_size = 0 ∧
    len plaintext < len padded ≤ len plaintext + block_size ∧
    unpad_message padded = Ok plaintext.
Proof.
  intros Hb Hl. destruct (pad_message_ok plaintext block_size Hb Hl) as (k & Hk & Hm & ->).
  eexists. split; [done|]. rewrite len_app, len_replicate.
  split; [done|]. split; [lia|]. apply unpad_message_spec.
  exists k. unfold MAX_BLOCK_SIZE in Hb. split; [lia|done].
Qed.

Lemma pad_message_roundtrip_witness :
  ∃ padded, pad_message [byte_of_Z 3; byte_of_Z 4] 16 = Ok padded ∧
    len padded `mod` 16 = 0 ∧ 2 < len padded ≤ 2 + 16 ∧
    unpad_message padded = Ok [byte_of_Z 3; byte_of_Z 4].
Proof.
  refine (pad_message_roundtrip [byte_of_Z 3; byte_of_Z 4] 16 _ _);
    [vm_compute; split; discriminate | vm_compute; discriminate].
Defined.
