(* ===== verification/Platform.v ===== *)
(** * The platform, the crates and the crypto provider

    What the rest of the core is written against:
    - [Config] is [src/src/config.rs];
    - [Platform] is the outside world a method can observe: the clock behind
      [utils::time::now] ([src/src/utils/time.rs]) and the operating system's
      random generator;
    - [HexCrate] and [MlKemCrate] stand for the crates [hex] and [ml_kem];
      [mlkem768_keygen], [mlkem768_encapsulate] and [mlkem768_decapsulate] are
      the functions of [src/src/crypto/pq_x3dh.rs] on top of the latter;
    - [CryptoProvider] is the trait of [src/src/crypto/provider.rs], and
      [ProviderLaws] what the ratchet relies on of an implementation. *)

From S2P Require Import Prelude.

(** ** Configuration *)

Record Config := mkConfig {
  chacha_nonce_length : Z;
  max_skipped_messages : Z;
  max_message_jump : Z;
  max_skipped_message_age_seconds : Z;
  pq_ratchet_interval : Z;
  pq_ratchet_max_age_seconds : Z;
  prekey_cleanup_period_secs : Z;
}.

(** [keys::SPK_RETENTION_AFTER_ROTATION_SECS] *)
Definition SPK_RETENTION_AFTER_ROTATION_SECS : Z := 14 * 24 * 60 * 60.

Definition config_default : Config := {|
  chacha_nonce_length := 12;
  max_skipped_messages := 1000;
  max_message_jump := 2000;
  max_skipped_message_age_seconds := 7 * 24 * 60 * 60;
  pq_ratchet_interval := 16;
  pq_ratchet_max_age_seconds := 7 * 24 * 60 * 60;
  prekey_cleanup_period_secs := SPK_RETENTION_AFTER_ROTATION_SECS;
|}.

(** [Config::global()]: the [OnceLock] is only ever filled with the default. *)
Definition global : Config := config_default.
Lemma nonce_length : chacha_nonce_length global = 12.
Proof. reflexivity. Qed.
#[global] Opaque global.

(** ** The outside world *)

Class Platform := {
  World : Type;
  (** [SystemTime::now()] in seconds since the epoch, 0 before it. *)
  clock : World → World * Z;
  (** [OsRng.fill_bytes] on a buffer of [n] bytes. *)
  os_rng : Z → World → World * bytes;
}.

Class PlatformLaws `{Platform} : Prop := {
  clock_u64 : ∀ w, is_u64 (clock w).2;
  os_rng_len : ∀ n w, 0 ≤ n → len (os_rng n w).2 = n;
}.

(** A method of an object with state [S] that can also read the clock and
    the random generator. *)
Abbreviation method S E A := (stm (S * World) E A).

Section methods.
Context `{Platform} {S E : Type}.

(** [self.f] *)
Definition self : method S E S := λ sw, (sw, Ok sw.1).
(** [self.f = ...] *)
Definition update (f : S → S) : method S E unit := λ sw, ((f sw.1, sw.2), Ok tt).
(** [utils::time::now()], also as [unix_now()]. *)
Definition now : method S E Z := λ sw,
  let (w, t) := clock sw.2 in ((sw.1, w), Ok t).
(** A function that touches the world only. *)
Definition on_world {A} (m : stm World E A) : method S E A := λ sw,
  let (w, r) := m sw.2 in ((sw.1, w), r).
(** [inspect_err(|_| self.restore(...))] *)
Definition restore_on_err {A} (h : S → S) (m : method S E A) : method S E A :=
  on_err (λ sw, (h sw.1, sw.2)) m.
End methods.

(** The same clock, outside a method. *)
Definition read_clock `{Platform} {E} : stm World E Z := λ w, let (w, t) := clock w in (w, Ok t).

(** [match m { Ok(a) => .., Err(e) => .. }] on a call. *)
Definition attempt {S E E' A} (m : stm S E' A) : stm S E (res E' A) := λ s,
  match m s with
  | (s', Ok a) => (s', Ok (Ok a))
  | (s', Err e) => (s', Ok (Err e))
  | (s', Panic) => (s', Panic)
  end.

(** [m.map_err(f)] on a call. *)
Definition map_err_m {S E E' A} (f : E → E') (m : stm S E A) : stm S E' A := λ s,
  let (s', r) := m s in (s', map_err f r).

(** ** Crates *)

Class HexCrate := {
  hex_encode : bytes → string;
  hex_decode : string → option bytes;
}.

Class HexLaws `{HexCrate} : Prop := {
  hex_decode_encode : ∀ b, hex_decode (hex_encode b) = Some b;
}.

(** What [pq_x3dh.rs] calls of [ml_kem] at the 768 parameter set. Key
    generation and encapsulation draw from the system generator. *)
Class MlKemCrate `{Platform} := {
  mlkem_generate : World → World * (bytes * bytes);  (* encapsulation key, expanded decapsulation key *)
  mlkem_ek_valid : bytes → bool;                     (* EncapsulationKey::new *)
  mlkem_encapsulate : bytes → World → World * (bytes * bytes); (* ciphertext, shared secret *)
  mlkem_dk_valid : bytes → bool;                     (* from_expanded_bytes *)
  mlkem_decapsulate_slice : bytes → bytes → option bytes;
}.

Definition MLKEM768_PK_SIZE : Z := 1184.
Definition MLKEM768_SK_SIZE : Z := 2400.
Definition MLKEM768_CT_SIZE : Z := 1088.

(** FIPS 203: the sizes, and that decapsulation inverts encapsulation. *)
Class MlKemLaws `{MlKemCrate} : Prop := {
  mlkem_generate_sizes : ∀ w ek dk, (mlkem_generate w).2 = (ek, dk) →
    len ek = MLKEM768_PK_SIZE ∧ len dk = MLKEM768_SK_SIZE;
  mlkem_ct_size : ∀ ek w, len (mlkem_encapsulate ek w).2.1 = MLKEM768_CT_SIZE;
  mlkem_correct : ∀ w w' ek dk, (mlkem_generate w).2 = (ek, dk) →
    mlkem_ek_valid ek = true ∧ mlkem_dk_valid dk = true ∧
    mlkem_decapsulate_slice dk (mlkem_encapsulate ek w').2.1 =
      Some (mlkem_encapsulate ek w').2.2;
}.

Record MLKEMKeyPair := mkMLKEMKeyPair { mlkem_public_key : bytes; mlkem_secret_key : bytes }.
Record MLKEMEncapsulation := mkMLKEMEncapsulation {
  mlkem_ciphertext : bytes; mlkem_shared_secret : bytes }.

Inductive MlKemError :=
  | MlKemPublicKeySize (expected got : Z)
  | MlKemSecretKeySize (expected got : Z)
  | MlKemCiphertextSize (expected got : Z)
  | MlKemInvalidPublicKey
  | MlKemInvalidSecretKey
  | MlKemDecapsulationFailed.

Section mlkem768.
Context `{MlKemCrate}.

Definition mlkem768_keygen : stm World MlKemError MLKEMKeyPair := λ w,
  let '(w, (pk, sk)) := mlkem_generate w in
  (w, Ok {| mlkem_public_key := pk; mlkem_secret_key := sk |}).

Definition mlkem768_encapsulate (pk_bytes : bytes) : stm World MlKemError MLKEMEncapsulation :=
  if negb (len pk_bytes =? MLKEM768_PK_SIZE)
  then throw (MlKemPublicKeySize MLKEM768_PK_SIZE (len pk_bytes)) else
  if negb (mlkem_ek_valid pk_bytes) then throw MlKemInvalidPublicKey else λ w,
  let '(w, (ct, ss)) := mlkem_encapsulate pk_bytes w in
  (w, Ok {| mlkem_ciphertext := ct; mlkem_shared_secret := ss |}).

Definition mlkem768_decapsulate (sk_bytes ct_bytes : bytes) : res MlKemError bytes :=
  if negb (len sk_bytes =? MLKEM768_SK_SIZE)
  then Err (MlKemSecretKeySize MLKEM768_SK_SIZE (len sk_bytes)) else
  if negb (len ct_bytes =? MLKEM768_CT_SIZE)
  then Err (MlKemCiphertextSize MLKEM768_CT_SIZE (len ct_bytes)) else
  if negb (mlkem_dk_valid sk_bytes) then Err MlKemInvalidSecretKey else
  ok_or (mlkem_decapsulate_slice sk_bytes ct_bytes) MlKemDecapsulationFailed.
End mlkem768.

(** ** The provider *)

Inductive CryptoError :=
  | KeyGenerationError (m : string)
  | SigningError (m : string)
  | SignatureVerificationError (m : string)
  | KemEncapsulationError (m : string)
  | KemDecapsulationError (m : string)
  | AeadEncryptionError (m : string)
  | AeadDecryptionError (m : string)
  | KeyDerivationError (m : string)
  | NonceGenerationError (m : string)
  | InvalidInputError (m : string)
  | SerializationError (m : string)
  | DeserializationError (m : string)
  | InvalidKeyData
  | InvalidCiphertext
  | OtherCryptoError (m : string).

Class CryptoProvider `{Platform} := {
  KemPublicKey : Type;
  KemPrivateKey : Type;
  SignaturePublicKey : Type;
  SignaturePrivateKey : Type;
  AeadKey : Type;
  (** The [AsRef<\[u8\]>] and [Default] bounds of the associated types. *)
  kem_public_ref : KemPublicKey → bytes;
  kem_private_ref : KemPrivateKey → bytes;
  signature_public_ref : SignaturePublicKey → bytes;
  signature_private_ref : SignaturePrivateKey → bytes;
  aead_ref : AeadKey → bytes;
  aead_default : AeadKey;

  generate_kem_keys : stm World CryptoError (KemPrivateKey * KemPublicKey);
  from_private_key_to_public_key : KemPrivateKey → res CryptoError KemPublicKey;
  kem_public_key_from_bytes : bytes → KemPublicKey;
  kem_private_key_from_bytes : bytes → KemPrivateKey;
  aead_key_from_bytes : bytes → AeadKey;
  signature_public_key_from_bytes : bytes → SignaturePublicKey;
  signature_private_key_from_bytes : bytes → SignaturePrivateKey;
  generate_signature_keys : stm World CryptoError (SignaturePrivateKey * SignaturePublicKey);
  from_signature_private_to_public : SignaturePrivateKey → res CryptoError SignaturePublicKey;
  sign : SignaturePrivateKey → bytes → res CryptoError bytes;
  verify : SignaturePublicKey → bytes → bytes → res CryptoError unit;
  kem_encapsulate : KemPublicKey → stm World CryptoError (bytes * bytes);
  kem_decapsulate : KemPrivateKey → bytes → res CryptoError bytes;
  aead_encrypt : AeadKey → bytes → bytes → option bytes → res CryptoError bytes;
  aead_decrypt : AeadKey → bytes → bytes → option bytes → res CryptoError bytes;
  hkdf_derive_key : bytes → bytes → bytes → Z → res CryptoError bytes;
  kdf_rk : AeadKey → bytes → res CryptoError (AeadKey * AeadKey);
  kdf_ck : AeadKey → res CryptoError (AeadKey * AeadKey);
  generate_nonce : Z → stm World CryptoError bytes;
  provider_suite_id : Z;
}.

(** What the ratchet, the handshake and the storage code rely on of a suite:
    conversions that lose nothing, a Diffie-Hellman that agrees on both sides,
    an AEAD that opens what it sealed, and KDFs of the requested length. The
    classic suite's provider has them ([Classic.v]). *)
Class ProviderLaws `{CryptoProvider} : Prop := {
  kem_public_ref_from : ∀ b, kem_public_ref (kem_public_key_from_bytes b) = b;
  kem_public_from_ref : ∀ k, kem_public_key_from_bytes (kem_public_ref k) = k;
  kem_private_ref_from : ∀ b, kem_private_ref (kem_private_key_from_bytes b) = b;
  kem_private_from_ref : ∀ k, kem_private_key_from_bytes (kem_private_ref k) = k;
  aead_ref_from : ∀ b, aead_ref (aead_key_from_bytes b) = b;
  aead_from_ref : ∀ k, aead_key_from_bytes (aead_ref k) = k;

  generate_kem_keys_ok : ∀ w, ∃ w' sk pk,
    generate_kem_keys w = (w', Ok (sk, pk)) ∧ from_private_key_to_public_key sk = Ok pk;
  kem_public_len : ∀ sk pk, from_private_key_to_public_key sk = Ok pk →
    len (kem_public_ref pk) = 32;
  kem_public_no_panic : ∀ sk, from_private_key_to_public_key sk ≠ Panic;
  kem_decapsulate_no_panic : ∀ sk ct, kem_decapsulate sk ct ≠ Panic;
  dh_commutes : ∀ a pa b pb,
    from_private_key_to_public_key a = Ok pa → from_private_key_to_public_key b = Ok pb →
    kem_decapsulate a (kem_public_ref pb) = kem_decapsulate b (kem_public_ref pa);
  dh_defined : ∀ a pa b pb,
    from_private_key_to_public_key a = Ok pa → from_private_key_to_public_key b = Ok pb →
    ∃ z, kem_decapsulate a (kem_public_ref pb) = Ok z;

  hkdf_ok : ∀ salt ikm info l, 0 ≤ l ≤ 255 * 32 → ∃ out,
    hkdf_derive_key salt ikm info l = Ok out ∧ len out = l;
  kdf_rk_ok : ∀ rk dh, ∃ rk' ck, kdf_rk rk dh = Ok (rk', ck) ∧
    len (aead_ref rk') = 32 ∧ len (aead_ref ck) = 32;
  kdf_ck_ok : ∀ ck, ∃ mk ck', kdf_ck ck = Ok (mk, ck') ∧
    len (aead_ref mk) = 32 ∧ len (aead_ref ck') = 32;

  aead_encrypt_ok : ∀ k n p ad, len (aead_ref k) = 32 → len n = 12 → len p ≤ 2 ^ 32 →
    ∃ c, aead_encrypt k n p ad = Ok c;
  aead_decrypt_no_panic : ∀ k n c ad, len (aead_ref k) = 32 → len n = 12 →
    aead_decrypt k n c ad ≠ Panic;
  aead_roundtrip : ∀ k n p ad c,
    aead_encrypt k n p ad = Ok c → aead_decrypt k n c ad = Ok p;

  generate_nonce_ok : ∀ l w, 0 ≤ l → ∃ w' n, generate_nonce l w = (w', Ok n) ∧ len n = l;
}.
