(* ===== verification/Wp.v ===== *)
(** * Reasoning about methods

    A weakest precondition for the state-and-error methods of [Prelude.v] and
    [Platform.v]. [wp ϕ m s Q R] says that from state [s] the method [m]
    returns [Ok a] in a state that satisfies [Q a], or fails with [e] in a
    state that satisfies [R e]; [ϕ] is what a panic is worth, [False] when the
    absence of panics is part of the claim and [True] when it is not. *)

From S2P Require Import Prelude Platform.

Definition wp {S E A} (ϕ : Prop) (m : stm S E A) (s : S)
    (Q : A → S → Prop) (R : E → S → Prop) : Prop :=
  match m s with
  | (s', Ok a) => Q a s'
  | (s', Err e) => R e s'
  | (_, Panic) => ϕ
  end.

Section wp.
Context {S E : Type} (ϕ : Prop).
Implicit Types (s : S).

Lemma wp_mono {A} (m : stm S E A) s Q Q' R R' :
  wp ϕ m s Q R → (∀ a s', Q a s' → Q' a s') → (∀ e s', R e s' → R' e s') → wp ϕ m s Q' R'.
Proof. unfold wp. destruct (m s) as [s' [a|e|]]; naive_solver. Qed.

Lemma wp_weaken_panic {A} (ψ : Prop) (m : stm S E A) s Q R :
  (ϕ → ψ) → wp ϕ m s Q R → wp ψ m s Q R.
Proof. unfold wp. destruct (m s) as [s' [a|e|]]; auto. Qed.

Lemma wp_bind {A B} (f : A → stm S E B) (m : stm S E A) s Q R :
  wp ϕ m s (λ a s', wp ϕ (f a) s' Q R) R → wp ϕ (m ≫= f) s Q R.
Proof. unfold wp, mbind, stm_bind. by destruct (m s) as [s' [a|e|]]. Qed.

Lemma wp_ret {A} (a : A) s Q (R : E → S → Prop) : Q a s → wp ϕ (mret a) s Q R.
Proof. done. Qed.

Lemma wp_throw {A} e s (Q : A → S → Prop) (R : E → S → Prop) : R e s → wp ϕ (throw e) s Q R.
Proof. done. Qed.

Lemma wp_lift {A} (r : res E A) s Q R :
  match r with Ok a => Q a s | Err e => R e s | Panic => ϕ end → wp ϕ (lift r) s Q R.
Proof. unfold wp, lift. by destruct r. Qed.

Lemma wp_lift_cases {A} (r : res E A) s Q R :
  (∀ a, r = Ok a → Q a s) → (∀ e, r = Err e → R e s) → (r = Panic → ϕ) → wp ϕ (lift r) s Q R.
Proof. unfold wp, lift. destruct r; auto. Qed.

Lemma wp_map_err_m {E' A} (f : E' → E) (m : stm S E' A) s Q R :
  wp ϕ m s Q (λ e s', R (f e) s') → wp ϕ (map_err_m f m) s Q R.
Proof. unfold wp, map_err_m. by destruct (m s) as [s' [a|e|]]. Qed.

Lemma wp_attempt {E' A} (m : stm S E' A) s Q (R : E → S → Prop) :
  wp ϕ m s (λ a s', Q (Ok a) s') (λ e s', Q (Err e) s') → wp ϕ (attempt m) s Q R.
Proof. unfold wp, attempt. by destruct (m s) as [s' [a|e|]]. Qed.
End wp.

Section wp_methods.
Context `{Platform} {S E : Type} (ϕ : Prop).
Implicit Types (s : S) (w : World).

Lemma wp_self s w Q (R : E → S * World → Prop) : Q s (s, w) → wp ϕ self (s, w) Q R.
Proof. done. Qed.

Lemma wp_update f s w Q (R : E → S * World → Prop) : Q tt (f s, w) → wp ϕ (update f) (s, w) Q R.
Proof. done. Qed.

Lemma wp_now s w Q (R : E → S * World → Prop) :
  (∀ w', clock w = (w', (clock w).2) → Q (clock w).2 (s, w')) → wp ϕ now (s, w) Q R.
Proof. unfold wp, now. simpl. destruct (clock w) as [w' t]. eauto. Qed.

Lemma wp_on_world {A} (m : stm World E A) s w Q R :
  wp ϕ m w (λ a w', Q a (s, w')) (λ e w', R e (s, w')) → wp ϕ (on_world m) (s, w) Q R.
Proof. unfold wp, on_world. simpl. by destruct (m w) as [w' [a|e|]]. Qed.

Lemma wp_restore_on_err {A} (h : S → S) (m : method S E A) sw Q R :
  wp ϕ m sw Q (λ e sw', R e (h sw'.1, sw'.2)) → wp ϕ (restore_on_err h m) sw Q R.
Proof. unfold wp, restore_on_err, on_err. by destruct (m sw) as [s' [a|e|]]. Qed.

Lemma wp_read_clock w Q (R : E → World → Prop) :
  (∀ w', clock w = (w', (clock w).2) → Q (clock w).2 w') → wp ϕ read_clock w Q R.
Proof. unfold wp, read_clock. destruct (clock w) as [w' t]. eauto. Qed.
End wp_methods.

(** [map_err] on a pure outcome, by cases of the outcome. *)
Lemma map_err_ok {E E' A} (f : E → E') (r : res E A) a : map_err f r = Ok a → r = Ok a.
Proof. by destruct r; intros [=->]. Qed.
Lemma map_err_panic {E E' A} (f : E → E') (r : res E A) : map_err f r = Panic → r = Panic.
Proof. by destruct r. Qed.
Lemma ok_or_ok {E A} (o : option A) (e : E) a : ok_or o e = Ok a → o = Some a.
Proof. by destruct o; intros [=->]. Qed.
Lemma ok_or_no_panic {E A} (o : option A) (e : E) : ok_or o e ≠ Panic.
Proof. by destruct o. Qed.

(** One step of symbolic execution. [wp_step] stops at a call the rules below
    do not know; the caller applies that method's own specification. *)
Ltac wp_step :=
  cbv beta match;
  lazymatch goal with
  | |- wp _ (mbind _ _) _ _ _ => apply wp_bind
  | |- wp _ (mret _) _ _ _ => apply wp_ret
  | |- wp _ (throw _) _ _ _ => apply wp_throw
  | |- wp _ self _ _ _ => apply wp_self
  | |- wp _ (update _) _ _ _ => apply wp_update
  | |- wp _ now _ _ _ => apply wp_now; let w := fresh "w" in intros w _
  | |- wp _ (map_err_m _ _) _ _ _ => apply wp_map_err_m
  | |- wp _ (on_world _) _ _ _ => apply wp_on_world
  | |- wp _ (attempt _) _ _ _ => apply wp_attempt
  | |- wp _ (restore_on_err _ _) _ _ _ => apply wp_restore_on_err
  | |- wp _ (if ?b then _ else _) _ _ _ => destruct b eqn:?
  | |- wp _ (match ?o with Some _ => _ | None => _ end) _ _ _ => destruct o eqn:?
  | |- wp _ (match ?o with Ok _ => _ | Err _ => _ | Panic => _ end) _ _ _ => destruct o eqn:?
  | |- wp _ (let '(_, _) := ?p in _) _ _ _ => destruct p eqn:?
  end.
Ltac wp_steps := repeat wp_step.

(** Name the object's state in a goal about a method. *)
Ltac name_state x :=
  match goal with |- wp _ _ (?s, _) _ _ => set (x := s) in * end.

(** ** The calls into the provider and the crates *)

Section calls.
Context `{MlKemCrate} `{!CryptoProvider} `{!MlKemLaws} `{!ProviderLaws} (ϕ : Prop).

Lemma wp_keygen w Q (R : MlKemError → World → Prop) :
  (∀ w' pk sk, len pk = MLKEM768_PK_SIZE → len sk = MLKEM768_SK_SIZE →
     Q (mkMLKEMKeyPair pk sk) w') → wp ϕ mlkem768_keygen w Q R.
Proof.
  intros HQ. unfold wp, mlkem768_keygen. destruct (mlkem_generate w) as [w1 [pk sk]] eqn:Hg.
  apply (f_equal snd) in Hg. apply mlkem_generate_sizes in Hg as [Hpk Hsk]. by apply HQ.
Qed.

Lemma wp_encapsulate pk w Q (R : MlKemError → World → Prop) :
  (∀ w' ct ss, len ct = MLKEM768_CT_SIZE → Q (mkMLKEMEncapsulation ct ss) w') →
  (∀ e, R e w) → wp ϕ (mlkem768_encapsulate pk) w Q R.
Proof.
  intros HQ HR. unfold mlkem768_encapsulate. wp_step; [by apply wp_throw|].
  wp_step; [by apply wp_throw|]. unfold wp. pose proof (mlkem_ct_size pk w) as Hct.
  destruct (mlkem_encapsulate pk w) as [w1 [ct ss]]. by apply HQ.
Qed.

Lemma wp_generate_kem_keys w Q (R : CryptoError → World → Prop) :
  (∀ w' sk pk, from_private_key_to_public_key sk = Ok pk → Q (sk, pk) w') →
  wp ϕ generate_kem_keys w Q R.
Proof.
  intros HQ. unfold wp. destruct (generate_kem_keys_ok w) as (w' & sk & pk & -> & Hp). by apply HQ.
Qed.

Lemma wp_generate_nonce l w Q (R : CryptoError → World → Prop) :
  0 ≤ l → (∀ w' n, len n = l → Q n w') → wp ϕ (generate_nonce l) w Q R.
Proof.
  intros Hl HQ. unfold wp. destruct (generate_nonce_ok l w Hl) as (w' & n & -> & Hn). by apply HQ.
Qed.
End calls.
