(* ===== verification/Classic.v ===== *)
(** * The classic suite

    Models [ClassicSuiteProvider] of [src/src/crypto/suites/classic.rs] as an
    instance of the provider trait, over the crates it calls
    ([x25519_dalek], [ed25519_dalek], [chacha20poly1305], [hkdf]), and shows
    that it satisfies [ProviderLaws] once those crates do what they document.
    [Toy] instantiates every crate by a small concrete function, so that the
    theorems of the other files can be evaluated. *)

From S2P Require Import Prelude SuiteId Platform.

Class ClassicCrates := {
  (** [PublicKey::from(&StaticSecret::from(sk))], of a 32-byte array. *)
  x25519_public : bytes → bytes;
  (** [StaticSecret::from(sk).diffie_hellman(&PublicKey::from(pk))] *)
  x25519_dh : bytes → bytes → bytes;
  (** [SharedSecret::was_contributory] *)
  was_contributory : bytes → bool;
  (** [SigningKey::from_bytes(seed).verifying_key()] *)
  ed25519_public : bytes → bytes;
  ed25519_sign : bytes → bytes → bytes;
  (** [VerifyingKey::from_bytes]: is it a point? *)
  ed25519_key_valid : bytes → bool;
  ed25519_verify : bytes → bytes → bytes → bool;
  (** [ChaCha20Poly1305::new(key).encrypt(nonce, msg, aad)] *)
  chacha_encrypt : bytes → bytes → bytes → bytes → option bytes;
  chacha_decrypt : bytes → bytes → bytes → bytes → option bytes;
  (** [Hkdf::<Sha256>::new(Some(salt), ikm).expand(info, out)] *)
  hkdf_sha256 : bytes → bytes → bytes → Z → option bytes;
}.

Class ClassicCratesLaws `{ClassicCrates} : Prop := {
  x25519_public_len : ∀ sk, len (x25519_public sk) = 32;
  x25519_commutes : ∀ a b, x25519_dh a (x25519_public b) = x25519_dh b (x25519_public a);
  (** a public key derived from a clamped scalar is no point of low order *)
  x25519_contributory : ∀ a b, was_contributory (x25519_dh a (x25519_public b)) = true;
  hkdf_sha256_ok : ∀ salt ikm info l, 0 ≤ l ≤ 255 * 32 →
    ∃ out, hkdf_sha256 salt ikm info l = Some out ∧ len out = l;
  chacha_encrypt_ok : ∀ k n p ad, len p ≤ 2 ^ 32 → is_Some (chacha_encrypt k n p ad);
  (** the tag is 16 bytes *)
  chacha_len : ∀ k n p ad c, chacha_encrypt k n p ad = Some c → len c = len p + 16;
  chacha_roundtrip : ∀ k n p ad c,
    chacha_encrypt k n p ad = Some c → chacha_decrypt k n c ad = Some p;
}.

Section classic.
Context `{Platform} `{ClassicCrates}.

(** [bytes.try_into::<\[u8; n\]>()] with the source's message. *)
Definition try_array (n : Z) (msg : string) (b : bytes) : res CryptoError bytes :=
  if len b =? n then Ok b else Err (InvalidInputError msg).

(** [GenericArray::from_slice]: panics on another length. *)
Definition from_slice (n : Z) (b : bytes) : res CryptoError bytes :=
  if len b =? n then Ok b else Panic.

Definition classic_generate_kem_keys : stm World CryptoError (bytes * bytes) := λ w,
  let (w, private_key) := os_rng 32 w in
  (w, Ok (private_key, x25519_public private_key)).

Definition classic_private_to_public (private_key : bytes) : res CryptoError bytes :=
  b ← try_array 32 "Invalid KEM private key length" private_key;
  Ok (x25519_public b).

Definition classic_generate_signature_keys : stm World CryptoError (bytes * bytes) := λ w,
  let (w, seed) := os_rng 32 w in
  (w, Ok (seed, ed25519_public seed)).

Definition classic_signature_private_to_public (private_key : bytes) : res CryptoError bytes :=
  b ← try_array 32 "Invalid signing key length" private_key;
  Ok (ed25519_public b).

Definition classic_sign (private_key message : bytes) : res CryptoError bytes :=
  b ← try_array 32 "Invalid signing key length" private_key;
  Ok (ed25519_sign b message).

Definition classic_verify (public_key message signature : bytes) : res CryptoError unit :=
  vk ← try_array 32 "Invalid verifying key length" public_key;
  if negb (ed25519_key_valid vk) then Err (InvalidInputError "Invalid verifying key") else
  sig ← try_array 64 "Invalid signature length" signature;
  if ed25519_verify vk message sig then Ok tt
  else Err (SignatureVerificationError "signature error").

Definition classic_kem_encapsulate (public_key : bytes)
    : stm World CryptoError (bytes * bytes) := λ w,
  let (w, ephemeral_secret) := os_rng 32 w in
  (w,
   pk ← try_array 32 "Invalid KEM public key length" public_key;
   let shared_secret := x25519_dh ephemeral_secret pk in
   if negb (was_contributory shared_secret)
   then Err (InvalidInputError "X25519 peer key is of low order")
   else Ok (x25519_public ephemeral_secret, shared_secret)).

Definition classic_kem_decapsulate (private_key ciphertext : bytes) : res CryptoError bytes :=
  sk ← try_array 32 "Invalid KEM private key length" private_key;
  ct ← try_array 32 "Invalid KEM ciphertext length" ciphertext;
  let shared_secret := x25519_dh sk ct in
  if negb (was_contributory shared_secret)
  then Err (InvalidInputError "X25519 peer key is of low order")
  else Ok shared_secret.

Definition classic_aead_encrypt (key nonce plaintext : bytes) (ad : option bytes)
    : res CryptoError bytes :=
  key ← from_slice 32 key;
  nonce ← from_slice 12 nonce;
  ok_or (chacha_encrypt key nonce plaintext (default [] ad)) (AeadEncryptionError "aead::Error").

Definition classic_aead_decrypt (key nonce ciphertext : bytes) (ad : option bytes)
    : res CryptoError bytes :=
  key ← from_slice 32 key;
  nonce ← from_slice 12 nonce;
  ok_or (chacha_decrypt key nonce ciphertext (default [] ad)) (AeadDecryptionError "aead::Error").

Definition classic_hkdf_derive_key (salt ikm info : bytes) (l : Z) : res CryptoError bytes :=
  ok_or (hkdf_sha256 salt ikm info l) (KeyDerivationError "InvalidLength").

(** Both KDFs expand 64 bytes and split them in two keys. *)
Definition classic_kdf_rk (root_key dh_output : bytes) : res CryptoError (bytes * bytes) :=
  output ← ok_or (hkdf_sha256 root_key dh_output (as_bytes "Double-Ratchet-Root-Key-Expansion") 64)
                 (KeyDerivationError "InvalidLength");
  new_root_key ← slice 0 32 output;
  chain_key ← slice_from 32 output;
  Ok (new_root_key, chain_key).

Definition classic_kdf_ck (chain_key : bytes) : res CryptoError (bytes * bytes) :=
  output ← ok_or (hkdf_sha256 chain_key [] (as_bytes "Double-Ratchet-Chain-Key-Expansion") 64)
                 (KeyDerivationError "InvalidLength");
  message_key ← slice 0 32 output;
  next_chain ← slice_from 32 output;
  Ok (message_key, next_chain).

Definition classic_generate_nonce (l : Z) : stm World CryptoError bytes := λ w,
  let (w, n) := os_rng l w in (w, Ok n).

#[global] Instance ClassicSuiteProvider : CryptoProvider := {|
  KemPublicKey := bytes;
  KemPrivateKey := bytes;
  SignaturePublicKey := bytes;
  SignaturePrivateKey := bytes;
  AeadKey := bytes;
  kem_public_ref := id;
  kem_private_ref := id;
  signature_public_ref := id;
  signature_private_ref := id;
  aead_ref := id;
  aead_default := [];
  generate_kem_keys := classic_generate_kem_keys;
  from_private_key_to_public_key := classic_private_to_public;
  kem_public_key_from_bytes := id;
  kem_private_key_from_bytes := id;
  aead_key_from_bytes := id;
  signature_public_key_from_bytes := id;
  signature_private_key_from_bytes := id;
  generate_signature_keys := classic_generate_signature_keys;
  from_signature_private_to_public := classic_signature_private_to_public;
  sign := classic_sign;
  verify := classic_verify;
  kem_encapsulate := classic_kem_encapsulate;
  kem_decapsulate := classic_kem_decapsulate;
  aead_encrypt := classic_aead_encrypt;
  aead_decrypt := classic_aead_decrypt;
  hkdf_derive_key := classic_hkdf_derive_key;
  kdf_rk := classic_kdf_rk;
  kdf_ck := classic_kdf_ck;
  generate_nonce := classic_generate_nonce;
  provider_suite_id := as_u16 CLASSIC;
|}.
End classic.

(** ** The laws *)

Lemma split_64 {E} (out : bytes) : len out = 64 → ∃ a b,
  @slice E _ 0 32 out = Ok a ∧ @slice_from E _ 32 out = Ok b ∧ len a = 32 ∧ len b = 32.
Proof.
  intros Hl. destruct (slice_total (E := E) 0 32 out) as (a & Ha & La); [lia..|].
  destruct (slice_total (E := E) 32 (len out) out) as (b & Hb & Lb); [lia..|].
  exists a, b. unfold slice_from. repeat split; [done..|lia|lia].
Qed.

Section laws.
Context `{PL : PlatformLaws} `{CL : ClassicCratesLaws}.

Lemma classic_kdf_ok salt ikm info : ∃ a b,
  (output ← ok_or (hkdf_sha256 salt ikm info 64) (KeyDerivationError "InvalidLength");
   x ← slice 0 32 output; y ← slice_from 32 output; Ok (x, y)) = Ok (a, b) ∧
  len a = 32 ∧ len b = 32.
Proof.
  destruct (hkdf_sha256_ok salt ikm info 64) as (out & -> & Hl); [lia|].
  destruct (split_64 (E := CryptoError) out Hl) as (a & b & Ha & Hb & La & Lb).
  exists a, b. simpl. rewrite Ha. simpl. rewrite Hb. done.
Qed.

Lemma classic_dh_commutes a pa b pb :
  classic_private_to_public a = Ok pa → classic_private_to_public b = Ok pb →
  classic_kem_decapsulate a pb = classic_kem_decapsulate b pa.
Proof.
  unfold classic_private_to_public, classic_kem_decapsulate, try_array.
  destruct (len a =? 32) eqn:Ea; [|done]. destruct (len b =? 32) eqn:Eb; [|done].
  intros [= <-] [= <-]. simpl. rewrite !x25519_public_len. simpl.
  by rewrite x25519_commutes.
Qed.

Lemma classic_dh_defined a pa b pb :
  classic_private_to_public a = Ok pa → classic_private_to_public b = Ok pb →
  ∃ z, classic_kem_decapsulate a pb = Ok z.
Proof.
  unfold classic_private_to_public, classic_kem_decapsulate, try_array.
  destruct (len a =? 32) eqn:Ea; [|done]. destruct (len b =? 32) eqn:Eb; [|done].
  intros [= <-] [= <-]. simpl. rewrite !x25519_public_len. simpl.
  rewrite x25519_contributory. by eexists.
Qed.

#[global] Instance classic_provider_laws : ProviderLaws.
Proof.
  split; try done.
  - intros w. unfold generate_kem_keys; simpl. unfold classic_generate_kem_keys.
    destruct (os_rng 32 w) as [w' sk] eqn:E. eexists _, _, _. split; [done|].
    assert (len sk = 32) as Hl. { pose proof (os_rng_len 32 w) as Hr. rewrite E in Hr. by apply Hr. }
    unfold classic_private_to_public, try_array. by rewrite Hl.
  - intros sk pk. simpl. unfold classic_private_to_public, try_array.
    case_match; [|done]. intros [= <-]. apply x25519_public_len.
  - intros sk. simpl. unfold classic_private_to_public, try_array. by case_match.
  - intros sk ct. simpl. unfold classic_kem_decapsulate, try_array.
    destruct (len sk =? 32); [|done]. simpl. destruct (len ct =? 32); [|done]. simpl. by case_match.
  - intros. by apply classic_dh_commutes.
  - intros a pa b pb Ha Hb. exact (classic_dh_defined a pa b pb Ha Hb).
  - intros salt ikm info l Hl. simpl. unfold classic_hkdf_derive_key.
    destruct (hkdf_sha256_ok salt ikm info l Hl) as (out & -> & ?). by exists out.
  - intros. apply classic_kdf_ok.
  - intros. apply classic_kdf_ok.
  - intros k n p ad Hk Hn Hp. change (len k = 32) in Hk.
    simpl. unfold classic_aead_encrypt, from_slice.
    rewrite Hk, Hn. simpl. destruct (chacha_encrypt_ok k n p (default [] ad) Hp) as [c ->]. by exists c.
  - intros k n c ad Hk Hn. change (len k = 32) in Hk.
    simpl. unfold classic_aead_decrypt, from_slice.
    rewrite Hk, Hn. simpl. by destruct (chacha_decrypt _ _ _ _).
  - intros k n p ad c. simpl. unfold classic_aead_encrypt, classic_aead_decrypt.
    destruct (from_slice 32 k) as [k'| |]; [|done..]. simpl.
    destruct (from_slice 12 n) as [n'| |]; [|done..]. simpl.
    destruct (chacha_encrypt _ _ _ _) as [c'|] eqn:E; [|done]. simpl. intros [= <-].
    by rewrite (chacha_roundtrip _ _ _ _ _ E).
  - intros l w Hl. simpl. unfold classic_generate_nonce.
    destruct (os_rng l w) as [w' n] eqn:E. eexists _, _. split; [done|].
    pose proof (os_rng_len l w Hl) as Hr. by rewrite E in Hr.
Qed.
End laws.
