(* ===== verification/Toy.v ===== *)
(** * Concrete crates

    Small functions that satisfy the laws [Platform.v] and [Classic.v] ask of
    the platform and of the crates. They are no cryptography; they exist so
    that every theorem with such laws among its hypotheses can be applied to
    a run that evaluates. *)

From S2P Require Import Prelude Platform Classic.

(** The world is a counter, which the clock reads, and what the generator fills
    with. *)
Definition toy_clocked (time : Z → Z) : Platform := {|
  World := Z;
  clock w := (w + 1, time w);
  os_rng n w := (w + 1, replicate (Z.to_nat n) (byte_of_Z w));
|}.
(** A clock that stays within six days or so. *)
#[global] Instance toy_platform : Platform := toy_clocked (λ w, w `mod` 2 ^ 19).

Definition toy_world (w : Z) : World := w.

#[global] Instance toy_platform_laws : PlatformLaws.
Proof.
  split.
  - intros w. simpl. unfold is_u64, u64_max. pose proof (Z.mod_pos_bound w (2 ^ 19)). lia.
  - intros n w Hn. simpl. unfold len. rewrite length_replicate. lia.
Qed.

(** ** Hex *)

Definition hex_digit (n : N) : Ascii.ascii :=
  Ascii.ascii_of_N (if (n <? 10)%N then 48 + n else 87 + n).
Definition hex_value (a : Ascii.ascii) : option N :=
  let n := Ascii.N_of_ascii a in
  if ((48 <=? n) && (n <=? 57))%N then Some (n - 48)%N
  else if ((97 <=? n) && (n <=? 102))%N then Some (n - 87)%N else None.

Fixpoint toy_hex_encode (b : bytes) : string :=
  match b with
  | [] => EmptyString
  | x :: b =>
      String (hex_digit (Byte.to_N x / 16)) (String (hex_digit (Byte.to_N x mod 16))
        (toy_hex_encode b))
  end.

Fixpoint toy_hex_decode (s : string) : option bytes :=
  match s with
  | EmptyString => Some []
  | String h (String l s) =>
      h ← hex_value h; l ← hex_value l; x ← Byte.of_N (16 * h + l);
      r ← toy_hex_decode s; Some (x :: r)
  | _ => None
  end.

#[global] Instance toy_hex : HexCrate :=
  {| hex_encode := toy_hex_encode; hex_decode := toy_hex_decode |}.

#[global] Instance toy_hex_laws : HexLaws.
Proof.
  split. intros b. induction b as [|x b IH]; [done|].
  simpl in *. rewrite IH. by destruct x.
Qed.

(** ** ML-KEM *)

Definition toy_secret (ek ct : bytes) : bytes :=
  replicate 32 (byte_of_Z (byte_to_Z (default inhabitant (head ek))
                           + byte_to_Z (default inhabitant (head ct)))).

Section mlkem.
Variable time : Z → Z.
#[local] Instance toy_clock : Platform := toy_clocked time.
Definition toy_mlkem_on : @MlKemCrate (toy_clocked time) := {|
  mlkem_generate w :=
    (w + 1, (replicate 1184 (byte_of_Z w), replicate 2400 (byte_of_Z w)));
  mlkem_ek_valid _ := true;
  mlkem_encapsulate ek w :=
    let ct := replicate 1088 (byte_of_Z w) in (w + 1, (ct, toy_secret ek ct));
  mlkem_dk_valid _ := true;
  mlkem_decapsulate_slice dk ct := Some (toy_secret dk ct);
|}.
End mlkem.
#[global] Instance toy_mlkem : MlKemCrate := toy_mlkem_on _.

#[global] Instance toy_mlkem_laws : MlKemLaws.
Proof.
  split.
  - intros w ek dk [<- <-]%pair_eq. by rewrite !len_replicate.
  - intros ek w. cbn [mlkem_encapsulate toy_mlkem toy_mlkem_on fst snd]. by rewrite len_replicate.
  - by intros w w' ek dk [<- <-]%pair_eq.
Qed.

(** ** The classic suite's crates *)

(** The first 32 bytes, filled with zeros. *)
Definition pad32 (b : bytes) : bytes := take 32 (b ++ replicate 32 Byte.x00).

Definition add_bytes (a b : bytes) : bytes :=
  zip_with (λ x y, byte_of_Z (byte_to_Z x + byte_to_Z y)) a b.

(** A checksum that depends on the order of the bytes. *)
Definition digest (seed : Z) (b : bytes) : Z :=
  foldl (λ acc x, (acc * 31 + byte_to_Z x + 7) `mod` 65521) seed b.

Fixpoint toy_stream (n : nat) (seed : Z) : bytes :=
  match n with
  | O => []
  | S n => byte_of_Z seed :: toy_stream n ((seed * 17 + 3) `mod` 65521)
  end.

Definition toy_tag (k n ad : bytes) : byte := byte_of_Z (digest (digest (digest 1 k) n) ad).

#[global] Instance toy_crates : ClassicCrates := {|
  x25519_public sk := pad32 sk;
  x25519_dh a b := add_bytes (pad32 a) (pad32 b);
  was_contributory _ := true;
  ed25519_public sk := pad32 sk;
  ed25519_sign sk m := take 64 (pad32 sk ++ toy_stream 32 (digest 5 m));
  ed25519_key_valid _ := true;
  ed25519_verify pk m sig := bool_decide (sig = take 64 (pk ++ toy_stream 32 (digest 5 m)));
  chacha_encrypt k n p ad := Some (replicate 16 (toy_tag k n ad) ++ p);
  chacha_decrypt k n c ad :=
    if decide (take 16 c = replicate 16 (toy_tag k n ad)) then Some (drop 16 c) else None;
  hkdf_sha256 salt ikm info l :=
    if l <=? 255 * 32
    then Some (toy_stream (Z.to_nat l) (digest (digest (digest 1 salt) ikm) info)) else None;
|}.

Lemma pad32_len b : length (pad32 b) = 32%nat.
Proof. unfold pad32. rewrite length_take, length_app, length_replicate. lia. Qed.

Lemma pad32_idem b : pad32 (pad32 b) = pad32 b.
Proof.
  unfold pad32 at 1. rewrite take_app_le by (rewrite pad32_len; lia).
  apply take_ge. rewrite pad32_len. lia.
Qed.

Lemma add_bytes_comm a b : add_bytes a b = add_bytes b a.
Proof.
  unfold add_bytes. revert b. induction a as [|x a IH]; intros [|y b]; simpl; try done.
  by rewrite IH, Z.add_comm.
Qed.

Lemma toy_stream_len n s : length (toy_stream n s) = n.
Proof. revert s. induction n; intros; simpl; [done|]. by f_equal. Qed.

#[global] Instance toy_crates_laws : ClassicCratesLaws.
Proof.
  split.
  - intros sk. unfold len. simpl. by rewrite pad32_len.
  - intros a b. simpl. by rewrite !pad32_idem, add_bytes_comm.
  - done.
  - intros salt ikm info l Hl. simpl. rewrite (proj2 (Z.leb_le _ _)) by lia.
    eexists. split; [done|]. unfold len. rewrite toy_stream_len. lia.
  - intros. by eexists.
  - intros k n p ad c Hc. cbn [chacha_encrypt toy_crates] in Hc. assert (c = replicate 16 (toy_tag k n ad) ++ p) as -> by congruence.
    by rewrite len_app, len_replicate, Z.add_comm.
  - intros k n p ad c Hc. cbn [chacha_encrypt chacha_decrypt toy_crates] in *.
    assert (c = replicate 16 (toy_tag k n ad) ++ p) as -> by congruence.
    rewrite take_app_length' by done. by rewrite decide_True, drop_app_length' by done.
Qed.
