(* ===== verification/RatchetTypes.v ===== *)
(** * Double ratchet: the data

    Models the types of [src/src/crypto/messaging/double_ratchet/mod.rs]: the
    session and the parts of its post-quantum layer, the encrypted message, the
    snapshot [decrypt] rolls back to, and the associated data of a message
    ([internals.rs], [associated_data]). Zeroization ([Drop], [Zeroize]) has no
    counterpart: the model has no memory a dropped secret could stay in. *)

From S2P Require Import Prelude SuiteId Padding Platform.

Definition AD_VERSION_LEGACY : Z := 3.
Definition AD_VERSION_HEADER : Z := 4.
Definition AD_SEND_DEFAULT : Z := AD_VERSION_LEGACY.
Definition PQ_CHAIN_RETENTION : Z := 2.

(** ** The post-quantum layer *)

Inductive PqRatchetWireField :=
  | PublicKey (epoch : Z) (key : bytes)
  | Ciphertext (epoch : Z) (ek_hash : bytes) (ct : bytes).

#[global] Instance pq_ratchet_wire_field_eq_dec : EqDecision PqRatchetWireField.
Proof. solve_decision. Defined.

(** [ek_hash] is a [\[u8; 8\]], the epochs are [u32]. *)
Definition wf_pq_field (f : PqRatchetWireField) : Prop :=
  match f with
  | PublicKey epoch _ => is_u32 epoch
  | Ciphertext epoch h _ => is_u32 epoch ∧ len h = 8
  end.

Record PqRatchetKeyPair := mkPqRatchetKeyPair { kp_public : bytes; kp_secret : bytes }.

Record PendingPqExchange := mkPendingPqExchange {
  ex_epoch : Z;
  ex_keypair : PqRatchetKeyPair;
}.

Record PqChain := mkPqChain { chain_index : Z; chain_key : bytes }.

Record PqEpochChains := mkPqEpochChains {
  pc_epoch : Z;
  pc_send : option PqChain;
  pc_recv : PqChain;
}.

Record PendingPqCiphertext := mkPendingPqCiphertext {
  ct_epoch : Z;
  ct_ek_hash : bytes;
  ct_ciphertext : bytes;
  ct_chains : PqEpochChains;
}.

#[global] Instance eta_epoch_chains : Eta PqEpochChains :=
  λ c, mkPqEpochChains (pc_epoch c) (pc_send c) (pc_recv c).
#[global] Instance eta_pending_ciphertext : Eta PendingPqCiphertext :=
  λ c, mkPendingPqCiphertext (ct_epoch c) (ct_ek_hash c) (ct_ciphertext c) (ct_chains c).

(** ** The handshake's leftovers *)

Record PrekeyHeader := mkPrekeyHeader {
  ph_one_time_prekey_id : Z;
  ph_kyber_prekey_id : Z;
  ph_kem_ciphertext : bytes;
  ph_kem_identity : bytes;
}.

Inductive IdentityProof :=
  | IpNone
  | IpAwaitingAnswer
  | IpAnswered (ciphertext : bytes).

#[global] Instance identity_proof_eq_dec : EqDecision IdentityProof.
Proof. solve_decision. Defined.

(** ** The message *)

Record EncryptedRatchetMessage := mkMessage {
  em_dh_public_key : bytes;
  em_message_number : Z;
  em_ciphertext : bytes;
  em_nonce : bytes;
  em_previous_chain_length : Z;
  em_suite_id : Z;
  em_pq_message_epoch : Z;
  em_pq_key_index : Z;
  em_pq_ratchet_field : option PqRatchetWireField;
  em_identity_proof_ciphertext : option bytes;
  em_ad_version : Z;
}.

#[global] Instance eta_message : Eta EncryptedRatchetMessage := λ m,
  mkMessage (em_dh_public_key m) (em_message_number m) (em_ciphertext m) (em_nonce m)
    (em_previous_chain_length m) (em_suite_id m) (em_pq_message_epoch m) (em_pq_key_index m)
    (em_pq_ratchet_field m) (em_identity_proof_ciphertext m) (em_ad_version m).

(** What the field types of [EncryptedRatchetMessage] guarantee. *)
Definition wf_message (m : EncryptedRatchetMessage) : Prop :=
  len (em_dh_public_key m) = 32 ∧ is_u32 (em_message_number m) ∧
  is_u32 (em_previous_chain_length m) ∧ is_u16 (em_suite_id m) ∧
  is_u32 (em_pq_message_epoch m) ∧ is_u32 (em_pq_key_index m) ∧
  (∀ f, em_pq_ratchet_field m = Some f → wf_pq_field f) ∧ is_u8 (em_ad_version m).

(** ** Errors

    One constructor per message string of the source, with the values it
    formats. [MESSAGE_KEY_CONSUMED] is a prefix the router looks for. *)

Inductive DrError :=
  | InitiatorSessionId (e : CryptoError)
  | ResponderSessionId (e : CryptoError)
  | DeriveRootKey (e : CryptoError)
  | DerivePublicKey (e : CryptoError)
  | PerformDh (e : CryptoError)
  | KdfRkFailed (e : CryptoError)
  | GenerateDhKeys (e : CryptoError)
  | InvalidSuiteInFirstMessage (n : Z)
  | NoDhPrivateKey
  | DhFailed (e : CryptoError)
  | IdentityAnswerMissing
  | IdentityAlreadyAnswered
  | IdentityRootMix (e : CryptoError)
  | IdentityChainMix (e : CryptoError)
  | PqKeygenFailed (e : MlKemError)
  | PqEpochChainsFailed (e : CryptoError)
  | PqChainStepFailed (e : CryptoError)
  | PqChainIndexOverflow
  | PqNoSendChain (epoch : Z)
  | PqIndexWithoutEpoch (index : Z)
  | PqEpochWithoutChain (epoch current : Z)
  | PqKeyConsumed (epoch index at_ : Z)
  | PqIndexJump (from to limit : Z)
  | TooManySkippedPqKeys
  | PqMessageKeyMix (e : CryptoError)
  | AdDowngrade (peer : Z)
  | UnknownAdVersion (v : Z)
  | SessionIdNotHex (id : string)
  | DecryptionFailed (e : CryptoError)
  | UnpaddingFailed (e : PaddingError)
  | PaddingFailed (e : PaddingError)
  | KdfCkFailed (e : CryptoError)
  | SendingChainOverflow
  | NonceGenerationFailed (e : CryptoError)
  | InvalidPublicKeyLength
  | EncryptionFailed (e : CryptoError)
  | JumpAfterDhStep (n limit : Z)
  | PreviousChainJump (from to limit : Z)
  | MessageJump (from to limit : Z)
  | TooManySkippedMessages
  | ReceivingChainOverflow
  | MessageKeyConsumed (n at_ : Z).

(** [error.starts_with(MESSAGE_KEY_CONSUMED)] *)
Definition is_key_consumed (e : DrError) : bool :=
  match e with
  | PqKeyConsumed _ _ _ | MessageKeyConsumed _ _ => true
  | _ => false
  end.

(** ** The session *)

Section session.
Context `{CryptoProvider}.

Record DoubleRatchetSession := mkSession {
  suite_id : SuiteID;
  root_key : AeadKey;
  sending_chain_key : AeadKey;
  sending_chain_length : Z;
  receiving_chain_key : AeadKey;
  receiving_chain_length : Z;
  dh_ratchet_private : option KemPrivateKey;
  dh_ratchet_public : KemPublicKey;
  remote_dh_public : option KemPublicKey;
  previous_sending_length : Z;
  skipped_message_keys : gmap (bytes * Z) AeadKey;
  skipped_key_timestamps : gmap (bytes * Z) Z;
  prekey_header : option PrekeyHeader;
  pq_handshake : PqHandshake;
  pq_turns_since_mix : Z;
  is_pq_initiator : bool;
  current_pq_epoch : Z;
  pq_chains : list PqEpochChains;
  pq_skipped_keys : gmap (Z * Z) bytes;
  pq_skipped_key_timestamps : gmap (Z * Z) Z;
  pending_pq_exchange : option PendingPqExchange;
  pending_pq_ciphertext : option PendingPqCiphertext;
  pq_pending_since : Z;
  pq_epoch_since : Z;
  session_id : string;
  contact_id : string;
  local_user_id : string;
  last_ratchet_at : Z;
  peer_ad_version : Z;
  pq_authentication : PqAuthentication;
  pq_applied : option bool;
  identity_proof : IdentityProof;
}.

#[global] Instance eta_session : Eta DoubleRatchetSession := λ s,
  mkSession (suite_id s) (root_key s) (sending_chain_key s) (sending_chain_length s)
    (receiving_chain_key s) (receiving_chain_length s) (dh_ratchet_private s)
    (dh_ratchet_public s) (remote_dh_public s) (previous_sending_length s)
    (skipped_message_keys s) (skipped_key_timestamps s) (prekey_header s) (pq_handshake s)
    (pq_turns_since_mix s) (is_pq_initiator s) (current_pq_epoch s) (pq_chains s)
    (pq_skipped_keys s) (pq_skipped_key_timestamps s) (pending_pq_exchange s)
    (pending_pq_ciphertext s) (pq_pending_since s) (pq_epoch_since s) (session_id s)
    (contact_id s) (local_user_id s) (last_ratchet_at s) (peer_ad_version s)
    (pq_authentication s) (pq_applied s) (identity_proof s).

(** What [decrypt] can roll back. *)
Record DecryptSnapshot := mkSnapshot {
  sn_root_key : AeadKey;
  sn_sending_chain_key : AeadKey;
  sn_sending_chain_length : Z;
  sn_receiving_chain_key : AeadKey;
  sn_receiving_chain_length : Z;
  sn_dh_ratchet_private : option KemPrivateKey;
  sn_dh_ratchet_public : KemPublicKey;
  sn_remote_dh_public : option KemPublicKey;
  sn_previous_sending_length : Z;
  sn_skipped_message_keys : gmap (bytes * Z) AeadKey;
  sn_skipped_key_timestamps : gmap (bytes * Z) Z;
  sn_pq_turns_since_mix : Z;
  sn_current_pq_epoch : Z;
  sn_pq_chains : list PqEpochChains;
  sn_pq_skipped_keys : gmap (Z * Z) bytes;
  sn_pq_skipped_key_timestamps : gmap (Z * Z) Z;
  sn_pending_pq_exchange : option PendingPqExchange;
  sn_pending_pq_ciphertext : option PendingPqCiphertext;
  sn_pq_pending_since : Z;
  sn_identity_proof : IdentityProof;
  sn_pq_authentication : PqAuthentication;
}.

(** The value [decrypt_message] builds before it changes anything. *)
Definition take_snapshot (s : DoubleRatchetSession) : DecryptSnapshot := {|
  sn_root_key := root_key s;
  sn_sending_chain_key := sending_chain_key s;
  sn_sending_chain_length := sending_chain_length s;
  sn_receiving_chain_key := receiving_chain_key s;
  sn_receiving_chain_length := receiving_chain_length s;
  sn_dh_ratchet_private := dh_ratchet_private s;
  sn_dh_ratchet_public := dh_ratchet_public s;
  sn_remote_dh_public := remote_dh_public s;
  sn_previous_sending_length := previous_sending_length s;
  sn_skipped_message_keys := skipped_message_keys s;
  sn_skipped_key_timestamps := skipped_key_timestamps s;
  sn_pq_turns_since_mix := pq_turns_since_mix s;
  sn_current_pq_epoch := current_pq_epoch s;
  sn_pq_chains := pq_chains s;
  sn_pq_skipped_keys := pq_skipped_keys s;
  sn_pq_skipped_key_timestamps := pq_skipped_key_timestamps s;
  sn_pending_pq_exchange := pending_pq_exchange s;
  sn_pending_pq_ciphertext := pending_pq_ciphertext s;
  sn_pq_pending_since := pq_pending_since s;
  sn_identity_proof := identity_proof s;
  sn_pq_authentication := pq_authentication s;
|}.

Definition restore_snapshot (n : DecryptSnapshot) (s : DoubleRatchetSession) :=
  s <| root_key := sn_root_key n |>
    <| sending_chain_key := sn_sending_chain_key n |>
    <| sending_chain_length := sn_sending_chain_length n |>
    <| receiving_chain_key := sn_receiving_chain_key n |>
    <| receiving_chain_length := sn_receiving_chain_length n |>
    <| dh_ratchet_private := sn_dh_ratchet_private n |>
    <| dh_ratchet_public := sn_dh_ratchet_public n |>
    <| remote_dh_public := sn_remote_dh_public n |>
    <| previous_sending_length := sn_previous_sending_length n |>
    <| skipped_message_keys := sn_skipped_message_keys n |>
    <| skipped_key_timestamps := sn_skipped_key_timestamps n |>
    <| pq_turns_since_mix := sn_pq_turns_since_mix n |>
    <| current_pq_epoch := sn_current_pq_epoch n |>
    <| pq_chains := sn_pq_chains n |>
    <| pq_skipped_keys := sn_pq_skipped_keys n |>
    <| pq_skipped_key_timestamps := sn_pq_skipped_key_timestamps n |>
    <| pending_pq_exchange := sn_pending_pq_exchange n |>
    <| pending_pq_ciphertext := sn_pending_pq_ciphertext n |>
    <| pq_pending_since := sn_pq_pending_since n |>
    <| identity_proof := sn_identity_proof n |>
    <| pq_authentication := sn_pq_authentication n |>.

Record DrHealthSnapshot := mkHealth {
  hs_messages_sent : Z;
  hs_messages_received : Z;
  hs_skipped_keys_count : Z;
  hs_is_pq_strengthened : bool;
  hs_pq_authentication : PqAuthentication;
  hs_pq_handshake : PqHandshake;
  hs_last_ratchet_at : Z;
  hs_session_id : string;
  hs_pq_epoch : Z;
  hs_pq_oldest_chain_epoch : option Z;
  hs_pq_skipped_keys_count : Z;
}.

Definition health_snapshot (s : DoubleRatchetSession) : DrHealthSnapshot := {|
  hs_messages_sent := sending_chain_length s;
  hs_messages_received := receiving_chain_length s;
  hs_skipped_keys_count := Z.of_nat (size (skipped_message_keys s));
  hs_is_pq_strengthened := default false (pq_applied s);
  hs_pq_authentication := pq_authentication s;
  hs_pq_handshake := pq_handshake s;
  hs_last_ratchet_at := last_ratchet_at s;
  hs_session_id := session_id s;
  hs_pq_epoch := current_pq_epoch s;
  hs_pq_oldest_chain_epoch := pc_epoch <$> head (pq_chains s);
  hs_pq_skipped_keys_count := Z.of_nat (size (pq_skipped_keys s));
|}.
End session.
