(* ===== verification/WirePayload.v ===== *)
(** * The wire payload of an encrypted message

    Models [src/src/wire_payload.rs]: the little-endian framing [pack_message]
    writes and [unpack] reads, with the LEB128 key index of the PQ-ratchet
    section. The PQ-ratchet field it carries is the ratchet's
    [PqRatchetWireField] ([RatchetTypes.v]). *)

From S2P Require Import Prelude SuiteId RatchetTypes.

(** ** Data *)

Definition MSG_NUM_SIZE : Z := 4.
Definition DH_KEY_SIZE : Z := 32.
Definition OTPK_ID_SIZE : Z := 4.
Definition KYBER_OTPK_ID_SIZE : Z := 4.
Definition KEM_LEN_SIZE : Z := 2.
Definition PREV_CHAIN_LEN_SIZE : Z := 4.
Definition SUITE_ID_SIZE : Z := 2.
Definition PQXDH_V2_FLAG : Z := 0x0100.
Definition KEM_IDENTITY_FLAG : Z := 0x0200.
Definition IDENTITY_PROOF_FLAG : Z := 0x0400.
Definition AD_V4_FLAG : Z := 0x0800.
Definition WIRE_FLAGS : Z :=
  Z.lor (Z.lor (Z.lor PQXDH_V2_FLAG KEM_IDENTITY_FLAG) IDENTITY_PROOF_FLAG) AD_V4_FLAG.
Definition KEM_IDENTITY_OBJECT_SIZE : Z := 1568.
Definition HEADER_SIZE : Z :=
  MSG_NUM_SIZE + DH_KEY_SIZE + OTPK_ID_SIZE + KYBER_OTPK_ID_SIZE + KEM_LEN_SIZE
  + PREV_CHAIN_LEN_SIZE + SUITE_ID_SIZE.
Definition PQ_RATCHET_SUITE : Z := as_u16 PQ_RATCHET.

Record DecodedWirePayload := mkDecoded {
  message_number : Z;
  dh_public_key : bytes;
  one_time_prekey_id : Z;
  kyber_otpk_id : Z;
  previous_chain_length : Z;
  suite_id : Z;
  kem_ciphertext : option bytes;
  pqxdh_v2 : bool;
  kem_identity : option bytes;
  identity_proof_ciphertext : option bytes;
  sealed_box : bytes;
  pq_message_epoch : Z;
  pq_key_index : Z;
  pq_ratchet_field : option PqRatchetWireField;
  ad_version : Z;
}.

Inductive WirePayloadError :=
  | InvalidDhPublicKey (n : Z)
  | KemTooLarge (n : Z)
  | PqFieldTooLarge (n : Z)
  | InvalidPqFieldType (n : Z)
  | TooShort (n : Z)
  | PqxdhFlagWithoutCiphertext
  | KemIdentityWithoutHandshake
  | KemIdentityObjectSize (n : Z)
  | RetiredSuite (n : Z)
  | PqKeyIndexWithoutEpoch (n : Z)
  | NonCanonicalKeyIndex.

(** ** LEB128 *)

(** [loop { byte = value & 0x7f; value >>= 7; ... }]. A [u32] has at most
    five groups of seven bits, so five rounds suffice ([write_leb128_enough]). *)
Fixpoint write_leb128_loop (rounds : nat) (value : Z) : bytes :=
  match rounds with
  | O => []
  | S rounds =>
      let byte := Z.land value 0x7f in
      let value := Z.shiftr value 7 in
      if value =? 0 then [byte_of_Z byte]
      else byte_of_Z (Z.lor byte 0x80) :: write_leb128_loop rounds value
  end.

Definition write_leb128 (value : Z) : bytes := write_leb128_loop 5 value.

(** [a << k] on [u32]. *)
Definition u32_shl (a k : Z) : Z := Z.shiftl a k `mod` 2 ^ 32.

(** [for i in 0..5]: [n] rounds are left, [i] is the round. *)
Fixpoint read_leb128_loop (n : nat) (i value : Z) (data : bytes) (cursor : Z)
    : res WirePayloadError (Z * Z) :=
  match n with
  | O => Err NonCanonicalKeyIndex
  | S n =>
      match get_at (cursor + i) data with
      | None => Err (TooShort (len data))
      | Some byte =>
          let byte := byte_to_Z byte in
          let group := Z.land byte 0x7f in
          if (i =? 4) && (group >? 0x0f) then Err NonCanonicalKeyIndex else
          let value := Z.lor value (u32_shl group (7 * i)) in
          if Z.land byte 0x80 =? 0 then
            if (i >? 0) && (byte =? 0) then Err NonCanonicalKeyIndex
            else Ok (value, cursor + (i + 1))
          else read_leb128_loop n (i + 1) value data cursor
      end
  end.

(** The value read and the cursor moved past it. *)
Definition read_leb128 (data : bytes) (cursor : Z) : res WirePayloadError (Z * Z) :=
  read_leb128_loop 5 0 0 data cursor.

(** ** pack *)

(** [for object in [kem_identity, identity_proof_ct].into_iter().flatten()],
    the size check. *)
Fixpoint check_identity_objects (objects : list bytes) : res WirePayloadError unit :=
  match objects with
  | [] => Ok tt
  | object :: objects =>
      if negb (len object =? KEM_IDENTITY_OBJECT_SIZE)
      then Err (KemIdentityObjectSize (len object))
      else check_identity_objects objects
  end.

(** The same loop when the objects are written. *)
Definition write_identity_objects (objects : list bytes) : bytes :=
  concat ((λ object, le_bytes 2 (len object) ++ object) <$> objects).

Definition u16_not (x : Z) : Z := Z.lxor x u16_max.

(** The flags are derived from what the message carries. *)
Definition wire_suite_id_of (ad_version suite_id kem_len : Z)
    (kem_identity identity_proof_ct : option bytes) : Z :=
  let w := suite_id in
  let w := if ad_version >=? AD_VERSION_HEADER then Z.lor w AD_V4_FLAG else w in
  let w := if kem_len >? 0 then Z.lor w PQXDH_V2_FLAG else w in
  let w := if bool_decide (is_Some kem_identity) then Z.lor w KEM_IDENTITY_FLAG else w in
  if bool_decide (is_Some identity_proof_ct) then Z.lor w IDENTITY_PROOF_FLAG else w.

(** The PQ-ratchet section of a suite-4 message. *)
Definition pack_pq_section (pq_message_epoch pq_key_index : Z)
    (pq_ratchet_field : option PqRatchetWireField) : res WirePayloadError bytes :=
  let b := le_bytes 4 pq_message_epoch ++ write_leb128 pq_key_index in
  match pq_ratchet_field with
  | None => Ok (b ++ [byte_of_Z 0])
  | Some (PublicKey epoch key) =>
      if len key >? u16_max then Err (PqFieldTooLarge (len key)) else
      Ok (b ++ [byte_of_Z 1] ++ le_bytes 4 epoch ++ le_bytes 2 (len key) ++ key)
  | Some (Ciphertext epoch ek_hash ct) =>
      if len ct >? u16_max then Err (PqFieldTooLarge (len ct)) else
      Ok (b ++ [byte_of_Z 2] ++ le_bytes 4 epoch ++ ek_hash ++ le_bytes 2 (len ct) ++ ct)
  end.

Definition pack_message (ad_version : Z) (dh_public_key : bytes)
    (message_number one_time_prekey_id kyber_otpk_id previous_chain_length suite_id : Z)
    (kem_ciphertext kem_identity identity_proof_ct : option bytes) (sealed_box : bytes)
    (pq_message_epoch pq_key_index : Z) (pq_ratchet_field : option PqRatchetWireField)
    : res WirePayloadError bytes :=
  if negb (len dh_public_key =? DH_KEY_SIZE)
  then Err (InvalidDhPublicKey (len dh_public_key)) else
  let kem_len := from_option len 0 kem_ciphertext in
  if kem_len >? u16_max then Err (KemTooLarge kem_len) else
  if bool_decide (is_Some kem_identity) && (kem_len =? 0)
  then Err KemIdentityWithoutHandshake else
  let objects := omap id [kem_identity; identity_proof_ct] in
  _ ← check_identity_objects objects;
  let suite_id := Z.land suite_id (u16_not WIRE_FLAGS) in
  let wire_suite_id :=
    wire_suite_id_of ad_version suite_id kem_len kem_identity identity_proof_ct in
  pq_bytes ← (if suite_id =? PQ_RATCHET_SUITE
              then pack_pq_section pq_message_epoch pq_key_index pq_ratchet_field
              else Ok []);
  Ok (le_bytes 4 message_number ++ dh_public_key ++ le_bytes 4 one_time_prekey_id
      ++ le_bytes 4 kyber_otpk_id ++ le_bytes 2 kem_len ++ le_bytes 4 previous_chain_length
      ++ le_bytes 2 wire_suite_id ++ default [] kem_ciphertext
      ++ write_identity_objects objects ++ pq_bytes ++ sealed_box).

(** The legacy-AD shorthand. *)
Definition pack (dh_public_key : bytes)
    (message_number one_time_prekey_id kyber_otpk_id previous_chain_length suite_id : Z)
    (kem_ciphertext kem_identity identity_proof_ct : option bytes) (sealed_box : bytes)
    (pq_message_epoch pq_key_index : Z) (pq_ratchet_field : option PqRatchetWireField)
    : res WirePayloadError bytes :=
  pack_message AD_VERSION_LEGACY dh_public_key message_number one_time_prekey_id
    kyber_otpk_id previous_chain_length suite_id kem_ciphertext kem_identity
    identity_proof_ct sealed_box pq_message_epoch pq_key_index pq_ratchet_field.

(** ** unpack *)

(** [uN::from_le_bytes(data\[a..b\].try_into().unwrap())] *)
Definition read_le (a b : Z) (data : bytes) : res WirePayloadError Z :=
  x ← slice a b data; Ok (le_val x).

(** The closure [kem_identity_object]: the object, and the cursor it captured
    moved past it. *)
Definition kem_identity_object (data : bytes) (cursor : Z) (present : bool)
    : res WirePayloadError (option bytes * Z) :=
  if negb present then Ok (None, cursor) else
  if len data <? cursor + 2 then Err (TooShort (len data)) else
  l ← read_le cursor (cursor + 2) data;
  if negb (l =? KEM_IDENTITY_OBJECT_SIZE) then Err (KemIdentityObjectSize l) else
  let cursor := cursor + 2 in
  if len data <? cursor + l then Err (TooShort (len data)) else
  object ← slice cursor (cursor + l) data;
  Ok (Some object, cursor + l).

(** [match typ { ... }]: the field, and the cursor past it. *)
Definition unpack_pq_field (data : bytes) (typ : byte) (cursor : Z)
    : res WirePayloadError (option PqRatchetWireField * Z) :=
  match byte_to_Z typ with
  | 0 => Ok (None, cursor)
  | 1 =>
      if len data <? cursor + 6 then Err (TooShort (len data)) else
      epoch ← read_le cursor (cursor + 4) data;
      l ← read_le (cursor + 4) (cursor + 6) data;
      let cursor := cursor + 6 in
      if len data <? cursor + l then Err (TooShort (len data)) else
      key ← slice cursor (cursor + l) data;
      Ok (Some (PublicKey epoch key), cursor + l)
  | 2 =>
      if len data <? cursor + 14 then Err (TooShort (len data)) else
      epoch ← read_le cursor (cursor + 4) data;
      ek_hash ← slice (cursor + 4) (cursor + 12) data;
      l ← read_le (cursor + 12) (cursor + 14) data;
      let cursor := cursor + 14 in
      if len data <? cursor + l then Err (TooShort (len data)) else
      ct ← slice cursor (cursor + l) data;
      Ok (Some (Ciphertext epoch ek_hash ct), cursor + l)
  | other => Err (InvalidPqFieldType other)
  end.

(** The PQ-ratchet section: epoch, index, field, and the cursor past it. *)
Definition unpack_pq_section (data : bytes) (cursor : Z)
    : res WirePayloadError (Z * Z * option PqRatchetWireField * Z) :=
  if len data <? cursor + 4 then Err (TooShort (len data)) else
  pq_message_epoch ← read_le cursor (cursor + 4) data;
  let cursor := cursor + 4 in
  '(pq_key_index, cursor) ← read_leb128 data cursor;
  if (pq_message_epoch =? 0) && negb (pq_key_index =? 0)
  then Err (PqKeyIndexWithoutEpoch pq_key_index) else
  if len data <? cursor + 1 then Err (TooShort (len data)) else
  typ ← index cursor data;
  '(field, cursor) ← unpack_pq_field data typ (cursor + 1);
  Ok (pq_message_epoch, pq_key_index, field, cursor).

Definition unpack (data : bytes) : res WirePayloadError DecodedWirePayload :=
  if len data <=? HEADER_SIZE then Err (TooShort (len data)) else
  message_number ← read_le 0 4 data;
  dh_public_key ← slice MSG_NUM_SIZE (MSG_NUM_SIZE + DH_KEY_SIZE) data;
  let otpk_offset := MSG_NUM_SIZE + DH_KEY_SIZE in
  one_time_prekey_id ← read_le otpk_offset (otpk_offset + OTPK_ID_SIZE) data;
  let kyber_offset := otpk_offset + OTPK_ID_SIZE in
  kyber_otpk_id ← read_le kyber_offset (kyber_offset + KYBER_OTPK_ID_SIZE) data;
  let kem_len_offset := kyber_offset + KYBER_OTPK_ID_SIZE in
  kem_len ← read_le kem_len_offset (kem_len_offset + KEM_LEN_SIZE) data;
  let prev_chain_offset := kem_len_offset + KEM_LEN_SIZE in
  previous_chain_length ←
    read_le prev_chain_offset (prev_chain_offset + PREV_CHAIN_LEN_SIZE) data;
  let suite_id_offset := prev_chain_offset + PREV_CHAIN_LEN_SIZE in
  wire_suite_id ← read_le suite_id_offset (suite_id_offset + SUITE_ID_SIZE) data;
  let pqxdh_v2 := negb (Z.land wire_suite_id PQXDH_V2_FLAG =? 0) in
  let has_kem_identity := negb (Z.land wire_suite_id KEM_IDENTITY_FLAG =? 0) in
  let has_identity_proof := negb (Z.land wire_suite_id IDENTITY_PROOF_FLAG =? 0) in
  let ad_version :=
    if negb (Z.land wire_suite_id AD_V4_FLAG =? 0)
    then AD_VERSION_HEADER else AD_VERSION_LEGACY in
  let suite_id := Z.land wire_suite_id (u16_not WIRE_FLAGS) in
  if pqxdh_v2 && (kem_len =? 0) then Err PqxdhFlagWithoutCiphertext else
  if has_kem_identity && negb pqxdh_v2 then Err KemIdentityWithoutHandshake else
  let sealed_box_start := HEADER_SIZE + kem_len in
  if len data <=? sealed_box_start then Err (TooShort (len data)) else
  kem_ciphertext ← (if kem_len >? 0
                    then x ← slice HEADER_SIZE sealed_box_start data; Ok (Some x)
                    else Ok None);
  let cursor := sealed_box_start in
  '(kem_identity, cursor) ← kem_identity_object data cursor has_kem_identity;
  '(identity_proof_ciphertext, cursor) ← kem_identity_object data cursor has_identity_proof;
  if suite_id =? RETIRED_PQ_RATCHET_V1 then Err (RetiredSuite suite_id) else
  '(pq_message_epoch, pq_key_index, pq_ratchet_field, cursor) ←
    (if suite_id =? PQ_RATCHET_SUITE then unpack_pq_section data cursor
     else Ok (0, 0, None, cursor));
  if len data <=? cursor then Err (TooShort (len data)) else
  sealed_box ← slice_from cursor data;
  Ok {| message_number := message_number;
        dh_public_key := dh_public_key;
        one_time_prekey_id := one_time_prekey_id;
        kyber_otpk_id := kyber_otpk_id;
        previous_chain_length := previous_chain_length;
        suite_id := suite_id;
        kem_ciphertext := kem_ciphertext;
        pqxdh_v2 := pqxdh_v2;
        kem_identity := kem_identity;
        identity_proof_ciphertext := identity_proof_ciphertext;
        sealed_box := sealed_box;
        pq_message_epoch := pq_message_epoch;
        pq_key_index := pq_key_index;
        pq_ratchet_field := pq_ratchet_field;
        ad_version := ad_version |}.

(** ** LEB128: the encoding is a bijection *)

Lemma land_7f v : Z.land v 0x7f = v `mod` 128.
Proof. exact (Z.land_ones v 7 ltac:(lia)). Qed.

Lemma byte_land_80 b :
  (Z.land (byte_to_Z b) 0x80 =? 0) = (byte_to_Z b <? 128).
Proof. by destruct b. Qed.

Lemma lor_shl acc g k :
  0 ≤ k → 0 ≤ acc < 2 ^ k → 0 ≤ g → acc + g * 2 ^ k < 2 ^ 32 →
  Z.lor acc (u32_shl g k) = acc + g * 2 ^ k.
Proof.
  intros Hk Ha Hg Hb. unfold u32_shl.
  assert (0 < 2 ^ k) by (apply Z.pow_pos_nonneg; lia).
  rewrite Z.shiftl_mul_pow2, Z.mod_small by nia.
  symmetry. rewrite <- Z.shiftl_mul_pow2 by done.
  assert (Z.land acc (Z.shiftl g k) = 0) as Hl.
  { apply Z.bits_inj'; intros n Hn. rewrite Z.land_spec, Z.bits_0.
    destruct (Z.lt_ge_cases n k).
    - rewrite Z.shiftl_spec_low by done. apply andb_false_r.
    - destruct (Z.eq_dec acc 0) as [->|]; [by rewrite Z.bits_0|].
      rewrite Z.bits_above_log2; [done|lia|].
      apply Z.lt_le_trans with k; [|done]. apply Z.log2_lt_pow2; lia. }
  by rewrite <- Z.lxor_lor, Z.add_nocarry_lxor.
Qed.

Lemma lor_80 v : 0 ≤ v < 128 → Z.lor v 0x80 = v + 128.
Proof. intros. exact (lor_shl v 1 7 ltac:(lia) ltac:(lia) ltac:(lia) ltac:(lia)). Qed.

Lemma pow7_step i : 0 ≤ i → 2 ^ (7 * (i + 1)) = 128 * 2 ^ (7 * i).
Proof. intros. rewrite Z.mul_add_distr_l, Z.pow_add_r by lia. rewrite Z.mul_comm. done. Qed.

Lemma pow7_pos i : 0 ≤ i → 0 < 2 ^ (7 * i).
Proof. intros. apply Z.pow_pos_nonneg; lia. Qed.

(** The last group of a [u32] has four bits. *)
Lemma last_group g i acc :
  0 ≤ i ≤ 4 → 0 ≤ acc → acc + g * 2 ^ (7 * i) < 2 ^ 32 →
  (i =? 4) && (g >? 15) = false.
Proof.
  intros. destruct (Z.eqb_spec i 4) as [->|]; [|done].
  rewrite Z.gtb_ltb. apply Z.ltb_ge.
  change (2 ^ (7 * 4)) with 268435456 in *. change (2 ^ 32) with 4294967296 in *. lia.
Qed.

Lemma read_write_leb128_loop n i acc v data rest c :
  Z.of_nat n + i = 5 → 0 ≤ i → 0 ≤ acc < 2 ^ (7 * i) → 0 ≤ v →
  acc + v * 2 ^ (7 * i) < 2 ^ 32 → (0 < i → v ≠ 0) →
  view (c + i) data (write_leb128_loop n v ++ rest) →
  read_leb128_loop n i acc data c =
    Ok (acc + v * 2 ^ (7 * i), c + i + len (write_leb128_loop n v)).
Proof.
  revert i acc v. induction n as [|n IH]; intros i acc v Hn Hi Ha Hv Hb Hnz Hview.
  { exfalso. assert (i = 5) as -> by lia.
    change (2 ^ (7 * 5)) with 34359738368 in *. change (2 ^ 32) with 4294967296 in *. lia. }
  pose proof (pow7_pos i Hi). cbn [write_leb128_loop read_leb128_loop] in *.
  rewrite land_7f in *. change (Z.shiftr v 7) with (Z.shiftr v 7) in *.
  rewrite Z.shiftr_div_pow2 in * by lia. change (2 ^ 7) with 128 in *.
  pose proof (Z.mod_pos_bound v 128 ltac:(lia)) as Hm.
  pose proof (Z.div_mod v 128 ltac:(lia)) as Hdm.
  pose proof (Z.div_pos v 128 Hv ltac:(lia)).
  assert (0 ≤ v / 128 * 2 ^ (7 * i)) by nia.
  assert (acc + v mod 128 * 2 ^ (7 * i) < 2 ^ 32) by nia.
  destruct (Z.eqb_spec (v / 128) 0) as [Hd0|Hd0].
  - rewrite (view_get_at _ _ _ _ Hview).
    rewrite byte_land_80. rewrite byte_to_of_Z_small by (unfold is_u8, u8_max; lia).
    rewrite land_7f, (Z.mod_small (v mod 128)) by lia.
    rewrite (last_group _ i acc), lor_shl by (try done; lia).
    rewrite (proj2 (Z.ltb_lt _ _)) by lia.
    assert ((i >? 0) && (v mod 128 =? 0) = false) as ->.
    { destruct (Z.gtb_spec i 0); [|done]. apply Z.eqb_neq. lia. }
    f_equal. f_equal; [nia|]. unfold len. simpl. lia.
  - cbn [app] in Hview. rewrite (view_get_at _ _ _ _ Hview).
    rewrite byte_land_80. rewrite lor_80 in * by lia.
    rewrite byte_to_of_Z_small by (unfold is_u8, u8_max; lia).
    rewrite land_7f, <- Z.add_mod_idemp_r, Z.mod_same, Z.add_0_r, Z.mod_mod by lia.
    rewrite (last_group _ i acc), lor_shl by (try done; lia).
    rewrite (proj2 (Z.ltb_ge _ _)) by lia.
    rewrite (IH (i + 1) _ (v / 128)); try lia.
    + rewrite pow7_step, len_cons by done. f_equal. f_equal; [nia|lia].
    + rewrite pow7_step by done. nia.
    + rewrite pow7_step by done. nia.
    + eapply view_cons; [exact Hview|]. lia.
Qed.

(** The first half: what [write_leb128] wrote, [read_leb128] reads back. *)
Lemma read_write_leb128 v data rest c :
  is_u32 v → view c data (write_leb128 v ++ rest) →
  read_leb128 data c = Ok (v, c + len (write_leb128 v)).
Proof.
  unfold is_u32, u32_max. intros Hv Hview. unfold read_leb128.
  rewrite (read_write_leb128_loop 5 0 0 v data rest c); try done; try lia.
  - f_equal. f_equal; [lia|]. by rewrite Z.add_0_r.
  - by rewrite Z.add_0_r.
Qed.

Lemma read_leb128_loop_inv n i acc data c r v' c' :
  Z.of_nat n + i = 5 → 0 ≤ i → 0 ≤ acc < 2 ^ (7 * i) → view (c + i) data r →
  read_leb128_loop n i acc data c = Ok (v', c') →
  ∃ v r', 0 ≤ v ∧ v' = acc + v * 2 ^ (7 * i) ∧ v' < 2 ^ 32 ∧ (0 < i → v ≠ 0) ∧
    r = write_leb128_loop n v ++ r' ∧ view c' data r'.
Proof.
  revert i acc r. induction n as [|n IH]; intros i acc r Hn Hi Ha Hview Hr; [done|].
  cbn [read_leb128_loop] in Hr. pose proof (pow7_pos i Hi).
  destruct (get_at _ _) as [b|] eqn:Hg; [|done].
  destruct (get_at_view _ _ _ _ Hview Hg) as (r1 & -> & Hview1).
  rewrite byte_land_80, land_7f in Hr. pose proof (byte_to_Z_range b) as Hbr.
  set (bz := byte_to_Z b) in *. pose proof (Z.mod_pos_bound bz 128 ltac:(lia)) as Hgr.
  destruct ((i =? 4) && _) eqn:Hlast; [done|].
  assert (acc + bz mod 128 * 2 ^ (7 * i) < 2 ^ 32) as Hfit.
  { apply andb_false_iff in Hlast. rewrite Z.eqb_neq, Z.gtb_ltb, Z.ltb_ge in Hlast.
    assert (i = 4 ∨ i ≤ 3) as [->|Hi3] by lia.
    - change (2 ^ (7 * 4)) with 268435456 in *. change (2 ^ 32) with 4294967296. lia.
    - assert (2 ^ (7 * i) ≤ 2 ^ 21) by (apply Z.pow_le_mono_r; lia).
      change (2 ^ 21) with 2097152 in *. change (2 ^ 32) with 4294967296. nia. }
  rewrite lor_shl in Hr by (try done; lia).
  destruct (Z.ltb_spec bz 128) as [Hlt|Hge].
  - destruct ((i >? 0) && _) eqn:Hz; [done|]. injection Hr as <- <-.
    rewrite Z.mod_small in * by lia.
    exists bz, r1. split_and!; try done; try lia.
    + cbn [write_leb128_loop]. rewrite Z.shiftr_div_pow2 by lia.
      rewrite Z.div_small, Z.eqb_refl, land_7f, Z.mod_small by lia.
      unfold bz. by rewrite byte_of_to_Z.
    + by replace (c + (i + 1)) with (c + i + 1) by lia.
  - assert (bz mod 128 = bz - 128) as Hmod.
    { rewrite <- (Z.mod_small (bz - 128) 128) by lia.
      rewrite <- (Z.mod_add (bz - 128) 1 128) by lia. f_equal. lia. }
    replace (c + i + 1) with (c + (i + 1)) in Hview1 by lia.
    destruct (IH (i + 1) (acc + bz mod 128 * 2 ^ (7 * i)) r1 ltac:(lia) ltac:(lia)
      ltac:(rewrite pow7_step by done; nia) Hview1 Hr) as (v & r' & Hv & Hv' & Hlt & Hnz & -> & Hview').
    rewrite pow7_step in Hv' by done.
    exists (bz mod 128 + 128 * v), r'. split_and!; try done; try nia.
    cbn [write_leb128_loop]. rewrite Z.shiftr_div_pow2 by lia. change (2 ^ 7) with 128.
    assert ((bz mod 128 + 128 * v) / 128 = v) as ->.
    { rewrite Z.mul_comm, Z.div_add, Z.div_small by lia. lia. }
    rewrite (proj2 (Z.eqb_neq _ _)) by lia. rewrite land_7f.
    assert ((bz mod 128 + 128 * v) mod 128 = bz mod 128) as ->.
    { rewrite Z.mul_comm, Z.mod_add, Z.mod_mod by lia. done. }
    rewrite lor_80 by lia. cbn [app]. f_equal.
    rewrite Hmod. replace (bz - 128 + 128) with bz by lia. unfold bz. by rewrite byte_of_to_Z.
Qed.

(** The second half: nothing else is read, so an index has one encoding. *)
Lemma read_leb128_inv data c r v c' :
  view c data r → read_leb128 data c = Ok (v, c') →
  ∃ r', is_u32 v ∧ r = write_leb128 v ++ r' ∧ view c' data r'.
Proof.
  intros Hview Hr. unfold read_leb128 in Hr.
  destruct (read_leb128_loop_inv 5 0 0 data c r v c') as (w & r' & H1 & H2 & H3 & _ & H4 & H5);
    try done; try lia.
  { by rewrite Z.add_0_r. }
  assert (v = w) as -> by lia. exists r'. split; [|done]. unfold is_u32, u32_max. lia.
Qed.

Lemma read_leb128_loop_no_panic n i acc data c : read_leb128_loop n i acc data c ≠ Panic.
Proof.
  revert i acc. induction n as [|n IH]; intros i acc; [done|].
  cbn [read_leb128_loop]. by repeat case_match.
Qed.

#[global] Opaque write_leb128.

(** ** The suite field and its flags *)

Lemma is_u16_land x : Z.land x u16_max = x → is_u16 x.
Proof.
  change u16_max with (Z.ones 16). rewrite Z.land_ones by lia. intros <-.
  pose proof (Z.mod_pos_bound x (2 ^ 16) ltac:(lia)). unfold is_u16, u16_max. lia.
Qed.

Lemma strip_flags_land s f :
  Z.land (Z.land s (u16_not WIRE_FLAGS)) f = Z.land s (Z.land (u16_not WIRE_FLAGS) f).
Proof. symmetry. apply Z.land_assoc. Qed.

(** Reading the field [wire_suite_id_of] built gives back the suite and what
    each flag stood for. *)
Lemma wire_flags_read ad s kl ki ip :
  let s' := Z.land s (u16_not WIRE_FLAGS) in
  let w := wire_suite_id_of ad s' kl ki ip in
  is_u16 w ∧
  negb (Z.land w PQXDH_V2_FLAG =? 0) = (kl >? 0) ∧
  negb (Z.land w KEM_IDENTITY_FLAG =? 0) = bool_decide (is_Some ki) ∧
  negb (Z.land w IDENTITY_PROOF_FLAG =? 0) = bool_decide (is_Some ip) ∧
  negb (Z.land w AD_V4_FLAG =? 0) = (ad >=? AD_VERSION_HEADER) ∧
  Z.land w (u16_not WIRE_FLAGS) = s'.
Proof.
  intros s' w. unfold w, wire_suite_id_of, s'.
  destruct (ad >=? _), (kl >? 0), (bool_decide (is_Some ki)), (bool_decide (is_Some ip));
  (split_and!; [apply is_u16_land| | | | |]);
  rewrite ?Z.land_lor_distr_l, ?strip_flags_land;
  repeat match goal with
  | |- context [Z.land s (Z.land ?a ?b)] =>
      let c := eval vm_compute in (Z.land a b) in change (Z.land a b) with c
  end; rewrite ?Z.land_0_r, ?Z.lor_0_r; reflexivity.
Qed.

Lemma land_flag w k :
  0 ≤ k → Z.land w (2 ^ k) = if negb (Z.land w (2 ^ k) =? 0) then 2 ^ k else 0.
Proof.
  intros Hk.
  assert (Z.land w (2 ^ k) = if Z.testbit w k then 2 ^ k else 0) as ->.
  { apply Z.bits_inj'. intros n Hn. rewrite Z.land_spec, Z.pow2_bits_eqb by done.
    destruct (Z.eqb_spec k n) as [<-|Hne].
    - rewrite andb_true_r. destruct (Z.testbit w k) eqn:E; [|by rewrite Z.bits_0].
      by rewrite Z.pow2_bits_true.
    - rewrite andb_false_r. destruct (Z.testbit w k); [|by rewrite Z.bits_0].
      by rewrite Z.pow2_bits_false. }
  destruct (Z.testbit w k); [|done].
  rewrite (proj2 (Z.eqb_neq _ _)); [done|]. apply Z.pow_nonzero; lia.
Qed.

(** Conversely a field is determined by the suite and the four flags, so the
    flags cannot be written in a second way. *)
Lemma wire_flags_write w ad kl ki ip :
  is_u16 w →
  (ad >=? AD_VERSION_HEADER) = negb (Z.land w AD_V4_FLAG =? 0) →
  (kl >? 0) = negb (Z.land w PQXDH_V2_FLAG =? 0) →
  bool_decide (is_Some ki) = negb (Z.land w KEM_IDENTITY_FLAG =? 0) →
  bool_decide (is_Some ip) = negb (Z.land w IDENTITY_PROOF_FLAG =? 0) →
  wire_suite_id_of ad (Z.land w (u16_not WIRE_FLAGS)) kl ki ip = w.
Proof.
  intros Hw Ha Hk Hi Hp. unfold wire_suite_id_of. rewrite Ha, Hk, Hi, Hp.
  assert (w = Z.land w (Z.lor (Z.lor (Z.lor (Z.lor (u16_not WIRE_FLAGS) AD_V4_FLAG)
            PQXDH_V2_FLAG) KEM_IDENTITY_FLAG) IDENTITY_PROOF_FLAG)) as Hs.
  { change (Z.lor _ _) with (Z.ones 16). rewrite Z.land_ones by lia.
    symmetry. apply Z.mod_small. unfold is_u16, u16_max in Hw. lia. }
  rewrite !Z.land_lor_distr_r in Hs. etransitivity; [|symmetry; exact Hs]. clear Hs.
  pose proof (land_flag w 8 ltac:(lia)) as H8. pose proof (land_flag w 9 ltac:(lia)) as H9.
  pose proof (land_flag w 10 ltac:(lia)) as H10. pose proof (land_flag w 11 ltac:(lia)) as H11.
  change (2 ^ 8) with PQXDH_V2_FLAG in H8. change (2 ^ 9) with KEM_IDENTITY_FLAG in H9.
  change (2 ^ 10) with IDENTITY_PROOF_FLAG in H10. change (2 ^ 11) with AD_V4_FLAG in H11.
  destruct (negb (Z.land w AD_V4_FLAG =? 0)), (negb (Z.land w PQXDH_V2_FLAG =? 0)),
    (negb (Z.land w KEM_IDENTITY_FLAG =? 0)), (negb (Z.land w IDENTITY_PROOF_FLAG =? 0));
  by rewrite H8, H9, H10, H11, ?Z.lor_0_r.
Qed.

(** ** The sub-parsers on what the writer laid out *)

Lemma read_le_view n z c c' data r :
  view c data (le_bytes n z ++ r) → 0 ≤ z < 256 ^ Z.of_nat n → c' = c + Z.of_nat n →
  read_le c c' data = Ok z.
Proof.
  intros Hv Hz ->. unfold read_le.
  rewrite (view_slice _ _ _ _ _ Hv) by len_lia. simpl. by rewrite le_val_bytes_small.
Qed.

Lemma read_le_next n z c c' data r :
  view c data (le_bytes n z ++ r) → c' = c + Z.of_nat n → view c' data r.
Proof. intros Hv ->. eapply view_next; [exact Hv|]. len_lia. Qed.

Lemma read_le_no_panic a b data : 0 ≤ a ≤ b → b ≤ len data → ∃ z, read_le a b data = Ok z.
Proof.
  intros. unfold read_le. destruct (slice_total (E := WirePayloadError) a b data) as (x & -> & _);
    [done..|]. simpl. eauto.
Qed.

(** What a [Some] object contributes to the layout. *)
Definition object_bytes (o : option bytes) : bytes :=
  match o with Some o => le_bytes 2 (len o) ++ o | None => [] end.

Lemma write_objects_two o1 o2 :
  write_identity_objects (omap id [o1; o2]) = object_bytes o1 ++ object_bytes o2.
Proof.
  destruct o1, o2; unfold write_identity_objects; simpl; by rewrite ?app_nil_r.
Qed.

Lemma check_objects_two o1 o2 :
  check_identity_objects (omap id [o1; o2]) = Ok tt →
  (∀ o, o1 = Some o → len o = KEM_IDENTITY_OBJECT_SIZE) ∧
  (∀ o, o2 = Some o → len o = KEM_IDENTITY_OBJECT_SIZE).
Proof.
  destruct o1, o2; simpl; repeat case_match; intros; split; intros; simplify_eq;
  rewrite ?negb_false_iff, ?Z.eqb_eq in *; done.
Qed.

Lemma kem_identity_object_view o c c' data r :
  (∀ x, o = Some x → len x = KEM_IDENTITY_OBJECT_SIZE) →
  view c data (object_bytes o ++ r) → c' = c + len (object_bytes o) →
  kem_identity_object data c (bool_decide (is_Some o)) = Ok (o, c').
Proof.
  intros Hsz Hv ->. unfold kem_identity_object, object_bytes in *.
  destruct o as [o|].
  - rewrite bool_decide_true by done. simpl negb. specialize (Hsz o eq_refl).
    rewrite <- app_assoc in Hv. pose proof (view_len _ _ _ Hv) as Hl.
    unfold KEM_IDENTITY_OBJECT_SIZE in *. rewrite Hsz in *.
    rewrite (proj2 (Z.ltb_ge _ _)) by len_lia.
    rewrite (read_le_view 2 1568 _ _ _ _ Hv) by (simpl; lia). simpl.
    apply (read_le_next 2 1568 c (c + 2)) in Hv; [|done].
    rewrite (proj2 (Z.ltb_ge _ _)) by len_lia.
    rewrite (view_slice _ _ _ _ _ Hv) by lia. simpl. do 2 f_equal. len_lia.
  - rewrite bool_decide_false by (by intros [? ?]). simpl. by rewrite Z.add_0_r.
Qed.

(** The layout of the PQ-ratchet field: its type byte, then the rest. *)
Definition pq_field_type (f : option PqRatchetWireField) : byte :=
  byte_of_Z (match f with None => 0 | Some (PublicKey _ _) => 1 | Some (Ciphertext _ _ _) => 2 end).
Definition pq_field_body (f : option PqRatchetWireField) : bytes :=
  match f with
  | None => []
  | Some (PublicKey epoch key) => le_bytes 4 epoch ++ le_bytes 2 (len key) ++ key
  | Some (Ciphertext epoch h ct) => le_bytes 4 epoch ++ h ++ le_bytes 2 (len ct) ++ ct
  end.
Definition pq_field_fits (f : option PqRatchetWireField) : Prop :=
  match f with
  | None => True
  | Some (PublicKey _ key) => len key ≤ u16_max
  | Some (Ciphertext _ _ ct) => len ct ≤ u16_max
  end.

Lemma pack_pq_section_spec e i f b :
  pack_pq_section e i f = Ok b ↔
  pq_field_fits f ∧ b = le_bytes 4 e ++ write_leb128 i ++ pq_field_type f :: pq_field_body f.
Proof.
  unfold pack_pq_section. split.
  - repeat case_match; intros; simplify_eq; simpl; rewrite <- ?app_assoc; split; try done; lia.
  - intros [Hf ->]. destruct f as [[ep k|ep h ct]|]; simpl in *.
    + rewrite Z.gtb_ltb, (proj2 (Z.ltb_ge _ _)) by done. by rewrite <- app_assoc.
    + rewrite Z.gtb_ltb, (proj2 (Z.ltb_ge _ _)) by done. by rewrite <- app_assoc.
    + by rewrite <- app_assoc.
Qed.

Lemma unpack_pq_field_view f c c' data r :
  pq_field_fits f → (∀ x, f = Some x → wf_pq_field x) →
  view c data (pq_field_body f ++ r) → c' = c + len (pq_field_body f) →
  unpack_pq_field data (pq_field_type f) c = Ok (f, c').
Proof.
  intros Hfit Hf Hv ->. pose proof (view_len _ _ _ Hv) as Hl.
  unfold unpack_pq_field, pq_field_type.
  destruct f as [[ep k|ep h ct]|]; simpl in *.
  - specialize (Hf _ eq_refl). simpl in Hf. unfold is_u32, u32_max, u16_max in *.
    rewrite <- !app_assoc in Hv. rewrite (proj2 (Z.ltb_ge _ _)) by len_lia.
    rewrite (read_le_view 4 ep _ _ _ _ Hv) by (simpl; lia). simpl.
    apply (read_le_next 4 ep c (c + 4)) in Hv; [|done].
    rewrite (read_le_view 2 (len k) _ _ _ _ Hv) by (simpl; len_lia). simpl.
    apply (read_le_next 2 (len k) _ (c + 6)) in Hv; [|lia].
    rewrite (proj2 (Z.ltb_ge _ _)) by len_lia.
    rewrite (view_slice _ _ _ _ _ Hv) by lia. simpl. do 2 f_equal. len_lia.
  - destruct (Hf _ eq_refl) as [Hep Hh]. unfold is_u32, u32_max, u16_max in *.
    rewrite <- !app_assoc in Hv. rewrite (proj2 (Z.ltb_ge _ _)) by len_lia.
    rewrite (read_le_view 4 ep _ _ _ _ Hv) by (simpl; lia). simpl.
    apply (read_le_next 4 ep c (c + 4)) in Hv; [|done].
    rewrite (view_slice _ _ _ _ _ Hv) by lia. simpl.
    eapply (view_next _ (c + 12)) in Hv; [|lia].
    rewrite (read_le_view 2 (len ct) _ _ _ _ Hv) by (simpl; len_lia). simpl.
    apply (read_le_next 2 (len ct) _ (c + 14)) in Hv; [|lia].
    rewrite (proj2 (Z.ltb_ge _ _)) by len_lia.
    rewrite (view_slice _ _ _ _ _ Hv) by lia. simpl. do 2 f_equal. len_lia.
  - do 2 f_equal. len_lia.
Qed.

Lemma unpack_pq_section_view e i f b c c' data r :
  pack_pq_section e i f = Ok b → is_u32 e → is_u32 i → (e = 0 → i = 0) →
  (∀ x, f = Some x → wf_pq_field x) →
  view c data (b ++ r) → c' = c + len b →
  unpack_pq_section data c = Ok (e, i, f, c').
Proof.
  intros Hp He Hi Hei Hf Hv ->. apply pack_pq_section_spec in Hp as [Hfit ->].
  unfold unpack_pq_section. rewrite <- !app_assoc in Hv.
  pose proof (view_len _ _ _ Hv) as Hl0.
  rewrite (proj2 (Z.ltb_ge _ _)) by len_lia.
  rewrite (read_le_view 4 e _ _ _ _ Hv) by (unfold is_u32, u32_max in *; simpl; lia).
  cbn [mbind res_bind]. apply (read_le_next 4 e c (c + 4)) in Hv; [|done].
  rewrite (read_write_leb128 i _ _ _ ltac:(done) Hv). cbn [mbind res_bind].
  eapply view_next in Hv; [|done].
  assert ((e =? 0) && negb (i =? 0) = false) as ->.
  { destruct (Z.eqb_spec e 0); [|done]. rewrite (proj2 (Z.eqb_eq i 0)) by auto. done. }
  rewrite (proj2 (Z.ltb_ge _ _)) by len_lia. cbn [app] in Hv.
  rewrite (view_index _ _ _ _ Hv). cbn [mbind res_bind].
  eapply view_cons in Hv; [|done].
  rewrite (unpack_pq_field_view f _ _ _ _ Hfit Hf Hv eq_refl).
  cbn [mbind res_bind]. do 2 f_equal. len_lia.
Qed.

(** ** Round trip *)

Ltac unfold_sizes :=
  unfold HEADER_SIZE, MSG_NUM_SIZE, DH_KEY_SIZE, OTPK_ID_SIZE, KYBER_OTPK_ID_SIZE,
    KEM_LEN_SIZE, PREV_CHAIN_LEN_SIZE, SUITE_ID_SIZE in *.

(** The fixed header of a payload, as the seven fields and what follows. *)
Definition header_bytes (mn : Z) (dh : bytes) (otpk kyber kem_len pn w : Z) : bytes :=
  le_bytes 4 mn ++ dh ++ le_bytes 4 otpk ++ le_bytes 4 kyber ++ le_bytes 2 kem_len
  ++ le_bytes 4 pn ++ le_bytes 2 w.

Lemma read_header mn dh otpk kyber kl pn w data r :
  data = header_bytes mn dh otpk kyber kl pn w ++ r →
  len dh = 32 → is_u32 mn → is_u32 otpk → is_u32 kyber → is_u16 kl → is_u32 pn → is_u16 w →
  read_le 0 4 data = Ok mn ∧ slice (E := WirePayloadError) 4 36 data = Ok dh ∧
  read_le 36 40 data = Ok otpk ∧ read_le 40 44 data = Ok kyber ∧ read_le 44 46 data = Ok kl ∧
  read_le 46 50 data = Ok pn ∧ read_le 50 52 data = Ok w ∧ view 52 data r.
Proof.
  intros Hd Hdh. unfold is_u32, is_u16, u32_max, u16_max. intros.
  assert (view 0 data (header_bytes mn dh otpk kyber kl pn w ++ r)) as Hv
    by (rewrite <- Hd; apply view_start).
  unfold header_bytes in Hv. rewrite <- !app_assoc in Hv.
  split; [apply (read_le_view 4 mn _ _ _ _ Hv); simpl; lia|]. apply (read_le_next 4 mn _ 4) in Hv; [|done].
  split; [apply (view_slice _ _ _ _ _ Hv); lia|]. eapply (view_next _ 36) in Hv; [|lia].
  split; [apply (read_le_view 4 otpk _ _ _ _ Hv); simpl; lia|]. apply (read_le_next 4 otpk _ 40) in Hv; [|done].
  split; [apply (read_le_view 4 kyber _ _ _ _ Hv); simpl; lia|]. apply (read_le_next 4 kyber _ 44) in Hv; [|done].
  split; [apply (read_le_view 2 kl _ _ _ _ Hv); simpl; lia|]. apply (read_le_next 2 kl _ 46) in Hv; [|done].
  split; [apply (read_le_view 4 pn _ _ _ _ Hv); simpl; lia|]. apply (read_le_next 4 pn _ 50) in Hv; [|done].
  split; [apply (read_le_view 2 w _ _ _ _ Hv); simpl; lia|]. by apply (read_le_next 2 w _ 52) in Hv.
Qed.

(** What [pack_message] wrote, when it wrote. *)
Lemma pack_message_inv ad dh mn otpk kyber pn suite kem ki ip box ep idx field data :
  pack_message ad dh mn otpk kyber pn suite kem ki ip box ep idx field = Ok data →
  let s := Z.land suite (u16_not WIRE_FLAGS) in
  let kl := from_option len 0 kem in
  len dh = 32 ∧ kl ≤ u16_max ∧ (is_Some ki → kl ≠ 0) ∧
  (∀ o, ki = Some o → len o = KEM_IDENTITY_OBJECT_SIZE) ∧
  (∀ o, ip = Some o → len o = KEM_IDENTITY_OBJECT_SIZE) ∧
  ∃ pq, (if s =? PQ_RATCHET_SUITE then pack_pq_section ep idx field else Ok []) = Ok pq ∧
    data = header_bytes mn dh otpk kyber kl pn (wire_suite_id_of ad s kl ki ip)
           ++ default [] kem ++ object_bytes ki ++ object_bytes ip ++ pq ++ box.
Proof.
  unfold pack_message. intros H.
  pose proof (check_objects_two ki ip) as Hobjs. pose proof (write_objects_two ki ip) as Hwr.
  revert H Hobjs Hwr. generalize (omap id [ki; ip]) as objects. intros objects H Hobjs Hwr.
  case_match eqn:Hdh; [done|]. case_match eqn:Hkl; [done|]. case_match eqn:Hki; [done|].
  destruct (check_identity_objects _) as [[]| |] eqn:Hobj; [|done..].
  cbn [mbind res_bind] in H.
  destruct (if _ =? PQ_RATCHET_SUITE then _ else _) as [pq| |] eqn:Hpq; [|done..].
  cbn [mbind res_bind] in H. injection H as <-.
  destruct (Hobjs eq_refl) as [Ho1 Ho2]. rewrite Hwr.
  split_and!; try done.
  - apply negb_false_iff, Z.eqb_eq in Hdh. exact Hdh.
  - lia.
  - intros Hs. rewrite bool_decide_true in Hki by done. by apply Z.eqb_neq in Hki.
  - exists pq. split; [done|]. unfold header_bytes. by rewrite <- !app_assoc.
Qed.

(** C8: the wire frame round-trips. Whatever [pack_message] accepts, [unpack]
    reads back field by field; the suite is the requested one with the flag
    bits stripped, an empty KEM ciphertext reads back as an absent one, and
    the PQ section is read back exactly when the suite carries it. *)
Theorem unpack_pack_message ad dh mn otpk kyber pn suite kem ki ip box ep idx field data :
  is_u32 mn → is_u32 otpk → is_u32 kyber → is_u32 pn → is_u32 ep → is_u32 idx →
  (∀ x, field = Some x → wf_pq_field x) → box ≠ [] →
  let s := Z.land suite (u16_not WIRE_FLAGS) in
  s ≠ RETIRED_PQ_RATCHET_V1 → (s = PQ_RATCHET_SUITE → ep = 0 → idx = 0) →
  pack_message ad dh mn otpk kyber pn suite kem ki ip box ep idx field = Ok data →
  let kl := from_option len 0 kem in
  let pq := s =? PQ_RATCHET_SUITE in
  unpack data = Ok {|
    message_number := mn; dh_public_key := dh; one_time_prekey_id := otpk;
    kyber_otpk_id := kyber; previous_chain_length := pn; suite_id := s;
    kem_ciphertext := if kl >? 0 then kem else None; pqxdh_v2 := kl >? 0;
    kem_identity := ki; identity_proof_ciphertext := ip; sealed_box := box;
    pq_message_epoch := if pq then ep else 0; pq_key_index := if pq then idx else 0;
    pq_ratchet_field := if pq then field else None;
    ad_version := if ad >=? AD_VERSION_HEADER then AD_VERSION_HEADER else AD_VERSION_LEGACY |}.
Proof.
  intros Hmn Hotpk Hky Hpn Hep Hidx Hf Hbox s Hret Hei Hpack kl pq.
  apply pack_message_inv in Hpack. fold s kl in Hpack.
  destruct Hpack as (Hdh & Hkl & Hkik & Hki & Hip & pqb & Hpqb & Hdata).
  pose proof (wire_flags_read ad suite kl ki ip) as (Hw & Fp & Fk & Fi & Fa & Fs).
  fold s in Hw, Fp, Fk, Fi, Fa, Fs. set (w := wire_suite_id_of ad s kl ki ip) in *.
  assert (0 ≤ kl) by (unfold kl; destruct kem; simpl; len_lia).
  pose proof (read_header mn dh otpk kyber kl pn w data
    (default [] kem ++ object_bytes ki ++ object_bytes ip ++ pqb ++ box)
    Hdata Hdh Hmn Hotpk Hky (conj H Hkl) Hpn Hw) as (E1 & E2 & E3 & E4 & E5 & E6 & E7 & Hv).
  clear Hdata. pose proof (view_len _ _ _ Hv) as Hlen.
  assert (len (default [] kem) = kl) as Hkem by (unfold kl; by destruct kem).
  assert (0 < len box) by (destruct box; [done|len_lia]).
  assert (0 < len (object_bytes ki ++ object_bytes ip ++ pqb ++ box)) by len_lia.
  unfold unpack. unfold_sizes.
  change (4 + 32) with 36. change (36 + 4) with 40. change (40 + 4) with 44.
  change (44 + 2) with 46. change (46 + 4) with 50. change (50 + 2) with 52.
  rewrite (proj2 (Z.leb_gt _ _)) by len_lia.
  rewrite E1, E2, E3, E4, E5, E6, E7. cbn [mbind res_bind].
  rewrite Fp, Fk, Fi, Fa, Fs.
  assert ((kl >? 0) && (kl =? 0) = false) as -> by lia.
  assert (bool_decide (is_Some ki) && negb (kl >? 0) = false) as ->.
  { destruct (bool_decide_reflect (is_Some ki)) as [Hs|]; [|done]. specialize (Hkik Hs). lia. }
  rewrite (proj2 (Z.leb_gt _ _)) by len_lia.
  assert ((if kl >? 0 then x ← slice 52 (52 + kl) data; Ok (Some x) else Ok None)
          = Ok (E := WirePayloadError) (if kl >? 0 then kem else None)) as ->.
  { destruct (kl >? 0) eqn:E; [|done]. rewrite (view_slice _ _ _ _ _ Hv) by lia.
    unfold kl in E. by destruct kem. }
  eapply (view_next _ (52 + kl)) in Hv; [|lia]. cbn [mbind res_bind].
  rewrite (kem_identity_object_view ki _ _ _ _ Hki Hv eq_refl). cbn [mbind res_bind].
  eapply view_next in Hv; [|done].
  rewrite (kem_identity_object_view ip _ _ _ _ Hip Hv eq_refl). cbn [mbind res_bind].
  eapply view_next in Hv; [|done]. rewrite (proj2 (Z.eqb_neq _ _) Hret).
  set (c := 52 + kl + _ + _) in *. fold pq in Hpqb |- *.
  assert ((if pq then unpack_pq_section data c else Ok (0, 0, None, c))
    = Ok (if pq then ep else 0, if pq then idx else 0, if pq then field else None, c + len pqb)) as ->.
  { destruct pq eqn:Epq.
    - apply Z.eqb_eq in Epq. eapply unpack_pq_section_view; eauto.
    - injection Hpqb as <-. change (len (@nil byte)) with 0. by rewrite Z.add_0_r. }
  cbn [mbind res_bind]. eapply (view_next _ (c + len pqb)) in Hv; [|done].
  pose proof (view_len _ _ _ Hv). rewrite (proj2 (Z.leb_gt _ _)) by lia.
  rewrite (view_from _ _ _ Hv). done.
Qed.

(** ** Unpack, then pack: the encoding is canonical *)

(** [bind_inv H]: a bind that succeeded, as the success of its parts. *)
Lemma read_le_inv (n : nat) a b data z r :
  read_le a b data = Ok z → b - a = Z.of_nat n → view a data r →
  0 ≤ z < 256 ^ Z.of_nat n ∧ ∃ r', r = le_bytes n z ++ r' ∧ view b data r'.
Proof.
  unfold read_le. intros (x & Hx & [= <-])%res_bind_inv Hn Hv.
  pose proof (slice_ok_len _ _ _ _ Hx) as Hl.
  destruct (slice_view _ _ _ _ _ Hv Hx) as (r' & -> & Hv').
  assert (len x = Z.of_nat n) as Hlx by lia. split.
  - rewrite <- Hlx. apply le_val_range.
  - exists r'. split; [|done]. f_equal. unfold len in Hlx.
    replace n with (length x) by lia. by rewrite le_bytes_val.
Qed.

Lemma kem_identity_object_inv data c p o c' r :
  kem_identity_object data c p = Ok (o, c') → view c data r →
  p = bool_decide (is_Some o) ∧ (∀ x, o = Some x → len x = KEM_IDENTITY_OBJECT_SIZE) ∧
  ∃ r', r = object_bytes o ++ r' ∧ view c' data r'.
Proof.
  unfold kem_identity_object. destruct p; simpl; [|intros [= <- <-] ?; split_and!; [done..|by exists r]].
  case_match; [done|]. intros (l & Hl & H1)%res_bind_inv Hv.
  case_match eqn:Hsz; [done|]. apply negb_false_iff, Z.eqb_eq in Hsz as ->.
  case_match; [done|]. apply res_bind_inv in H1 as (ob & Hob & [= <- <-]).
  destruct (read_le_inv 2 _ _ _ _ _ Hl ltac:(lia) Hv) as (_ & r1 & -> & Hv1).
  pose proof (slice_ok_len _ _ _ _ Hob). destruct (slice_view _ _ _ _ _ Hv1 Hob) as (r2 & -> & Hv2).
  assert (len ob = KEM_IDENTITY_OBJECT_SIZE) as Hlob by lia.
  split; [done|]. split; [by intros x [= <-]|].
  exists r2. split; [|done]. simpl. by rewrite Hlob, <- app_assoc.
Qed.

Lemma unpack_pq_field_inv data t c f c' r :
  unpack_pq_field data t c = Ok (f, c') → view c data r →
  t = pq_field_type f ∧ pq_field_fits f ∧ (∀ x, f = Some x → wf_pq_field x) ∧
  ∃ r', r = pq_field_body f ++ r' ∧ view c' data r'.
Proof.
  unfold unpack_pq_field. intros H Hv.
  assert (t = byte_of_Z (byte_to_Z t)) as Ht by (by rewrite byte_of_to_Z).
  destruct (byte_to_Z t) as [|[p|[p|p|]|]|p]; try done.
  - injection H as <- <-. split_and!; [done..|by exists r].
  - case_match; [done|]. apply res_bind_inv in H as (ep & Hep & H).
    apply res_bind_inv in H as (h & Hh & H). apply res_bind_inv in H as (l & Hl & H).
    case_match; [done|]. apply res_bind_inv in H as (ct & Hct & [= <- <-]).
    destruct (read_le_inv 4 _ _ _ _ _ Hep ltac:(lia) Hv) as (Bep & r1 & -> & Hv1).
    destruct (slice_view _ _ _ _ _ Hv1 Hh) as (r2 & -> & Hv2).
    destruct (read_le_inv 2 _ _ _ _ _ Hl ltac:(lia) Hv2) as (Bl & r3 & -> & Hv3).
    destruct (slice_view _ _ _ _ _ Hv3 Hct) as (r4 & -> & Hv4).
    apply slice_ok_len in Hh. apply slice_ok_len in Hct.
    assert (len ct = l) as <- by lia. split; [done|]. simpl in *. split; [unfold u16_max; lia|].
    split; [intros x [= <-]; simpl; unfold is_u32, u32_max; lia|].
    exists r4. split; [|done]. by rewrite <- !app_assoc.
  - case_match; [done|]. apply res_bind_inv in H as (ep & Hep & H).
    apply res_bind_inv in H as (l & Hl & H).
    case_match; [done|]. apply res_bind_inv in H as (k & Hk & [= <- <-]).
    destruct (read_le_inv 4 _ _ _ _ _ Hep ltac:(lia) Hv) as (Bep & r1 & -> & Hv1).
    destruct (read_le_inv 2 _ _ _ _ _ Hl ltac:(lia) Hv1) as (Bl & r2 & -> & Hv2).
    destruct (slice_view _ _ _ _ _ Hv2 Hk) as (r3 & -> & Hv3).
    apply slice_ok_len in Hk.
    assert (len k = l) as <- by lia. split; [done|]. simpl in *. split; [unfold u16_max; lia|].
    split; [intros x [= <-]; simpl; unfold is_u32, u32_max; lia|].
    exists r3. split; [|done]. by rewrite <- !app_assoc.
Qed.

Lemma unpack_pq_section_inv data c e i f c' r :
  unpack_pq_section data c = Ok (e, i, f, c') → view c data r →
  is_u32 e ∧ is_u32 i ∧ (e = 0 → i = 0) ∧ (∀ x, f = Some x → wf_pq_field x) ∧
  ∃ b r', pack_pq_section e i f = Ok b ∧ r = b ++ r' ∧ view c' data r'.
Proof.
  unfold unpack_pq_section. intros H Hv. case_match; [done|].
  apply res_bind_inv in H as (e' & He & H). apply res_bind_inv in H as ([i' c1] & Hi & H).
  case_match eqn:Hei; [done|]. case_match; [done|].
  apply res_bind_inv in H as (t & Ht & H). apply res_bind_inv in H as ([f' c2] & Hf & H).
  injection H as -> -> -> ->.
  destruct (read_le_inv 4 _ _ _ _ _ He ltac:(lia) Hv) as (Be & r1 & -> & Hv1).
  destruct (read_leb128_inv _ _ _ _ _ Hv1 Hi) as (r2 & Bi & -> & Hv2).
  destruct (index_view _ _ _ _ Hv2 Ht) as (r3 & -> & Hv3).
  destruct (unpack_pq_field_inv _ _ _ _ _ _ Hf Hv3) as (-> & Hfit & Hwf & r4 & -> & Hv4).
  split; [unfold is_u32, u32_max; simpl in Be; lia|]. split; [done|]. split; [lia|]. split; [done|].
  eexists _, r4. split; [by apply pack_pq_section_spec|]. split; [|done].
  rewrite <- !app_assoc. done.
Qed.

(** Everything a successful [unpack] says about the bytes it was given. *)
Lemma unpack_inv data d :
  unpack data = Ok d →
  ∃ w pq,
    is_u16 w ∧ len (dh_public_key d) = 32 ∧
    (∀ o, kem_identity d = Some o → len o = KEM_IDENTITY_OBJECT_SIZE) ∧
    (∀ o, identity_proof_ciphertext d = Some o → len o = KEM_IDENTITY_OBJECT_SIZE) ∧
    suite_id d = Z.land w (u16_not WIRE_FLAGS) ∧
    pqxdh_v2 d = negb (Z.land w PQXDH_V2_FLAG =? 0) ∧
    bool_decide (is_Some (kem_identity d)) = negb (Z.land w KEM_IDENTITY_FLAG =? 0) ∧
    bool_decide (is_Some (identity_proof_ciphertext d)) = negb (Z.land w IDENTITY_PROOF_FLAG =? 0) ∧
    ad_version d = (if negb (Z.land w AD_V4_FLAG =? 0) then AD_VERSION_HEADER else AD_VERSION_LEGACY) ∧
    let kl := from_option len 0 (kem_ciphertext d) in
    kl ≤ u16_max ∧ (pqxdh_v2 d = true → kl ≠ 0) ∧ (is_Some (kem_identity d) → pqxdh_v2 d = true) ∧
    (if suite_id d =? PQ_RATCHET_SUITE
     then pack_pq_section (pq_message_epoch d) (pq_key_index d) (pq_ratchet_field d)
     else Ok []) = Ok pq ∧
    data = header_bytes (message_number d) (dh_public_key d) (one_time_prekey_id d)
             (kyber_otpk_id d) kl (previous_chain_length d) w
           ++ default [] (kem_ciphertext d) ++ object_bytes (kem_identity d)
           ++ object_bytes (identity_proof_ciphertext d) ++ pq ++ sealed_box d.
Proof.
  unfold unpack. unfold_sizes.
  change (4 + 32) with 36. change (36 + 4) with 40. change (40 + 4) with 44.
  change (44 + 2) with 46. change (46 + 4) with 50. change (50 + 2) with 52.
  case_match; [done|]. intros (mn & Hmn & H1)%res_bind_inv.
  apply res_bind_inv in H1 as (dh & Hdh & H1). apply res_bind_inv in H1 as (otpk & Hotpk & H1).
  apply res_bind_inv in H1 as (kyb & Hkyb & H1). apply res_bind_inv in H1 as (kl & Hkl & H1).
  apply res_bind_inv in H1 as (pn & Hpn & H1). apply res_bind_inv in H1 as (w & Hw & H1).
  pose proof (view_start data) as Hv.
  destruct (read_le_inv 4 _ _ _ _ _ Hmn eq_refl Hv) as (_ & r1 & Hdata & Hv1).
  destruct (slice_view _ _ _ _ _ Hv1 Hdh) as (r2 & -> & Hv2).
  destruct (read_le_inv 4 _ _ _ _ _ Hotpk eq_refl Hv2) as (_ & r3 & -> & Hv3).
  destruct (read_le_inv 4 _ _ _ _ _ Hkyb eq_refl Hv3) as (_ & r4 & -> & Hv4).
  destruct (read_le_inv 2 _ _ _ _ _ Hkl eq_refl Hv4) as (Bkl & r5 & -> & Hv5).
  destruct (read_le_inv 4 _ _ _ _ _ Hpn eq_refl Hv5) as (_ & r6 & -> & Hv6).
  destruct (read_le_inv 2 _ _ _ _ _ Hw eq_refl Hv6) as (Bw & r7 & -> & Hv7).
  apply slice_ok_len in Hdh. clear Hv Hv1 Hv2 Hv3 Hv4 Hv5 Hv6 Hmn Hotpk Hkyb Hkl Hpn Hw.
  case_match eqn:Hg1; [done|]. case_match eqn:Hg2; [done|]. case_match; [done|].
  apply res_bind_inv in H1 as (kem & Hkem & H1).
  apply res_bind_inv in H1 as ([ki c1] & Hki & H1).
  apply res_bind_inv in H1 as ([ip c2] & Hip & H1).
  case_match; [done|]. apply res_bind_inv in H1 as ([[[e i] f] c3] & Hpq & H1).
  case_match; [done|]. apply res_bind_inv in H1 as (box & Hbox & [= <-]). simpl in *.
  assert (from_option len 0 kem = kl ∧ ∃ r8, r7 = default [] kem ++ r8 ∧ view (52 + kl) data r8)
    as (Hkl & r8 & -> & Hv8).
  { destruct (kl >? 0) eqn:Ekl.
    - apply res_bind_inv in Hkem as (k & Hk & [= <-]).
      destruct (slice_view _ _ _ _ _ Hv7 Hk) as (r8 & -> & Hv8).
      apply slice_ok_len in Hk. simpl. split; [lia|]. eauto.
    - injection Hkem as <-. assert (kl = 0) as -> by lia. simpl. eauto. }
  destruct (kem_identity_object_inv _ _ _ _ _ _ Hki Hv8) as (Fk & Ski & r9 & -> & Hv9).
  destruct (kem_identity_object_inv _ _ _ _ _ _ Hip Hv9) as (Fi & Sip & r10 & -> & Hv10).
  assert (∃ pq r11,
    (if Z.land w (u16_not WIRE_FLAGS) =? PQ_RATCHET_SUITE then pack_pq_section e i f else Ok [])
      = Ok pq ∧ r10 = pq ++ r11 ∧ view c3 data r11) as (pq & r11 & Hpqb & -> & Hv11).
  { destruct (_ =? PQ_RATCHET_SUITE).
    - destruct (unpack_pq_section_inv _ _ _ _ _ _ _ Hpq Hv10) as (_&_&_&_& b & r' & ? & -> & ?). eauto.
    - injection Hpq as <- <- <- <-. exists [], r10. done. }
  apply (slice_from_view _ _ _ _ Hv11) in Hbox as ->.
  exists w, pq. split; [unfold is_u16, u16_max; lia|]. split; [lia|].
  split_and!; try done; rewrite ?Hkl; try (unfold u16_max; lia).
  - intros Hs. rewrite bool_decide_true in Fk by done. rewrite Fk in Hg2.
    by apply negb_false_iff in Hg2.
  - unfold header_bytes. rewrite <- !app_assoc. rewrite Hdata. done.
Qed.

Lemma unpack_pack_message_witness :
  let data := default [] (res_ok (pack_message 4 (replicate 32 (byte_of_Z 7)) 3 9 0 5 4
     (Some [byte_of_Z 1; byte_of_Z 2]) None None [byte_of_Z 8] 300 200
     (Some (PublicKey 301 [byte_of_Z 5])))) in
  unpack data = Ok {|
    message_number := 3; dh_public_key := replicate 32 (byte_of_Z 7); one_time_prekey_id := 9;
    kyber_otpk_id := 0; previous_chain_length := 5; suite_id := 4;
    kem_ciphertext := Some [byte_of_Z 1; byte_of_Z 2]; pqxdh_v2 := true;
    kem_identity := None; identity_proof_ciphertext := None; sealed_box := [byte_of_Z 8];
    pq_message_epoch := 300; pq_key_index := 200;
    pq_ratchet_field := Some (PublicKey 301 [byte_of_Z 5]);
    ad_version := AD_VERSION_HEADER |}.
Proof.
  refine (unpack_pack_message 4 (replicate 32 (byte_of_Z 7)) 3 9 0 5 4
     (Some [byte_of_Z 1; byte_of_Z 2]) None None [byte_of_Z 8] 300 200
     (Some (PublicKey 301 [byte_of_Z 5])) _ _ _ _ _ _ _ _ _ _ _ _);
    try (unfold is_u32, u32_max; lia); try done.
  - intros x [= <-]. unfold wf_pq_field, is_u32, u32_max. lia.
Defined.

(** the wire format is canonical. A frame [unpack] accepts is exactly what
    [pack_message] writes for the decoded fields, so no two different frames
    decode to the same message. The frames of the retired unflagged handshake
    (a KEM ciphertext without the PQXDH v2 flag), which [unpack] still reads
    and [pack_message] never writes, are the one exception. *)
Theorem pack_unpack data d :
  unpack data = Ok d → (pqxdh_v2 d = false → kem_ciphertext d = None) →
  pack_message (ad_version d) (dh_public_key d) (message_number d) (one_time_prekey_id d)
    (kyber_otpk_id d) (previous_chain_length d) (suite_id d) (kem_ciphertext d)
    (kem_identity d) (identity_proof_ciphertext d) (sealed_box d) (pq_message_epoch d)
    (pq_key_index d) (pq_ratchet_field d) = Ok data.
Proof.
  intros Hu Hflag. apply unpack_inv in Hu
    as (w & pq & Bw & Hdh & Ski & Sip & Hs & Fp & Fk & Fi & Fa & Hkl & Hpx & Hkix & Hpq & Hdata).
  set (kl := from_option len 0 (kem_ciphertext d)) in *.
  assert ((kl >? 0) = pqxdh_v2 d) as Ekl.
  { destruct (pqxdh_v2 d) eqn:E.
    - specialize (Hpx eq_refl). assert (0 ≤ kl) by (unfold kl; destruct (kem_ciphertext d); simpl; len_lia). lia.
    - unfold kl. by rewrite Hflag. }
  unfold pack_message. rewrite Hdh. simpl negb. cbn iota. fold kl.
  rewrite Z.gtb_ltb, (proj2 (Z.ltb_ge _ _)) by done.
  assert (bool_decide (is_Some (kem_identity d)) && (kl =? 0) = false) as ->.
  { destruct (bool_decide_reflect (is_Some (kem_identity d))) as [Hi|]; [|done].
    rewrite (Hkix Hi) in Ekl. lia. }
  assert (check_identity_objects (omap id [kem_identity d; identity_proof_ciphertext d]) = Ok tt) as ->.
  { destruct (kem_identity d) as [k|]; simpl; rewrite ?(Ski _ eq_refl); simpl;
    destruct (identity_proof_ciphertext d) as [k'|]; simpl; rewrite ?(Sip _ eq_refl); done. }
  cbn [mbind res_bind]. rewrite write_objects_two.
  assert (Z.land (suite_id d) (u16_not WIRE_FLAGS) = suite_id d) as Hss.
  { by rewrite Hs, strip_flags_land, Z.land_diag. }
  rewrite Hss, Hpq. cbn [mbind res_bind]. f_equal.
  rewrite Hs, wire_flags_write; [|done| |by rewrite Ekl|done|done].
  - rewrite Hdata at 1. unfold header_bytes. by rewrite <- !app_assoc.
  - rewrite Fa. by destruct (negb (Z.land w AD_V4_FLAG =? 0)).
Qed.

Lemma pack_unpack_witness :
  let data := replicate 51 (byte_of_Z 0) ++ [byte_of_Z 8; byte_of_Z 77] in
  ∃ d, unpack data = Ok d ∧ sealed_box d = [byte_of_Z 77] ∧
  pack_message (ad_version d) (dh_public_key d) (message_number d) (one_time_prekey_id d)
    (kyber_otpk_id d) (previous_chain_length d) (suite_id d) (kem_ciphertext d)
    (kem_identity d) (identity_proof_ciphertext d) (sealed_box d) (pq_message_epoch d)
    (pq_key_index d) (pq_ratchet_field d) = Ok data.
Proof.
  eexists. split; [vm_compute; reflexivity|]. split; [reflexivity|].
  apply pack_unpack; vm_compute; reflexivity.
Defined.

(** ** No input makes the reader panic *)

Lemma view_bounds {A} c (l : list A) : 0 ≤ c ≤ len l → view c l (tail_at c l).
Proof.
  intros. exists (take (Z.to_nat c) l). unfold tail_at. rewrite take_drop. split; [done|].
  unfold len in *. rewrite length_take. lia.
Qed.

Lemma read_le_total a b data :
  0 ≤ a ≤ b → b ≤ len data → ∃ z, read_le a b data = Ok z ∧ 0 ≤ z.
Proof.
  intros. unfold read_le. destruct (slice_total (E := WirePayloadError) a b data) as (x & -> & _);
    [done..|]. simpl. eexists. split; [done|]. apply le_val_range.
Qed.

(** One step of a parser: split the test at the head, or take the in-range
    read at the head, whose bounds the tests before it established. *)
Ltac no_panic_step :=
  cbv beta; cbn [mbind res_bind];
  match goal with
  | |- Ok _ ≠ Panic => done
  | |- Err _ ≠ Panic => done
  | |- (if ?b then _ else _) ≠ Panic => destruct b eqn:?; cbn [mbind res_bind]
  | |- mbind _ (if ?b then _ else _) ≠ Panic => destruct b eqn:?; cbn [mbind res_bind]
  | |- mbind _ (read_le ?a ?b ?d) ≠ Panic =>
      destruct (read_le_total a b d) as (? & -> & ?); [lia..|]; cbn [mbind res_bind]
  | |- mbind _ (@slice ?E ?A ?a ?b ?d) ≠ Panic =>
      destruct (@slice_total E A a b d) as (? & -> & ?); [lia..|]; cbn [mbind res_bind]
  | |- mbind _ (mbind _ (@slice ?E ?A ?a ?b ?d)) ≠ Panic =>
      destruct (@slice_total E A a b d) as (? & -> & ?); [lia..|]; cbn [mbind res_bind]
  | |- mbind _ (@index ?E ?A ?a ?d) ≠ Panic =>
      destruct (@index_ok E A a d) as (? & ->); [lia..|]; cbn [mbind res_bind]
  | |- mbind _ (@slice_from ?E ?A ?a ?d) ≠ Panic =>
      rewrite (@view_from E A a d _ (view_bounds a d ltac:(lia))); cbn [mbind res_bind]
  end.

Lemma kem_identity_object_total data c p :
  0 ≤ c ≤ len data →
  kem_identity_object data c p ≠ Panic ∧
  ∀ o c', kem_identity_object data c p = Ok (o, c') → c ≤ c' ≤ len data.
Proof.
  intros Hc. split.
  - unfold kem_identity_object. repeat no_panic_step.
  - intros o c' H.
    destruct (kem_identity_object_inv _ _ _ _ _ _ H (view_bounds _ _ Hc)) as (_ & _ & r & Hr & Hv).
    pose proof (view_len _ _ _ Hv). pose proof (view_len _ _ _ (view_bounds c data Hc)) as Hl.
    rewrite Hr in Hl. len_lia.
Qed.

Lemma unpack_pq_field_no_panic data t c : 0 ≤ c → unpack_pq_field data t c ≠ Panic.
Proof.
  intros. unfold unpack_pq_field.
  destruct (byte_to_Z t) as [|[p|[p|p|]|]|p]; repeat no_panic_step; try done.
Qed.

Lemma unpack_pq_section_total data c :
  0 ≤ c ≤ len data →
  unpack_pq_section data c ≠ Panic ∧
  ∀ e i f c', unpack_pq_section data c = Ok (e, i, f, c') → c ≤ c' ≤ len data.
Proof.
  intros Hc. split.
  - unfold unpack_pq_section. do 2 no_panic_step.
    destruct (read_leb128 data (c + 4)) as [[i c1]|e|] eqn:Hi; cbn [mbind res_bind]; [|done|].
    + assert (0 ≤ c1).
      { assert (0 ≤ c + 4 ≤ len data) as Hb by lia.
        destruct (read_leb128_inv _ _ _ _ _ (view_bounds _ _ Hb) Hi) as (r & _ & _ & Hv).
        by apply view_nonneg in Hv. }
      repeat no_panic_step.
      destruct (unpack_pq_field _ _ _) as [[f c2]| |] eqn:Hf; [done..|].
      by apply unpack_pq_field_no_panic in Hf; [|lia].
    + by apply read_leb128_loop_no_panic in Hi.
  - intros e i f c' H.
    destruct (unpack_pq_section_inv _ _ _ _ _ _ _ H (view_bounds _ _ Hc)) as (_&_&_&_& b & r & _ & Hr & Hv).
    pose proof (view_len _ _ _ Hv). pose proof (view_len _ _ _ (view_bounds c data Hc)) as Hl.
    rewrite Hr in Hl. len_lia.
Qed.

(** [unpack] is total on attacker-controlled bytes. Every slice and every
    array conversion it makes is within the input, whatever the input. *)
Theorem unpack_no_panic data : unpack data ≠ Panic.
Proof.
  unfold unpack. unfold_sizes. repeat no_panic_step.
  all: match goal with |- mbind _ (kem_identity_object ?d ?c ?p) ≠ Panic =>
         assert (0 ≤ c ≤ len d) as Hc by lia;
         destruct (kem_identity_object_total d c p Hc) as [Hk Hk'];
         destruct (kem_identity_object d c p) as [[o1 c1]|e|] eqn:E1; [|done..] end.
  all: specialize (Hk' _ _ eq_refl); cbn [mbind res_bind]; repeat no_panic_step.
  all: match goal with |- mbind _ (kem_identity_object ?d ?c ?p) ≠ Panic =>
         assert (0 ≤ c ≤ len d) as Hc2 by lia;
         destruct (kem_identity_object_total d c p Hc2) as [Hi Hi'];
         destruct (kem_identity_object d c p) as [[o2 c2]|e|] eqn:E2; [|done..] end.
  all: specialize (Hi' _ _ eq_refl); cbn [mbind res_bind]; repeat no_panic_step.
  all: try match goal with |- mbind _ (unpack_pq_section ?d ?c) ≠ Panic =>
         assert (0 ≤ c ≤ len d) as Hc3 by lia;
         destruct (unpack_pq_section_total d c Hc3) as [Hp Hp'];
         destruct (unpack_pq_section d c) as [[[[e i] f] c3]|e|] eqn:E3; [|done..];
         specialize (Hp' _ _ _ _ eq_refl) end; cbn [mbind res_bind].
  all: repeat no_panic_step.
Qed.
