(* ===== verification/RatchetPq.v ===== *)
(** * Double ratchet: the sparse post-quantum ratchet

    Models the PQ half of
    [src/src/crypto/messaging/double_ratchet/internals.rs]: starting and
    abandoning an exchange, the epoch chains and their steps, the keys a sent
    and a received message take from them, and what a decrypted message commits
    ([commit_pq_post_decrypt]). *)

From S2P Require Import Prelude SuiteId Platform RatchetTypes.

Section pq.
Context `{MlKemCrate} `{!CryptoProvider}.

Abbreviation dr A := (method DoubleRatchetSession DrError A).

(** ** Starting an exchange *)

Definition pq_epoch_is_old : dr bool :=
  s ← self; t ← now;
  mret (sat_sub t (pq_epoch_since s) >=? pq_ratchet_max_age_seconds global).

Definition abandon_unanswered_pq_exchange : dr unit :=
  let max_age := Z.max (max_skipped_message_age_seconds global) 0 in
  s ← self;
  if pq_pending_since s =? 0 then mret tt else
  t ← now;
  if sat_sub t (pq_pending_since s) >? max_age then
    match pending_pq_exchange s with
    | Some _ => update (λ s, s <| pending_pq_exchange := None |> <| pq_pending_since := 0 |>)
    | None => mret tt
    end
  else mret tt.

Definition start_pq_exchange : dr unit :=
  s ← self;
  match pending_pq_exchange s with
  | Some _ => mret tt
  | None =>
      keypair ← map_err_m PqKeygenFailed (on_world mlkem768_keygen);
      update (λ s, s <| pending_pq_exchange := Some {|
        ex_epoch := sat_add32 (current_pq_epoch s) 1;
        ex_keypair := {| kp_public := mlkem_public_key keypair;
                         kp_secret := mlkem_secret_key keypair |} |} |>);;
      t ← now;
      update (λ s, s <| pq_pending_since := t |> <| pq_turns_since_mix := 0 |>)
  end.

Definition maybe_advance_pq_ratchet : dr unit :=
  s ← self;
  if negb (is_pq_ratchet (suite_id s)) || negb (is_pq_initiator s) then mret tt else
  abandon_unanswered_pq_exchange;;
  update (λ s, s <| pq_turns_since_mix := sat_add32 (pq_turns_since_mix s) 1 |>);;
  s ← self;
  if pq_turns_since_mix s <? pq_ratchet_interval global then
    old ← pq_epoch_is_old;
    if negb old then mret tt else start_pq_exchange
  else start_pq_exchange.

Definition maybe_start_pq_exchange_by_age : dr unit :=
  s ← self;
  if negb (is_pq_ratchet (suite_id s)) || negb (is_pq_initiator s) then mret tt else
  abandon_unanswered_pq_exchange;;
  old ← pq_epoch_is_old;
  if negb old then mret tt else start_pq_exchange.

(** ** Epoch chains *)

(** An eight-byte array: [copy_from_slice] panics on another length. *)
Definition pq_ek_hash (ek : bytes) : res DrError bytes :=
  match hkdf_derive_key [] ek (as_bytes "construct-pqr-ekhash-v1") 8 with
  | Ok b => if len b =? 8 then Ok b else Panic
  | Err _ => Ok (replicate 8 Byte.x00)
  | Panic => Panic
  end.

Definition pq_epoch_chains (secret : bytes) (epoch : Z) (is_pq_initiator : bool)
    : res DrError PqEpochChains :=
  let info := as_bytes "construct-pqr-chains-v2" ++ be_bytes 4 epoch in
  out ← map_err PqEpochChainsFailed (hkdf_derive_key [] secret info 64);
  a ← slice 0 32 out;
  b ← slice_from 32 out;
  let initiator_sends := mkPqChain 0 a in
  let responder_sends := mkPqChain 0 b in
  let '(send, recv) := if is_pq_initiator : bool then (initiator_sends, responder_sends)
                       else (responder_sends, initiator_sends) in
  Ok {| pc_epoch := epoch; pc_send := Some send; pc_recv := recv |}.

(** The moved chain, the index and the key. A failing step leaves the chain
    as it was. *)
Definition pq_chain_step (chain : PqChain) : res DrError (PqChain * Z * bytes) :=
  out ← map_err PqChainStepFailed
          (hkdf_derive_key [] (chain_key chain) (as_bytes "construct-pqr-step-v2") 64);
  let index := chain_index chain in
  index' ← ok_or (checked_add32 index 1) PqChainIndexOverflow;
  key' ← slice 0 32 out;
  key ← slice_from 32 out;
  Ok (mkPqChain index' key', index, key).

(** [sort_by_key(|c| c.epoch)], a stable sort. *)
Fixpoint insert_by_epoch (c : PqEpochChains) (l : list PqEpochChains) : list PqEpochChains :=
  match l with
  | [] => [c]
  | d :: l' => if pc_epoch c <? pc_epoch d then c :: l else d :: insert_by_epoch c l'
  end.
Definition sort_by_epoch (l : list PqEpochChains) : list PqEpochChains :=
  foldl (λ acc c, insert_by_epoch c acc) [] l.

(** [position(|c| c.epoch == epoch).map(|i| remove(i))]: the first match goes. *)
Fixpoint remove_first_epoch (epoch : Z) (l : list PqEpochChains) : list PqEpochChains :=
  match l with
  | [] => []
  | c :: l => if pc_epoch c =? epoch then l else c :: remove_first_epoch epoch l
  end.

Definition stop_sending_before (epoch : Z) (l : list PqEpochChains) : list PqEpochChains :=
  (λ c, if pc_epoch c <? epoch then c <| pc_send := None |> else c) <$> l.

(** [while len > PQ_CHAIN_RETENTION { remove(0) }] *)
Definition retain_newest (l : list PqEpochChains) : list PqEpochChains :=
  drop (Z.to_nat (len l - PQ_CHAIN_RETENTION)) l.

Definition insert_chains (chains : PqEpochChains) (l : list PqEpochChains)
    : list PqEpochChains :=
  let epoch := pc_epoch chains in
  retain_newest (sort_by_epoch
    (stop_sending_before epoch (remove_first_epoch epoch l) ++ [chains])).

Definition insert_pq_epoch_chains (chains : PqEpochChains) (s : DoubleRatchetSession)
    : DoubleRatchetSession :=
  s <| pq_chains := insert_chains chains (pq_chains s) |>.

(** ** Keys of one message *)

(** [iter_mut().find(|c| c.epoch == epoch)]: replace what [f] makes of the
    first chains of the epoch. *)
Fixpoint alter_first_epoch (f : PqEpochChains → PqEpochChains) (epoch : Z)
    (l : list PqEpochChains) : list PqEpochChains :=
  match l with
  | [] => []
  | c :: l => if pc_epoch c =? epoch then f c :: l else c :: alter_first_epoch f epoch l
  end.

Fixpoint find_epoch (epoch : Z) (l : list PqEpochChains) : option PqEpochChains :=
  match l with
  | [] => None
  | c :: l => if pc_epoch c =? epoch then Some c else find_epoch epoch l
  end.

Definition pq_send_key : dr (Z * Z * option bytes) :=
  s ← self;
  let epoch := current_pq_epoch s in
  if negb (is_pq_ratchet (suite_id s)) || (epoch =? 0) then mret (0, 0, None) else
  chain ← lift (ok_or (c ← find_epoch epoch (pq_chains s); pc_send c) (PqNoSendChain epoch));
  '(chain', index, key) ← lift (pq_chain_step chain);
  update (λ s, s <| pq_chains :=
    alter_first_epoch (λ c, c <| pc_send := Some chain' |>) epoch (pq_chains s) |>);;
  mret (epoch, index, Some key).

(** The receive chain [pq_receive_key] borrows: that of the epoch, or of the
    provisional epoch of a pending ciphertext. *)
Definition recv_chain_of (s : DoubleRatchetSession) (epoch : Z) : option PqChain :=
  match find_epoch epoch (pq_chains s) with
  | Some c => Some (pc_recv c)
  | None =>
      match pending_pq_ciphertext s with
      | Some p => if ct_epoch p =? epoch then Some (pc_recv (ct_chains p)) else None
      | None => None
      end
  end.

(** The same borrow, written through. *)
Definition set_recv_chain (epoch : Z) (chain : PqChain) (s : DoubleRatchetSession)
    : DoubleRatchetSession :=
  match find_epoch epoch (pq_chains s) with
  | Some _ =>
      s <| pq_chains := alter_first_epoch (λ c, c <| pc_recv := chain |>) epoch (pq_chains s) |>
  | None =>
      s <| pending_pq_ciphertext :=
        (λ p, p <| ct_chains := (ct_chains p) <| pc_recv := chain |> |>) <$> pending_pq_ciphertext s |>
  end.

(** The loop of [pq_receive_key]. Its state is the borrowed chain and the two
    skipped-key maps. The chain's index moves by one each round and the loop
    returns at [index], so [index - chain.index + 1] rounds suffice; running
    out of them is a panic here, which no call reaches
    ([pq_recv_loop_no_panic]). *)
Record PqRecv := mkPqRecv {
  pr_chain : PqChain;
  pr_keys : gmap (Z * Z) bytes;
  pr_timestamps : gmap (Z * Z) Z;
}.

Fixpoint pq_recv_loop (rounds : nat) (epoch index t : Z) : stm PqRecv DrError (option bytes) :=
  match rounds with
  | O => lift Panic
  | S rounds => λ st,
      match pq_chain_step (pr_chain st) with
      | Ok (chain', i, key) =>
          let st := mkPqRecv chain' (pr_keys st) (pr_timestamps st) in
          if i =? index then (st, Ok (Some key)) else
          if Z.of_nat (size (pr_keys st)) >=? max_skipped_messages global
          then (st, Err TooManySkippedPqKeys) else
          pq_recv_loop rounds epoch index t
            (mkPqRecv chain' (<[(epoch, i) := key]> (pr_keys st))
                             (<[(epoch, i) := t]> (pr_timestamps st)))
      | Err e => (st, Err e)
      | Panic => (st, Panic)
      end
  end.

Definition write_recv (epoch : Z) (st : PqRecv) (s : DoubleRatchetSession)
    : DoubleRatchetSession :=
  (set_recv_chain epoch (pr_chain st) s)
    <| pq_skipped_keys := pr_keys st |> <| pq_skipped_key_timestamps := pr_timestamps st |>.

Definition advance_recv_chain (chain : PqChain) (epoch index t : Z) : dr (option bytes) := λ sw,
  let (st, r) :=
    pq_recv_loop (Z.to_nat (index - chain_index chain + 1)) epoch index t
      (mkPqRecv chain (pq_skipped_keys sw.1) (pq_skipped_key_timestamps sw.1)) in
  ((write_recv epoch st sw.1, sw.2), r).

Definition pq_receive_key (epoch index : Z) : dr (option bytes) :=
  s ← self;
  if negb (is_pq_ratchet (suite_id s)) || (epoch =? 0) then
    if negb (index =? 0) then throw (PqIndexWithoutEpoch index) else mret None
  else
  match pq_skipped_keys s !! (epoch, index) with
  | Some key =>
      update (λ s, s <| pq_skipped_keys := delete (epoch, index) (pq_skipped_keys s) |>
        <| pq_skipped_key_timestamps :=
             delete (epoch, index) (pq_skipped_key_timestamps s) |>);;
      mret (Some key)
  | None =>
      let max_jump := max_message_jump global in
      match recv_chain_of s epoch with
      | None => throw (PqEpochWithoutChain epoch (current_pq_epoch s))
      | Some chain =>
          if index <? chain_index chain
          then throw (PqKeyConsumed epoch index (chain_index chain)) else
          if index >? sat_add32 (chain_index chain) max_jump
          then throw (PqIndexJump (chain_index chain) index max_jump) else
          t ← now; advance_recv_chain chain epoch index t
      end
  end.

Definition mix_pq_message_key (dr_key : AeadKey) (pq_key : option bytes)
    : res DrError AeadKey :=
  match pq_key with
  | None => Ok dr_key
  | Some pq_key =>
      mixed ← map_err PqMessageKeyMix
        (hkdf_derive_key pq_key (aead_ref dr_key) (as_bytes "construct-pqr-msg-v2") 32);
      Ok (aead_key_from_bytes mixed)
  end.

Definition take_outgoing_pq_field (s : DoubleRatchetSession) : option PqRatchetWireField :=
  if negb (is_pq_ratchet (suite_id s)) then None else
  match pending_pq_ciphertext s with
  | Some p => Some (Ciphertext (ct_epoch p) (ct_ek_hash p) (ct_ciphertext p))
  | None =>
      (λ ex, PublicKey (ex_epoch ex) (kp_public (ex_keypair ex))) <$> pending_pq_exchange s
  end.

(** ** Commit *)

(** Step 1: a message of an epoch at or past the provisional one promotes it. *)
Definition promote_pending_ciphertext (message_epoch : Z) : dr unit :=
  s ← self;
  match pending_pq_ciphertext s with
  | Some p =>
      if message_epoch >=? ct_epoch p then
        update (λ s, s <| pending_pq_ciphertext := None |>
          <| current_pq_epoch := Z.max (current_pq_epoch s) (ct_epoch p) |>);;
        update (insert_pq_epoch_chains (ct_chains p));;
        t ← now;
        update (λ s, s <| pq_epoch_since := t |>)
      else mret tt
  | None => mret tt
  end.

(** Step 2 at the responder: answer a new proposal. *)
Definition ingest_public_key (epoch : Z) (key : bytes) : dr unit :=
  s ← self;
  if is_pq_initiator s then mret tt else
  if epoch <=? current_pq_epoch s then mret tt else
  incoming_hash ← lift (pq_ek_hash key);
  let duplicate :=
    match pending_pq_ciphertext s with
    | Some p => (ct_epoch p =? epoch) && bool_decide (ct_ek_hash p = incoming_hash)
    | None => false
    end in
  if duplicate then mret tt else
  enc ← attempt (on_world (mlkem768_encapsulate key));
  match enc with
  | Ok enc =>
      chains ← attempt (lift (pq_epoch_chains (mlkem_shared_secret enc) epoch (is_pq_initiator s)));
      match chains with
      | Ok chains =>
          update (λ s, s <| pending_pq_ciphertext := Some {|
            ct_epoch := epoch; ct_ek_hash := incoming_hash;
            ct_ciphertext := mlkem_ciphertext enc; ct_chains := chains |} |>)
      | _ => mret tt
      end
  | _ => mret tt
  end.

(** Step 2 at the initiator: complete the exchange in flight. *)
Definition ingest_ciphertext (epoch : Z) (ek_hash ct : bytes) : dr unit :=
  s ← self;
  match pending_pq_exchange s with
  | None => mret tt
  | Some p =>
      if negb (ex_epoch p =? epoch) then mret tt else
      h ← lift (pq_ek_hash (kp_public (ex_keypair p)));
      if negb (bool_decide (h = ek_hash)) then mret tt else
      match mlkem768_decapsulate (kp_secret (ex_keypair p)) ct with
      | Ok shared_secret =>
          chains ← attempt (lift (pq_epoch_chains shared_secret epoch (is_pq_initiator s)));
          match chains with
          | Ok chains =>
              update (λ s, s <| pending_pq_exchange := None |> <| current_pq_epoch := epoch |>);;
              update (insert_pq_epoch_chains chains);;
              update (λ s, s <| pq_pending_since := 0 |>);;
              t ← now;
              update (λ s, s <| pq_epoch_since := t |>)
          | _ => mret tt
          end
      | _ => mret tt
      end
  end.

Definition commit_pq_post_decrypt (encrypted : EncryptedRatchetMessage) : dr unit :=
  s ← self;
  if negb (is_pq_ratchet (suite_id s)) then mret tt else
  promote_pending_ciphertext (em_pq_message_epoch encrypted);;
  match em_pq_ratchet_field encrypted with
  | None => mret tt
  | Some (PublicKey epoch key) => ingest_public_key epoch key
  | Some (Ciphertext epoch ek_hash ct) => ingest_ciphertext epoch ek_hash ct
  end.
End pq.
