(* ===== verification/Ratchet.v ===== *)
(** * Double ratchet: sessions, [encrypt], [decrypt]

    Models [src/src/crypto/messaging/double_ratchet/messaging.rs] and the
    classical half of [internals.rs]: the two session constructors, the DH
    ratchet step, the associated data, [encrypt], and [decrypt] with its
    skipped keys, its guards and its roll-back. A [debug_assert_eq!] is a panic
    when it fails, as in a debug build, so that the absence of panics includes
    that every such assertion holds. Log lines are left out. *)

From S2P Require Import Prelude SuiteId Padding Platform RatchetTypes RatchetPq.

(** ** Associated data *)

Record AdHeader := mkAdHeader {
  ah_dh_public_key : bytes;
  ah_message_number : Z;
  ah_pq_message_epoch : Z;
  ah_pq_key_index : Z;
  ah_previous_chain_length : Z;
  ah_suite_id : Z;
  ah_pq_ratchet_field : option PqRatchetWireField;
  ah_identity_proof_ciphertext : option bytes;
}.

Definition ad_header_of (m : EncryptedRatchetMessage) : AdHeader := {|
  ah_dh_public_key := em_dh_public_key m;
  ah_message_number := em_message_number m;
  ah_pq_message_epoch := em_pq_message_epoch m;
  ah_pq_key_index := em_pq_key_index m;
  ah_previous_chain_length := em_previous_chain_length m;
  ah_suite_id := em_suite_id m;
  ah_pq_ratchet_field := em_pq_ratchet_field m;
  ah_identity_proof_ciphertext := em_identity_proof_ciphertext m;
|}.

(** The closure [len16]: the length, clamped to 16 bits. *)
Definition len16 (b : bytes) : bytes := be_bytes 2 (Z.min (len b) u16_max).

Definition ad_pq_field (f : option PqRatchetWireField) : bytes :=
  match f with
  | None => [byte_of_Z 0]
  | Some (PublicKey epoch key) => byte_of_Z 1 :: be_bytes 4 epoch ++ len16 key ++ key
  | Some (Ciphertext epoch ek_hash ct) =>
      byte_of_Z 2 :: be_bytes 4 epoch ++ ek_hash ++ len16 ct ++ ct
  end.

Definition associated_data (version : Z) (sender receiver : string) (session_id_bytes : bytes)
    (pq_ratchet_suite : bool) (h : AdHeader) : bytes :=
  [byte_of_Z version] ++ as_bytes sender ++ as_bytes receiver ++ session_id_bytes
  ++ ah_dh_public_key h ++ be_bytes 4 (ah_message_number h)
  ++ (if pq_ratchet_suite
      then be_bytes 4 (ah_pq_message_epoch h) ++ be_bytes 4 (ah_pq_key_index h) else [])
  ++ (if version >=? AD_VERSION_HEADER then
        be_bytes 4 (ah_previous_chain_length h) ++ be_bytes 2 (ah_suite_id h)
        ++ ad_pq_field (ah_pq_ratchet_field h)
        ++ (let proof := default [] (ah_identity_proof_ciphertext h) in len16 proof ++ proof)
      else []).

(** [x as i64] of a [u64], and the wrapping subtraction of two [i64]s. *)
Definition as_i64 (z : Z) : Z := (z + 2 ^ 63) `mod` 2 ^ 64 - 2 ^ 63.
Definition i64_sub (a b : Z) : Z := as_i64 (a - b).

Section ratchet.
Context `{MlKemCrate} `{!HexCrate} `{!CryptoProvider}.

Abbreviation dr A := (method DoubleRatchetSession DrError A).

Definition debug_assert (b : bool) : dr unit := if b then mret tt else lift Panic.

(** ** Sessions *)

Definition derive_shared_session_id (root_key_x3dh : bytes) (local_user_id contact_id : string)
    : res CryptoError string :=
  let (first, second) := if String.leb local_user_id contact_id
                         then (local_user_id, contact_id) else (contact_id, local_user_id) in
  let info := as_bytes "Construct-SessionID-v2" ++ [byte_of_Z 0] ++ as_bytes first
              ++ [byte_of_Z 0] ++ as_bytes second in
  b ← hkdf_derive_key root_key_x3dh (as_bytes "construct-session-id") info 16;
  Ok (hex_encode b).

(** [InitiatorState] of the handshake. *)
Record InitiatorState := mkInitiatorState { is_ephemeral_private : KemPrivateKey }.

(** The salt of the first root key. *)
Definition initial_salt : bytes := replicate 32 (byte_of_Z 0xFE).

Definition new_initiator_session (root_key : bytes) (initiator_state : InitiatorState)
    (remote_identity : KemPublicKey) (contact_id local_user_id : string) (suite_id : SuiteID)
    : stm World DrError DoubleRatchetSession :=
  shared_session_id ← lift (map_err InitiatorSessionId
    (derive_shared_session_id root_key local_user_id contact_id));
  root_key_vec ← lift (map_err DeriveRootKey
    (hkdf_derive_key initial_salt root_key (as_bytes "InitialRootKey") 32));
  let root_key_val := aead_key_from_bytes root_key_vec in
  let dh_private := is_ephemeral_private initiator_state in
  dh_public ← lift (map_err DerivePublicKey (from_private_key_to_public_key dh_private));
  dh_output_secret ← lift (map_err PerformDh
    (kem_decapsulate dh_private (kem_public_ref remote_identity)));
  '(root_key, chain_key) ← lift (map_err KdfRkFailed (kdf_rk root_key_val dh_output_secret));
  epoch_since ← read_clock;
  ratchet_at ← read_clock;
  mret {|
    suite_id := suite_id;
    root_key := root_key;
    sending_chain_key := chain_key;
    sending_chain_length := 0;
    receiving_chain_key := aead_default;
    receiving_chain_length := 0;
    dh_ratchet_private := Some dh_private;
    dh_ratchet_public := dh_public;
    remote_dh_public := Some remote_identity;
    previous_sending_length := 0;
    skipped_message_keys := ∅;
    skipped_key_timestamps := ∅;
    prekey_header := None;
    pq_handshake := PhNone;
    pq_turns_since_mix := 0;
    is_pq_initiator := is_pq_ratchet suite_id;
    current_pq_epoch := 0;
    pq_chains := [];
    pq_skipped_keys := ∅;
    pq_skipped_key_timestamps := ∅;
    pending_pq_exchange := None;
    pending_pq_ciphertext := None;
    pq_pending_since := 0;
    pq_epoch_since := epoch_since;
    session_id := shared_session_id;
    contact_id := contact_id;
    local_user_id := local_user_id;
    last_ratchet_at := ratchet_at;
    peer_ad_version := AD_VERSION_LEGACY;
    pq_authentication := PaClassic;
    pq_applied := Some false;
    identity_proof := IpNone;
  |}.

(** ** Labels and the identity proof *)

Definition mark_pqxdh_v2 (authentication : PqAuthentication) (s : DoubleRatchetSession) :=
  s <| pq_handshake := PhInitialV2 |> <| pq_applied := Some true |>
    <| pq_authentication := authentication |>.

Definition set_prekey_header (header : PrekeyHeader) (s : DoubleRatchetSession) :=
  s <| prekey_header := Some header |>.

Definition expect_identity_answer (s : DoubleRatchetSession) :=
  s <| identity_proof := IpAwaitingAnswer |>.

Definition mix_identity_secret (root chain : AeadKey) (secret : bytes)
    : res DrError (AeadKey * AeadKey) :=
  root ← map_err IdentityRootMix
    (hkdf_derive_key secret (aead_ref root) (as_bytes "Construct-KEM-identity-root-v1") 32);
  chain ← map_err IdentityChainMix
    (hkdf_derive_key secret (aead_ref chain) (as_bytes "Construct-KEM-identity-chain-v1") 32);
  Ok (aead_key_from_bytes root, aead_key_from_bytes chain).

Definition answer_initiator_identity (secret ciphertext : bytes) : dr unit :=
  s ← self;
  if negb (sending_chain_length s =? 0) || negb (bool_decide (identity_proof s = IpNone))
  then throw IdentityAlreadyAnswered else
  '(root, chain) ← lift (mix_identity_secret (root_key s) (sending_chain_key s) secret);
  update (λ s, s <| root_key := root |> <| sending_chain_key := chain |>
    <| identity_proof := IpAnswered ciphertext |>).

Definition complete_identity_proof (s : DoubleRatchetSession) : DoubleRatchetSession :=
  match identity_proof s with
  | IpAnswered _ => s <| identity_proof := IpNone |> <| pq_authentication := PaReceivedProven |>
  | _ => s
  end.

(** ** The DH ratchet *)

Definition perform_dh_ratchet (new_remote_dh : KemPublicKey) (identity_secret : option bytes)
    : dr unit :=
  update (λ s, s <| previous_sending_length := sending_chain_length s |>);;
  s ← self;
  dh_private ← lift (ok_or (dh_ratchet_private s) NoDhPrivateKey);
  dh_receive ← lift (map_err DhFailed (kem_decapsulate dh_private (kem_public_ref new_remote_dh)));
  '(new_root_key, new_receiving_chain) ← lift (map_err KdfRkFailed (kdf_rk (root_key s) dh_receive));
  update (λ s, s <| root_key := new_root_key |> <| receiving_chain_key := new_receiving_chain |>
    <| receiving_chain_length := 0 |>);;
  s ← self;
  (if bool_decide (identity_proof s = IpAwaitingAnswer) then
     secret ← lift (ok_or identity_secret IdentityAnswerMissing);
     '(root, chain) ← lift (mix_identity_secret (root_key s) (receiving_chain_key s) secret);
     update (λ s, s <| root_key := root |> <| receiving_chain_key := chain |>
       <| identity_proof := IpNone |>)
   else mret tt);;
  '(new_dh_private, new_dh_public) ← map_err_m GenerateDhKeys (on_world generate_kem_keys);
  dh_send ← lift (map_err DhFailed (kem_decapsulate new_dh_private (kem_public_ref new_remote_dh)));
  s ← self;
  '(new_root_key2, new_sending_chain) ← lift (map_err KdfRkFailed (kdf_rk (root_key s) dh_send));
  update (λ s, s <| root_key := new_root_key2 |> <| sending_chain_key := new_sending_chain |>
    <| sending_chain_length := 0 |> <| dh_ratchet_private := Some new_dh_private |>
    <| dh_ratchet_public := new_dh_public |> <| remote_dh_public := Some new_remote_dh |>);;
  t ← now;
  update (λ s, s <| last_ratchet_at := t |>);;
  s ← self;
  debug_assert (sending_chain_length s =? 0);;
  debug_assert (receiving_chain_length s =? 0);;
  maybe_advance_pq_ratchet.

(** ** encrypt *)

Definition ad_send_version (s : DoubleRatchetSession) : Z :=
  if peer_ad_version s >=? AD_VERSION_HEADER then AD_VERSION_HEADER else AD_SEND_DEFAULT.

(** The ciphertext an unproven responder repeats. *)
Definition identity_proof_ct (s : DoubleRatchetSession) : option bytes :=
  match identity_proof s with IpAnswered ciphertext => Some ciphertext | _ => None end.

(** The second half of [encrypt]: nothing before it can fail any more without
    leaving a gap the peer skips. *)
Definition seal (message_key : AeadKey) (padded_plaintext : bytes)
    (message_number pq_message_epoch pq_key_index : Z) : dr EncryptedRatchetMessage :=
  nonce ← map_err_m NonceGenerationFailed (on_world (generate_nonce (chacha_nonce_length global)));
  s ← self;
  let dh_public_key := kem_public_ref (dh_ratchet_public s) in
  if negb (len dh_public_key =? 32) then throw InvalidPublicKeyLength else
  session_id_bytes ← lift (ok_or (hex_decode (session_id s)) (SessionIdNotHex (session_id s)));
  let ad_version := ad_send_version s in
  let pq_ratchet_field := take_outgoing_pq_field s in
  let identity_proof_ciphertext := identity_proof_ct s in
  let ad := associated_data ad_version (local_user_id s) (contact_id s) session_id_bytes
    (is_pq_ratchet (suite_id s)) {|
      ah_dh_public_key := dh_public_key;
      ah_message_number := message_number;
      ah_pq_message_epoch := pq_message_epoch;
      ah_pq_key_index := pq_key_index;
      ah_previous_chain_length := previous_sending_length s;
      ah_suite_id := as_u16 (suite_id s);
      ah_pq_ratchet_field := pq_ratchet_field;
      ah_identity_proof_ciphertext := identity_proof_ciphertext |} in
  ciphertext ← lift (map_err EncryptionFailed (aead_encrypt message_key nonce padded_plaintext (Some ad)));
  debug_assert (sending_chain_length s =? message_number + 1);;
  mret {|
    em_dh_public_key := dh_public_key;
    em_message_number := message_number;
    em_ciphertext := ciphertext;
    em_nonce := nonce;
    em_previous_chain_length := previous_sending_length s;
    em_suite_id := as_u16 (suite_id s);
    em_pq_message_epoch := pq_message_epoch;
    em_pq_key_index := pq_key_index;
    em_pq_ratchet_field := pq_ratchet_field;
    em_identity_proof_ciphertext := identity_proof_ciphertext;
    em_ad_version := ad_version |}.

Definition encrypt (plaintext : bytes) : dr EncryptedRatchetMessage :=
  padded_plaintext ← lift (map_err PaddingFailed (pad_message_default plaintext));
  maybe_start_pq_exchange_by_age;;
  '(pq_message_epoch, pq_key_index, pq_key) ← pq_send_key;
  s ← self;
  '(message_key, next_chain_key) ← lift (map_err KdfCkFailed (kdf_ck (sending_chain_key s)));
  message_key ← lift (mix_pq_message_key message_key pq_key);
  next_number ← lift (ok_or (checked_add32 (sending_chain_length s) 1) SendingChainOverflow);
  let message_number := sending_chain_length s in
  update (λ s, s <| sending_chain_key := next_chain_key |>
    <| sending_chain_length := next_number |>);;
  seal message_key padded_plaintext message_number pq_message_epoch pq_key_index.

(** ** decrypt *)

(** The AD versions this session still reads. *)
Definition check_ad_version (s : DoubleRatchetSession) (ad_version : Z) : res DrError unit :=
  if ad_version =? AD_VERSION_HEADER then Ok tt else
  if ad_version =? AD_VERSION_LEGACY then
    if peer_ad_version s <? AD_VERSION_HEADER then Ok tt
    else Err (AdDowngrade (peer_ad_version s))
  else Err (UnknownAdVersion ad_version).

Definition try_aead_decrypt (s : DoubleRatchetSession) (message_key : AeadKey)
    (encrypted : EncryptedRatchetMessage) : res DrError bytes :=
  let ad_version := em_ad_version encrypted in
  _ ← check_ad_version s ad_version;
  session_id_bytes ← ok_or (hex_decode (session_id s)) (SessionIdNotHex (session_id s));
  let ad := associated_data ad_version (contact_id s) (local_user_id s) session_id_bytes
    (is_pq_ratchet (suite_id s)) (ad_header_of encrypted) in
  padded_plaintext ← map_err DecryptionFailed
    (aead_decrypt message_key (em_nonce encrypted) (em_ciphertext encrypted) (Some ad));
  map_err UnpaddingFailed (unpad_message padded_plaintext).

Definition decrypt_with_key (message_key : AeadKey) (encrypted : EncryptedRatchetMessage)
    : dr bytes :=
  s ← self;
  let '(pq_epoch, pq_index) :=
    if is_pq_ratchet (suite_id s)
    then (em_pq_message_epoch encrypted, em_pq_key_index encrypted) else (0, 0) in
  pq_key ← pq_receive_key pq_epoch pq_index;
  message_key ← lift (mix_pq_message_key message_key pq_key);
  s ← self;
  plaintext ← lift (try_aead_decrypt s message_key encrypted);
  update (λ s, s <| peer_ad_version := Z.max (peer_ad_version s) (em_ad_version encrypted) |>);;
  mret plaintext.

(** Is a stored key too old, or without a timestamp? *)
Definition key_expired (t max_age_seconds : Z) (ts : option Z) : bool :=
  match ts with
  | Some ts => i64_sub (as_i64 t) (as_i64 ts) >=? max_age_seconds
  | None => true
  end.

Definition cleanup_at (t max_age_seconds : Z) (s : DoubleRatchetSession) : DoubleRatchetSession :=
  let keys_to_remove : gset (bytes * Z) :=
    dom (filter (λ kv, key_expired t max_age_seconds (skipped_key_timestamps s !! kv.1) = true)
           (skipped_message_keys s)) in
  let pq_expired : gset (Z * Z) :=
    dom (filter (λ kv, key_expired t max_age_seconds (pq_skipped_key_timestamps s !! kv.1) = true)
           (pq_skipped_keys s)) in
  s <| skipped_message_keys := filter (λ kv, kv.1 ∉ keys_to_remove) (skipped_message_keys s) |>
    <| skipped_key_timestamps := filter (λ kv, kv.1 ∉ keys_to_remove) (skipped_key_timestamps s) |>
    <| pq_skipped_keys := filter (λ kv, kv.1 ∉ pq_expired) (pq_skipped_keys s) |>
    <| pq_skipped_key_timestamps :=
         filter (λ kv, kv.1 ∉ pq_expired) (pq_skipped_key_timestamps s) |>.

Definition cleanup_old_skipped_keys (max_age_seconds : Z) : dr unit :=
  t ← now; update (cleanup_at t max_age_seconds).

(** The clean-up every hundredth received message starts with. *)
Definition periodic_cleanup : dr unit :=
  s ← self;
  if (receiving_chain_length s `mod` 100 =? 0)
     && negb (bool_decide (skipped_message_keys s = ∅) && bool_decide (pq_skipped_keys s = ∅))
  then cleanup_old_skipped_keys (max_skipped_message_age_seconds global)
  else mret tt.

Definition needs_ratchet (s : DoubleRatchetSession) (remote : KemPublicKey) : bool :=
  match remote_dh_public s with
  | Some current_remote => negb (bool_decide (kem_public_ref current_remote = kem_public_ref remote))
  | None => true
  end.

(** The CPU guards: how far a message may move the chains. *)
Definition check_jump (s : DoubleRatchetSession) (ratchet : bool)
    (encrypted : EncryptedRatchetMessage) : res DrError unit :=
  let max_jump := max_message_jump global in
  let n := em_message_number encrypted in
  let pn := em_previous_chain_length encrypted in
  if ratchet then
    if n >? max_jump then Err (JumpAfterDhStep n max_jump) else
    if pn >? sat_add32 (receiving_chain_length s) max_jump
    then Err (PreviousChainJump (receiving_chain_length s) pn max_jump) else Ok tt
  else
    if n >? sat_add32 (receiving_chain_length s) max_jump
    then Err (MessageJump (receiving_chain_length s) n max_jump) else Ok tt.

Section with_snapshot.
Variable snapshot : DecryptSnapshot.

(** [self.restore_snapshot(snapshot); return Err(e)] *)
Definition fail_restoring {A} (e : DrError) : dr A :=
  update (restore_snapshot snapshot);; throw e.

Definition restoring {A} (m : dr A) : dr A := restore_on_err (restore_snapshot snapshot) m.

(** Keep [msg_key] for the chain's current position and step the chain. *)
Definition store_skipped (chain : bytes) (msg_key next_chain : AeadKey) : dr unit :=
  t ← now;
  update (λ s, s
    <| skipped_message_keys :=
         <[(chain, receiving_chain_length s) := msg_key]> (skipped_message_keys s) |>
    <| skipped_key_timestamps :=
         <[(chain, receiving_chain_length s) := t]> (skipped_key_timestamps s) |>
    <| receiving_chain_key := next_chain |>).

Definition bump_receiving_length : dr unit :=
  s ← self;
  match checked_add32 (receiving_chain_length s) 1 with
  | Some v => update (λ s, s <| receiving_chain_length := v |>)
  | None => fail_restoring ReceivingChainOverflow
  end.

Definition too_many_skipped (s : DoubleRatchetSession) : bool :=
  Z.of_nat (size (skipped_message_keys s)) >=? max_skipped_messages global.

(** [while self.receiving_chain_length < pn]. Every round moves the length by
    one, so the distance to [pn] bounds the rounds. *)
Fixpoint skip_old_chain (rounds : nat) (old_chain : bytes) (pn : Z) : dr unit :=
  s ← self;
  if negb (receiving_chain_length s <? pn) then mret tt else
  match rounds with
  | O => lift Panic
  | S rounds =>
      if too_many_skipped s then fail_restoring TooManySkippedMessages else
      '(msg_key, next_chain) ←
        restoring (lift (map_err KdfCkFailed (kdf_ck (receiving_chain_key s))));
      store_skipped old_chain msg_key next_chain;;
      bump_receiving_length;;
      skip_old_chain rounds old_chain pn
  end.

(** The message's own position is reached: take its key and open it. *)
Definition open_in_order (ratchet : bool) (msg_key next_chain : AeadKey)
    (encrypted : EncryptedRatchetMessage) : dr bytes :=
  update (λ s, s <| receiving_chain_key := next_chain |>);;
  bump_receiving_length;;
  s ← self;
  debug_assert (receiving_chain_length s =? em_message_number encrypted + 1);;
  plaintext ← restoring (decrypt_with_key msg_key encrypted);
  commit_pq_post_decrypt encrypted;;
  (if ratchet then update complete_identity_proof else mret tt);;
  mret plaintext.

(** [while self.receiving_chain_length <= encrypted.message_number], and what
    follows the loop. *)
Fixpoint receive_loop (rounds : nat) (ratchet : bool) (encrypted : EncryptedRatchetMessage)
    : dr bytes :=
  s ← self;
  if negb (receiving_chain_length s <=? em_message_number encrypted) then
    update (restore_snapshot snapshot);;
    s ← self;
    throw (MessageKeyConsumed (em_message_number encrypted) (receiving_chain_length s))
  else
  match rounds with
  | O => lift Panic
  | S rounds =>
      '(msg_key, next_chain) ←
        restoring (lift (map_err KdfCkFailed (kdf_ck (receiving_chain_key s))));
      if receiving_chain_length s =? em_message_number encrypted
      then open_in_order ratchet msg_key next_chain encrypted
      else
        store_skipped (em_dh_public_key encrypted) msg_key next_chain;;
        bump_receiving_length;;
        s ← self;
        if too_many_skipped s then fail_restoring TooManySkippedMessages
        else receive_loop rounds ratchet encrypted
  end.

(** The DH step of a message with a new ratchet key: keep the rest of the old
    chain, then ratchet. *)
Definition ratchet_to (remote : KemPublicKey) (encrypted : EncryptedRatchetMessage)
    (identity_secret : option bytes) : dr unit :=
  s ← self;
  (match remote_dh_public s with
   | Some old_remote_dh =>
       let pn := em_previous_chain_length encrypted in
       skip_old_chain (Z.to_nat (pn - receiving_chain_length s)) (kem_public_ref old_remote_dh) pn
   | None => mret tt
   end);;
  restoring (perform_dh_ratchet remote identity_secret).

(** A message whose key was kept. *)
Definition open_skipped (key : AeadKey) (slot : bytes * Z) (encrypted : EncryptedRatchetMessage)
    : dr bytes :=
  update (λ s, s <| skipped_message_keys := delete slot (skipped_message_keys s) |>
    <| skipped_key_timestamps := delete slot (skipped_key_timestamps s) |>);;
  s ← self;
  let recv_len_before := receiving_chain_length s in
  plaintext ← restoring (decrypt_with_key key encrypted);
  s ← self;
  debug_assert (receiving_chain_length s =? recv_len_before);;
  commit_pq_post_decrypt encrypted;;
  mret plaintext.

(** A message of the current chain or of a new one. *)
Definition open_on_chain (remote : KemPublicKey) (ratchet : bool)
    (encrypted : EncryptedRatchetMessage) (identity_secret : option bytes) : dr bytes :=
  s ← self;
  lift (check_jump s ratchet encrypted);;
  (if ratchet then ratchet_to remote encrypted identity_secret else mret tt);;
  s ← self;
  receive_loop (Z.to_nat (em_message_number encrypted - receiving_chain_length s + 1))
    ratchet encrypted.
End with_snapshot.

(** What [decrypt_message] does once the clean-up is over. *)
Definition decrypt_clean (encrypted : EncryptedRatchetMessage) (identity_secret : option bytes)
    : dr bytes :=
  s ← self;
  let remote := kem_public_key_from_bytes (em_dh_public_key encrypted) in
  let ratchet := needs_ratchet s remote in
  let snapshot := take_snapshot s in
  let slot := (em_dh_public_key encrypted, em_message_number encrypted) in
  match skipped_message_keys s !! slot with
  | Some key => open_skipped snapshot key slot encrypted
  | None => open_on_chain snapshot remote ratchet encrypted identity_secret
  end.

Definition decrypt_message (encrypted : EncryptedRatchetMessage)
    (identity_secret : option bytes) : dr bytes :=
  periodic_cleanup;; decrypt_clean encrypted identity_secret.

Definition decrypt_with_identity_secret (encrypted : EncryptedRatchetMessage)
    (identity_secret : option bytes) : dr bytes :=
  result ← decrypt_message encrypted identity_secret;
  update (λ s, s <| prekey_header := None |>);;
  mret result.

Definition decrypt (encrypted : EncryptedRatchetMessage) : dr bytes :=
  decrypt_with_identity_secret encrypted None.

(** ** The responder's session *)

(** The keys of the responder: what the first message's ephemeral key and the
    handshake's root give. *)
Definition responder_keys (root_key : bytes) (local_identity : KemPrivateKey)
    (remote_dh_public : KemPublicKey) (contact_id local_user_id : string)
    : res DrError (string * AeadKey * AeadKey) :=
  shared_session_id ← map_err ResponderSessionId
    (derive_shared_session_id root_key local_user_id contact_id);
  root_key_vec ← map_err DeriveRootKey
    (hkdf_derive_key initial_salt root_key (as_bytes "InitialRootKey") 32);
  let root_key_val := aead_key_from_bytes root_key_vec in
  dh_output ← map_err PerformDh (kem_decapsulate local_identity (kem_public_ref remote_dh_public));
  '(new_root_key, receiving_chain) ← map_err KdfRkFailed (kdf_rk root_key_val dh_output);
  Ok (shared_session_id, new_root_key, receiving_chain).

(** The second step, with the freshly generated pair. *)
Definition responder_sending (root_key_val : AeadKey) (dh_private : KemPrivateKey)
    (remote_dh_public : KemPublicKey) (first_message : EncryptedRatchetMessage)
    : res DrError (AeadKey * AeadKey * SuiteID) :=
  dh_output2 ← map_err PerformDh (kem_decapsulate dh_private (kem_public_ref remote_dh_public));
  '(final_root_key, sending_chain) ← map_err KdfRkFailed (kdf_rk root_key_val dh_output2);
  suite_id ← map_err (λ e, InvalidSuiteInFirstMessage (invalid_suite_id e))
    (suite_new (em_suite_id first_message));
  Ok (final_root_key, sending_chain, suite_id).

(** The responder's session before the first message is opened. *)
Definition responder_base (root_key : bytes) (local_identity : KemPrivateKey)
    (first_message : EncryptedRatchetMessage) (contact_id local_user_id : string)
    : stm World DrError DoubleRatchetSession :=
  let remote := kem_public_key_from_bytes (em_dh_public_key first_message) in
  '(shared_session_id, root_key_val, receiving_chain) ←
    lift (responder_keys root_key local_identity remote contact_id local_user_id);
  '(dh_private, dh_public) ← map_err_m GenerateDhKeys generate_kem_keys;
  '(final_root_key, sending_chain, suite_id) ←
    lift (responder_sending root_key_val dh_private remote first_message);
  epoch_since ← read_clock;
  ratchet_at ← read_clock;
  mret {|
    suite_id := suite_id;
    root_key := final_root_key;
    sending_chain_key := sending_chain;
    sending_chain_length := 0;
    receiving_chain_key := receiving_chain;
    receiving_chain_length := 0;
    dh_ratchet_private := Some dh_private;
    dh_ratchet_public := dh_public;
    remote_dh_public := Some remote;
    previous_sending_length := 0;
    skipped_message_keys := ∅;
    skipped_key_timestamps := ∅;
    prekey_header := None;
    pq_handshake := PhNone;
    pq_turns_since_mix := 0;
    is_pq_initiator := false;
    current_pq_epoch := 0;
    pq_chains := [];
    pq_skipped_keys := ∅;
    pq_skipped_key_timestamps := ∅;
    pending_pq_exchange := None;
    pending_pq_ciphertext := None;
    pq_pending_since := 0;
    pq_epoch_since := epoch_since;
    session_id := shared_session_id;
    contact_id := contact_id;
    local_user_id := local_user_id;
    last_ratchet_at := ratchet_at;
    peer_ad_version := AD_VERSION_LEGACY;
    pq_authentication := PaClassic;
    pq_applied := Some false;
    identity_proof := IpNone;
  |}.

Definition new_responder_session (root_key : bytes) (local_identity : KemPrivateKey)
    (first_message : EncryptedRatchetMessage) (contact_id local_user_id : string)
    : stm World DrError (DoubleRatchetSession * bytes) := λ w,
  match responder_base root_key local_identity first_message contact_id local_user_id w with
  | (w, Ok session) =>
      match decrypt first_message (session, w) with
      | ((session, w), Ok plaintext) => (w, Ok (session, plaintext))
      | ((_, w), Err e) => (w, Err e)
      | ((_, w), Panic) => (w, Panic)
      end
  | (w, Err e) => (w, Err e)
  | (w, Panic) => (w, Panic)
  end.
End ratchet.
