(* ===== verification/RatchetDemo.v ===== *)
(** * Double ratchet: a conversation that evaluates

    A session of each side over the concrete crates of [Toy.v], and the first
    messages between them; the theorems of the ratchet are applied to them
    where they need an input. *)

From S2P Require Import Prelude SuiteId Padding Platform Classic Toy RatchetTypes RatchetPq.
From S2P Require Import Ratchet.

(** A session before anything is derived; only the fallback of [result]. *)
#[global] Instance session_inhabited `{Platform} : Inhabited DoubleRatchetSession := populate {|
  suite_id := CLASSIC; root_key := [] : bytes; sending_chain_key := [] : bytes;
  sending_chain_length := 0; receiving_chain_key := [] : bytes; receiving_chain_length := 0;
  dh_ratchet_private := None; dh_ratchet_public := [] : bytes; remote_dh_public := None;
  previous_sending_length := 0; skipped_message_keys := ∅; skipped_key_timestamps := ∅;
  prekey_header := None; pq_handshake := PhNone; pq_turns_since_mix := 0;
  is_pq_initiator := false; current_pq_epoch := 0; pq_chains := [];
  pq_skipped_keys := ∅; pq_skipped_key_timestamps := ∅; pending_pq_exchange := None;
  pending_pq_ciphertext := None; pq_pending_since := 0; pq_epoch_since := 0;
  session_id := EmptyString; contact_id := EmptyString; local_user_id := EmptyString; last_ratchet_at := 0;
  peer_ad_version := 0; pq_authentication := PaUnknown; pq_applied := None;
  identity_proof := IpNone |}.

#[global] Instance message_inhabited : Inhabited EncryptedRatchetMessage := populate {|
  em_dh_public_key := []; em_message_number := 0; em_ciphertext := []; em_nonce := [];
  em_previous_chain_length := 0; em_suite_id := 0; em_pq_message_epoch := 0;
  em_pq_key_index := 0; em_pq_ratchet_field := None; em_identity_proof_ciphertext := None;
  em_ad_version := 0 |}.

Definition result {E A} `{Inhabited A} (r : res E A) : A :=
  match r with Ok a => a | _ => inhabitant end.

Definition is_ok {E A} (r : res E A) : bool := match r with Ok _ => true | _ => false end.
Lemma result_ok {E A} `{Inhabited A} (r : res E A) : is_ok r = true → r = Ok (result r).
Proof. by destruct r. Qed.
Lemma run_eq {S W E A} (x : (S * W) * res E A) r : x.2 = r → x = ((x.1.1, x.1.2), r).
Proof. by destruct x as [[??] ?]; intros <-. Qed.

Definition demo_bytes (z : Z) : bytes := replicate 32 (byte_of_Z z).
Definition demo_world : World := 100.

(** Alice opens a session to Bob, whose identity key pair is [demo_bytes 77]. *)
Definition demo_initiator (suite : SuiteID) : stm World DrError DoubleRatchetSession :=
  new_initiator_session (demo_bytes 9) (mkInitiatorState (demo_bytes 55)) (demo_bytes 77)
    "bob" "alice" suite.
Definition demo_alice (suite : SuiteID) : DoubleRatchetSession :=
  result (demo_initiator suite demo_world).2.

(** Her first message, and Bob's session once he has read it. *)
Definition demo_hello : bytes := [byte_of_Z 1; byte_of_Z 2].
Definition demo_first (suite : SuiteID) : EncryptedRatchetMessage :=
  result (encrypt demo_hello (demo_alice suite, demo_world)).2.
Definition demo_responder (suite : SuiteID) : stm World DrError (DoubleRatchetSession * bytes) :=
  new_responder_session (demo_bytes 9) (demo_bytes 77) (demo_first suite) "alice" "bob".
Definition demo_bob (suite : SuiteID) : DoubleRatchetSession :=
  (result (demo_responder suite demo_world).2).1.

(** A message of Alice's with its last byte changed on the way. *)
Definition demo_tampered (suite : SuiteID) : EncryptedRatchetMessage :=
  (demo_first suite) <| em_ciphertext := em_ciphertext (demo_first suite) ++ [byte_of_Z 1] |>
                   <| em_dh_public_key := demo_bytes 56 |>.
