(* ===== verification/RatchetRollback.v ===== *)
(** * Double ratchet: a failed decrypt leaves the session alone

    [decrypt] changes keys, counters, maps and the PQ chains before it knows
    whether the message authenticates. The theorem of this file is that a
    failing [decrypt] of [messaging.rs] gives all of that back. *)

From S2P Require Import Prelude SuiteId Padding Platform Wp Classic Toy RatchetTypes RatchetPq.
From S2P Require Import Ratchet RatchetDemo.

Section rollback.
Context `{MlKemCrate} `{!HexCrate} `{!CryptoProvider}.
Abbreviation dr A := (method DoubleRatchetSession DrError A).

(** The fields no snapshot holds, [last_ratchet_at] apart. *)
Definition unsnapped (s : DoubleRatchetSession) :=
  (suite_id s, prekey_header s, pq_handshake s, is_pq_initiator s, pq_epoch_since s,
   session_id s, contact_id s, local_user_id s, peer_ad_version s, pq_applied s).

Definition same_but_ratchet_time (s0 s : DoubleRatchetSession) : Prop :=
  s = s0 <| last_ratchet_at := last_ratchet_at s |>.

Lemma restore_take s0 s :
  unsnapped s = unsnapped s0 →
  same_but_ratchet_time s0 (restore_snapshot (take_snapshot s0) s).
Proof. destruct s, s0. unfold unsnapped, same_but_ratchet_time. simpl. by intros [= -> -> -> -> -> -> -> -> -> ->]. Qed.

Lemma same_refl s : same_but_ratchet_time s s.
Proof. by destruct s. Qed.

(** A method that, whatever its outcome, keeps the part [f] of the session. *)
Definition keeps {X A} (f : DoubleRatchetSession → X) (m : dr A) : Prop := ∀ s w,
  wp True m (s, w) (λ _ sw, f sw.1 = f s) (λ _ sw, f sw.1 = f s).

Section keeps.
Context {X : Type} (p : DoubleRatchetSession → X).

Lemma keeps_bind {A B} (m : dr A) (f : A → dr B) :
  keeps p m → (∀ a, keeps p (f a)) → keeps p (m ≫= f).
Proof.
  intros Hm Hf s w. apply wp_bind. eapply wp_mono; [apply Hm| |done].
  intros a [s' w'] Hs. simpl in *. eapply wp_mono; [apply Hf|..]; simpl; congruence.
Qed.
Lemma keeps_ret {A} (a : A) : keeps p (mret a).
Proof. done. Qed.
Lemma keeps_throw {A} e : keeps p (@throw _ _ A e).
Proof. done. Qed.
Lemma keeps_self : keeps p self.
Proof. done. Qed.
Lemma keeps_now : keeps p now.
Proof. intros s w. by wp_step. Qed.
Lemma keeps_update f : (∀ s, p (f s) = p s) → keeps p (update f).
Proof. intros Hf s w. apply Hf. Qed.
Lemma keeps_lift {A} (r : res DrError A) : keeps p (lift r).
Proof. intros s w. apply wp_lift. by destruct r. Qed.
Lemma keeps_world {E A} (f : E → DrError) (m : stm World E A) :
  keeps p (map_err_m f (on_world m)).
Proof. intros s w. wp_steps. unfold wp. by destruct (m w) as [? []]. Qed.
Lemma keeps_attempt {E A} (mm : stm World E A) : keeps p (attempt (on_world mm)).
Proof. intros s w. wp_steps. unfold wp. by destruct (mm w) as [? []]. Qed.
Lemma keeps_attempt_lift {E A} (r : res E A) : keeps p (attempt (lift r)).
Proof. intros s w. wp_step. apply wp_lift. by destruct r. Qed.
End keeps.
End rollback.

Create HintDb keeps.
#[global] Hint Resolve keeps_ret keeps_throw keeps_self keeps_now keeps_lift keeps_world keeps_attempt
  keeps_attempt_lift : keeps.

(** Split a method into its calls and resolve each from the hint base. *)
Ltac keeps_tac :=
  repeat first
    [ progress intros
    | solve [eauto with keeps]
    | apply keeps_bind
    | by (apply keeps_update; intros [])
    | match goal with
      | |- keeps _ (if ?b then _ else _) => destruct b
      | |- keeps _ (match ?o with Some _ => _ | None => _ end) => destruct o
      | |- keeps _ (match ?p with (_, _) => _ end) => destruct p
      | |- keeps _ (match ?o with Ok _ => _ | Err _ => _ | Panic => _ end) => destruct o
      | |- keeps _ (match ?o with PublicKey _ _ => _ | _ => _ end) => destruct o
      end ].

Section rollback.
Context `{MlKemCrate} `{!HexCrate} `{!CryptoProvider}.
Abbreviation dr A := (method DoubleRatchetSession DrError A).

Lemma keeps_start : keeps unsnapped start_pq_exchange.
Proof. unfold start_pq_exchange. keeps_tac. Qed.
Hint Resolve keeps_start : keeps.

Lemma keeps_abandon : keeps unsnapped abandon_unanswered_pq_exchange.
Proof. unfold abandon_unanswered_pq_exchange. keeps_tac. Qed.
Hint Resolve keeps_abandon : keeps.

Lemma keeps_epoch_is_old : keeps unsnapped pq_epoch_is_old.
Proof. unfold pq_epoch_is_old. keeps_tac. Qed.
Hint Resolve keeps_epoch_is_old : keeps.

Lemma keeps_maybe_advance : keeps unsnapped maybe_advance_pq_ratchet.
Proof. unfold maybe_advance_pq_ratchet. keeps_tac. Qed.
Hint Resolve keeps_maybe_advance : keeps.

Lemma keeps_debug_assert b : keeps unsnapped (debug_assert b).
Proof. unfold debug_assert. keeps_tac. Qed.
Hint Resolve keeps_debug_assert : keeps.

Lemma keeps_dh_ratchet k sec : keeps unsnapped (perform_dh_ratchet k sec).
Proof. unfold perform_dh_ratchet. keeps_tac. Qed.
Hint Resolve keeps_dh_ratchet : keeps.

Lemma unsnapped_write_recv e st s : unsnapped (write_recv e st s) = unsnapped s.
Proof. unfold write_recv, set_recv_chain. by destruct (find_epoch e (pq_chains s)), s. Qed.

Lemma keeps_advance_recv c e i t : keeps unsnapped (advance_recv_chain c e i t).
Proof.
  intros s w. unfold wp, advance_recv_chain. simpl.
  destruct (pq_recv_loop _ _ _ _ _) as [st []]; simpl; try done; apply unsnapped_write_recv.
Qed.
Hint Resolve keeps_advance_recv : keeps.

Lemma keeps_pq_receive e i : keeps unsnapped (pq_receive_key e i).
Proof. unfold pq_receive_key. keeps_tac. Qed.

Lemma store_skipped_keeps c k n s w :
  wp True (store_skipped c k n) (s, w)
    (λ _ sw, unsnapped sw.1 = unsnapped s) (λ _ _, False).
Proof. unfold store_skipped. by wp_steps. Qed.

(** The last change of [decrypt_with_key] follows its last check. *)
Lemma decrypt_with_key_keeps k m s w :
  wp True (decrypt_with_key k m) (s, w) (λ _ _, True) (λ _ sw, unsnapped sw.1 = unsnapped s).
Proof.
  unfold decrypt_with_key. do 4 wp_step.
  eapply wp_mono; [apply keeps_pq_receive| |done].
  intros k' [s' w'] Hs. wp_step. apply wp_lift_cases; [|done..]. intros.
  do 3 wp_step. apply wp_lift_cases; [|done..]. intros. by wp_steps.
Qed.

(** [commit_pq_post_decrypt] returns nothing and cannot fail. *)
Definition infallible {A} (m : dr A) : Prop := ∀ sw, wp True m sw (λ _ _, True) (λ _ _, False).

Lemma infallible_bind {A B} (m : dr A) (f : A → dr B) :
  infallible m → (∀ a, infallible (f a)) → infallible (m ≫= f).
Proof.
  intros Hm Hf sw. apply wp_bind. eapply wp_mono; [apply Hm| |done]. intros a s' _. apply Hf.
Qed.

Lemma infallible_lift_hash ek : infallible (lift (pq_ek_hash ek)).
Proof.
  intros sw. apply wp_lift. unfold pq_ek_hash. by repeat case_match.
Qed.

Lemma infallible_attempt {E A} (m : stm _ E A) : infallible (attempt m).
Proof. intros sw. apply wp_attempt. unfold wp. by destruct (m sw) as [? []]. Qed.

Ltac infallible_tac :=
  repeat first
    [ done
    | progress intros
    | apply infallible_bind
    | apply infallible_lift_hash
    | apply infallible_attempt
    | match goal with
      | |- infallible (if ?b then _ else _) => destruct b
      | |- infallible (match ?o with Some _ => _ | None => _ end) => destruct o
      | |- infallible (match ?o with Ok _ => _ | Err _ => _ | Panic => _ end) => destruct o
      | |- infallible (match ?o with PublicKey _ _ => _ | _ => _ end) => destruct o
      end ].

Lemma infallible_now : infallible now.
Proof. intros [s w]. by wp_step. Qed.

Lemma infallible_commit m : infallible (commit_pq_post_decrypt m).
Proof.
  unfold commit_pq_post_decrypt, promote_pending_ciphertext, ingest_public_key, ingest_ciphertext.
  infallible_tac; apply infallible_now.
Qed.

(** ** The phases of [decrypt_message] *)

Section from_snapshot.
Variable s0 : DoubleRatchetSession.

(** What every failure leaves: the session the snapshot was taken of. *)
Abbreviation restored := (λ (_ : DrError) (sw : DoubleRatchetSession * World),
  same_but_ratchet_time s0 sw.1).

Lemma restoring_keeps {A} (m : dr A) s w :
  keeps unsnapped m → unsnapped s = unsnapped s0 →
  wp True (restoring (take_snapshot s0) m) (s, w)
    (λ _ sw, unsnapped sw.1 = unsnapped s0) restored.
Proof.
  intros Hm Hs. apply wp_restore_on_err. eapply wp_mono; [apply Hm|..]; simpl.
  - intros _ sw ->. done.
  - intros _ sw Hsw. apply restore_take. congruence.
Qed.

Lemma fail_restoring_restores {A} e s w (Q : A → _ → Prop) :
  unsnapped s = unsnapped s0 →
  wp True (fail_restoring (take_snapshot s0) e) (s, w) Q restored.
Proof. intros Hs. unfold fail_restoring. wp_steps. by apply restore_take. Qed.

Lemma bump_restores s w :
  unsnapped s = unsnapped s0 →
  wp True (bump_receiving_length (take_snapshot s0)) (s, w)
    (λ _ sw, unsnapped sw.1 = unsnapped s0) restored.
Proof.
  intros Hs. unfold bump_receiving_length. do 2 wp_step.
  destruct (checked_add32 _ _); [wp_step; exact Hs|by apply fail_restoring_restores].
Qed.

Lemma skip_restores n c pn s w :
  unsnapped s = unsnapped s0 →
  wp True (skip_old_chain (take_snapshot s0) n c pn) (s, w)
    (λ _ sw, unsnapped sw.1 = unsnapped s0) restored.
Proof.
  revert s w. induction n as [|n IH]; intros s w Hs; simpl skip_old_chain; do 3 wp_step;
    try done.
  wp_step; [by apply fail_restoring_restores|].
  wp_step. eapply wp_mono; [apply restoring_keeps; [apply keeps_lift|done]| |done].
  intros [mk nc] [s1 w1] Hs1. simpl in Hs1. wp_step.
  eapply wp_mono; [apply store_skipped_keeps| |done].
  intros _ [s2 w2] Hs2. simpl in Hs2. wp_step.
  eapply wp_mono; [apply bump_restores; congruence| |done].
  intros _ [s3 w3] Hs3. by apply IH.
Qed.

Lemma infallible_wp {A} (m : dr A) sw Q R :
  infallible m → (∀ a sw', Q a sw') → wp True m sw Q R.
Proof. intros Hm HQ. eapply wp_mono; [apply Hm|..]; [by intros|done]. Qed.

Lemma restoring_decrypt_with_key k m s w :
  unsnapped s = unsnapped s0 →
  wp True (restoring (take_snapshot s0) (decrypt_with_key k m)) (s, w) (λ _ _, True) restored.
Proof.
  intros Hs. apply wp_restore_on_err.
  eapply wp_mono; [apply decrypt_with_key_keeps|done|].
  intros e sw Hsw. apply restore_take. congruence.
Qed.

Lemma open_in_order_restores r k n m s w :
  unsnapped s = unsnapped s0 →
  wp True (open_in_order (take_snapshot s0) r k n m) (s, w) (λ _ _, True) restored.
Proof.
  intros Hs. unfold open_in_order. wp_step. wp_step. wp_step.
  eapply wp_mono; [apply bump_restores; exact Hs| |done].
  intros _ [s1 w1] Hs1. simpl in Hs1. do 2 wp_step. wp_step.
  unfold debug_assert. wp_step; [|by apply wp_lift].
  do 2 wp_step. eapply wp_mono; [by apply restoring_decrypt_with_key| |done].
  intros p [s2 w2] _. wp_step. apply infallible_wp; [apply infallible_commit|].
  intros _ [s3 w3]. by destruct r; wp_steps.
Qed.

Lemma receive_restores n r m s w :
  unsnapped s = unsnapped s0 →
  wp True (receive_loop (take_snapshot s0) n r m) (s, w) (λ _ _, True) restored.
Proof.
  revert s w. induction n as [|n IH]; intros s w Hs; simpl receive_loop; do 3 wp_step;
    try (by wp_steps; apply restore_take); [done|].
  wp_step. eapply wp_mono; [apply restoring_keeps; [apply keeps_lift|done]| |done].
  intros [mk nc] [s1 w1] Hs1. simpl in Hs1. wp_step; [by apply open_in_order_restores|].
  wp_step. eapply wp_mono; [apply store_skipped_keeps| |done].
  intros _ [s2 w2] Hs2. simpl in Hs2. wp_step.
  eapply wp_mono; [apply bump_restores; congruence| |done].
  intros _ [s3 w3] Hs3. do 3 wp_step; [by apply fail_restoring_restores|by apply IH].
Qed.

Lemma ratchet_to_restores k m sec s w :
  unsnapped s = unsnapped s0 →
  wp True (ratchet_to (take_snapshot s0) k m sec) (s, w)
    (λ _ sw, unsnapped sw.1 = unsnapped s0) restored.
Proof.
  intros Hs. unfold ratchet_to. do 3 wp_step.
  eapply (wp_mono _ _ _ (λ _ sw, unsnapped sw.1 = unsnapped s0) _ restored); [| |done].
  - destruct (remote_dh_public s); [by apply skip_restores|by wp_step].
  - intros _ [s1 w1] Hs1. by apply restoring_keeps; [apply keeps_dh_ratchet|].
Qed.
End from_snapshot.

Lemma decrypt_clean_restores m sec s w :
  wp True (decrypt_clean m sec) (s, w) (λ _ _, True) (λ _ sw, same_but_ratchet_time s sw.1).
Proof.
  unfold decrypt_clean. do 2 wp_step. wp_step.
  - unfold open_skipped. wp_step. wp_step. do 3 wp_step.
    eapply wp_mono; [by apply restoring_decrypt_with_key| |done].
    intros p [s2 w2] _. do 3 wp_step. unfold debug_assert.
    wp_step; [|by apply wp_lift]. do 2 wp_step.
    apply infallible_wp; [apply infallible_commit|]. by intros; wp_step.
  - unfold open_on_chain. do 3 wp_step.
    apply wp_lift_cases; [|intros; apply same_refl|done]. intros _ _. wp_step.
    eapply (wp_mono _ _ _ (λ _ sw, unsnapped sw.1 = unsnapped s) _
             (λ _ sw, same_but_ratchet_time s sw.1)); [| |done].
    + destruct (needs_ratchet _ _); [by apply ratchet_to_restores|by wp_step].
    + intros _ [s1 w1] Hs1. do 2 wp_step. by apply receive_restores.
Qed.

Lemma decrypt_failure_restores m sec s w s' w' e :
  decrypt_with_identity_secret m sec (s, w) = ((s', w'), Err e) →
  ∃ c w1, periodic_cleanup (s, w) = ((c, w1), Ok tt) ∧ same_but_ratchet_time c s'.
Proof.
  unfold decrypt_with_identity_secret, decrypt_message.
  unfold mbind at 1, stm_bind at 1, mbind at 1, stm_bind at 1.
  assert (∃ c w1, periodic_cleanup (s, w) = ((c, w1), Ok tt)) as (c & w1 & Hc).
  { unfold periodic_cleanup, cleanup_old_skipped_keys, now, update, self, mbind, stm_bind. simpl.
    case_match; simpl; [|by eexists _, _]. destruct (clock w). by eexists _, _. }
  rewrite Hc. pose proof (decrypt_clean_restores m sec c w1) as Hw. unfold wp in Hw.
  destruct (decrypt_clean m sec (c, w1)) as [[s2 w2] [p|e'|]]; simpl; intros [= -> -> ->].
  exists c, w1. done.
Qed.

(** C6: a message that does not decrypt changes nothing. When [decrypt] fails,
    whatever the message and wherever it fails (a forged key, number, PQ epoch
    or tag, a DoS bound, a failing primitive), the session is the one the
    periodic clean-up of expired keys left, field by field, up to
    [last_ratchet_at], which the snapshot does not hold. *)
Theorem decrypt_failure_rolls_back m sec s w s' w' e :
  decrypt_with_identity_secret m sec (s, w) = ((s', w'), Err e) →
  ∃ c w1, periodic_cleanup (s, w) = ((c, w1), Ok tt) ∧ same_but_ratchet_time c s'.
Proof. apply decrypt_failure_restores. Qed.

(** ** What no decrypt changes *)

(** The session's id and its two names. *)
Definition names (s : DoubleRatchetSession) := (session_id s, contact_id s, local_user_id s).

Lemma unsnapped_names {A} (m : dr A) : keeps unsnapped m → keeps names m.
Proof.
  intros Hm s w. eapply wp_mono; [apply Hm|..]; cbn beta; intros ? [s' w'] Hs; unfold unsnapped, names in *; simpl in *; congruence.
Qed.
Lemma keeps_restoring {A} sn (m : dr A) : keeps names m → keeps names (restoring sn m).
Proof. intros Hm s w. unfold restoring. wp_step. eapply wp_mono; [apply Hm|done|]. intros e [s' w'] Hs. exact Hs. Qed.
Lemma keeps_fail_restoring {A} sn e : keeps names (fail_restoring (A:=A) sn e).
Proof. unfold fail_restoring. keeps_tac. Qed.

Lemma keeps_cleanup : keeps names periodic_cleanup.
Proof. unfold periodic_cleanup, cleanup_old_skipped_keys. keeps_tac. Qed.
Lemma names_pq_receive e i : keeps names (pq_receive_key e i).
Proof. apply unsnapped_names, keeps_pq_receive. Qed.
Lemma names_dh_ratchet k sec : keeps names (perform_dh_ratchet k sec).
Proof. apply unsnapped_names, keeps_dh_ratchet. Qed.
Lemma names_assert b : keeps names (debug_assert b).
Proof. apply unsnapped_names, keeps_debug_assert. Qed.
Hint Resolve keeps_restoring keeps_fail_restoring keeps_cleanup names_pq_receive names_dh_ratchet names_assert : keeps.

Lemma names_with_key k m : keeps names (decrypt_with_key k m).
Proof. unfold decrypt_with_key. keeps_tac. Qed.
Lemma names_commit m : keeps names (commit_pq_post_decrypt m).
Proof. unfold commit_pq_post_decrypt, promote_pending_ciphertext, ingest_public_key, ingest_ciphertext. keeps_tac. Qed.
Hint Resolve names_with_key names_commit : keeps.
Lemma names_skipped sn k sl m : keeps names (open_skipped sn k sl m).
Proof. unfold open_skipped. keeps_tac. Qed.
Lemma names_bump sn : keeps names (bump_receiving_length sn).
Proof. unfold bump_receiving_length. keeps_tac. Qed.
Lemma names_store c k n : keeps names (store_skipped c k n).
Proof. unfold store_skipped. keeps_tac. Qed.
Hint Resolve names_skipped names_bump names_store : keeps.

Lemma names_skip_old sn n c pn : keeps names (skip_old_chain sn n c pn).
Proof. induction n; cbn [skip_old_chain]; keeps_tac. Qed.
Lemma names_complete s : names (complete_identity_proof s) = names s.
Proof. unfold complete_identity_proof. by case_match. Qed.
Lemma names_in_order sn r k n m : keeps names (open_in_order sn r k n m).
Proof. unfold open_in_order. keeps_tac. apply keeps_update, names_complete. Qed.
Hint Resolve names_skip_old names_in_order : keeps.
Lemma names_receive sn n r m : keeps names (receive_loop sn n r m).
Proof. induction n; cbn [receive_loop]; keeps_tac. Qed.
Lemma names_ratchet_to sn k m sec : keeps names (ratchet_to sn k m sec).
Proof. unfold ratchet_to. keeps_tac. Qed.
Hint Resolve names_receive names_ratchet_to : keeps.

Lemma decrypt_keeps_names m sec : keeps names (decrypt_with_identity_secret m sec).
Proof. unfold decrypt_with_identity_secret, decrypt_message, decrypt_clean, open_on_chain. keeps_tac. Qed.
End rollback.

Lemma decrypt_failure_rolls_back_witness :
  let r := decrypt_with_identity_secret (demo_tampered PQ_RATCHET) None
             (demo_bob PQ_RATCHET, demo_world) in
  ∃ c w1, periodic_cleanup (demo_bob PQ_RATCHET, demo_world) = ((c, w1), Ok tt) ∧
    same_but_ratchet_time c r.1.1.
Proof.
  intros r. eapply (decrypt_failure_rolls_back (demo_tampered PQ_RATCHET) None
    (demo_bob PQ_RATCHET) demo_world r.1.1 r.1.2). apply run_eq. vm_compute. reflexivity.
Defined.
