(* ===== verification/RatchetPqInv.v ===== *)
(** * Double ratchet: the invariant of the post-quantum layer

    [pq_inv] is what [validate_pq_ratchet_state] ([storage.rs]) calls "the
    invariants the runtime state machine maintains by construction". This file
    shows that every PQ operation of [internals.rs] maintains it. *)

From stdpp Require Import sorting.
From S2P Require Import Prelude SuiteId Platform Wp RatchetTypes RatchetPq.

(** ** The invariant *)

Definition chain_ok (c : PqChain) : Prop := is_u32 (chain_index c) ∧ len (chain_key c) = 32.

(** The chains of a completed epoch, when the epoch [current] sends. *)
Definition epoch_ok (current : Z) (c : PqEpochChains) : Prop :=
  0 < pc_epoch c ≤ current ∧ chain_ok (pc_recv c) ∧
  (∀ ch, pc_send c = Some ch → pc_epoch c = current ∧ chain_ok ch).

Definition epoch_lt (c d : PqEpochChains) : Prop := pc_epoch c < pc_epoch d.

Definition chains_ok (current : Z) (l : list PqEpochChains) : Prop :=
  len l ≤ PQ_CHAIN_RETENTION ∧ StronglySorted epoch_lt l ∧ Forall (epoch_ok current) l.

(** The current epoch, once there is one, has a chain to send on. *)
Definition sends (current : Z) (l : list PqEpochChains) : Prop :=
  0 < current → ∃ c, find_epoch current l = Some c ∧ is_Some (pc_send c).

(** A pair of maps that holds kept keys and when they were kept: every key has
    its time, there are at most [max_skipped_messages], and each has 32 bytes. *)
Definition skipped_ok {K V} `{Countable K} (ref : V → bytes) (keys : gmap K V) (ts : gmap K Z)
    : Prop :=
  dom keys = dom ts ∧ Z.of_nat (size keys) ≤ max_skipped_messages global ∧
  map_Forall (λ _ k, len (ref k) = 32) keys.

Definition exchange_ok (current : Z) (ex : PendingPqExchange) : Prop :=
  ex_epoch ex = sat_add32 current 1 ∧ len (kp_public (ex_keypair ex)) = MLKEM768_PK_SIZE ∧
  len (kp_secret (ex_keypair ex)) = MLKEM768_SK_SIZE.

Definition ciphertext_ok (current : Z) (p : PendingPqCiphertext) : Prop :=
  current < ct_epoch p ≤ u32_max ∧ len (ct_ek_hash p) = 8 ∧
  len (ct_ciphertext p) = MLKEM768_CT_SIZE ∧
  pc_epoch (ct_chains p) = ct_epoch p ∧ chain_ok (pc_recv (ct_chains p)) ∧
  ∃ ch, pc_send (ct_chains p) = Some ch ∧ chain_ok ch.

Record pq_ok (initiator : bool) (current : Z) (chains : list PqEpochChains)
    (keys : gmap (Z * Z) bytes) (ts : gmap (Z * Z) Z)
    (ex : option PendingPqExchange) (ct : option PendingPqCiphertext) : Prop := {
  pq_current : is_u32 current;
  pq_chains_ok : chains_ok current chains;
  pq_sends : sends current chains;
  pq_skipped_ok : skipped_ok id keys ts;
  pq_exchange_ok : ∀ x, ex = Some x → exchange_ok current x ∧ initiator = true;
  pq_ciphertext_ok : ∀ p, ct = Some p → ciphertext_ok current p ∧ initiator = false;
}.

(** ** Lists of epoch chains *)

Lemma insert_by_epoch_last c l :
  Forall (λ d, epoch_lt d c) l → insert_by_epoch c l = l ++ [c].
Proof.
  induction 1 as [|d l Hd Hl IH]; simpl; [done|]. unfold epoch_lt in Hd.
  rewrite (proj2 (Z.ltb_ge _ _)) by lia. by rewrite IH.
Qed.

Lemma sort_sorted acc l :
  StronglySorted epoch_lt (acc ++ l) →
  foldl (λ acc c, insert_by_epoch c acc) acc l = acc ++ l.
Proof.
  revert acc. induction l as [|c l IH]; intros acc Hs; simpl; [by rewrite app_nil_r|].
  rewrite insert_by_epoch_last.
  - rewrite IH; rewrite <- app_assoc; done.
  - apply Forall_forall. intros d Hd. by eapply StronglySorted_app_1_elem_of; [done..|left].
Qed.

Lemma find_epoch_Some e l c : find_epoch e l = Some c → c ∈ l ∧ pc_epoch c = e.
Proof.
  induction l as [|d l IH]; simpl; [done|].
  destruct (Z.eqb_spec (pc_epoch d) e) as [He|].
  - intros [= ->]. split; [left|done].
  - intros [??]%IH. split; [by right|done].
Qed.

Lemma find_epoch_last e l c :
  Forall (λ d, pc_epoch d ≠ e) l → pc_epoch c = e → find_epoch e (l ++ [c]) = Some c.
Proof.
  intros Hl He. induction Hl as [|d l Hd _ IH]; simpl.
  - by rewrite He, Z.eqb_refl.
  - by rewrite (proj2 (Z.eqb_neq _ _)).
Qed.

(** Removing the epoch from a list whose epochs go up to it. *)
Lemma remove_first_spec cur e l :
  cur ≤ e → StronglySorted epoch_lt l → Forall (epoch_ok cur) l →
  StronglySorted epoch_lt (remove_first_epoch e l) ∧
  Forall (λ c, 0 < pc_epoch c < e ∧ chain_ok (pc_recv c)) (remove_first_epoch e l) ∧
  len (remove_first_epoch e l) ≤ len l.
Proof.
  intros He Hs. revert He. induction Hs as [|c l Hs IH Hc]; intros He Hl; simpl.
  { by repeat split; try constructor. }
  apply Forall_cons_iff in Hl as [Hok Hl].
  destruct (IH He Hl) as (S1 & F1 & L1). rewrite !len_cons.
  destruct (Z.eqb_spec (pc_epoch c) e) as [Hce|Hce].
  - split; [done|]. split; [|lia]. apply Forall_forall. intros d Hd.
    rewrite Forall_forall in Hc. pose proof (Hc d Hd) as Hcd.
    rewrite Forall_forall in Hl. destruct (Hl d Hd) as (Hd' & _). unfold epoch_lt in Hcd. lia.
  - rewrite len_cons. destruct Hok as (Hp & Hr & _). repeat split; [| |lia].
    + constructor; [done|]. clear -Hc. induction Hc as [|d l Hd Hl IH]; simpl; [constructor|].
      case_match; [done|]. by constructor.
    + constructor; [split; [lia|done]|done].
Qed.

Lemma stop_sending_fmap l e :
  Forall (λ c, pc_epoch c < e) l →
  stop_sending_before e l = (λ c, c <| pc_send := None |>) <$> l.
Proof.
  intros Hl. apply list_fmap_ext. intros i c Hc.
  rewrite (proj2 (Z.ltb_lt _ _)); [done|]. by eapply (Forall_lookup_1 _ _ _ _ Hl).
Qed.

Lemma sorted_lt_fmap l :
  StronglySorted epoch_lt l → StronglySorted epoch_lt ((λ c, c <| pc_send := None |>) <$> l).
Proof.
  induction 1 as [|c l Hs IH Hc]; simpl; constructor; [done|].
  apply Forall_fmap. eapply Forall_impl; [done|]. by intros d Hd.
Qed.

Lemma drop_sorted {A} (R : A → A → Prop) n l : StronglySorted R l → StronglySorted R (drop n l).
Proof.
  intros Hs. rewrite <- (take_drop n l) in Hs. by apply StronglySorted_app in Hs as (_ & _ & ?).
Qed.

Lemma retain_newest_len l : len (retain_newest l) ≤ PQ_CHAIN_RETENTION.
Proof.
  unfold retain_newest, len, PQ_CHAIN_RETENTION. rewrite length_drop. lia.
Qed.

Lemma retain_newest_snoc l c :
  ∃ k, retain_newest (l ++ [c]) = drop k l ++ [c].
Proof.
  unfold retain_newest, PQ_CHAIN_RETENTION. rewrite len_app. change (len [c]) with 1.
  exists (Z.to_nat (len l + 1 - 2)). rewrite drop_app_le; [done|]. unfold len. lia.
Qed.

(** What [insert_pq_epoch_chains] makes of the chains when the epoch it is
    given is at or past the current one: that epoch alone sends from now on,
    and at most [PQ_CHAIN_RETENTION] epochs are kept. *)
Lemma insert_chains_ok cur c ch l :
  cur ≤ pc_epoch c → 0 < pc_epoch c → chain_ok (pc_recv c) → pc_send c = Some ch → chain_ok ch →
  chains_ok cur l →
  chains_ok (pc_epoch c) (insert_chains c l) ∧ sends (pc_epoch c) (insert_chains c l).
Proof.
  intros He Hpos Hr Hsend Hch (Hlen & Hs & Hf). unfold insert_chains.
  destruct (remove_first_spec cur (pc_epoch c) l He Hs Hf) as (S1 & F1 & L1).
  set (r := remove_first_epoch (pc_epoch c) l) in *.
  rewrite stop_sending_fmap by (eapply Forall_impl; [exact F1|]; by intros ? [[] ?]).
  set (r' := (λ c, c <| pc_send := None |>) <$> r).
  assert (Forall (λ d, 0 < pc_epoch d < pc_epoch c ∧ chain_ok (pc_recv d) ∧ pc_send d = None) r') as F2.
  { apply Forall_fmap. eapply Forall_impl; [exact F1|]. by intros d (? & ?). }
  assert (StronglySorted epoch_lt (r' ++ [c])) as S2.
  { apply StronglySorted_app_2; [|by apply sorted_lt_fmap|repeat constructor].
    intros x y Hx Hy. apply list_elem_of_singleton in Hy as ->.
    rewrite Forall_forall in F2. destruct (F2 x Hx). unfold epoch_lt. lia. }
  unfold sort_by_epoch. rewrite (sort_sorted [] (r' ++ [c])) by done. simpl app.
  destruct (retain_newest_snoc r' c) as [k Hk]. pose proof (retain_newest_len (r' ++ [c])) as Hn.
  rewrite Hk in *.
  assert (Forall (λ d, 0 < pc_epoch d < pc_epoch c ∧ chain_ok (pc_recv d) ∧ pc_send d = None)
            (drop k r')) as F3 by by apply Forall_drop.
  split; [split; [done|split]|].
  - apply StronglySorted_app_2; [|apply drop_sorted; by apply sorted_lt_fmap|repeat constructor].
    intros x y Hx Hy. apply list_elem_of_singleton in Hy as ->.
    rewrite Forall_forall in F3. destruct (F3 x Hx). unfold epoch_lt. lia.
  - apply Forall_app. split.
    + eapply Forall_impl; [exact F3|]. intros d (? & ? & Hd). split; [lia|]. split; [done|].
      intros ch'. by rewrite Hd.
    + constructor; [|constructor]. split; [lia|]. split; [done|]. intros ch' Hch'.
      rewrite Hsend in Hch'. by injection Hch' as <-.
  - intros _. exists c. split; [|by eexists].
    apply find_epoch_last; [|done]. eapply Forall_impl; [exact F3|]. intros d (? & _). lia.
Qed.

(** ** Moving a chain *)

Lemma alter_first_Forall (P : PqEpochChains → Prop) f e l :
  Forall P l → (∀ c, pc_epoch c = e → P c → P (f c)) → Forall P (alter_first_epoch f e l).
Proof.
  intros Hl Hf. induction Hl as [|c l Hc Hl IH]; simpl; [constructor|].
  destruct (Z.eqb_spec (pc_epoch c) e); constructor; auto.
Qed.

Lemma alter_first_len f e l : len (alter_first_epoch f e l) = len l.
Proof.
  induction l as [|c l IH]; simpl; [done|]. case_match; rewrite !len_cons; [done|]. by rewrite IH.
Qed.

Lemma alter_first_sorted f e l :
  (∀ c, pc_epoch (f c) = pc_epoch c) → StronglySorted epoch_lt l →
  StronglySorted epoch_lt (alter_first_epoch f e l).
Proof.
  intros Hf. induction 1 as [|c l Hs IH Hc]; simpl; [constructor|]. case_match.
  - constructor; [done|]. eapply Forall_impl; [done|]. unfold epoch_lt. intros d. by rewrite Hf.
  - constructor; [done|]. apply alter_first_Forall; [done|]. unfold epoch_lt. intros d. by rewrite Hf.
Qed.

Lemma find_alter_first f e e' l :
  (∀ c, pc_epoch (f c) = pc_epoch c) →
  find_epoch e' (alter_first_epoch f e l) =
    if decide (e' = e) then f <$> find_epoch e l else find_epoch e' l.
Proof.
  intros Hf. induction l as [|c l IH]; simpl; [by case_decide|].
  destruct (Z.eqb_spec (pc_epoch c) e) as [He|He]; simpl.
  - rewrite Hf. case_decide as Hd; subst; [by rewrite Z.eqb_refl|].
    by rewrite (proj2 (Z.eqb_neq _ _)).
  - rewrite IH. case_decide as Hd; subst; [|done]. by rewrite (proj2 (Z.eqb_neq _ _)).
Qed.

(** Replacing the send or the receive chain of an epoch by a well-formed one
    keeps the chains well-formed. *)
Lemma set_send_ok cur ch e l :
  chain_ok ch → e = cur → chains_ok cur l →
  chains_ok cur (alter_first_epoch (λ c, c <| pc_send := Some ch |>) e l).
Proof.
  intros Hch -> (Hl & Hs & Hf). split; [|split].
  - by rewrite alter_first_len.
  - by apply alter_first_sorted.
  - apply alter_first_Forall; [done|]. intros c Hc (Hp & Hr & _). split; [done|]. split; [done|].
    by intros ch' [= <-].
Qed.

Lemma set_recv_ok cur ch e l :
  chain_ok ch → chains_ok cur l →
  chains_ok cur (alter_first_epoch (λ c, c <| pc_recv := ch |>) e l).
Proof.
  intros Hch (Hl & Hs & Hf). split; [|split].
  - by rewrite alter_first_len.
  - by apply alter_first_sorted.
  - apply alter_first_Forall; [done|]. by intros c Hc (? & ? & Hsend).
Qed.

Lemma sends_alter cur f e l :
  (∀ c, pc_epoch (f c) = pc_epoch c) → (∀ c, is_Some (pc_send c) → is_Some (pc_send (f c))) →
  sends cur l → sends cur (alter_first_epoch f e l).
Proof.
  intros Hf Hs Hl Hc. destruct (Hl Hc) as (c & Hfind & Hsend).
  rewrite find_alter_first by done. case_decide; subst; [|by exists c].
  exists (f c). by rewrite Hfind; auto.
Qed.

(** ** Kept keys *)

Lemma skipped_ok_insert_size {K V} `{Countable K} (ref : V → bytes) (keys : gmap K V)
    (ts : gmap K Z) k key t :
  skipped_ok ref keys ts → Z.of_nat (size (<[k := key]> keys)) ≤ max_skipped_messages global →
  len (ref key) = 32 → skipped_ok ref (<[k := key]> keys) (<[k := t]> ts).
Proof.
  intros (Hd & Hs & Hf) Hle Hk. split; [|split; [done|]].
  - rewrite !dom_insert_L. by rewrite Hd.
  - by apply map_Forall_insert_2.
Qed.

Lemma skipped_ok_insert {K V} `{Countable K} (ref : V → bytes) (keys : gmap K V) (ts : gmap K Z)
    k key t :
  skipped_ok ref keys ts → Z.of_nat (size keys) < max_skipped_messages global →
  len (ref key) = 32 → skipped_ok ref (<[k := key]> keys) (<[k := t]> ts).
Proof.
  intros Hok Hlt. apply skipped_ok_insert_size; [done|].
  rewrite map_size_insert. destruct (keys !! k); unfold id; lia.
Qed.

Lemma skipped_ok_empty {K V} `{Countable K} (ref : V → bytes) :
  skipped_ok ref (∅ : gmap K V) (∅ : gmap K Z).
Proof. split_and!; [done| |apply map_Forall_empty]. rewrite map_size_empty. done. Qed.

Lemma chains_ok_empty current : chains_ok current [].
Proof. split_and!; [done|constructor|constructor]. Qed.

Lemma skipped_ok_delete {K V} `{Countable K} (ref : V → bytes) (keys : gmap K V) (ts : gmap K Z) k :
  skipped_ok ref keys ts → skipped_ok ref (delete k keys) (delete k ts).
Proof.
  intros (Hd & Hs & Hf). split; [|split].
  - rewrite !dom_delete_L. by rewrite Hd.
  - rewrite map_size_delete. destruct (keys !! k); unfold id; lia.
  - by apply map_Forall_delete.
Qed.

Lemma skipped_ok_filter {K V} `{Countable K} (ref : V → bytes) (keys : gmap K V) (ts : gmap K Z)
    (R : gset K) :
  skipped_ok ref keys ts →
  skipped_ok ref (filter (λ kv, kv.1 ∉ R) keys) (filter (λ kv, kv.1 ∉ R) ts).
Proof.
  intros (Hd & Hs & Hf). split; [|split].
  - apply set_eq. intros k. rewrite !elem_of_dom. unfold is_Some.
    setoid_rewrite map_lookup_filter_Some. simpl.
    assert (k ∈ dom keys ↔ k ∈ dom ts) as Hk by by rewrite Hd.
    rewrite !elem_of_dom in Hk. unfold is_Some in Hk. naive_solver.
  - pose proof (map_size_filter (λ kv : K * V, kv.1 ∉ R) keys). lia.
  - intros k v [Hv _]%map_lookup_filter_Some. by apply (Hf k).
Qed.

(** ** The pure operations *)

Section ops.
Context `{!Platform} `{!CryptoProvider} `{!ProviderLaws}.

Lemma hkdf_total salt ikm info l :
  0 ≤ l ≤ 255 * 32 → ∃ out, hkdf_derive_key salt ikm info l = Ok out ∧ len out = l.
Proof. apply hkdf_ok. Qed.

Lemma split_hkdf {E} (out : bytes) : len out = 64 → ∃ a b,
  @slice E _ 0 32 out = Ok a ∧ @slice_from E _ 32 out = Ok b ∧ len a = 32 ∧ len b = 32.
Proof.
  intros Hl. destruct (slice_total (E := E) 0 32 out) as (a & Ha & La); [lia..|].
  destruct (slice_total (E := E) 32 (len out) out) as (b & Hb & Lb); [lia..|].
  exists a, b. unfold slice_from. repeat split; [done..|lia|lia].
Qed.

Lemma pq_chain_step_spec c :
  chain_ok c →
  match pq_chain_step c with
  | Ok (c', i, key) =>
      chain_ok c' ∧ i = chain_index c ∧ chain_index c' = chain_index c + 1 ∧ len key = 32
  | Err e => e = PqChainIndexOverflow ∧ chain_index c = u32_max
  | Panic => False
  end.
Proof.
  intros [Hi Hk]. unfold pq_chain_step.
  destruct (hkdf_total [] (chain_key c) (as_bytes "construct-pqr-step-v2") 64) as (out & -> & Hl); [lia|].
  simpl. unfold checked_add32. destruct (Z.leb_spec (chain_index c + 1) u32_max); simpl.
  - destruct (split_hkdf (E := DrError) out Hl) as (a & b & -> & Hb & La & Lb). simpl. rewrite Hb. simpl.
    unfold chain_ok, is_u32 in *. simpl. lia.
  - unfold is_u32 in Hi. split; [done|lia].
Qed.

Lemma pq_epoch_chains_spec secret epoch init :
  ∃ c ch, pq_epoch_chains secret epoch init = Ok c ∧ pc_epoch c = epoch ∧
    chain_ok (pc_recv c) ∧ pc_send c = Some ch ∧ chain_ok ch.
Proof.
  unfold pq_epoch_chains.
  destruct (hkdf_total [] secret (as_bytes "construct-pqr-chains-v2" ++ be_bytes 4 epoch) 64)
    as (out & -> & Hl); [lia|]. simpl.
  destruct (split_hkdf (E := DrError) out Hl) as (a & b & -> & Hb & La & Lb). simpl. rewrite Hb. simpl.
  destruct init; eexists _, _; unfold chain_ok, is_u32; simpl; repeat split; done || lia.
Qed.

Lemma pq_ek_hash_spec ek : ∃ h, pq_ek_hash ek = Ok h ∧ len h = 8.
Proof.
  unfold pq_ek_hash.
  destruct (hkdf_total [] ek (as_bytes "construct-pqr-ekhash-v1") 8) as (out & -> & Hl); [lia|].
  rewrite Hl. by exists out.
Qed.

Lemma mix_pq_message_key_spec k pq :
  len (aead_ref k) = 32 →
  ∃ k', mix_pq_message_key k pq = Ok k' ∧ len (aead_ref k') = 32.
Proof.
  intros Hk. destruct pq as [p|]; [|by exists k]. simpl.
  destruct (hkdf_total p (aead_ref k) (as_bytes "construct-pqr-msg-v2") 32) as (out & -> & Hl); [lia|].
  simpl. eexists. split; [done|]. by rewrite aead_ref_from.
Qed.

(** The receive loop, from a chain at or before [index] and with enough
    rounds: it does not panic, it keeps the skipped keys within their bound,
    and on success the chain stands one past [index]. *)
Lemma pq_recv_loop_spec n epoch index t st :
  chain_ok (pr_chain st) → skipped_ok id (pr_keys st) (pr_timestamps st) →
  chain_index (pr_chain st) ≤ index → index < chain_index (pr_chain st) + Z.of_nat n →
  wp False (pq_recv_loop n epoch index t) st
    (λ k st', chain_ok (pr_chain st') ∧ skipped_ok id (pr_keys st') (pr_timestamps st') ∧
              chain_index (pr_chain st') = index + 1 ∧ ∃ key, k = Some key ∧ len key = 32)
    (λ _ _, True).
Proof.
  revert st. induction n as [|n IH]; intros st Hc Hk Hle Hlt; [lia|].
  unfold wp. simpl. pose proof (pq_chain_step_spec _ Hc) as Hstep.
  destruct (pq_chain_step (pr_chain st)) as [[[c' i] key]|e|]; [|done..].
  destruct Hstep as (Hc' & -> & Hi & Hkey).
  destruct (Z.eqb_spec (chain_index (pr_chain st)) index) as [He|He].
  { simpl. split; [done|]. split; [done|]. split; [lia|]. by exists key. }
  destruct (_ >=? _) eqn:Hsz; [done|].
  apply IH; simpl; [done|apply skipped_ok_insert; [done|lia|done]|lia|lia].
Qed.
End ops.
