(* ===== verification/RatchetPqKeys.v ===== *)
(** * Double ratchet: which post-quantum key a message gets

    [pq_key_for s e i] is the key a session has for the message [i] of epoch
    [e], whether it was kept or is still ahead on the receive chain. The
    lemmas say what each PQ operation of [internals.rs] does to it:
    [pq_receive_key] returns it and touches no other, and an epoch's promotion
    or completion changes none but the ones it evicts. *)

From stdpp Require Import sorting.
From S2P Require Import Prelude SuiteId Platform Wp RatchetTypes RatchetPq RatchetPqInv.

Section keys.
Context `{!Platform} `{!MlKemCrate} `{!CryptoProvider} `{!ProviderLaws}.

(** ** One chain *)

Definition pq_next (k : bytes) : bytes :=
  match pq_chain_step (mkPqChain 0 k) with Ok (c, _, _) => chain_key c | _ => k end.
Definition pq_out (k : bytes) : bytes :=
  match pq_chain_step (mkPqChain 0 k) with Ok (_, _, out) => out | _ => k end.

(** The chain key after [n] steps, and the message key there. *)
Definition pq_at (k : bytes) (n : Z) : bytes := Nat.iter (Z.to_nat n) pq_next k.
Definition pq_key_at (k : bytes) (n : Z) : bytes := pq_out (pq_at k n).

Lemma pq_chain_step_eq c :
  chain_index c + 1 ≤ u32_max →
  pq_chain_step c
  = Ok (mkPqChain (chain_index c + 1) (pq_next (chain_key c)), chain_index c, pq_out (chain_key c)).
Proof.
  intros Hi. unfold pq_next, pq_out, pq_chain_step. simpl.
  destruct (hkdf_total [] (chain_key c) (as_bytes "construct-pqr-step-v2") 64) as (out & -> & Hl);
    [lia|]. simpl. unfold checked_add32. rewrite (proj2 (Z.leb_le _ _)) by done.
  destruct (split_hkdf (E := DrError) out Hl) as (a & b & -> & Hb & La & Lb). simpl.
  by rewrite Hb.
Qed.

Lemma pq_chain_step_overflow c :
  u32_max < chain_index c + 1 → pq_chain_step c = Err PqChainIndexOverflow.
Proof.
  intros Hi. unfold pq_chain_step.
  destruct (hkdf_total [] (chain_key c) (as_bytes "construct-pqr-step-v2") 64) as (out & -> & Hl);
    [lia|]. simpl. unfold checked_add32. by rewrite (proj2 (Z.leb_gt _ _)).
Qed.

Lemma pq_at_0 k : pq_at k 0 = k.
Proof. done. Qed.
Lemma pq_at_succ k n : 0 ≤ n → pq_at (pq_next k) n = pq_at k (n + 1).
Proof.
  intros Hn. unfold pq_at. rewrite Z2Nat.inj_add, Nat.add_1_r by lia.
  by rewrite Nat.iter_succ_r.
Qed.
Lemma pq_key_succ k n : 0 < n → pq_key_at (pq_next k) (n - 1) = pq_key_at k n.
Proof. intros Hn. unfold pq_key_at. rewrite pq_at_succ by lia. do 2 f_equal. lia. Qed.

(** ** The keys of a session *)

Definition pq_key_for (s : DoubleRatchetSession) (e i : Z) : option bytes :=
  match pq_skipped_keys s !! (e, i) with
  | Some k => Some k
  | None =>
      ch ← recv_chain_of s e;
      if chain_index ch <=? i then Some (pq_key_at (chain_key ch) (i - chain_index ch)) else None
  end.

(** An epoch the session has reached, or is about to. *)
Definition pq_known (s : DoubleRatchetSession) (e : Z) : Prop :=
  e ≤ current_pq_epoch s ∨ ∃ p, pending_pq_ciphertext s = Some p ∧ ct_epoch p = e.

(** The kept keys of an epoch lie behind its receive chain, and there are none
    of an epoch yet to come. *)
Definition pq_tidy (s : DoubleRatchetSession) : Prop := ∀ e i k,
  pq_skipped_keys s !! (e, i) = Some k →
  pq_known s e ∧ ∀ ch, recv_chain_of s e = Some ch → i < chain_index ch.

Lemma recv_chain_known s e ch :
  chains_ok (current_pq_epoch s) (pq_chains s) → recv_chain_of s e = Some ch → pq_known s e.
Proof.
  intros (_ & _ & Hf). unfold recv_chain_of, pq_known.
  destruct (find_epoch e (pq_chains s)) as [c|] eqn:Hc.
  - intros _. left. apply find_epoch_Some in Hc as [Hin <-].
    rewrite Forall_forall in Hf. apply (Hf _ Hin).
  - destruct (pending_pq_ciphertext s) as [p|]; [|done].
    destruct (Z.eqb_spec (ct_epoch p) e); [|done]. right. by exists p.
Qed.

(** The chain an epoch sends on. *)
Definition send_chain_of (s : DoubleRatchetSession) (e : Z) : option PqChain :=
  c ← find_epoch e (pq_chains s); pc_send c.

(** ** Receiving *)

(** What the receive loop leaves: the chain one past [index], and a kept key
    for every position it passed. *)
Lemma pq_recv_loop_keys n epoch index t st :
  chain_index (pr_chain st) ≤ index → index < chain_index (pr_chain st) + Z.of_nat n →
  index < u32_max →
  wp False (pq_recv_loop n epoch index t) st
    (λ r st',
      r = Some (pq_key_at (chain_key (pr_chain st)) (index - chain_index (pr_chain st))) ∧
      pr_chain st' = mkPqChain (index + 1)
        (pq_at (chain_key (pr_chain st)) (index + 1 - chain_index (pr_chain st))) ∧
      ∀ e i, pr_keys st' !! (e, i) =
        if decide (e = epoch ∧ chain_index (pr_chain st) ≤ i < index)
        then Some (pq_key_at (chain_key (pr_chain st)) (i - chain_index (pr_chain st)))
        else pr_keys st !! (e, i))
    (λ err _, err = TooManySkippedPqKeys ∧ max_skipped_messages global
      ≤ Z.of_nat (size (pr_keys st)) + (index - chain_index (pr_chain st))).
Proof.
  revert st. induction n as [|n IH]; intros st Hle Hlt Hu; [lia|].
  destruct st as [[j k] keys ts]. unfold wp. simpl in *.
  rewrite pq_chain_step_eq by (simpl; lia). simpl. destruct (Z.eqb_spec j index) as [<-|Hne].
  { rewrite Z.sub_diag, Z.add_simpl_l. split_and!; [done..|].
    intros e i. rewrite decide_False by lia. done. }
  destruct (Z.of_nat (size keys) >=? _) eqn:Hz; [by split; [|lia]|].
  pose proof (IH (mkPqRecv (mkPqChain (j + 1) (pq_next k)) (<[(epoch, j) := pq_out k]> keys)
    (<[(epoch, j) := t]> ts))) as IH'. simpl in IH'.
  eapply wp_mono; [apply IH'; lia| |].
  2: { intros err _ [-> Hmax]. split; [done|]. rewrite map_size_insert in Hmax.
       destruct (keys !! (epoch, j)); simpl in Hmax; lia. }
  clear IH IH'.
  intros r st' (-> & Hch & Hkeys). rewrite Hch. split_and!.
  - rewrite <- (pq_key_succ k (index - j)) by lia. do 2 f_equal. lia.
  - f_equal. rewrite pq_at_succ by lia. f_equal. lia.
  - intros e i. rewrite Hkeys. destruct (decide (e = epoch ∧ i = j)) as [[-> ->]|Hij].
    + rewrite decide_False by lia. rewrite decide_True by lia.
      by rewrite lookup_insert_eq, Z.sub_diag.
    + rewrite lookup_insert_ne by congruence || naive_solver.
      destruct (decide (e = epoch ∧ j + 1 ≤ i < index)).
      * rewrite decide_True by lia. rewrite <- (pq_key_succ k (i - j)) by lia. do 2 f_equal. lia.
      * rewrite decide_False; [done|]. naive_solver lia.
Qed.

(** The PQ state but for the times. *)
Definition pq_view (s : DoubleRatchetSession) :=
  (suite_id s, is_pq_initiator s, current_pq_epoch s, pq_chains s, pq_skipped_keys s,
   pending_pq_exchange s, pending_pq_ciphertext s).

Lemma pq_view_key_for s s' e i : pq_view s' = pq_view s → pq_key_for s' e i = pq_key_for s e i.
Proof.
  unfold pq_view. intros [= _ _ _ Hc Hk _ Hp]. unfold pq_key_for, recv_chain_of.
  by rewrite Hc, Hk, Hp.
Qed.

(** The session after the message [(e, i)] was keyed: its own slot is spent,
    every other key is as it was, and nothing but the receive chain of [e] and
    the kept keys has moved. *)
Record pq_taken (e i : Z) (s s' : DoubleRatchetSession) : Prop := {
  taken_view : ∃ ch keys,
    is_Some (recv_chain_of s e) ∧
      pq_view s' = pq_view ((set_recv_chain e ch s) <| pq_skipped_keys := keys |>) ∨
    pq_view s' = pq_view (s <| pq_skipped_keys := keys |>);
  taken_keys : ∀ e' i', (e', i') ≠ (e, i) → pq_key_for s' e' i' = pq_key_for s e' i';
  taken_chains : ∀ e', is_Some (recv_chain_of s' e') ↔ is_Some (recv_chain_of s e');
  taken_tidy : pq_tidy s';
}.

Lemma pq_view_recv s s' e : pq_view s' = pq_view s → recv_chain_of s' e = recv_chain_of s e.
Proof. unfold pq_view, recv_chain_of. by intros [= _ _ _ -> _ _ ->]. Qed.

Lemma pq_view_known s s' e : pq_view s' = pq_view s → pq_known s' e ↔ pq_known s e.
Proof. unfold pq_view, pq_known. by intros [= _ _ -> _ _ _ ->]. Qed.

Lemma pq_view_tidy s s' : pq_view s' = pq_view s → pq_tidy s → pq_tidy s'.
Proof.
  intros Hv Ht e i k. rewrite (pq_view_recv s s' e Hv), (pq_view_known s s' e Hv).
  unfold pq_view in Hv. injection Hv as _ _ _ _ -> _ _. apply Ht.
Qed.

Lemma recv_chain_set s e ch c0 e' :
  recv_chain_of s e = Some c0 →
  recv_chain_of (set_recv_chain e ch s) e' = if decide (e' = e) then Some ch else recv_chain_of s e'.
Proof.
  unfold recv_chain_of, set_recv_chain. destruct (find_epoch e (pq_chains s)) as [c|] eqn:Hf; simpl.
  - intros _. rewrite find_alter_first by done. destruct (decide (e' = e)) as [->|]; [|done].
    by rewrite Hf.
  - destruct (pending_pq_ciphertext s) as [p|] eqn:Hp; [|done]. simpl.
    destruct (Z.eqb_spec (ct_epoch p) e) as [<-|]; [|done]. intros _.
    destruct (decide (e' = ct_epoch p)) as [->|Hne].
    + by rewrite Hf, Z.eqb_refl.
    + destruct (find_epoch e' _); [done|]. by rewrite (proj2 (Z.eqb_neq _ _)).
Qed.

Lemma set_recv_keys s e ch : pq_skipped_keys (set_recv_chain e ch s) = pq_skipped_keys s.
Proof. unfold set_recv_chain. by destruct (find_epoch _ _). Qed.
Lemma set_recv_known s e ch e' : pq_known s e' → pq_known (set_recv_chain e ch s) e'.
Proof.
  unfold pq_known, set_recv_chain. intros [Hc|(p & Hp & He)];
    destruct (find_epoch _ _); simpl; eauto. rewrite Hp. right. by eexists.
Qed.

(** The two ways a key is taken. *)
Lemma taken_skipped s s' e i k :
  pq_tidy s → pq_skipped_keys s !! (e, i) = Some k →
  pq_view s' = pq_view (s <| pq_skipped_keys := delete (e, i) (pq_skipped_keys s) |>) →
  pq_taken e i s s'.
Proof.
  intros Ht Hk Hv. destruct (Ht e i k Hk) as [He Hlt]. split.
  - exists (mkPqChain 0 []), (delete (e, i) (pq_skipped_keys s)). by right.
  - intros e' i' Hne. rewrite (pq_view_key_for _ _ _ _ Hv). unfold pq_key_for. simpl.
    by rewrite lookup_delete_ne by congruence.
  - intros e'. by rewrite (pq_view_recv _ _ _ Hv).
  - eapply pq_view_tidy; [exact Hv|].
    intros e' i' k' Hk'. simpl in Hk'. apply lookup_delete_Some in Hk' as [_ Hk']. by apply (Ht e' i' k').
Qed.

Lemma taken_chain s s' e i ch keys :
  pq_tidy s → chains_ok (current_pq_epoch s) (pq_chains s) →
  recv_chain_of s e = Some ch → chain_index ch ≤ i →
  pq_view s' = pq_view ((set_recv_chain e (mkPqChain (i + 1)
    (pq_at (chain_key ch) (i + 1 - chain_index ch))) s) <| pq_skipped_keys := keys |>) →
  (∀ e' i', keys !! (e', i') =
    if decide (e' = e ∧ chain_index ch ≤ i' < i)
    then Some (pq_key_at (chain_key ch) (i' - chain_index ch)) else pq_skipped_keys s !! (e', i')) →
  pq_taken e i s s'.
Proof.
  intros Ht Hok Hch Hle Hv Hkeys.
  assert (∀ e', recv_chain_of s' e' = if decide (e' = e) then Some (mkPqChain (i + 1)
    (pq_at (chain_key ch) (i + 1 - chain_index ch))) else recv_chain_of s e') as Hrecv.
  { intros e'. rewrite (pq_view_recv _ _ _ Hv). by apply (recv_chain_set s e _ ch). }
  assert (pq_skipped_keys s' = keys) as Hk by (unfold pq_view in Hv; by injection Hv).
  split.
  - eexists _, _. left. split; [by rewrite Hch|exact Hv].
  - intros e' i' Hne. unfold pq_key_for. rewrite Hk, Hkeys, Hrecv.
    destruct (decide (e' = e)) as [->|He]; [|by rewrite decide_False by naive_solver].
    rewrite Hch. simpl. destruct (decide (e = e ∧ _)) as [[_ Hr]|Hr].
    + destruct (pq_skipped_keys s !! (e, i')) as [k|] eqn:Hs.
      * destruct (Ht e i' k Hs) as [_ Hlt]. specialize (Hlt ch Hch). lia.
      * by rewrite (proj2 (Z.leb_le _ _)) by lia.
    + destruct (pq_skipped_keys s !! (e, i')); [done|]. simpl.
      destruct (Z.leb_spec (i + 1) i').
      * rewrite (proj2 (Z.leb_le _ _)) by lia. f_equal. unfold pq_key_at. f_equal.
        unfold pq_at. rewrite <- Nat.iter_add. f_equal. lia.
      * rewrite (proj2 (Z.leb_gt _ _)); [done|]. assert (i' ≠ i) by congruence. lia.
  - intros e'. rewrite Hrecv. destruct (decide (e' = e)) as [->|]; [|done]. by rewrite Hch.
  - intros e' i' k. rewrite Hk, Hkeys, Hrecv.
    assert (∀ e0, pq_known s e0 → pq_known s' e0) as Hkn.
    { intros e0 He. apply (pq_view_known _ _ _ Hv). by apply set_recv_known. }
    destruct (decide (e' = e ∧ _)) as [[-> Hr]|Hr].
    + intros _. split; [by eapply Hkn, recv_chain_known|].
      rewrite decide_True by done. intros ? [= <-]. simpl. lia.
    + intros Hs. destruct (Ht _ _ _ Hs) as [Hkn' Hlt]. split; [auto|].
      destruct (decide (e' = e)) as [->|]; [|done]. intros ? [= <-]. simpl.
      specialize (Hlt ch Hch). lia.
Qed.

(** The bounds a message's PQ slot can lie beyond. *)
Definition pq_over (s : DoubleRatchetSession) (e i : Z) (err : DrError) : Prop :=
  ∃ ch, recv_chain_of s e = Some ch ∧
    (err = TooManySkippedPqKeys ∧ max_skipped_messages global
       ≤ Z.of_nat (size (pq_skipped_keys s)) + (i - chain_index ch) ∨
     err = PqIndexJump (chain_index ch) i (max_message_jump global) ∧
       chain_index ch + max_message_jump global < i).

(** [pq_receive_key] returns the key the session has for the slot, or stops at
    a bound. *)
Lemma pq_receive_key_for e i k s w :
  is_pq_ratchet (suite_id s) = true → e ≠ 0 → pq_tidy s →
  chains_ok (current_pq_epoch s) (pq_chains s) → i < u32_max → pq_key_for s e i = Some k →
  wp False (pq_receive_key e i) (s, w) (λ r sw, r = Some k ∧ pq_taken e i s sw.1)
    (λ err _, pq_over s e i err).
Proof.
  intros Hsu He Ht Hok Hu Hk. unfold pq_receive_key. do 2 wp_step. rewrite Hsu. simpl negb.
  rewrite (proj2 (Z.eqb_neq _ _)) by done. cbn [orb]. unfold pq_key_for in Hk.
  destruct (pq_skipped_keys s !! (e, i)) as [k'|] eqn:Hs.
  - injection Hk as ->. do 3 wp_step. split; [done|].
    by eapply taken_skipped.
  - destruct (recv_chain_of s e) as [ch|] eqn:Hch; [|done]. simpl in Hk.
    destruct (Z.leb_spec (chain_index ch) i) as [Hle|]; [|done]. injection Hk as <-.
    rewrite (proj2 (Z.ltb_ge _ _)) by done. wp_step.
    { exists ch. split; [done|]. right. split; [done|]. unfold sat_add32 in *. lia. }
    do 2 wp_step. unfold wp, advance_recv_chain. simpl.
    pose proof (pq_recv_loop_keys (Z.to_nat (i - chain_index ch + 1)) e i (clock w).2
      (mkPqRecv ch (pq_skipped_keys s) (pq_skipped_key_timestamps s))) as Hl. simpl in Hl.
    unfold wp in Hl.
    destruct (pq_recv_loop _ _ _ _ _) as [st [r|err|]]; simpl; [| |by apply Hl; lia].
    2: { exists ch. split; [done|]. left. apply Hl; lia. }
    destruct Hl as (-> & Hc & Hkeys); [lia..|]. split; [done|].
    eapply taken_chain; [done..| |exact Hkeys]. by rewrite <- Hc.
Qed.

(** What a taken key leaves alone. *)
Lemma taken_same e i s s' :
  pq_taken e i s s' →
  suite_id s' = suite_id s ∧ is_pq_initiator s' = is_pq_initiator s ∧
  current_pq_epoch s' = current_pq_epoch s ∧ pending_pq_exchange s' = pending_pq_exchange s ∧
  ∀ e', send_chain_of s' e' = send_chain_of s e'.
Proof.
  intros [(ch & keys & Hv) _ _ _]. unfold pq_view in Hv.
  assert (∀ e', send_chain_of (set_recv_chain e ch s) e' = send_chain_of s e') as Hsend.
  { intros e'. unfold send_chain_of, set_recv_chain. destruct (find_epoch e _) as [c|] eqn:Hf; [|done].
    simpl. rewrite find_alter_first by done. destruct (decide (e' = e)) as [->|]; [|done].
    by rewrite Hf. }
  destruct Hv as [[_ Hv]|Hv]; simpl in Hv; injection Hv as -> -> -> Hc _ -> _.
  - unfold send_chain_of at 1. rewrite Hc. split_and!; [unfold set_recv_chain; by case_match..|].
    intros e'. by rewrite <- Hsend.
  - unfold send_chain_of at 1. by rewrite Hc.
Qed.

(** A pending ciphertext keeps everything but its receive chain, and that too
    when another epoch's key is taken. *)
Lemma taken_pending e i s s' :
  pq_taken e i s s' →
  match pending_pq_ciphertext s with
  | Some p => ∃ ch, pending_pq_ciphertext s' = Some (p <| ct_chains := (ct_chains p) <| pc_recv := ch |> |>) ∧
      (ct_epoch p ≠ e → ch = pc_recv (ct_chains p))
  | None => pending_pq_ciphertext s' = None
  end.
Proof.
  intros [(ch & keys & Hv) _ _ _]. unfold pq_view in Hv.
  assert (∀ p : PendingPqCiphertext,
    Some p = Some (p <| ct_chains := (ct_chains p) <| pc_recv := pc_recv (ct_chains p) |> |>))
    as Heta by by intros [? ? ? []].
  destruct Hv as [[Hr Hv]|Hv]; simpl in Hv; injection Hv as _ _ _ _ _ _ ->.
  - unfold recv_chain_of, set_recv_chain in *. destruct (find_epoch e _); simpl.
    { destruct (pending_pq_ciphertext s); [|done]. eexists. split; [apply Heta|done]. }
    destruct (pending_pq_ciphertext s) as [p|]; [|done]. eexists. split; [done|]. destruct (Z.eqb_spec (ct_epoch p) e); [done|]. by destruct Hr.
  - destruct (pending_pq_ciphertext s); [|done]. eexists. split; [apply Heta|done].
Qed.

(** A message of an epoch the session no longer holds any key of. *)
Lemma pq_receive_evicted e i s w :
  is_pq_ratchet (suite_id s) = true → e ≠ 0 →
  pq_skipped_keys s !! (e, i) = None → recv_chain_of s e = None →
  wp False (pq_receive_key e i) (s, w) (λ _ _, False)
    (λ err _, err = PqEpochWithoutChain e (current_pq_epoch s)).
Proof.
  intros Hsu He Hs Hr. unfold pq_receive_key. do 2 wp_step. rewrite Hsu. simpl negb.
  rewrite (proj2 (Z.eqb_neq _ _)), Hs, Hr by done. cbn [orb]. by wp_step.
Qed.
End keys.

(** ** Epochs *)

(** With the retention of two, a new epoch keeps the newest of the old ones,
    which stops sending. *)
Lemma insert_chains_eq cur c l :
  chains_ok cur l → cur < pc_epoch c →
  insert_chains c l
  = ((λ d, d <| pc_send := None |>) <$> drop (length l - 1) l) ++ [c].
Proof.
  intros (Hlen & Hs & Hf) Hlt. unfold insert_chains.
  assert (Forall (λ d, pc_epoch d < pc_epoch c) l) as Hl.
  { eapply Forall_impl; [exact Hf|]. intros d [? _]. lia. }
  assert (∀ l', Forall (λ d, pc_epoch d < pc_epoch c) l' → remove_first_epoch (pc_epoch c) l' = l')
    as Hrm.
  { induction 1 as [|d l' Hd _ IH]; simpl; [done|]. by rewrite (proj2 (Z.eqb_neq _ _)), IH by lia. }
  rewrite Hrm, stop_sending_fmap by done. unfold sort_by_epoch. rewrite sort_sorted; simpl.
  - unfold retain_newest, PQ_CHAIN_RETENTION, len in *. rewrite length_app, length_fmap. simpl.
    rewrite fmap_drop, drop_app_le by (rewrite length_fmap; lia). f_equal. f_equal. lia.
  - apply StronglySorted_app. split_and!; [|by apply sorted_lt_fmap|by repeat constructor].
    intros d c'. rewrite list_elem_of_fmap, list_elem_of_singleton. intros (d' & -> & Hd) ->.
    rewrite Forall_forall in Hl. by apply (Hl d').
Qed.

Lemma find_insert_new cur c l :
  chains_ok cur l → cur < pc_epoch c → find_epoch (pc_epoch c) (insert_chains c l) = Some c.
Proof.
  intros Hok Hlt. rewrite (insert_chains_eq cur) by done. apply find_epoch_last; [|done].
  apply Forall_fmap, Forall_drop. destruct Hok as (_ & _ & Hf).
  eapply Forall_impl; [exact Hf|]. intros d [? _]. simpl. lia.
Qed.

(** Any other epoch is evicted or only stops sending; the one that was current
    is kept. *)
Lemma find_insert_old cur c l e :
  chains_ok cur l → cur < pc_epoch c → e ≠ pc_epoch c →
  find_epoch e (insert_chains c l) = (λ d, d <| pc_send := None |>) <$> find_epoch e l ∨
  e ≠ cur ∧ find_epoch e (insert_chains c l) = None.
Proof.
  intros Hok Hlt He. rewrite (insert_chains_eq cur) by done. destruct Hok as (Hlen & Hs & Hf).
  unfold PQ_CHAIN_RETENTION, len in Hlen. destruct l as [|a [|b [|]]]; simpl in *; [..|lia].
  - rewrite (proj2 (Z.eqb_neq _ _)) by done. by left.
  - destruct (Z.eqb_spec (pc_epoch a) e); [by left|].
    rewrite (proj2 (Z.eqb_neq _ _)) by done. by left.
  - destruct (Z.eqb_spec (pc_epoch b) e); simpl.
    + left. apply StronglySorted_inv in Hs as [_ Hs]. apply Forall_cons_iff in Hs as [Hs _].
      unfold epoch_lt in Hs. by rewrite (proj2 (Z.eqb_neq _ _)) by lia.
    + rewrite (proj2 (Z.eqb_neq (pc_epoch c) e)) by done.
      destruct (Z.eqb_spec (pc_epoch a) e) as [<-|]; [|by left]. right. split; [|done].
      apply StronglySorted_inv in Hs as [_ Hs]. apply Forall_cons_iff in Hs as [Hs _].
      apply Forall_cons_iff in Hf as [_ [[? _] _]%Forall_cons_iff]. unfold epoch_lt in Hs. lia.
Qed.

Section epochs.
Context `{!Platform} `{!MlKemCrate} `{!CryptoProvider} `{!ProviderLaws}.
Implicit Types s : DoubleRatchetSession.

(** The session has no key for the slot, and none to derive it from: its epoch
    was evicted. *)
Definition pq_lost s (e i : Z) : Prop :=
  pq_key_for s e i = None ∧ recv_chain_of s e = None ∧ e ≤ current_pq_epoch s.

(** The key of the slot is [k], unless it is lost. *)
Definition pq_has s (e i : Z) (k : bytes) : Prop := pq_key_for s e i = Some k ∨ pq_lost s e i.

Lemma pq_view_has s s' e i k : pq_view s' = pq_view s → pq_has s e i k → pq_has s' e i k.
Proof.
  intros Hv. unfold pq_has, pq_lost. rewrite (pq_view_key_for _ _ e i Hv), (pq_view_recv _ _ e Hv).
  unfold pq_view in Hv. by injection Hv as _ _ -> _ _ _ _.
Qed.

Lemma has_taken e i s s' e' i' k :
  pq_taken e i s s' → (e', i') ≠ (e, i) → pq_has s e' i' k → pq_has s' e' i' k.
Proof.
  intros Ht Hne. pose proof (taken_same _ _ _ _ Ht) as (_ & _ & Hc & _).
  destruct Ht as [_ Hk Hr _]. unfold pq_has, pq_lost. rewrite Hk, Hc by done.
  intros [?|(? & Hn & ?)]; [by left|right]. split_and!; [done| |done].
  apply eq_None_not_Some. rewrite Hr. by rewrite Hn.
Qed.

(** ** A new current epoch *)

Section switch.
Variables (s s' : DoubleRatchetSession) (c : PqEpochChains).
Hypothesis Hok : chains_ok (current_pq_epoch s) (pq_chains s).
Hypothesis Hnew : current_pq_epoch s < pc_epoch c.
Hypothesis Hpend : ∀ p, pending_pq_ciphertext s = Some p →
  ct_epoch p = pc_epoch c ∧ pc_recv (ct_chains p) = pc_recv c.
Hypothesis Hs' : pq_chains s' = insert_chains c (pq_chains s) ∧
  pq_skipped_keys s' = pq_skipped_keys s ∧ current_pq_epoch s' = pc_epoch c ∧
  pending_pq_ciphertext s' = None.

Lemma no_chain_yet : find_epoch (pc_epoch c) (pq_chains s) = None.
Proof.
  destruct (find_epoch _ _) as [d|] eqn:Hf; [|done]. apply find_epoch_Some in Hf as [Hin He].
  destruct Hok as (_ & _ & Hf). rewrite Forall_forall in Hf. destruct (Hf d Hin) as [? _]. lia.
Qed.

Lemma switch_recv_new : recv_chain_of s' (pc_epoch c) = Some (pc_recv c).
Proof.
  unfold recv_chain_of. destruct Hs' as (-> & _). by rewrite (find_insert_new (current_pq_epoch s)).
Qed.

Lemma switch_recv_old e :
  e ≠ pc_epoch c →
  recv_chain_of s' e = recv_chain_of s e ∨
  e ≠ current_pq_epoch s ∧ recv_chain_of s' e = None ∧ e ≤ current_pq_epoch s.
Proof.
  intros He. unfold recv_chain_of. destruct Hs' as (-> & _ & _ & ->).
  assert (match pending_pq_ciphertext s with
    | Some p => if ct_epoch p =? e then Some (pc_recv (ct_chains p)) else None
    | None => None end = None) as ->.
  { destruct (pending_pq_ciphertext s) as [p|] eqn:Hp; [|done].
    destruct (Hpend p eq_refl) as [-> _]. by rewrite (proj2 (Z.eqb_neq _ _)) by done. }
  destruct (find_insert_old (current_pq_epoch s) c (pq_chains s) e Hok Hnew He) as [->|[Hc ->]].
  - left. by destruct (find_epoch e (pq_chains s)).
  - destruct (find_epoch e (pq_chains s)) as [d|] eqn:Hf; [|by left]. right. split_and!; [done..|].
    apply find_epoch_Some in Hf as [Hin <-]. destruct Hok as (_ & _ & Hf).
    rewrite Forall_forall in Hf. apply (Hf d Hin).
Qed.

Lemma switch_has e i k : e ≠ pc_epoch c → pq_has s e i k → pq_has s' e i k.
Proof.
  intros He. unfold pq_has, pq_lost, pq_key_for. destruct Hs' as (_ & -> & -> & _).
  destruct (switch_recv_old e He) as [->|(_ & -> & Hle)].
  - intros [?|(? & ? & ?)]; [by left|right]. split_and!; [done..|lia].
  - destruct (pq_skipped_keys s !! (e, i)); [naive_solver|].
    intros _. right. split_and!; [done..|lia].
Qed.

Lemma switch_key_current i :
  pq_key_for s' (current_pq_epoch s) i = pq_key_for s (current_pq_epoch s) i.
Proof.
  unfold pq_key_for. destruct Hs' as (_ & -> & _).
  destruct (switch_recv_old (current_pq_epoch s)) as [->|(? & _)]; [lia|done..].
Qed.

Lemma switch_key_pending p i :
  pending_pq_ciphertext s = Some p →
  pq_key_for s' (pc_epoch c) i = pq_key_for s (pc_epoch c) i.
Proof.
  intros Hp. destruct (Hpend p Hp) as [Hpe Hpr].
  unfold pq_key_for. rewrite switch_recv_new. destruct Hs' as (_ & -> & _).
  unfold recv_chain_of. by rewrite no_chain_yet, Hp, Hpe, Z.eqb_refl, Hpr.
Qed.

Lemma switch_key_fresh i :
  pq_tidy s → pending_pq_ciphertext s = None → chain_index (pc_recv c) = 0 → 0 ≤ i →
  pq_key_for s' (pc_epoch c) i = Some (pq_key_at (chain_key (pc_recv c)) i).
Proof.
  intros Ht Hp Hi Hle. unfold pq_key_for. rewrite switch_recv_new. destruct Hs' as (_ & -> & _).
  destruct (pq_skipped_keys s !! (pc_epoch c, i)) as [k|] eqn:Hk.
  - destruct (Ht _ _ _ Hk) as [[?|(p & ? & ?)] _]; [lia|congruence].
  - simpl. by rewrite Hi, (proj2 (Z.leb_le _ _)), Z.sub_0_r.
Qed.

Lemma switch_tidy : pq_tidy s → pq_tidy s'.
Proof.
  intros Ht e i k. destruct Hs' as (_ & Hk & Hc & Hp). rewrite Hk. intros Hs.
  destruct (Ht e i k Hs) as [Hkn Hlt]. split.
  - left. rewrite Hc. destruct Hkn as [?|(p & Hp' & <-)]; [lia|].
    destruct (Hpend p Hp') as [-> _]. done.
  - intros ch Hch. destruct (decide (e = pc_epoch c)) as [->|He].
    + rewrite switch_recv_new in Hch. injection Hch as <-.
      destruct Hkn as [?|(p & Hp' & _)]; [lia|]. destruct (Hpend p Hp') as [Hpe Hpr].
      apply Hlt. unfold recv_chain_of. by rewrite no_chain_yet, Hp', Hpe, Z.eqb_refl, Hpr.
    + destruct (switch_recv_old e He) as [Heq|(_ & Hn & _)]; [|congruence].
      apply Hlt. by rewrite <- Heq.
Qed.
End switch.
End epochs.
