(* ===== verification/RatchetInv.v ===== *)
(** * Double ratchet: the invariant of a session

    [wf_session] is the well-formedness every operation of the ratchet keeps,
    on success and on error, together with the absence of panics: counters of
    their width, kept keys with their times and within the DoS bound, a ratchet
    key pair that belongs together, an AD version the code knows, and the
    invariant of the post-quantum layer. *)

From S2P Require Import Prelude SuiteId Padding Platform Wp RatchetTypes RatchetPq Ratchet.
From S2P Require Import RatchetRollback RatchetPqInv.

Section inv.
Context `{MlKemCrate} `{!HexCrate} `{!CryptoProvider}.

Record base_ok (suite : SuiteID) (scl rcl psl : Z) (keys : gmap (bytes * Z) AeadKey)
    (ts : gmap (bytes * Z) Z) (sk : option KemPrivateKey) (pk : KemPublicKey)
    (remote : option KemPublicKey) (sid : string) (peer_ad : Z) : Prop := {
  base_suite : is_supported (as_u16 suite) = true;
  base_sending : is_u32 scl;
  base_receiving : is_u32 rcl;
  base_previous : is_u32 psl;
  base_skipped : skipped_ok aead_ref keys ts;
  base_keypair : ∃ k, sk = Some k ∧ from_private_key_to_public_key k = Ok pk;
  base_remote : is_Some remote;
  base_session_id : ∃ b, sid = hex_encode b ∧ len b = 16;
  base_peer_ad : peer_ad = AD_VERSION_LEGACY ∨ peer_ad = AD_VERSION_HEADER;
}.

Definition base_inv (s : DoubleRatchetSession) : Prop :=
  base_ok (suite_id s) (sending_chain_length s) (receiving_chain_length s)
    (previous_sending_length s) (skipped_message_keys s) (skipped_key_timestamps s)
    (dh_ratchet_private s) (dh_ratchet_public s) (remote_dh_public s) (session_id s)
    (peer_ad_version s).

Definition pq_inv (s : DoubleRatchetSession) : Prop :=
  pq_ok (is_pq_initiator s) (current_pq_epoch s) (pq_chains s) (pq_skipped_keys s)
    (pq_skipped_key_timestamps s) (pending_pq_exchange s) (pending_pq_ciphertext s).

(** The PQ fields of a session of another suite, which nothing ever touches. *)
Definition pq_state (s : DoubleRatchetSession) :=
  (is_pq_initiator s, current_pq_epoch s, pq_chains s, pq_skipped_keys s,
   pq_skipped_key_timestamps s, pending_pq_exchange s, pending_pq_ciphertext s,
   pq_pending_since s, pq_turns_since_mix s).
Definition pq_idle (s : DoubleRatchetSession) : Prop :=
  is_pq_ratchet (suite_id s) = false →
  pq_state s = (false, 0, [], ∅, ∅, None, None, 0, 0).

Definition wf_session (s : DoubleRatchetSession) : Prop := base_inv s ∧ pq_inv s ∧ pq_idle s.

Lemma wf_same s s' : same_but_ratchet_time s s' → wf_session s → wf_session s'.
Proof. intros ->. by destruct s. Qed.

(** A session of the PQ suite has no constraint from [pq_idle]. *)
Lemma pq_idle_suite s : is_pq_ratchet (suite_id s) = true → pq_idle s.
Proof. intros Hs Hf. congruence. Qed.
End inv.

Section preserved.
Context `{MlKemCrate} `{!HexCrate} `{!CryptoProvider}.
Context `{!MlKemLaws} `{!HexLaws} `{!ProviderLaws}.
Abbreviation dr A := (method DoubleRatchetSession DrError A).

(** A method that keeps a property of the session, and neither fails nor
    panics. *)
Definition preserves {A} (P : DoubleRatchetSession → Prop) (m : dr A) : Prop := ∀ s w,
  P s → wp False m (s, w) (λ _ sw, P sw.1) (λ _ _, False).

(** ** Starting and abandoning exchanges *)

(** A session of the PQ suite, and one that may propose. *)
Definition pq_session (s : DoubleRatchetSession) : Prop :=
  wf_session s ∧ is_pq_ratchet (suite_id s) = true.
Definition proposer (s : DoubleRatchetSession) : Prop := pq_session s ∧ is_pq_initiator s = true.

Lemma epoch_is_old_spec P : preserves P pq_epoch_is_old.
Proof. intros s w Hs. unfold pq_epoch_is_old. by wp_steps. Qed.

Lemma abandon_spec : preserves proposer abandon_unanswered_pq_exchange.
Proof.
  intros s w [[(Hb & Hp & Hq) Hsu] Hi]. unfold abandon_unanswered_pq_exchange. wp_steps; try done.
  split; [split; [split_and!; [done| |by apply pq_idle_suite]|done]|done].
  destruct Hp. by constructor.
Qed.

Lemma start_spec : preserves proposer start_pq_exchange.
Proof.
  intros s w [[(Hb & Hp & Hq) Hsu] Hi]. unfold start_pq_exchange.
  do 3 wp_step; [by wp_step|]. do 3 wp_step. apply wp_keygen. intros w1 pk sk Hpk Hsk.
  wp_steps. split; [split; [split_and!; [done| |by apply pq_idle_suite]|done]|done].
  destruct Hp as [Hc ? ? ? ? Hct]. constructor; try done.
  intros x [= <-]. by repeat split.
Qed.

Lemma maybe_advance_spec : preserves wf_session maybe_advance_pq_ratchet.
Proof.
  intros s w Hs. unfold maybe_advance_pq_ratchet. do 3 wp_step; [by wp_step|].
  assert (proposer s) as Hpr.
  { destruct (is_pq_ratchet (suite_id s)) eqn:?, (is_pq_initiator s) eqn:?; done. }
  apply (wp_mono _ _ _ (λ _ sw, proposer sw.1) _ (λ _ _, False)); [|by intros a sw [[? _] _]|done].
  wp_step. eapply wp_mono; [by apply abandon_spec| |done].
  intros _ [s1 w1] Hs1. simpl in Hs1. do 4 wp_step. name_state s2.
  assert (proposer s2) as Hs2.
  { destruct Hs1 as [[(Hb & Hp & _) Hsu] Hi]. split; [|done]. split; [|done].
    split_and!; [done..|by apply pq_idle_suite]. }
  clearbody s2. wp_step.
  - wp_step. eapply wp_mono; [by apply (epoch_is_old_spec proposer)| |done].
    intros old [s3 w3] Hs3. wp_step; [by wp_step|by apply start_spec].
  - by apply start_spec.
Qed.

Lemma maybe_start_by_age_spec : preserves wf_session maybe_start_pq_exchange_by_age.
Proof.
  intros s w Hs. unfold maybe_start_pq_exchange_by_age. do 3 wp_step; [by wp_step|].
  assert (proposer s) as Hpr.
  { destruct (is_pq_ratchet (suite_id s)) eqn:?, (is_pq_initiator s) eqn:?; done. }
  apply (wp_mono _ _ _ (λ _ sw, proposer sw.1) _ (λ _ _, False)); [|by intros a sw [[? _] _]|done].
  wp_step. eapply wp_mono; [by apply abandon_spec| |done].
  intros _ [s1 w1] Hs1. wp_step. eapply wp_mono; [by apply (epoch_is_old_spec proposer)| |done].
  intros old [s2 w2] Hs2. wp_step; [by wp_step|by apply start_spec].
Qed.

(** ** Keys of one message *)

Lemma pq_send_key_spec s w :
  wf_session s →
  wp False pq_send_key (s, w)
    (λ '(epoch, index, _) sw, wf_session sw.1 ∧ is_u32 epoch ∧ is_u32 index)
    (λ e sw, wf_session sw.1 ∧ e = PqChainIndexOverflow).
Proof.
  intros (Hb & Hp & Hq). unfold pq_send_key. do 3 wp_step.
  { wp_step. unfold is_u32, u32_max. done. }
  assert (is_pq_ratchet (suite_id s) = true) as Hsu by by destruct (is_pq_ratchet (suite_id s)).
  pose proof Hp as [Hu Hch Hsends Hk Hex Hct].
  destruct (Hsends) as (c & Hf & chain & Hsend).
  { destruct Hu. destruct (is_pq_ratchet _); simpl in *; lia. }
  wp_step. apply wp_lift. rewrite Hf. simpl. rewrite Hsend. simpl.
  assert (chain_ok chain) as Hok.
  { apply find_epoch_Some in Hf as [Hin _]. destruct Hch as (_ & _ & Hall).
    rewrite Forall_forall in Hall. by apply (Hall c Hin). }
  wp_step. apply wp_lift. pose proof (pq_chain_step_spec chain Hok) as Hstep.
  destruct (pq_chain_step chain) as [[[c' i] key]|e|]; [|by destruct Hstep as [-> _]|done].
  destruct Hstep as (Hc' & -> & _). wp_steps. destruct Hok as [Hix _]. split; [|done].
  split_and!; [done| |by apply pq_idle_suite].
  constructor; simpl; try done; [by apply set_send_ok|by apply sends_alter].
Qed.

Lemma set_recv_chain_ok s epoch c ch :
  pq_inv s → recv_chain_of s epoch = Some c → chain_ok ch → pq_inv (set_recv_chain epoch ch s).
Proof.
  intros [? Hch Hs Hk Hex Hct] Hc Hok. unfold recv_chain_of, set_recv_chain in *.
  destruct (find_epoch epoch (pq_chains s)) as [d|] eqn:Hf.
  - constructor; simpl; try done; [by apply set_recv_ok|by apply sends_alter].
  - destruct (pending_pq_ciphertext s) as [p|] eqn:Hp; [|done].
    constructor; simpl; try done. intros q [= <-].
    destruct (Hct p eq_refl) as [(? & ? & ? & ? & ? & ch' & ?) ?].
    split; [|done]. unfold ciphertext_ok. simpl. split_and!; try done; [lia..|]. by exists ch'.
Qed.

Lemma recv_chain_of_ok s epoch c : pq_inv s → recv_chain_of s epoch = Some c → chain_ok c.
Proof.
  intros [? (_ & _ & Hall) _ _ _ Hct]. unfold recv_chain_of.
  destruct (find_epoch epoch (pq_chains s)) as [d|] eqn:Hf.
  - intros [= <-]. apply find_epoch_Some in Hf as [Hin _]. rewrite Forall_forall in Hall.
    by destruct (Hall d Hin) as (_ & ? & _).
  - destruct (pending_pq_ciphertext s) as [p|]; [|done]. case_match; [|done].
    intros [= <-]. by destruct (Hct p eq_refl) as [(_&_&_&_&?&_) _].
Qed.

(** The key of a received message: on success the session stays well-formed,
    its classical half untouched, and the key has 32 bytes. *)
Lemma pq_receive_key_spec epoch index s w :
  is_u32 index → wf_session s →
  wp False (pq_receive_key epoch index) (s, w)
    (λ k sw, wf_session sw.1 ∧ ∀ key, k = Some key → len key = 32) (λ _ _, True).
Proof.
  intros Hu (Hb & Hp & Hq). unfold pq_receive_key. do 3 wp_step; [by repeat wp_step|].
  assert (is_pq_ratchet (suite_id s) = true) as Hsu by by destruct (is_pq_ratchet (suite_id s)).
  wp_step.
  { wp_steps. destruct Hp as [? ? ? Hk ? ?]. split; [split_and!; [done| |by apply pq_idle_suite]|].
    - constructor; simpl; try done. by apply skipped_ok_delete.
    - intros key [= <-]. destruct Hk as (_ & _ & Hf). by apply (Hf (epoch, index)). }
  destruct (recv_chain_of s epoch) as [c|] eqn:Hc; [|by wp_step].
  wp_step; [by wp_step|]. wp_step; [by wp_step|]. do 2 wp_step.
  pose proof (recv_chain_of_ok _ _ _ Hp Hc) as Hok.
  pose proof (pq_recv_loop_spec (Z.to_nat (index - chain_index c + 1)) epoch index (clock w).2
    (mkPqRecv c (pq_skipped_keys s) (pq_skipped_key_timestamps s)) Hok) as Hl.
  unfold wp, advance_recv_chain in *. simpl in *.
  destruct Hp as [? ? ? Hk ? ?].
  destruct (pq_recv_loop _ _ _ _ _) as [st [k|e|]]; [|done|].
  - destruct Hl as (Hc' & Hk' & _ & key & -> & Hkey); [done|lia|lia|].
    split; [|by intros ? [= <-]]. unfold write_recv.
    assert (pq_inv (set_recv_chain epoch (pr_chain st) s)) as [? ? ? ? ? ?]
      by by eapply set_recv_chain_ok.
    split_and!.
    + unfold set_recv_chain. by destruct (find_epoch _ _).
    + by constructor.
    + apply pq_idle_suite. unfold set_recv_chain. by destruct (find_epoch _ _).
  - by apply Hl; [done|lia|lia].
Qed.

(** ** Opening with a key *)

Lemma check_ad_version_ok s v :
  check_ad_version s v = Ok tt → v = AD_VERSION_LEGACY ∨ v = AD_VERSION_HEADER.
Proof.
  unfold check_ad_version. destruct (Z.eqb_spec v AD_VERSION_HEADER); [auto|].
  by destruct (Z.eqb_spec v AD_VERSION_LEGACY); [auto|].
Qed.

Lemma check_ad_version_no_panic s v : check_ad_version s v ≠ Panic.
Proof. unfold check_ad_version. by repeat case_match. Qed.

Lemma try_aead_decrypt_no_panic s k m :
  len (aead_ref k) = 32 → len (em_nonce m) = 12 → try_aead_decrypt s k m ≠ Panic.
Proof.
  intros Hk Hn. unfold try_aead_decrypt.
  destruct (check_ad_version s (em_ad_version m)) eqn:Hv; [|done|by apply check_ad_version_no_panic in Hv].
  simpl. destruct (hex_decode (session_id s)); [|done]. simpl.
  destruct (aead_decrypt _ _ _ _) as [p|e|] eqn:Ha; simpl; [|done|by apply aead_decrypt_no_panic in Ha].
  destruct (unpad_message p) eqn:Hu; simpl; try done. by apply unpad_message_no_panic in Hu.
Qed.

Lemma try_aead_decrypt_version s k m p :
  try_aead_decrypt s k m = Ok p → check_ad_version s (em_ad_version m) = Ok tt.
Proof.
  unfold try_aead_decrypt. by destruct (check_ad_version _ _) as [[]| |].
Qed.

(** What a caller must know of a message to rule out a panic: the widths of
    its fields, and the nonce length the AEAD asserts. *)
Definition readable (m : EncryptedRatchetMessage) : Prop := wf_message m ∧ len (em_nonce m) = 12.

Lemma decrypt_with_key_spec k m s w :
  readable m → len (aead_ref k) = 32 → wf_session s →
  wp False (decrypt_with_key k m) (s, w)
    (λ _ sw, wf_session sw.1) (λ _ _, True).
Proof.
  intros [(?&?&?&?&?& Hidx &_) Hn] Hk Hs. unfold decrypt_with_key. do 3 wp_step.
  assert (is_u32 z0) as Hi.
  { destruct (is_pq_ratchet (suite_id s)); simplify_eq; [done|]. unfold is_u32, u32_max. lia. }
  wp_step. eapply wp_mono; [by apply pq_receive_key_spec| |done].
  intros pq [s1 w1] [Hs1 Hpq]. simpl in Hs1. wp_step.
  destruct (mix_pq_message_key_spec k pq Hk) as (k' & -> & Hk'). apply wp_lift.
  do 3 wp_step. apply wp_lift_cases; [|done|by intros ?%try_aead_decrypt_no_panic].
  intros p Hp%try_aead_decrypt_version%check_ad_version_ok. wp_steps.
  destruct Hs1 as [[] Hq]. split; [|done]. constructor; try done. simpl.
  destruct Hp as [-> | ->]; unfold AD_VERSION_LEGACY, AD_VERSION_HEADER in *; lia.
Qed.

(** ** Commit *)

Lemma promote_spec n s w :
  pq_session s → wp False (promote_pending_ciphertext n) (s, w)
    (λ _ sw, pq_session sw.1) (λ _ _, False).
Proof.
  intros [(Hb & Hp & Hq) Hsu]. unfold promote_pending_ciphertext. do 3 wp_step; [|by wp_step].
  wp_step; [|by wp_step]. wp_steps. split; [|done]. split_and!; [done| |by apply pq_idle_suite].
  destruct Hp as [Hc Hch Hs Hk Hex Hct].
  destruct (Hct _ Heqo) as [(He & _ & _ & Hep & Hr & ch & Hsend & Hch') Hi].
  assert (0 ≤ current_pq_epoch s) by apply Hc.
  destruct (insert_chains_ok (current_pq_epoch s) (ct_chains p) ch (pq_chains s)) as [Hch2 Hs2];
    [lia|lia|done..|]. rewrite Hep in Hch2, Hs2.
  assert (Z.max (current_pq_epoch s) (ct_epoch p) = ct_epoch p) as Hmax by lia.
  constructor; simpl; rewrite ?Hmax; try done.
  - unfold is_u32 in *. lia.
  - intros x Hx. destruct (Hex x Hx). congruence.
Qed.

Lemma ingest_public_key_spec epoch key s w :
  is_u32 epoch → pq_session s →
  wp False (ingest_public_key epoch key) (s, w) (λ _ sw, wf_session sw.1) (λ _ _, False).
Proof.
  intros Hu [(Hb & Hp & Hq) Hsu]. unfold ingest_public_key.
  do 3 wp_step; [by wp_step|]. wp_step; [by wp_step|]. wp_step.
  destruct (pq_ek_hash_spec key) as (h & -> & Hh). apply wp_lift. wp_step; [by wp_step|].
  do 3 wp_step. apply wp_encapsulate; [|by intros; wp_step].
  intros w1 ct ss Hct1. wp_step. wp_step.
  destruct (pq_epoch_chains_spec ss epoch false) as (c & ch & Hcs & ? & ? & ? & ?).
  cbn [mlkem_shared_secret]. rewrite Hcs. apply wp_lift. wp_step.
  split_and!; [done| |by apply pq_idle_suite].
  destruct Hp as [Hc Hch Hs Hk Hex Hct]. constructor; simpl; try done.
  intros p [= <-]. split; [|done]. unfold ciphertext_ok; simpl. unfold is_u32 in *.
  split_and!; try done; try lia. by exists ch.
Qed.

Lemma ingest_ciphertext_spec epoch h ct s w :
  pq_session s →
  wp False (ingest_ciphertext epoch h ct) (s, w) (λ _ sw, wf_session sw.1) (λ _ _, False).
Proof.
  intros [(Hb & Hp & Hq) Hsu]. unfold ingest_ciphertext. do 3 wp_step; [|by wp_step].
  wp_step; [by wp_step|]. wp_step.
  destruct (pq_ek_hash_spec (kp_public (ex_keypair p))) as (h' & -> & _). apply wp_lift.
  wp_step; [by wp_step|]. wp_step; [|by wp_step..]. do 2 wp_step.
  destruct (pq_epoch_chains_spec a epoch (is_pq_initiator s)) as (c & ch & Hcs & Hep & ? & ? & ?).
  rewrite Hcs. apply wp_lift. wp_steps. split_and!; [done| |by apply pq_idle_suite].
  destruct Hp as [Hc Hch Hs Hk Hex Hct].
  destruct (Hex _ Heqo) as [(He & _ & _) Hi].
  assert (ex_epoch p = epoch) by lia. unfold sat_add32, is_u32 in *.
  destruct (insert_chains_ok (current_pq_epoch s) c ch (pq_chains s)) as [Hch2 Hs2];
    [unfold u32_max in *; lia|unfold u32_max in *; lia|done..|]. rewrite Hep in Hch2, Hs2.
  constructor; simpl; try done.
  - unfold is_u32, u32_max in *. lia.
  - intros x Hx. destruct (Hct x Hx). congruence.
Qed.

Lemma commit_spec m s w :
  wf_message m → wf_session s →
  wp False (commit_pq_post_decrypt m) (s, w) (λ _ sw, wf_session sw.1) (λ _ _, False).
Proof.
  intros (_&_&_&_&_&_& Hf &_) Hs. unfold commit_pq_post_decrypt. do 3 wp_step; [by wp_step|].
  assert (pq_session s) as Hps by (split; [done|]; by destruct (is_pq_ratchet (suite_id s))).
  wp_step. eapply wp_mono; [by apply promote_spec| |done]. intros _ [s1 w1] Hs1.
  destruct (em_pq_ratchet_field m) as [[e k|e h ct]|]; [..|wp_step; apply Hs1].
  - apply ingest_public_key_spec; [|done]. exact (Hf _ eq_refl).
  - by apply ingest_ciphertext_spec.
Qed.

(** ** The DH ratchet and the loops *)

Lemma mix_identity_secret_spec rk ck sec :
  ∃ rk' ck', mix_identity_secret rk ck sec = Ok (rk', ck').
Proof.
  unfold mix_identity_secret.
  destruct (hkdf_total sec (aead_ref rk) (as_bytes "Construct-KEM-identity-root-v1") 32)
    as (a & -> & _); [lia|].
  destruct (hkdf_total sec (aead_ref ck) (as_bytes "Construct-KEM-identity-chain-v1") 32)
    as (b & -> & _); [lia|]. simpl. by eexists _, _.
Qed.

Lemma u32_zero : is_u32 0.
Proof. unfold is_u32, u32_max. lia. Qed.

(** The PQ cadence does not touch the classical counters. *)
Definition lengths (s : DoubleRatchetSession) :=
  (sending_chain_length s, receiving_chain_length s).

Lemma keeps_lengths_advance : keeps lengths maybe_advance_pq_ratchet.
Proof.
  unfold maybe_advance_pq_ratchet, abandon_unanswered_pq_exchange, start_pq_exchange,
    pq_epoch_is_old. keeps_tac.
Qed.

(** Conjoin two specifications of one call. *)
Lemma wp_conj {S E A} (m : stm S E A) s Q1 Q2 R1 R2 :
  wp False m s Q1 R1 → wp True m s Q2 R2 →
  wp False m s (λ a s', Q1 a s' ∧ Q2 a s') (λ e s', R1 e s' ∧ R2 e s').
Proof. unfold wp. by destruct (m s) as [s' [a|e|]]. Qed.

Lemma wp_conj_true {S E A} (m : stm S E A) s Q1 Q2 R1 R2 :
  wp True m s Q1 R1 → wp True m s Q2 R2 →
  wp True m s (λ a s', Q1 a s' ∧ Q2 a s') (λ e s', R1 e s' ∧ R2 e s').
Proof. unfold wp. by destruct (m s) as [s' [a|e|]]. Qed.

Lemma maybe_advance_lengths s w :
  wf_session s →
  wp False maybe_advance_pq_ratchet (s, w)
    (λ _ sw, wf_session sw.1 ∧ receiving_chain_length sw.1 = receiving_chain_length s)
    (λ _ _, True).
Proof.
  intros Hs. eapply wp_mono;
    [apply wp_conj; [by apply maybe_advance_spec|apply keeps_lengths_advance]| |done].
  unfold lengths. intros _ [s' w'] [? [= _ ?]]. done.
Qed.

(** The identity mix of the first receiving step. *)
Lemma mix_answer_spec sec s w :
  wf_session s ∧ receiving_chain_length s = 0 →
  wp False (if bool_decide (identity_proof s = IpAwaitingAnswer) then
     secret ← lift (ok_or sec IdentityAnswerMissing);
     '(root, chain) ← lift (mix_identity_secret (root_key s) (receiving_chain_key s) secret);
     update (λ s, s <| root_key := root |> <| receiving_chain_key := chain |>
       <| identity_proof := IpNone |>)
   else mret tt : dr unit) (s, w)
    (λ _ sw, wf_session sw.1 ∧ receiving_chain_length sw.1 = 0) (λ _ _, True).
Proof.
  intros Hs. wp_step; [|by wp_step]. wp_step. apply wp_lift_cases; [|done|by intros ?%ok_or_no_panic].
  intros secret _. wp_step.
  destruct (mix_identity_secret_spec (root_key s) (receiving_chain_key s) secret) as (rk & ck & ->).
  apply wp_lift. by wp_step.
Qed.

Lemma perform_dh_ratchet_spec k sec s w :
  wf_session s →
  wp False (perform_dh_ratchet k sec) (s, w)
    (λ _ sw, wf_session sw.1 ∧ receiving_chain_length sw.1 = 0) (λ _ _, True).
Proof.
  intros Hs. unfold perform_dh_ratchet. do 5 wp_step.
  name_state s1. assert (wf_session s1) as Hs1 by (destruct Hs as [[] ?]; by split).
  clearbody s1. apply wp_lift_cases; [|done|by intros ?%ok_or_no_panic]. intros sk _.
  wp_step. apply wp_lift_cases; [|done|by intros ?%map_err_panic%kem_decapsulate_no_panic].
  intros dh _. wp_step. destruct (kdf_rk_ok (root_key s1) dh) as (rk & ck & -> & _).
  apply wp_lift. cbn [map_err]. do 5 wp_step. name_state s2.
  assert (wf_session s2 ∧ receiving_chain_length s2 = 0) as Hs2.
  { split; [|done]. destruct Hs1 as [[] ?]. split; [|done]. by constructor; try apply u32_zero. }
  clearbody s2. clear s Hs s1 Hs1.
  eapply wp_mono; [by apply mix_answer_spec| |done]. clear s2 Hs2. intros _ [s w2] [Hs Hr].
  simpl in Hs, Hr. do 3 wp_step. apply wp_generate_kem_keys. intros w3 sk' pk' Hkp. wp_step.
  apply wp_lift_cases; [|done|by intros ?%map_err_panic%kem_decapsulate_no_panic].
  intros dh' _. do 3 wp_step. destruct (kdf_rk_ok (root_key s) dh') as (rk' & ck' & -> & _).
  apply wp_lift. cbn [map_err]. do 8 wp_step. name_state s3.
  assert (wf_session s3 ∧ receiving_chain_length s3 = 0 ∧ sending_chain_length s3 = 0) as (Hs3 & Hr3 & Hl3).
  { split; [|done]. destruct Hs as [[] ?]. split; [|done]. constructor; try done; try apply u32_zero.
    by exists sk'. }
  clearbody s3. rewrite Hl3, Hr3. unfold debug_assert. change (0 =? 0) with true. do 4 wp_step.
  eapply wp_mono; [by apply maybe_advance_lengths| |done]. intros _ sw [? ->]. done.
Qed.

Section from_snapshot.
Variable snap : DecryptSnapshot.

Lemma kdf_ck_restoring s w Q (R : DrError → DoubleRatchetSession * World → Prop) :
  (∀ mk ck, len (aead_ref mk) = 32 → Q (mk, ck) (s, w)) →
  wp False (restoring snap (lift (map_err KdfCkFailed (kdf_ck (receiving_chain_key s))))) (s, w) Q R.
Proof.
  intros HQ. apply wp_restore_on_err.
  destruct (kdf_ck_ok (receiving_chain_key s)) as (mk & ck & -> & Hmk & _).
  apply wp_lift. by apply HQ.
Qed.

Lemma bump_spec s w (Q : unit → _ → Prop) :
  (is_u32 (receiving_chain_length s + 1) →
   Q tt (s <| receiving_chain_length := receiving_chain_length s + 1 |>, w)) →
  is_u32 (receiving_chain_length s) →
  wp False (bump_receiving_length snap) (s, w) Q (λ _ _, True).
Proof.
  intros HQ Hu. unfold bump_receiving_length, checked_add32. do 2 wp_step.
  destruct (Z.leb_spec (receiving_chain_length s + 1) u32_max); [|unfold fail_restoring; by wp_steps].
  wp_step. apply HQ. unfold is_u32 in *. lia.
Qed.

Lemma skip_old_chain_spec n c pn s w :
  pn - receiving_chain_length s ≤ Z.of_nat n → wf_session s →
  wp False (skip_old_chain snap n c pn) (s, w) (λ _ sw, wf_session sw.1) (λ _ _, True).
Proof.
  revert s w. induction n as [|n IH]; intros s w Hn Hs; simpl skip_old_chain; do 3 wp_step;
    try done; [lia|].
  wp_step; [unfold fail_restoring; by wp_steps|]. wp_step. apply kdf_ck_restoring.
  intros mk ck Hmk. wp_step. unfold store_skipped. do 4 wp_step. name_state s1.
  assert (wf_session s1 ∧ receiving_chain_length s1 = receiving_chain_length s) as [Hs1 Hr].
  { split; [|done]. destruct Hs as [[] ?]. split; [|done]. constructor; try done.
    apply skipped_ok_insert; [done| |done]. unfold too_many_skipped in Heqb0. lia. }
  clearbody s1. apply bump_spec; [|apply Hs1]. intros Hu. apply IH; simpl; [lia|].
  destruct Hs1 as [[] ?]. split; [|done]. by constructor.
Qed.

Lemma restoring_decrypt_spec k m s w :
  readable m → len (aead_ref k) = 32 → wf_session s →
  wp False (restoring snap (decrypt_with_key k m)) (s, w) (λ _ sw, wf_session sw.1) (λ _ _, True).
Proof. intros. apply wp_restore_on_err. by apply decrypt_with_key_spec. Qed.

Lemma complete_identity_proof_wf s : wf_session s → wf_session (complete_identity_proof s).
Proof. unfold complete_identity_proof. by case_match. Qed.

Lemma open_in_order_spec r k n m s w :
  readable m → len (aead_ref k) = 32 → wf_session s →
  receiving_chain_length s = em_message_number m →
  wp False (open_in_order snap r k n m) (s, w) (λ _ sw, wf_session sw.1) (λ _ _, True).
Proof.
  intros Hm Hk Hs Hn. unfold open_in_order. do 3 wp_step. apply bump_spec; [|apply Hs].
  intros Hu. do 2 wp_step. name_state s1.
  assert (wf_session s1 ∧ receiving_chain_length s1 = em_message_number m + 1) as [Hs1 Hr1].
  { split; [|simpl; lia]. destruct Hs as [[] ?]. split; [|done]. by constructor. }
  clearbody s1. wp_step. unfold debug_assert. rewrite Hr1, Z.eqb_refl. do 2 wp_step.
  eapply wp_mono; [by apply restoring_decrypt_spec| |done]. intros p [s2 w2] Hs2.
  wp_step. eapply wp_mono; [apply commit_spec; [apply Hm|done]| |done]. intros _ [s3 w3] Hs3.
  wp_step. destruct r; wp_steps; [by apply complete_identity_proof_wf|done].
Qed.

Lemma receive_loop_spec n r m s w :
  em_message_number m - receiving_chain_length s + 1 ≤ Z.of_nat n →
  readable m → wf_session s →
  wp False (receive_loop snap n r m) (s, w) (λ _ sw, wf_session sw.1) (λ _ _, True).
Proof.
  revert s w. induction n as [|n IH]; intros s w Hn Hm Hs; simpl receive_loop; do 3 wp_step;
    try (by wp_steps); [lia|].
  wp_step. apply kdf_ck_restoring. intros mk ck Hmk. wp_step.
  { apply open_in_order_spec; try done. lia. }
  wp_step. unfold store_skipped. do 4 wp_step. name_state s1.
  assert (receiving_chain_length s1 = receiving_chain_length s) as Hr by done.
  apply bump_spec; [|rewrite Hr; apply Hs]. intros Hu. do 2 wp_step.
  wp_step; [unfold fail_restoring; by wp_steps|].
  apply IH; [simpl; lia|done|]. destruct Hs as [[] ?]. split; [|done]. constructor; try done.
  unfold too_many_skipped in Heqb1. simpl in *. apply skipped_ok_insert_size; [done|lia|done].
Qed.
End from_snapshot.

(** ** [decrypt] *)

Lemma cleanup_at_wf t a s : wf_session s → wf_session (cleanup_at t a s).
Proof.
  intros ([] & [] & Hq). split_and!; [constructor..|]; try done; try by apply skipped_ok_filter.
  intros Hsu. specialize (Hq Hsu). unfold pq_state in *. simpl in *. injection Hq as ? ? ? -> -> ? ? ? ?.
  rewrite !map_filter_empty. congruence.
Qed.

Lemma periodic_cleanup_spec : preserves wf_session periodic_cleanup.
Proof.
  intros s w Hs. unfold periodic_cleanup, cleanup_old_skipped_keys.
  wp_steps; [by apply cleanup_at_wf|done].
Qed.

Lemma ratchet_to_spec snap k m sec s w :
  wf_session s →
  wp False (ratchet_to snap k m sec) (s, w) (λ _ sw, wf_session sw.1) (λ _ _, True).
Proof.
  intros Hs. unfold ratchet_to. do 3 wp_step.
  apply (wp_mono _ _ _ (λ _ sw, wf_session sw.1) _ (λ _ _, True)); [| |done].
  - destruct (remote_dh_public s); [apply skip_old_chain_spec; [lia|done]|by wp_step].
  - intros _ [s1 w1] Hs1. apply wp_restore_on_err.
    eapply wp_mono; [by apply perform_dh_ratchet_spec|by intros _ ? []|done].
Qed.

Lemma check_jump_no_panic s r m : check_jump s r m ≠ Panic.
Proof. unfold check_jump. by repeat case_match. Qed.

Lemma keeps_lengths_decrypt k m : keeps lengths (decrypt_with_key k m).
Proof.
  unfold decrypt_with_key, pq_receive_key. keeps_tac.
  intros s w. unfold wp, advance_recv_chain. simpl.
  assert (∀ e st, lengths (write_recv e st s) = lengths s) as Hw.
  { intros e' st. unfold write_recv, set_recv_chain. by destruct (find_epoch _ _). }
  destruct (pq_recv_loop _ _ _ _ _) as [st []]; simpl; done || apply Hw.
Qed.

Lemma open_skipped_spec snap k slot m s w :
  readable m → wf_session s → len (aead_ref k) = 32 →
  wp False (open_skipped snap k slot m) (s, w) (λ _ sw, wf_session sw.1) (λ _ _, True).
Proof.
  intros Hm Hs Hk. unfold open_skipped. do 2 wp_step. name_state s1.
  assert (wf_session s1) as Hs1.
  { destruct Hs as [[] ?]. split; [|done]. constructor; try done. by apply skipped_ok_delete. }
  clearbody s1. do 3 wp_step.
  apply (wp_mono _ _ _ (λ _ sw, wf_session sw.1 ∧ lengths sw.1 = lengths s1) _ (λ _ _, True)); [| |done].
  { apply wp_restore_on_err. eapply wp_mono;
      [apply wp_conj; [by apply decrypt_with_key_spec|apply keeps_lengths_decrypt]|done|done]. }
  intros p [s2 w2] [Hs2 Hl]. unfold lengths in Hl. simpl in Hs2, Hl. injection Hl as _ Hl.
  do 3 wp_step. unfold debug_assert. rewrite Hl, Z.eqb_refl. do 2 wp_step.
  eapply wp_mono; [apply commit_spec; [apply Hm|done]| |done]. by intros _ [s3 w3] Hs3.
Qed.

Lemma decrypt_clean_spec m sec s w :
  readable m → wf_session s →
  wp False (decrypt_clean m sec) (s, w) (λ _ sw, wf_session sw.1) (λ _ sw, wf_session sw.1).
Proof.
  intros Hm Hs. apply (wp_mono _ _ _ (λ _ sw, wf_session sw.1 ∧ True) _
    (λ _ sw, True ∧ same_but_ratchet_time s sw.1));
    [|by intros _ ? []|intros _ sw [_ Hsw]; by eapply wf_same].
  apply wp_conj; [|apply decrypt_clean_restores]. unfold decrypt_clean. do 2 wp_step. wp_step.
  - apply open_skipped_spec; [done..|]. destruct Hs as [[? ? ? ? (_ & _ & Hf)] _]. by eapply Hf.
  - unfold open_on_chain. do 3 wp_step.
    apply wp_lift_cases; [|done|by intros ?%check_jump_no_panic]. intros _ _. wp_step.
    apply (wp_mono _ _ _ (λ _ sw, wf_session sw.1) _ (λ _ _, True)); [| |done].
    + destruct (needs_ratchet _ _); [by apply ratchet_to_spec|by wp_step].
    + intros _ [s1 w1] Hs1. do 2 wp_step. apply receive_loop_spec; [lia|done..].
Qed.

Lemma decrypt_spec m sec s w :
  readable m → wf_session s →
  wp False (decrypt_with_identity_secret m sec) (s, w)
    (λ _ sw, wf_session sw.1) (λ _ sw, wf_session sw.1).
Proof.
  intros Hm Hs. unfold decrypt_with_identity_secret, decrypt_message. do 2 wp_step.
  eapply wp_mono; [by apply periodic_cleanup_spec| |done]. intros _ [s1 w1] Hs1.
  eapply wp_mono; [by apply decrypt_clean_spec| |done]. intros p [s2 w2] Hs2. by wp_steps.
Qed.

(** ** [encrypt] *)

Lemma outgoing_field_ok s f :
  wf_session s → take_outgoing_pq_field s = Some f → wf_pq_field f.
Proof.
  intros (_ & [Hu _ _ _ Hex Hct] & _). unfold take_outgoing_pq_field. case_match; [done|].
  destruct (pending_pq_ciphertext s) as [p|].
  - intros [= <-]. destruct (Hct p eq_refl) as [(? & ? & _) _]. simpl. unfold is_u32 in *. lia.
  - destruct (pending_pq_exchange s) as [x|]; [|done]. intros [= <-].
    destruct (Hex x eq_refl) as [(He & _) _]. simpl. rewrite He. unfold sat_add32, is_u32, u32_max in *. lia.
Qed.

Lemma padded_len p padded : pad_message_default p = Ok padded → len padded ≤ 2 ^ 32.
Proof.
  unfold pad_message_default, pad_message. case_match; [done|]. case_match eqn:Hl; [done|].
  intros [= <-]. rewrite len_app, len_replicate.
  pose proof (padding_len_bounds (len p) DEFAULT_BLOCK_SIZE (len_nonneg p)).
  unfold DEFAULT_BLOCK_SIZE, MAX_MESSAGE_SIZE in *. lia.
Qed.

(** The only reasons [encrypt] can fail for. *)
Definition encrypt_error (p : bytes) (e : DrError) : Prop :=
  (∃ pe, e = PaddingFailed pe ∧ len p > MAX_MESSAGE_SIZE) ∨
  e = PqChainIndexOverflow ∨ e = SendingChainOverflow.

Lemma pad_default_cases p :
  match pad_message_default p with
  | Ok _ => True | Err _ => len p > MAX_MESSAGE_SIZE | Panic => False
  end.
Proof.
  unfold pad_message_default, pad_message. simpl.
  destruct (len p >? MAX_MESSAGE_SIZE) eqn:Hl; simpl; [lia|done].
Qed.

Lemma seal_spec k padded n epoch index s w :
  wf_session s → len (aead_ref k) = 32 → len padded ≤ 2 ^ 32 →
  sending_chain_length s = n + 1 → is_u32 n → is_u32 epoch → is_u32 index →
  wp False (seal k padded n epoch index) (s, w)
    (λ m sw, wf_session sw.1 ∧ readable m) (λ _ _, False).
Proof.
  intros Hs Hk Hpad Hn Hu He Hi. unfold seal. do 3 wp_step.
  apply wp_generate_nonce; [rewrite nonce_length; lia|]. intros w1 nonce Hnonce.
  rewrite nonce_length in Hnonce. do 2 wp_step. pose proof Hs as [[] Hp].
  destruct base_keypair0 as (sk & _ & Hpk%kem_public_len).
  destruct base_session_id0 as (sid & Hsid & _). pose proof (hex_decode_encode sid) as Hdec. rewrite <- Hsid in Hdec.
  wp_step; [lia|]. wp_step. rewrite Hdec. apply wp_lift. simpl ok_or. wp_step.
  match goal with |- context [aead_encrypt k nonce padded ?ad] =>
    destruct (aead_encrypt_ok k nonce padded ad Hk Hnonce Hpad) as [c ->] end.
  apply wp_lift. cbn [map_err]. wp_step. rewrite Hn, Z.eqb_refl. unfold debug_assert. do 2 wp_step.
  split; [done|]. split; [|done]. unfold wf_message; simpl. split_and!; try done.
  - unfold is_supported in base_suite0. unfold is_u16, u16_max. lia.
  - intros f. by apply outgoing_field_ok.
  - unfold ad_send_version, AD_SEND_DEFAULT, AD_VERSION_HEADER, AD_VERSION_LEGACY, is_u8, u8_max.
    case_match; lia.
Qed.

Lemma encrypt_spec p s w :
  wf_session s →
  wp False (encrypt p) (s, w)
    (λ m sw, wf_session sw.1 ∧ readable m) (λ e sw, wf_session sw.1 ∧ encrypt_error p e).
Proof.
  intros Hs. unfold encrypt. wp_step. pose proof (pad_default_cases p) as Hpc. apply wp_lift.
  destruct (pad_message_default p) as [padded|pe|] eqn:Hpad; simpl; [|by split; [|left; exists pe]|done].
  apply padded_len in Hpad. wp_step.
  eapply wp_mono; [by apply maybe_start_by_age_spec| |done]. intros _ [s1 w1] Hs1. wp_step.
  eapply wp_mono; [by apply pq_send_key_spec| |].
  2: { intros e [s2 w2] [? ->]. split; [done|]. by right; left. }
  intros [[epoch index] pq] [s2 w2] (Hs2 & He & Hi). cbn [fst] in *. do 3 wp_step.
  destruct (kdf_ck_ok (sending_chain_key s2)) as (mk & ck & -> & Hmk & _). apply wp_lift.
  cbn [map_err]. wp_step.
  destruct (mix_pq_message_key_spec mk pq Hmk) as (k & -> & Hk). apply wp_lift. wp_step.
  apply wp_lift. unfold checked_add32.
  destruct (Z.leb_spec (sending_chain_length s2 + 1) u32_max); simpl;
    [|by split; [|right; right]]. do 2 wp_step. name_state s3.
  assert (wf_session s3) as Hs3.
  { destruct Hs2 as [[] ?]. split; [|done]. constructor; try done.
    change (is_u32 (sending_chain_length s2 + 1)). unfold is_u32 in *. lia. }
  eapply wp_mono; [apply seal_spec; try done; apply Hs2|done|done].
Qed.
End preserved.
