(* ===== verification/RatchetClean.v ===== *)
(** * Double ratchet: the clean-up spares what is young

    [decrypt] starts, every hundredth message, by dropping kept keys older
    than [max_skipped_message_age_seconds]. As long as the clock stays within
    that span from some time [t0] on, the clean-up drops nothing: every
    time a session records lies in the span, and the operations keep it so. *)

From S2P Require Import Prelude SuiteId Platform Wp RatchetTypes RatchetPq Ratchet.
From S2P Require Import RatchetRollback RatchetPqInv RatchetInv.

Lemma i64_sub_small a b : - 2 ^ 63 ≤ a - b < 2 ^ 63 → i64_sub (as_i64 a) (as_i64 b) = a - b.
Proof.
  intros Hab. unfold i64_sub, as_i64.
  pose proof (Z.div_mod (a + 2 ^ 63) (2 ^ 64)) as Ha. pose proof (Z.div_mod (b + 2 ^ 63) (2 ^ 64)) as Hb.
  set (qa := (a + 2 ^ 63) `div` 2 ^ 64) in *. set (qb := (b + 2 ^ 63) `div` 2 ^ 64) in *.
  set (ra := (a + 2 ^ 63) `mod` 2 ^ 64) in *. set (rb := (b + 2 ^ 63) `mod` 2 ^ 64) in *.
  replace (ra - 2 ^ 63 - (rb - 2 ^ 63) + 2 ^ 63) with (a - b + 2 ^ 63 + (qb - qa) * 2 ^ 64) by lia.
  rewrite Z_mod_plus_full, Z.mod_small; lia.
Qed.

Lemma filter_none {K} `{Countable K} {A} (rm : gset K) (l : gmap K A) :
  rm = ∅ → filter (λ kv, kv.1 ∉ rm) l = l.
Proof. intros ->. apply map_filter_id. set_solver. Qed.

Section clean.
Context `{MlKemCrate} `{!HexCrate} `{!CryptoProvider}.
Abbreviation dr A := (method DoubleRatchetSession DrError A).
Variable t0 : Z.
Hypothesis recent : ∀ w, t0 ≤ (clock w).2 < t0 + max_skipped_message_age_seconds global.
Implicit Types (s : DoubleRatchetSession) (m : EncryptedRatchetMessage).

Definition in_span (t : Z) : Prop := t0 ≤ t < t0 + max_skipped_message_age_seconds global.

(** Every time the session recorded lies in the span. *)
Definition young s : Prop :=
  map_Forall (λ _ t, in_span t) (skipped_key_timestamps s) ∧
  map_Forall (λ _ t, in_span t) (pq_skipped_key_timestamps s).

Lemma not_expired w ts : in_span ts →
  key_expired (clock w).2 (max_skipped_message_age_seconds global) (Some ts) = false.
Proof.
  intros Hts. pose proof (recent w) as Hw. unfold key_expired, in_span in *.
  assert (max_skipped_message_age_seconds global < 2 ^ 63) by done.
  rewrite i64_sub_small by lia. lia.
Qed.

(** Nothing expired, nothing dropped. *)
Lemma none_expired {K} `{Countable K} {A} (keys : gmap K A) (ts : gmap K Z) w :
  dom keys = dom ts → map_Forall (λ _ t, in_span t) ts →
  dom (filter (λ kv, key_expired (clock w).2 (max_skipped_message_age_seconds global) (ts !! kv.1) = true)
         keys) = (∅ : gset K).
Proof.
  intros Hdom Hts. apply dom_empty_iff_L, map_empty. intros k. apply map_lookup_filter_None. right.
  intros x Hx. simpl. assert (k ∈ dom ts) as [t Ht]%elem_of_dom by (rewrite <- Hdom; by eapply elem_of_dom_2).
  rewrite Ht, not_expired; [done|]. by apply (Hts k).
Qed.

Lemma cleanup_young w s :
  wf_session s → young s → cleanup_at (clock w).2 (max_skipped_message_age_seconds global) s = s.
Proof.
  intros ([? ? ? ? [Hd _]] & [? ? ? [Hpd _]] & _) [Hy Hpy]. unfold cleanup_at. cbv zeta.
  rewrite !filter_none by (by apply none_expired). by destruct s.
Qed.

Lemma periodic_cleanup_young s w :
  wf_session s → young s → ∃ w', periodic_cleanup (s, w) = ((s, w'), Ok tt).
Proof.
  intros Hwf Hy. unfold periodic_cleanup, cleanup_old_skipped_keys, now, update, self, mbind, stm_bind.
  simpl. case_match; simpl; [|by eexists]. pose proof (cleanup_young w s Hwf Hy) as Hc.
  destruct (clock w) as [w1 t]. simpl in *. rewrite Hc. by eexists.
Qed.

(** ** Operations record times of the span *)

Definition stays {A} (m : dr A) : Prop := ∀ s w, young s → wp True m (s, w) (λ _ sw, young sw.1) (λ _ _, True).

Lemma stays_keeps {A} (m : dr A) :
  keeps (λ s, (skipped_key_timestamps s, pq_skipped_key_timestamps s)) m → stays m.
Proof.
  intros Hm s w [Hy Hpy]. eapply wp_mono; [apply Hm| |done]. intros a [s' w'] Heq.
  injection Heq as E1 E2. unfold young. simpl in *. by rewrite E1, E2.
Qed.
Lemma stays_bind {A B} (m : dr A) (f : A → dr B) : stays m → (∀ a, stays (f a)) → stays (m ≫= f).
Proof.
  intros Hm Hf s w Hy. apply wp_bind. eapply wp_mono; [by apply Hm| |done].
  intros a [s' w'] Hy'. by apply Hf.
Qed.
Lemma stays_throw {A} e : stays (@throw _ _ A e).
Proof. done. Qed.
Lemma stays_restore {A} h (m : dr A) : stays m → stays (restore_on_err h m).
Proof. intros Hm s w Hy. apply wp_restore_on_err. eapply wp_mono; [by apply Hm|done|done]. Qed.
Lemma stays_fail {A} snap e : stays (@fail_restoring _ _ A snap e).
Proof. intros s w Hy. unfold fail_restoring. by wp_steps. Qed.

Lemma stays_store c k n : stays (store_skipped c k n).
Proof.
  intros s w [Hy Hpy]. unfold store_skipped. wp_steps. split; [|done]. simpl.
  apply map_Forall_insert_2; [apply recent|done].
Qed.

Lemma pq_recv_loop_young n e i t st :
  in_span t → map_Forall (λ _ t, in_span t) (pr_timestamps st) →
  wp True (pq_recv_loop n e i t) st
    (λ _ st', map_Forall (λ _ t, in_span t) (pr_timestamps st')) (λ _ _, True).
Proof.
  intros Ht. revert st. induction n as [|n IH]; intros st Hst; [done|]. unfold wp. simpl.
  destruct (pq_chain_step (pr_chain st)) as [[[c' j] key]| |]; [|done..].
  destruct (j =? i); [done|]. simpl. destruct (_ >=? _); [done|].
  apply IH. simpl. by apply map_Forall_insert_2.
Qed.

Lemma stays_receive e i : stays (pq_receive_key e i).
Proof.
  intros s w [Hy Hpy]. unfold pq_receive_key. do 3 wp_step; [by wp_steps|]. wp_step.
  { wp_steps. split; [done|]. simpl. by apply map_Forall_delete. }
  wp_step; [|by wp_step]. wp_step; [by wp_step|]. wp_step; [by wp_step|]. do 2 wp_step.
  unfold wp, advance_recv_chain. simpl.
  pose proof (pq_recv_loop_young (Z.to_nat (i - chain_index p + 1)) e i (clock w).2
    (mkPqRecv p (pq_skipped_keys s) (pq_skipped_key_timestamps s)) (recent w) Hpy) as Hl.
  unfold wp in Hl. destruct (pq_recv_loop _ _ _ _ _) as [st []]; [|done..].
  unfold write_recv, set_recv_chain. simpl. by destruct (find_epoch _ _).
Qed.

Create HintDb stays.
Hint Resolve stays_throw stays_fail stays_store stays_receive : stays.

(** Split a method into its calls; a call that records no time is resolved by
    [keeps_tac]. *)
Ltac stays_tac :=
  repeat first
    [ progress intros
    | solve [eauto with stays]
    | apply stays_restore
    | solve [apply stays_keeps; keeps_tac]
    | apply stays_bind
    | match goal with
      | |- stays (if ?b then _ else _) => destruct b
      | |- stays (match ?o with Some _ => _ | None => _ end) => destruct o
      | |- stays (match ?p with (_, _) => _ end) => destruct p
      end ].

Lemma stays_decrypt_with_key k m : stays (decrypt_with_key k m).
Proof. unfold decrypt_with_key. stays_tac. Qed.
Hint Resolve stays_decrypt_with_key : stays.

Lemma stays_commit m : stays (commit_pq_post_decrypt m).
Proof.
  apply stays_keeps. unfold commit_pq_post_decrypt, promote_pending_ciphertext, ingest_public_key,
    ingest_ciphertext. keeps_tac.
Qed.
Hint Resolve stays_commit : stays.

Lemma stays_dh_ratchet k sec : stays (perform_dh_ratchet k sec).
Proof.
  apply stays_keeps. unfold perform_dh_ratchet, maybe_advance_pq_ratchet,
    abandon_unanswered_pq_exchange, start_pq_exchange, pq_epoch_is_old, debug_assert. keeps_tac.
Qed.
Hint Resolve stays_dh_ratchet : stays.

Lemma stays_complete : stays (update complete_identity_proof).
Proof.
  intros s w Hy. wp_step. unfold complete_identity_proof. by destruct (identity_proof s).
Qed.
Hint Resolve stays_complete : stays.

Section loops.
Variable snap : DecryptSnapshot.

Lemma stays_bump : stays (bump_receiving_length snap).
Proof. unfold bump_receiving_length. stays_tac. Qed.
Hint Resolve stays_bump : stays.

Lemma stays_skip n c pn : stays (skip_old_chain snap n c pn).
Proof. induction n as [|n IH]; simpl; stays_tac. Qed.
Hint Resolve stays_skip : stays.

Lemma stays_open r k n m : stays (open_in_order snap r k n m).
Proof. unfold open_in_order, debug_assert. stays_tac. Qed.
Hint Resolve stays_open : stays.

Lemma stays_consumed n : stays
  (update (restore_snapshot snap);; s ← self;
   @throw _ _ bytes (MessageKeyConsumed n (receiving_chain_length s))).
Proof. intros s w Hy. by wp_steps. Qed.
Hint Resolve stays_consumed : stays.

Lemma stays_receive_loop n r m : stays (receive_loop snap n r m).
Proof. induction n as [|n IH]; simpl; stays_tac. Qed.
Hint Resolve stays_receive_loop : stays.

Lemma stays_open_skipped k slot m : stays (open_skipped snap k slot m).
Proof.
  unfold open_skipped, debug_assert. apply stays_bind; [|stays_tac].
  intros s w [Hy Hpy]. wp_step. split; [|done]. simpl. by apply map_Forall_delete.
Qed.

Lemma stays_open_on_chain remote ratchet m sec : stays (open_on_chain snap remote ratchet m sec).
Proof. unfold open_on_chain, ratchet_to, restoring. stays_tac. Qed.
End loops.

Lemma stays_decrypt_clean m sec : stays (decrypt_clean m sec).
Proof.
  unfold decrypt_clean. apply stays_bind; [by apply stays_keeps; keeps_tac|]. intros s.
  case_match; [apply stays_open_skipped|apply stays_open_on_chain].
Qed.

Lemma stays_encrypt p : keeps (λ s, (skipped_key_timestamps s, pq_skipped_key_timestamps s)) (encrypt p).
Proof.
  unfold encrypt, seal, pq_send_key, maybe_start_pq_exchange_by_age, abandon_unanswered_pq_exchange,
    start_pq_exchange, pq_epoch_is_old, debug_assert. keeps_tac.
Qed.
End clean.
