(* ===== verification/RatchetPqSync.v ===== *)
(** * Double ratchet: the two sides' epochs agree

    The PQ ratchet between two peers: the one that opened the session proposes
    epochs, the other answers, and each sends on the chain of its current
    epoch. [pq_linked] relates the two sides' PQ states; the lemmas of this
    file show that sending and receiving keep it, whatever the order in which
    messages arrive, so that the key a message is sealed with is the key its
    receiver has for it.

    Everything happens within the retention time of an unanswered exchange
    ([max_skipped_message_age_seconds], a week): past it the proposer abandons
    the exchange, and the two sides may then disagree
    ([RatchetStale.v]). *)

From S2P Require Import Prelude SuiteId Platform Wp RatchetTypes RatchetPq Ratchet.
From S2P Require Import RatchetRollback RatchetPqInv RatchetPqKeys RatchetInv.

Section sync.
Context `{MlKemCrate} `{!HexCrate} `{!CryptoProvider}.
Context `{!MlKemLaws} `{!HexLaws} `{!ProviderLaws}.
Implicit Types (s I R : DoubleRatchetSession) (m : EncryptedRatchetMessage).

(** ** Proposing *)

Definition since_ok (t0 : Z) s : Prop := pq_pending_since s = 0 ∨ t0 ≤ pq_pending_since s.

(** A proposal: the next epoch, with a generated key pair. *)
Definition exchange_for (cur : Z) (x : PendingPqExchange) : Prop :=
  ex_epoch x = sat_add32 cur 1 ∧
  ∃ w, (mlkem_generate w).2 = (kp_public (ex_keypair x), kp_secret (ex_keypair x)).

Definition proposed s s' : Prop :=
  pq_view s' = pq_view s ∨
  is_pq_initiator s = true ∧ pending_pq_exchange s = None ∧
  ∃ x, exchange_for (current_pq_epoch s) x ∧
       pq_view s' = pq_view (s <| pending_pq_exchange := Some x |>).

Section proposing.
Variable t0 : Z.
Hypothesis recent : ∀ w, t0 ≤ (clock w).2 < t0 + max_skipped_message_age_seconds global.

Lemma abandon_none s w (Q : unit → _ → Prop) (E : DrError → _ → Prop) :
  since_ok t0 s → (∀ w', Q tt (s, w')) → wp False abandon_unanswered_pq_exchange (s, w) Q E.
Proof.
  intros Hs HQ. unfold abandon_unanswered_pq_exchange. do 2 wp_step.
  wp_step; [by wp_step|]. do 2 wp_step. wp_step; [|by wp_step].
  exfalso. pose proof (recent w). destruct Hs; [lia|]. unfold sat_sub in *. lia.
Qed.

Lemma wp_keygen_pair w Q (E : MlKemError → World → Prop) :
  (∀ w' pk sk, (mlkem_generate w).2 = (pk, sk) → Q (mkMLKEMKeyPair pk sk) w') →
  wp False mlkem768_keygen w Q E.
Proof.
  intros HQ. unfold wp, mlkem768_keygen. destruct (mlkem_generate w) as [w1 [pk sk]]. by apply HQ.
Qed.

Lemma start_proposes s w :
  since_ok t0 s → is_pq_initiator s = true →
  wp False start_pq_exchange (s, w) (λ _ sw, proposed s sw.1 ∧ since_ok t0 sw.1) (λ _ _, False).
Proof.
  intros Hs Hi. unfold start_pq_exchange. do 2 wp_step.
  wp_step; [wp_step; split; [by left|done]|]. wp_step. do 2 wp_step.
  apply wp_keygen_pair. intros w1 pk sk Hg.
  wp_steps. split.
  - right. split_and!; [done..|]. eexists. split; [|reflexivity]. split; [done|].
    by exists w.
  - right. simpl. apply recent.
Qed.

Lemma proposed_view s s1 s' : pq_view s1 = pq_view s → proposed s1 s' → proposed s s'.
Proof.
  unfold proposed. intros Hv [Hs|(Hi & Hp & x & Hx & Hs)]; [left; congruence|right].
  revert Hs. unfold pq_view in *. simpl. injection Hv as -> Hi' Hc -> -> Hp' ->.
  rewrite Hi', Hc, Hp' in *. intros ->. by eauto 6.
Qed.

Lemma propose_from s s1 w :
  pq_view s1 = pq_view s → since_ok t0 s1 → is_pq_initiator s1 = true →
  wp False start_pq_exchange (s1, w)
    (λ _ sw, proposed s sw.1 ∧ since_ok t0 sw.1) (λ _ _, False).
Proof.
  intros Hv Hs Hi. eapply wp_mono; [by apply start_proposes| |done].
  intros _ sw [Hp ?]. split; [|done]. by eapply proposed_view.
Qed.

Lemma maybe_advance_proposes s w :
  since_ok t0 s →
  wp False maybe_advance_pq_ratchet (s, w)
    (λ _ sw, proposed s sw.1 ∧ since_ok t0 sw.1) (λ _ _, False).
Proof.
  intros Hs. unfold maybe_advance_pq_ratchet. do 2 wp_step.
  wp_step; [wp_step; split; [by left|done]|]. wp_step. apply abandon_none; [done|]. intros w1.
  do 4 wp_step. name_state s1.
  assert (pq_view s1 = pq_view s) as Hv by done. assert (since_ok t0 s1) as Hs1 by done.
  assert (is_pq_initiator s1 = true) as Hi.
  { simpl. destruct (is_pq_initiator s); [done|]. by rewrite orb_true_r in *. }
  clearbody s1. wp_step; [|by apply propose_from].
  wp_step. unfold pq_epoch_is_old. wp_steps; [split; [by left|done]|by apply propose_from].
Qed.

Lemma maybe_start_proposes s w :
  since_ok t0 s →
  wp False maybe_start_pq_exchange_by_age (s, w)
    (λ _ sw, proposed s sw.1 ∧ since_ok t0 sw.1) (λ _ _, False).
Proof.
  intros Hs. unfold maybe_start_pq_exchange_by_age. do 2 wp_step.
  wp_step; [wp_step; split; [by left|done]|]. wp_step. apply abandon_none; [done|]. intros w1.
  wp_step. unfold pq_epoch_is_old. wp_steps; [split; [by left|done]|]. apply propose_from; try done.
  destruct (is_pq_initiator s); [done|]. by rewrite orb_true_r in *.
Qed.

End proposing.

(** ** Sending *)

Definition stepped (ch : PqChain) : PqChain :=
  mkPqChain (chain_index ch + 1) (pq_next (chain_key ch)).

Definition pq_sent s (r : Z * Z * option bytes) s' : Prop :=
  if is_pq_ratchet (suite_id s) && negb (current_pq_epoch s =? 0) then
    ∃ ch, send_chain_of s (current_pq_epoch s) = Some ch ∧
      r = (current_pq_epoch s, chain_index ch, Some (pq_out (chain_key ch))) ∧
      chain_index ch < u32_max ∧
      s' = s <| pq_chains := alter_first_epoch (λ c, c <| pc_send := Some (stepped ch) |>)
                               (current_pq_epoch s) (pq_chains s) |>
  else r = (0, 0, None) ∧ s' = s.

Lemma pq_send_key_sent s w :
  pq_inv s →
  wp False pq_send_key (s, w) (λ r sw, pq_sent s r sw.1)
    (λ e sw, e = PqChainIndexOverflow ∧ sw.1 = s).
Proof.
  intros [Hu _ Hsends _ _ _]. unfold pq_send_key, pq_sent. do 2 wp_step.
  destruct (is_pq_ratchet (suite_id s)); [|by wp_step]. simpl.
  destruct (Z.eqb_spec (current_pq_epoch s) 0) as [Hz|Hz]; [by wp_step|]. simpl.
  destruct Hsends as (c & Hf & ch & Hsend); [destruct Hu; lia|].
  wp_step. apply wp_lift. rewrite Hf. simpl. rewrite Hsend. simpl. wp_step. apply wp_lift.
  destruct (Z.leb_spec (chain_index ch + 1) u32_max) as [Hle|Hgt];
    [rewrite pq_chain_step_eq by done|by rewrite pq_chain_step_overflow].
  wp_steps. exists ch. unfold send_chain_of. rewrite Hf. simpl. split_and!; [done..|lia|done].
Qed.

(** ** Commit *)

Definition promoted (e : Z) s : DoubleRatchetSession :=
  match pending_pq_ciphertext s with
  | Some p =>
      if e >=? ct_epoch p then
        s <| pending_pq_ciphertext := None |>
          <| current_pq_epoch := Z.max (current_pq_epoch s) (ct_epoch p) |>
          <| pq_chains := insert_chains (ct_chains p) (pq_chains s) |>
      else s
  | None => s
  end.

(** The responder answered a proposal it had not answered. *)
Definition answered (e : Z) (key : bytes) s s' : Prop :=
  is_pq_initiator s = false ∧ current_pq_epoch s < e ∧
  ∃ h w chains, pq_ek_hash key = Ok h ∧
    (∀ p, pending_pq_ciphertext s = Some p → ct_epoch p = e → ct_ek_hash p ≠ h) ∧
    len key = MLKEM768_PK_SIZE ∧
    pq_epoch_chains (mlkem_encapsulate key w).2.2 e false = Ok chains ∧
    pq_view s' = pq_view (s <| pending_pq_ciphertext := Some {|
      ct_epoch := e; ct_ek_hash := h; ct_ciphertext := (mlkem_encapsulate key w).2.1;
      ct_chains := chains |} |>).

(** The initiator completed its exchange. *)
Definition completed (e : Z) (h ct : bytes) s s' : Prop :=
  ∃ x ss chains, pending_pq_exchange s = Some x ∧ ex_epoch x = e ∧
    pq_ek_hash (kp_public (ex_keypair x)) = Ok h ∧
    mlkem768_decapsulate (kp_secret (ex_keypair x)) ct = Ok ss ∧
    pq_epoch_chains ss e (is_pq_initiator s) = Ok chains ∧
    pq_view s' = pq_view (s <| pending_pq_exchange := None |> <| current_pq_epoch := e |>
      <| pq_chains := insert_chains chains (pq_chains s) |>).

Definition committed m s s' : Prop :=
  if is_pq_ratchet (suite_id s) then
    let s1 := promoted (em_pq_message_epoch m) s in
    pq_view s' = pq_view s1 ∨
    match em_pq_ratchet_field m with
    | None => False
    | Some (PublicKey e key) => answered e key s1 s'
    | Some (Ciphertext e h ct) => completed e h ct s1 s'
    end
  else pq_view s' = pq_view s.

Lemma answered_view e key s s1 s' :
  pq_view s1 = pq_view s → answered e key s1 s' → answered e key s s'.
Proof.
  unfold pq_view, answered. simpl. intros [= Hsu Hi Hc Hch Hk Hx Hp] (Hi' & Hlt & h & w & chains & HH).
  rewrite Hsu, Hi, Hc, Hch, Hk, Hx, Hp in *. split_and!; [done..|]. by exists h, w, chains.
Qed.

Lemma completed_view e h ct s s1 s' :
  pq_view s1 = pq_view s → completed e h ct s1 s' → completed e h ct s s'.
Proof.
  unfold pq_view, completed. simpl. intros [= Hsu Hi Hc Hch Hk Hx Hp] (x & ss & chains & HH).
  rewrite Hsu, Hi, Hch, Hk, Hx, Hp in *. by exists x, ss, chains.
Qed.

Lemma promote_promotes t0 e s w :
  since_ok t0 s →
  wp False (promote_pending_ciphertext e) (s, w)
    (λ _ sw, pq_view sw.1 = pq_view (promoted e s) ∧ since_ok t0 sw.1) (λ _ _, False).
Proof.
  intros Hs. unfold promote_pending_ciphertext, promoted. do 2 wp_step.
  destruct (pending_pq_ciphertext s) as [p|] eqn:Hp; [|by wp_step].
  destruct (_ >=? _); [|by wp_step]. by wp_steps.
Qed.

Lemma wp_encapsulate_eq pk w Q (E : MlKemError → World → Prop) :
  (∀ w', len pk = MLKEM768_PK_SIZE →
    Q (mkMLKEMEncapsulation (mlkem_encapsulate pk w).2.1 (mlkem_encapsulate pk w).2.2) w') →
  (∀ e, E e w) → wp False (mlkem768_encapsulate pk) w Q E.
Proof.
  intros HQ HE. unfold mlkem768_encapsulate. wp_step; [by apply wp_throw|].
  wp_step; [by apply wp_throw|]. unfold wp.
  destruct (mlkem_encapsulate pk w) as [w1 [ct ss]]. apply HQ. lia.
Qed.

Lemma ingest_public_key_answers t0 e key s w :
  since_ok t0 s →
  wp False (ingest_public_key e key) (s, w)
    (λ _ sw, (pq_view sw.1 = pq_view s ∨ answered e key s sw.1) ∧ since_ok t0 sw.1) (λ _ _, False).
Proof.
  intros Hs. unfold ingest_public_key. do 3 wp_step; [wp_step; by split; [left|]|].
  wp_step; [wp_step; by split; [left|]|]. wp_step.
  destruct (pq_ek_hash_spec key) as (h & Hh & _). rewrite Hh. apply wp_lift. cbv beta match zeta.
  wp_step; [wp_step; by split; [left|]|]. do 2 wp_step. wp_step.
  apply wp_encapsulate_eq; [|intros; wp_step; by split; [left|]]. intros w' Hlen. cbv beta match.
  wp_step. wp_step. destruct (pq_epoch_chains_spec (mlkem_encapsulate key w).2.2 e false)
    as (c & ch & Hc & _). apply wp_lift. cbn [mlkem_shared_secret]. rewrite Hc. wp_step.
  split; [|done]. right. split_and!; [done|lia|]. exists h, w, c. split_and!; [done| |done..].
  intros p Hp He Hhash. rewrite Hp, He, Z.eqb_refl, bool_decide_eq_true_2 in Heqb1; done.
Qed.

Lemma ingest_ciphertext_completes t0 e h ct s w :
  since_ok t0 s →
  wp False (ingest_ciphertext e h ct) (s, w)
    (λ _ sw, (pq_view sw.1 = pq_view s ∨ completed e h ct s sw.1) ∧ since_ok t0 sw.1) (λ _ _, False).
Proof.
  intros Hs. unfold ingest_ciphertext. do 2 wp_step.
  wp_step; [|wp_step; by split; [left|]]. wp_step; [wp_step; by split; [left|]|]. wp_step.
  destruct (pq_ek_hash_spec (kp_public (ex_keypair p))) as (h' & Hh & _). rewrite Hh.
  apply wp_lift. wp_step; [wp_step; by split; [left|]|].
  destruct (bool_decide (h' = h)) eqn:Hhh; [|done]. apply bool_decide_eq_true in Hhh as ->.
  wp_step; [|wp_step; by split; [left|]..]. do 2 wp_step.
  destruct (pq_epoch_chains_spec a e (is_pq_initiator s)) as (c & ch & Hc & _). apply wp_lift.
  rewrite Hc. wp_steps. split; [|by left]. right. exists p, a, c. split_and!; try done.
  destruct (Z.eqb_spec (ex_epoch p) e); done.
Qed.

Lemma commit_commits t0 m s w :
  since_ok t0 s →
  wp False (commit_pq_post_decrypt m) (s, w)
    (λ _ sw, committed m s sw.1 ∧ since_ok t0 sw.1) (λ _ _, False).
Proof.
  intros Hs. unfold commit_pq_post_decrypt, committed. do 2 wp_step.
  destruct (is_pq_ratchet (suite_id s)); [|by wp_step]. cbn [negb]. wp_step.
  eapply wp_mono; [by apply promote_promotes| |done]. intros _ [s1 w1] [Hv Hs1]. simpl in Hv, Hs1.
  destruct (em_pq_ratchet_field m) as [[e key|e h ct]|].
  - eapply wp_mono; [by apply ingest_public_key_answers| |done]. intros _ [s2 w2] [Hc ?].
    split; [|done]. simpl in *. destruct Hc as [Hc|Hc]; [left; congruence|right].
    by eapply answered_view.
  - eapply wp_mono; [by apply ingest_ciphertext_completes| |done]. intros _ [s2 w2] [Hc ?].
    split; [|done]. simpl in *. destruct Hc as [Hc|Hc]; [left; congruence|right].
    by eapply completed_view.
  - wp_step. split; [by left|done].
Qed.

(** ** The relation between the two sides *)

(** [Y] has the key of every message [X] is still to send in its epoch. *)
Definition pq_feeds (X Y : DoubleRatchetSession) : Prop :=
  current_pq_epoch X ≠ 0 → ∃ ch, send_chain_of X (current_pq_epoch X) = Some ch ∧
    ∀ i, chain_index ch ≤ i →
      pq_key_for Y (current_pq_epoch X) i = Some (pq_key_at (chain_key ch) (i - chain_index ch)).

(** The pending ciphertext [p] answers the exchange [x]: both derive the two
    ends of the same chains. *)
Definition answers (x : PendingPqExchange) (p : PendingPqCiphertext) : Prop :=
  ct_epoch p = ex_epoch x ∧ pq_ek_hash (kp_public (ex_keypair x)) = Ok (ct_ek_hash p) ∧
  ∃ ss c, mlkem768_decapsulate (kp_secret (ex_keypair x)) (ct_ciphertext p) = Ok ss ∧
    pq_epoch_chains ss (ct_epoch p) true = Ok c ∧
    pq_epoch_chains ss (ct_epoch p) false = Ok (ct_chains p).

(** The part of the invariant the relation rests on. *)
Definition pq_shape s : Prop :=
  chains_ok (current_pq_epoch s) (pq_chains s) ∧ 0 ≤ current_pq_epoch s ∧
  (∀ p, pending_pq_ciphertext s = Some p →
     ciphertext_ok (current_pq_epoch s) p ∧ is_pq_initiator s = false).

Lemma pq_inv_shape s : pq_inv s → pq_shape s.
Proof. intros [[] ? _ _ _ ?]. done. Qed.
Lemma pq_view_shape s s' : pq_view s' = pq_view s → pq_shape s → pq_shape s'.
Proof. unfold pq_view, pq_shape. by intros [= _ -> -> -> _ _ ->]. Qed.

Record pq_linked I R : Prop := {
  pl_shape : pq_shape I ∧ pq_shape R;
  pl_tidy : pq_tidy I ∧ pq_tidy R;
  pl_suite : is_pq_ratchet (suite_id I) = true ∧ is_pq_ratchet (suite_id R) = true;
  pl_roles : is_pq_initiator I = true ∧ is_pq_initiator R = false;
  pl_feeds : pq_feeds I R ∧ pq_feeds R I;
  pl_exchange : ∀ x, pending_pq_exchange I = Some x →
    ex_epoch x = current_pq_epoch I + 1 ∧
    ∃ w, (mlkem_generate w).2 = (kp_public (ex_keypair x), kp_secret (ex_keypair x));
  (** the responder is level with the initiator, and has perhaps answered it,
      or one behind and holds the next epoch ready *)
  pl_epochs :
    current_pq_epoch I = current_pq_epoch R ∧
      (∀ p, pending_pq_ciphertext R = Some p →
         ∃ x, pending_pq_exchange I = Some x ∧ answers x p) ∨
    current_pq_epoch I = current_pq_epoch R + 1 ∧
      ∃ p b, pending_pq_ciphertext R = Some p ∧ ct_epoch p = current_pq_epoch I ∧
        pc_send (ct_chains p) = Some (mkPqChain 0 b) ∧
        ∀ i, 0 ≤ i → pq_key_for I (current_pq_epoch I) i = Some (pq_key_at b i);
}.

(** A message under way was sent: its slot lies behind the send chain. *)
Definition sent_before s m : Prop := ∀ ch,
  send_chain_of s (em_pq_message_epoch m) = Some ch → em_pq_key_index m < chain_index ch.

(** What a message under way says about epochs. *)
Definition from_initiator I R m : Prop :=
  em_pq_message_epoch m ≤ current_pq_epoch I ∧ sent_before I m ∧
  match em_pq_ratchet_field m with
  | None => True
  | Some (PublicKey e key) =>
      e = em_pq_message_epoch m + 1 ∧
      (e ≤ current_pq_epoch R ∨
       (∃ x, pending_pq_exchange I = Some x ∧ ex_epoch x = e ∧ kp_public (ex_keypair x) = key) ∨
       (∃ p, pending_pq_ciphertext R = Some p ∧ ct_epoch p = e ∧
          pq_ek_hash key = Ok (ct_ek_hash p)))
  | Some (Ciphertext _ _ _) => False
  end.

Definition from_responder I R m : Prop :=
  em_pq_message_epoch m ≤ current_pq_epoch R ∧ sent_before R m ∧
  match em_pq_ratchet_field m with
  | None => True
  | Some (PublicKey _ _) => False
  | Some (Ciphertext e h ct) =>
      e ≤ current_pq_epoch I ∨
      ∃ p, pending_pq_ciphertext R = Some p ∧ ct_epoch p = e ∧ ct_ek_hash p = h ∧
           ct_ciphertext p = ct
  end.

Lemma pq_view_send s s' e : pq_view s' = pq_view s → send_chain_of s' e = send_chain_of s e.
Proof. unfold pq_view, send_chain_of. by intros [= _ _ _ -> _ _ _]. Qed.

Lemma pq_feeds_view X Y X' Y' :
  pq_view X' = pq_view X → pq_view Y' = pq_view Y → pq_feeds X Y → pq_feeds X' Y'.
Proof.
  intros HX HY Hf. unfold pq_feeds. rewrite (pq_view_send _ _ _ HX).
  setoid_rewrite (pq_view_key_for _ _ _ _ HY).
  unfold pq_view in HX. by injection HX as _ _ -> _ _ _ _.
Qed.

Lemma pq_linked_view I R I' R' :
  pq_view I' = pq_view I → pq_view R' = pq_view R → pq_linked I R → pq_linked I' R'.
Proof.
  intros HI HR [[Hs1 Hs2] [Ht1 Ht2] Hsu Hr [Hf1 Hf2] Hx He].
  pose proof (pq_view_shape _ _ HI Hs1) as Hs1'. pose proof (pq_view_shape _ _ HR Hs2) as Hs2'.
  pose proof (pq_feeds_view _ _ _ _ HI HR Hf1) as Hf1'.
  pose proof (pq_feeds_view _ _ _ _ HR HI Hf2) as Hf2'.
  pose proof (pq_view_tidy _ _ HI Ht1) as Ht1'. pose proof (pq_view_tidy _ _ HR Ht2) as Ht2'.
  assert (∀ e i, pq_key_for I' e i = pq_key_for I e i) as Hk by (intros; by apply pq_view_key_for).
  unfold pq_view in HI, HR. injection HI as E1 E2 E3 _ _ E4 _. injection HR as F1 F2 F3 _ _ _ F4.
  split; try done; rewrite ?E1, ?E2, ?E3, ?E4, ?F1, ?F2, ?F3, ?F4; try done.
  by setoid_rewrite Hk.
Qed.

(** ** Sending keeps it *)

(** A session that differs in its send chains only. *)
Lemma sent_same s r s' :
  pq_sent s r s' →
  suite_id s' = suite_id s ∧ is_pq_initiator s' = is_pq_initiator s ∧
  current_pq_epoch s' = current_pq_epoch s ∧ pending_pq_exchange s' = pending_pq_exchange s ∧
  pending_pq_ciphertext s' = pending_pq_ciphertext s ∧
  pq_skipped_keys s' = pq_skipped_keys s ∧ (∀ e, recv_chain_of s' e = recv_chain_of s e).
Proof.
  unfold pq_sent. destruct (_ && _); [|by intros [_ ->]].
  intros (ch & Hch & _ & _ & ->). split_and!; try done. intros e. unfold recv_chain_of. simpl.
  rewrite find_alter_first by done. destruct (decide _) as [->|]; [|done].
  by destruct (find_epoch _ _).
Qed.

Lemma sent_key_for s r s' e i : pq_sent s r s' → pq_key_for s' e i = pq_key_for s e i.
Proof.
  intros (_ & _ & _ & _ & _ & Hk & Hr)%sent_same. unfold pq_key_for. by rewrite Hk, Hr.
Qed.

Lemma sent_tidy s r s' : pq_sent s r s' → pq_tidy s → pq_tidy s'.
Proof.
  intros (_ & _ & Hc & _ & Hp & Hk & Hr)%sent_same Ht e i k. rewrite Hk, Hr. unfold pq_known.
  rewrite Hc, Hp. apply Ht.
Qed.

(** The key of a sent message, and that the peer has it. *)
Lemma sent_feeds X Y r X' :
  is_pq_ratchet (suite_id X) = true → pq_sent X r X' → pq_feeds X Y →
  pq_feeds X' Y ∧
  ((current_pq_epoch X = 0 ∧ r = (0, 0, None)) ∨
   ∃ i k, r = (current_pq_epoch X, i, Some k) ∧ current_pq_epoch X ≠ 0 ∧
     pq_key_for Y (current_pq_epoch X) i = Some k ∧
     ∀ ch, send_chain_of X' (current_pq_epoch X) = Some ch → i < chain_index ch).
Proof.
  intros Hsu Hs Hf. pose proof (sent_same _ _ _ Hs) as (_ & _ & Hc & _).
  unfold pq_sent in Hs. rewrite Hsu in Hs. simpl in Hs.
  destruct (Z.eqb_spec (current_pq_epoch X) 0) as [Hz|Hz]; simpl in Hs.
  { destruct Hs as [-> ->]. split; [done|]. by left. }
  destruct Hs as (ch & Hch & -> & Hlt & ->). destruct (Hf Hz) as (ch' & Hch' & Hkeys).
  rewrite Hch in Hch'. injection Hch' as <-.
  assert (send_chain_of (X <| pq_chains := alter_first_epoch
    (λ c, c <| pc_send := Some (stepped ch) |>) (current_pq_epoch X) (pq_chains X) |>)
    (current_pq_epoch X) = Some (stepped ch)) as Hsend.
  { unfold send_chain_of in *. simpl. rewrite find_alter_first, decide_True by done.
    by destruct (find_epoch _ _). }
  split.
  - intros _. exists (stepped ch). simpl. split.
    + exact Hsend.
    + intros i Hi. rewrite Hkeys by lia. f_equal.
      rewrite <- (pq_key_succ (chain_key ch) (i - chain_index ch)) by lia. f_equal. lia.
  - right. exists (chain_index ch), (pq_out (chain_key ch)). split_and!; [done..| |].
    + rewrite Hkeys by lia. by rewrite Z.sub_diag.
    + intros ch' Hch'. pose proof (eq_trans (eq_sym Hch') Hsend) as [= ->]. simpl. lia.
Qed.

(** Messages under way keep their meaning. *)
Definition carries I R I' R' : Prop :=
  (∀ m, from_initiator I R m → from_initiator I' R' m) ∧
  (∀ m, from_responder I R m → from_responder I' R' m).

Lemma carries_trans I R I1 R1 I2 R2 :
  carries I R I1 R1 → carries I1 R1 I2 R2 → carries I R I2 R2.
Proof. unfold carries. naive_solver. Qed.

(** The keys of a session are kept, but for the slot [sl]. *)
Definition pq_keeps (sl : option (Z * Z)) s s' : Prop := ∀ e i k,
  sl ≠ Some (e, i) → pq_has s e i k → pq_has s' e i k.

Lemma pq_keeps_trans sl s s1 s2 : pq_keeps sl s s1 → pq_keeps sl s1 s2 → pq_keeps sl s s2.
Proof. unfold pq_keeps. naive_solver. Qed.
Lemma pq_keeps_weaken sl s s' : pq_keeps None s s' → pq_keeps sl s s'.
Proof. intros Hk e i k _. by apply Hk. Qed.
Lemma pq_keeps_view s s' : pq_view s' = pq_view s → pq_keeps None s s'.
Proof. intros Hv e i k _. by apply pq_view_has. Qed.

Lemma sent_before_view s s' m : pq_view s' = pq_view s → sent_before s m → sent_before s' m.
Proof. intros Hv. unfold sent_before. by rewrite (pq_view_send _ _ _ Hv). Qed.

Lemma carries_view I R I' R' : pq_view I' = pq_view I → pq_view R' = pq_view R → carries I R I' R'.
Proof.
  intros HI HR. pose proof (λ m, sent_before_view I I' m HI) as HbI.
  pose proof (λ m, sent_before_view R R' m HR) as HbR.
  unfold pq_view in HI, HR. injection HI as _ _ E1 _ _ E2 _. injection HR as _ _ F1 _ _ _ F2.
  unfold carries, from_initiator, from_responder. rewrite E1, E2, F1, F2. naive_solver.
Qed.

Lemma propose_linked I R I' :
  pq_linked I R → current_pq_epoch I < u32_max → proposed I I' → pq_shape I' →
  pq_linked I' R ∧ carries I R I' R ∧ pq_keeps None I I'.
Proof.
  intros Hl Hc Hp Hs. pose proof Hl as [[Hs1 Hs2] [Ht1 Ht2] Hsu Hr [Hf1 Hf2] Hx He].
  destruct Hp as [Hv|(_ & Hnone & x & [Hxe Hxg] & Hv)].
  { split_and!; [by eapply pq_linked_view|by apply carries_view|by apply pq_keeps_view]. }
  set (I1 := I <| pending_pq_exchange := Some x |>) in *.
  assert (pq_linked I1 R) as Hl1.
  { split; try done.
    - intros ? [= <-]. split; [|done]. rewrite Hxe. unfold sat_add32. simpl. lia.
    - destruct He as [[Hcc Hp]|He]; [left|by right]. split; [done|].
      intros p Hpp. destruct (Hp p Hpp) as (x' & Hx' & _). congruence. }
  split_and!; [by eapply pq_linked_view| |by eapply (pq_keeps_view I1)].
  apply (carries_trans _ _ I1 R); [|by apply carries_view].
  split; intros m (Ht & Hb & Hm); (split_and!; [done..|]).
  - destruct (em_pq_ratchet_field m) as [[e key|]|]; [|done..]. destruct Hm as [Hme Hm].
    split; [done|]. destruct Hm as [?|[(x' & Hx' & _)|?]]; [by left|congruence|by right; right].
  - done.
Qed.

(** A side that does not propose. *)
Lemma propose_idle s s' : is_pq_initiator s = false → proposed s s' → pq_view s' = pq_view s.
Proof. intros Hi [?|(? & _)]; [done|congruence]. Qed.

Lemma sent_sent_before s r s' m : pq_sent s r s' → sent_before s m → sent_before s' m.
Proof.
  unfold pq_sent, sent_before. destruct (_ && _); [|by intros [_ ->]].
  intros (ch & Hch & _ & _ & ->) Hb ch'. unfold send_chain_of in *. simpl.
  rewrite find_alter_first by done. destruct (decide _) as [Heq|]; [|apply Hb].
  rewrite Heq in Hb. destruct (find_epoch _ _) as [c|]; [|done]. simpl in *. intros [= <-].
  specialize (Hb ch Hch). simpl. lia.
Qed.

Lemma send_linked_I I R r I' :
  pq_linked I R → pq_sent I r I' → pq_shape I' →
  pq_linked I' R ∧ carries I R I' R ∧ pq_keeps None I I'.
Proof.
  intros [[Hs1 Hs2] [Ht1 Ht2] [Hsu Hsu'] [Hr Hr'] [Hf1 Hf2] Hx He] Hs Hs'.
  pose proof (sent_same _ _ _ Hs) as (E1 & E2 & E3 & E4 & E5 & E6 & E7).
  pose proof (λ e i, sent_key_for _ _ _ e i Hs) as Hk.
  pose proof (sent_feeds I R r I' Hsu Hs Hf1) as [Hf1' _].
  split_and!.
  - split; rewrite ?E1, ?E2, ?E3, ?E4; try done.
    + split; [by eapply sent_tidy|done].
    + split; [done|]. intros Hz. destruct (Hf2 Hz) as (ch & Hch & HH). exists ch.
      split; [done|]. intros i Hi. rewrite Hk. by apply HH.
    + by setoid_rewrite Hk.
  - pose proof (λ m, sent_sent_before _ _ _ m Hs) as Hb.
    unfold carries, from_initiator, from_responder. rewrite E3, E4. naive_solver.
  - intros e i k _. unfold pq_has, pq_lost. by rewrite Hk, E7, E3.
Qed.

Lemma send_linked_R I R r R' :
  pq_linked I R → pq_sent R r R' → pq_shape R' →
  pq_linked I R' ∧ carries I R I R' ∧ pq_keeps None R R'.
Proof.
  intros [[Hs1 Hs2] [Ht1 Ht2] [Hsu Hsu'] [Hr Hr'] [Hf1 Hf2] Hx He] Hs Hs'.
  pose proof (sent_same _ _ _ Hs) as (E1 & E2 & E3 & E4 & E5 & E6 & E7).
  pose proof (λ e i, sent_key_for _ _ _ e i Hs) as Hk.
  pose proof (sent_feeds R I r R' Hsu' Hs Hf2) as [Hf2' _].
  split_and!.
  - split; rewrite ?E1, ?E2, ?E3, ?E5; try done.
    + split; [done|by eapply sent_tidy].
    + split; [|done]. intros Hz. destruct (Hf1 Hz) as (ch & Hch & HH). exists ch.
      split; [done|]. intros i Hi. rewrite Hk. by apply HH.
  - pose proof (λ m, sent_sent_before _ _ _ m Hs) as Hb.
    unfold carries, from_initiator, from_responder. rewrite E3, E5. naive_solver.
  - intros e i k _. unfold pq_has, pq_lost. by rewrite Hk, E7, E3.
Qed.

(** ** Receiving keeps it *)

Lemma take_linked_R I R R' m :
  pq_linked I R → from_initiator I R m →
  pq_taken (em_pq_message_epoch m) (em_pq_key_index m) R R' → pq_shape R' →
  pq_linked I R' ∧ carries I R I R' ∧
  pq_keeps (Some (em_pq_message_epoch m, em_pq_key_index m)) R R'.
Proof.
  intros [[Hs1 Hs2] [Ht1 Ht2] [Hsu Hsu'] [Hr Hr'] [Hf1 Hf2] Hx He] (Htag & Hb & _) Ht Hs'.
  pose proof (taken_same _ _ _ _ Ht) as (E1 & E2 & E3 & E4 & E5).
  pose proof (taken_pending _ _ _ _ Ht) as Hp.
  split_and!; [split| |].
  - done.
  - split; [done|]. apply Ht.
  - by rewrite E1.
  - by rewrite E2.
  - split.
    + intros Hz. destruct (Hf1 Hz) as (ch & Hch & HH). exists ch. split; [done|].
      intros i Hi. destruct Ht as [_ -> _ _]; [by apply HH|].
      intros [= Heq ->]. rewrite Heq in Hch. specialize (Hb ch Hch). lia.
    + unfold pq_feeds. by rewrite E3, E5.
  - done.
  - rewrite E3. destruct He as [[Hcc He]|(Hcc & p & b & Hpp & Hpe & Hsend & HH)].
    + left. split; [done|]. intros p' Hp'. destruct (pending_pq_ciphertext R) as [p|] eqn:HpR;
        [|congruence]. destruct Hp as (ch & Hp & Hch). rewrite Hp in Hp'. injection Hp' as <-.
      destruct Hs2 as (_ & _ & Hs2). destruct (Hs2 p HpR) as [[? _] _]. rewrite Hch by lia.
      destruct (He p eq_refl) as (x & Hxx & Ha). exists x. split; [done|]. by destruct p as [? ? ? []].
    + right. split; [done|]. rewrite Hpp in Hp. destruct Hp as (ch & Hp & _). by eexists _, b.
  - unfold carries, from_initiator, from_responder, sent_before. setoid_rewrite E5.
    rewrite E3. destruct (pending_pq_ciphertext R) as [p|].
    + destruct Hp as (ch & -> & _). split; intros m' (? & ? & Hm); (split_and!; [done..|]);
        (destruct (em_pq_ratchet_field m') as [[]|]; [naive_solver..|done]).
    + by rewrite Hp.
  - intros e i k Hne. eapply has_taken; [exact Ht|]. congruence.
Qed.

Lemma send_insert_old cur c l e ch :
  chains_ok cur l → cur < pc_epoch c → e ≠ pc_epoch c →
  (d ← find_epoch e (insert_chains c l); pc_send d) = Some ch → False.
Proof.
  intros Hok Hlt He. destruct (find_insert_old cur c l e Hok Hlt He) as [->|[_ ->]]; [|done].
  by destruct (find_epoch e l).
Qed.

Lemma promote_linked I R e :
  pq_linked I R → e ≤ current_pq_epoch I →
  let R' := promoted e R in
  pq_shape R' → pq_linked I R' ∧ carries I R I R' ∧ pq_keeps None R R' ∧
    ∀ p, pending_pq_ciphertext R' = Some p → e < ct_epoch p.
Proof.
  intros Hl Hle R' Hs'. unfold R', promoted in *. clear R'.
  destruct (pending_pq_ciphertext R) as [p|] eqn:Hp; cycle 1.
  { split_and!; [done|by apply carries_view|by apply pq_keeps_view|]. intros q Hq. congruence. }
  destruct (e >=? ct_epoch p) eqn:Hge; cycle 1.
  { split_and!; [done|by apply carries_view|by apply pq_keeps_view|].
    intros q Hq. assert (q = p) as -> by congruence. lia. }
  destruct Hl as [[Hs1 Hs2] [Ht1 Ht2] [Hsu Hsu'] [Hr Hr'] [Hf1 Hf2] Hx He].
  destruct Hs2 as (Hok & Hpos & Hct). destruct (Hct p Hp) as [(Hlt & _ & _ & Hce & _) _].
  destruct He as [[Hcc _]|(Hcc & q & b & Hq & Hqe & Hsend & HH)]; [lia|].
  assert (q = p) as -> by congruence. rewrite Z.max_r in * by lia.
  set (R' := R <| pending_pq_ciphertext := None |> <| current_pq_epoch := ct_epoch p |>
               <| pq_chains := insert_chains (ct_chains p) (pq_chains R) |>) in *.
  assert (pq_chains R' = insert_chains (ct_chains p) (pq_chains R) ∧
    pq_skipped_keys R' = pq_skipped_keys R ∧ current_pq_epoch R' = pc_epoch (ct_chains p) ∧
    pending_pq_ciphertext R' = None) as HR' by done.
  assert (∀ q, pending_pq_ciphertext R = Some q → ct_epoch q = pc_epoch (ct_chains p) ∧
    pc_recv (ct_chains q) = pc_recv (ct_chains p)) as Hq' by (intros; simplify_eq; done).
  assert (current_pq_epoch R < pc_epoch (ct_chains p)) as Hnew by lia.
  split_and!; [split| | |done].
  - done.
  - split; [done|]. by eapply switch_tidy.
  - done.
  - done.
  - split.
    + intros Hz. destruct (Hf1 Hz) as (ch & Hch & HH'). exists ch. split; [done|]. intros i Hi.
      rewrite <- HH' by done. rewrite <- Hqe, <- Hce. by eapply switch_key_pending.
    + intros _. exists (mkPqChain 0 b). split.
      * unfold send_chain_of. simpl. rewrite <- Hce. by rewrite (find_insert_new (current_pq_epoch R)).
      * intros i Hi. simpl. rewrite Hqe. rewrite HH by done. by rewrite Z.sub_0_r.
  - done.
  - left. by split.
  - split; intros m (Ht & Hb & Hm); (split_and!; [simpl; lia| |]).
    + done.
    + destruct (em_pq_ratchet_field m) as [[e' key|]|]; [|done..]. destruct Hm as [Hme Hm].
      split; [done|]. simpl. destruct Hm as [?|[?|(q & Hq2 & Hqe2 & _)]]; [left; lia|by right; left|].
      left. assert (q = p) as -> by congruence. lia.
    + intros ch Hch. exfalso. eapply send_insert_old; [done|exact Hnew| |exact Hch]. lia.
    + destruct (em_pq_ratchet_field m) as [[|e' h ct]|]; [done| |done].
      left. destruct Hm as [?|(q & Hq2 & Hqe2 & _)]; [done|]. assert (q = p) as -> by congruence. lia.
  - intros e' i k _ Hh. destruct (decide (e' = pc_epoch (ct_chains p))) as [->|].
    + destruct Hh as [Hh|(_ & _ & ?)]; [|lia]. left. rewrite <- Hh. by eapply switch_key_pending.
    + by eapply (switch_has R R' (ct_chains p)).
Qed.

(** The two ends of an epoch's chains mirror each other. *)
Lemma epoch_chains_mirror ss e cI cR :
  pq_epoch_chains ss e true = Ok cI → pq_epoch_chains ss e false = Ok cR →
  ∃ a b, cI = mkPqEpochChains e (Some (mkPqChain 0 a)) (mkPqChain 0 b) ∧
         cR = mkPqEpochChains e (Some (mkPqChain 0 b)) (mkPqChain 0 a).
Proof.
  unfold pq_epoch_chains.
  destruct (hkdf_total [] ss (as_bytes "construct-pqr-chains-v2" ++ be_bytes 4 e) 64)
    as (out & -> & Hl); [lia|]. simpl.
  destruct (split_hkdf (E := DrError) out Hl) as (a & b & -> & Hb & _). simpl. rewrite Hb. simpl.
  intros [= <-] [= <-]. by exists a, b.
Qed.

Lemma encapsulation_answers x e h w c :
  (∃ w, (mlkem_generate w).2 = (kp_public (ex_keypair x), kp_secret (ex_keypair x))) →
  ex_epoch x = e → pq_ek_hash (kp_public (ex_keypair x)) = Ok h →
  pq_epoch_chains (mlkem_encapsulate (kp_public (ex_keypair x)) w).2.2 e false = Ok c →
  answers x {| ct_epoch := e; ct_ek_hash := h;
    ct_ciphertext := (mlkem_encapsulate (kp_public (ex_keypair x)) w).2.1; ct_chains := c |}.
Proof.
  intros (w0 & Hg) He Hh Hc. split_and!; [done..|]. simpl.
  destruct (pq_epoch_chains_spec (mlkem_encapsulate (kp_public (ex_keypair x)) w).2.2 e true)
    as (c' & _ & Hc' & _).
  exists (mlkem_encapsulate (kp_public (ex_keypair x)) w).2.2, c'. split_and!; [|done..].
  destruct (mlkem_correct w0 w _ _ Hg) as (_ & Hv & Hd).
  destruct (mlkem_generate_sizes _ _ _ Hg) as [_ Hsz]. unfold mlkem768_decapsulate.
  by rewrite Hsz, mlkem_ct_size, Hv, Hd, !Z.eqb_refl.
Qed.

Lemma answer_linked I R R' m e key :
  pq_linked I R → from_initiator I R m → em_pq_ratchet_field m = Some (PublicKey e key) →
  (∀ p, pending_pq_ciphertext R = Some p → em_pq_message_epoch m < ct_epoch p) →
  answered e key R R' → pq_shape R' →
  pq_linked I R' ∧ carries I R I R' ∧ pq_keeps None R R'.
Proof.
  intros [[Hs1 Hs2] [Ht1 Ht2] [Hsu Hsu'] [Hr Hr'] [Hf1 Hf2] Hx He] (Htag & _ & Hm) Hfield Hprom
    (_ & Hlt & h & w & c & Hh & Hdup & _ & Hc & Hv) Hs'.
  rewrite Hfield in Hm. destruct Hm as [Hme Hm].
  assert (∃ x, pending_pq_exchange I = Some x ∧ ex_epoch x = e ∧ kp_public (ex_keypair x) = key)
    as (x & Hxx & Hxe & Hxk).
  { destruct Hm as [?|[?|(p & Hp & Hpe & Hph)]]; [lia|done|].
    exfalso. apply (Hdup p Hp Hpe). congruence. }
  destruct (Hx x Hxx) as [Hxe' Hgen].
  assert (pending_pq_ciphertext R = None ∧ current_pq_epoch I = current_pq_epoch R) as [Hnone Hcc].
  { destruct He as [[Hcc He]|(Hcc & p & b & Hp & Hpe & _)].
    - split; [|done]. destruct (pending_pq_ciphertext R) as [p|] eqn:Hp; [|done].
      destruct (He p eq_refl) as (x' & Hx' & Hpe & Hph & _). assert (x' = x) as -> by congruence.
      exfalso. apply (Hdup p eq_refl); congruence.
    - specialize (Hprom p Hp). lia. }
  set (R1 := R <| pending_pq_ciphertext := _ |>) in Hv.
  assert (∀ e', e' ≠ e → recv_chain_of R1 e' = recv_chain_of R e') as Hrecv.
  { intros e' Hne. unfold recv_chain_of. simpl. rewrite Hnone.
    by rewrite (proj2 (Z.eqb_neq e e')). }
  assert (∀ e' i, e' ≠ e → pq_key_for R1 e' i = pq_key_for R e' i) as Hk.
  { intros e' i Hne. unfold pq_key_for. by rewrite Hrecv. }
  assert (∀ i k, pq_skipped_keys R !! (e, i) = Some k → False) as Hskip.
  { intros i k Hi. destruct (Ht2 _ _ _ Hi) as [[?|(p & ? & _)] _]; [lia|congruence]. }
  assert (pq_linked I R1) as Hl1.
  { split; try done.
    - split; [done|]. by eapply pq_view_shape; [symmetry|].
    - split; [done|]. intros e' i k Hi. simpl in Hi. destruct (Ht2 _ _ _ Hi) as [Hkn Hb]. split.
      + destruct Hkn as [?|(p & ? & _)]; [by left|congruence].
      + assert (e' ≠ e) by (intros ->; by eapply Hskip). by rewrite Hrecv.
    - split; [|done]. intros Hz. destruct (Hf1 Hz) as (ch & Hch & HH). exists ch. split; [done|].
      intros i Hi. rewrite Hk by lia. by apply HH.
    - left. split; [done|]. intros p [= <-]. exists x. split; [done|].
      subst key. by apply encapsulation_answers. }
  split_and!; [by eapply pq_linked_view| |].
  - apply (carries_trans _ _ I R1); [|by apply carries_view].
    split; intros m' (Ht & Hb & Hm'); (split_and!; [done..|]).
    + destruct (em_pq_ratchet_field m') as [[e' key'|]|]; [|done..]. destruct Hm' as [? Hm'].
      split; [done|]. destruct Hm' as [?|[?|(p & ? & _)]]; [by left|by right; left|congruence].
    + destruct (em_pq_ratchet_field m') as [[|e' h' ct]|]; [done| |done].
      destruct Hm' as [?|(p & ? & _)]; [by left|congruence].
  - apply (pq_keeps_trans _ _ R1); [|by apply pq_keeps_view].
    intros e' i k _. unfold pq_has, pq_lost. destruct (decide (e' = e)) as [->|Hne].
    + intros [Hh'|(_ & _ & ?)]; [|lia]. exfalso. unfold pq_key_for in Hh'.
      destruct (pq_skipped_keys R !! (e, i)) eqn:Hi; [by eapply Hskip|].
      destruct (recv_chain_of R e) as [ch|] eqn:Hch; [|done].
      destruct Hs2 as (Hok & _). destruct (recv_chain_known R e ch Hok Hch) as [?|(p & ? & _)];
        [lia|congruence].
    + by rewrite Hk, Hrecv.
Qed.

(** What [commit_pq_post_decrypt] does at the responder. *)
Lemma commit_linked_R I R R' m :
  pq_linked I R → from_initiator I R m → committed m R R' →
  pq_shape (promoted (em_pq_message_epoch m) R) → pq_shape R' →
  pq_linked I R' ∧ carries I R I R' ∧ pq_keeps None R R'.
Proof.
  intros Hl Hm Hc Hs1 Hs'. unfold committed in Hc. pose proof (pl_suite _ _ Hl) as [_ Hsu].
  rewrite Hsu in Hc.
  destruct (promote_linked I R (em_pq_message_epoch m) Hl) as (Hl1 & Hc1 & Hk1 & Hp1); [apply Hm|done|].
  destruct Hc as [Hv|Hc].
  - split_and!; [by eapply pq_linked_view|eapply carries_trans; [done|by apply carries_view]|].
    eapply pq_keeps_trans; [done|by apply pq_keeps_view].
  - destruct (em_pq_ratchet_field m) as [[e key|e h ct]|] eqn:Hf; [| |done].
    + destruct (answer_linked I _ R' m e key Hl1 (proj1 Hc1 _ Hm) Hf Hp1 Hc Hs') as (? & ? & ?).
      split_and!; [done|by eapply carries_trans|by eapply pq_keeps_trans].
    + destruct Hm as (_ & _ & Hm). by rewrite Hf in Hm.
Qed.

(** ** At the initiator *)

Lemma take_linked_I I R I' m :
  pq_linked I R → from_responder I R m →
  pq_taken (em_pq_message_epoch m) (em_pq_key_index m) I I' → pq_shape I' →
  pq_linked I' R ∧ carries I R I' R ∧
  pq_keeps (Some (em_pq_message_epoch m, em_pq_key_index m)) I I'.
Proof.
  intros [[Hs1 Hs2] [Ht1 Ht2] [Hsu Hsu'] [Hr Hr'] [Hf1 Hf2] Hx He] (Htag & Hb & _) Ht Hs'.
  pose proof (taken_same _ _ _ _ Ht) as (E1 & E2 & E3 & E4 & E5).
  split_and!; [split| |].
  - done.
  - split; [|done]. apply Ht.
  - by rewrite E1.
  - by rewrite E2.
  - split.
    + unfold pq_feeds. by rewrite E3, E5.
    + intros Hz. destruct (Hf2 Hz) as (ch & Hch & HH). exists ch. split; [done|].
      intros i Hi. destruct Ht as [_ -> _ _]; [by apply HH|].
      intros [= Heq ->]. rewrite Heq in Hch. specialize (Hb ch Hch). lia.
  - by rewrite E4, E3.
  - rewrite E3, E4. destruct He as [He|(Hcc & p & b & Hpp & Hpe & Hsend & HH)]; [by left|right].
    split; [done|]. exists p, b. split_and!; [done..|]. intros i Hi.
    destruct Ht as [_ -> _ _]; [by apply HH|]. intros [= Heq _]. lia.
  - unfold carries, from_initiator, from_responder, sent_before. setoid_rewrite E5.
    by rewrite E3, E4.
  - intros e i k Hne. eapply has_taken; [exact Ht|]. congruence.
Qed.

(** An initiator has no ciphertext to promote. *)
Lemma promoted_initiator e s : pq_shape s → is_pq_initiator s = true → promoted e s = s.
Proof.
  intros (_ & _ & Hp) Hi. unfold promoted. destruct (pending_pq_ciphertext s) as [p|]; [|done].
  destruct (Hp p eq_refl). congruence.
Qed.

(** No key of an epoch to come. *)
Lemma no_future_key s e i :
  pq_shape s → pq_tidy s → current_pq_epoch s < e → pending_pq_ciphertext s = None →
  pq_key_for s e i = None ∧ ∀ k, ¬ pq_has s e i k.
Proof.
  intros (Hok & _) Ht Hlt Hp.
  assert (¬ pq_known s e) as Hn by (intros [?|(p & ? & _)]; [lia|congruence]).
  assert (pq_key_for s e i = None) as Hk.
  { unfold pq_key_for. destruct (pq_skipped_keys s !! (e, i)) as [k|] eqn:Hi.
    - destruct (Ht _ _ _ Hi). done.
    - destruct (recv_chain_of s e) as [ch|] eqn:Hch; [|done].
      by destruct Hn; eapply recv_chain_known. }
  split; [done|]. intros k [?|(_ & _ & ?)]; [congruence|lia].
Qed.

(** The keys of a pending ciphertext no message of which has come. *)
Lemma fresh_pending_key s p a i :
  pq_shape s → pq_tidy s → pending_pq_ciphertext s = Some p →
  pc_recv (ct_chains p) = mkPqChain 0 a → 0 ≤ i →
  pq_key_for s (ct_epoch p) i = Some (pq_key_at a i).
Proof.
  intros (Hok & _ & Hs) Ht Hp Hr Hi. destruct (Hs p Hp) as [(Hlt & _) _].
  assert (recv_chain_of s (ct_epoch p) = Some (mkPqChain 0 a)) as Hch.
  { unfold recv_chain_of. destruct (find_epoch _ _) as [d|] eqn:Hf.
    - apply find_epoch_Some in Hf as [Hin He]. destruct Hok as (_ & _ & Hf).
      rewrite Forall_forall in Hf. destruct (Hf d Hin) as [? _]. lia.
    - by rewrite Hp, Z.eqb_refl, Hr. }
  unfold pq_key_for. rewrite Hch. destruct (pq_skipped_keys s !! _) as [k|] eqn:Hk.
  - destruct (Ht _ _ _ Hk) as [_ Hb]. specialize (Hb _ Hch). simpl in Hb. lia.
  - simpl. by rewrite (proj2 (Z.leb_le 0 i)), Z.sub_0_r.
Qed.

Lemma complete_linked I R I' m e h ct :
  pq_linked I R → from_responder I R m → em_pq_ratchet_field m = Some (Ciphertext e h ct) →
  completed e h ct I I' → pq_shape I' →
  pq_linked I' R ∧ carries I R I' R ∧ pq_keeps None I I'.
Proof.
  intros [[Hs1 Hs2] [Ht1 Ht2] [Hsu Hsu'] [Hr Hr'] [Hf1 Hf2] Hx He] (Htag & _ & Hm) Hfield
    (x & ss & c & Hxx & Hxe & Hh & Hd & Hc & Hv) Hs'.
  rewrite Hfield in Hm. destruct (Hx x Hxx) as [Hxe' _].
  destruct Hm as [?|(p & Hp & Hpe & Hph & Hpc)]; [lia|].
  destruct He as [[Hcc He]|(Hcc & q & b & Hq & Hqe & _)]; [|assert (q = p) as -> by congruence; lia].
  destruct (He p Hp) as (x' & Hx' & _ & Hph' & ss' & c' & Hd' & Hc' & HcR).
  assert (x' = x) as -> by congruence. rewrite Hpc in Hd'. assert (ss' = ss) as -> by congruence.
  rewrite Hpe in Hc', HcR. rewrite Hr in Hc. assert (c' = c) as -> by congruence.
  destruct (epoch_chains_mirror ss e c (ct_chains p) Hc HcR) as (a & b & Hca & Hcp). clear He Hc Hc' HcR.
  set (I1 := I <| pending_pq_exchange := None |> <| current_pq_epoch := e |>
               <| pq_chains := insert_chains c (pq_chains I) |>) in *.
  assert (pending_pq_ciphertext I = None) as HpI.
  { destruct (pending_pq_ciphertext I) as [q|] eqn:Hq; [|done]. destruct Hs1 as (_ & _ & Hs1).
    destruct (Hs1 q Hq). congruence. }
  assert (pc_epoch c = e) as Hce by by rewrite Hca.
  assert (pq_chains I1 = insert_chains c (pq_chains I) ∧
    pq_skipped_keys I1 = pq_skipped_keys I ∧ current_pq_epoch I1 = pc_epoch c ∧
    pending_pq_ciphertext I1 = None) as HI1 by by rewrite Hce.
  assert (∀ q, pending_pq_ciphertext I = Some q → ct_epoch q = pc_epoch c ∧
    pc_recv (ct_chains q) = pc_recv c) as Hq' by (intros; congruence).
  assert (current_pq_epoch I < pc_epoch c) as Hnew by lia.
  pose proof Hs1 as (Hok & _).
  assert (pq_linked I1 R) as Hl1.
  { split; try done.
    - split; [|done]. by eapply pq_view_shape; [symmetry|].
    - split; [|done]. by eapply switch_tidy.
    - split.
      + intros _. exists (mkPqChain 0 a). change (current_pq_epoch I1) with e. split.
        * unfold send_chain_of. simpl. rewrite <- Hce.
          rewrite (find_insert_new (current_pq_epoch I)) by done. by rewrite Hca.
        * intros i Hi. simpl in *. rewrite Z.sub_0_r, <- Hpe.
          apply fresh_pending_key; [done..|by rewrite Hcp|done].
      + intros Hz. destruct (Hf2 Hz) as (ch & Hch & HH). exists ch. split; [done|].
        intros i Hi. rewrite <- HH by done. rewrite <- Hcc. by eapply switch_key_current.
    - right. simpl. split; [lia|]. exists p, b. split_and!; [done..|by rewrite Hcp|].
      intros i Hi. rewrite <- Hce. erewrite switch_key_fresh; [by rewrite Hca|done..| |done].
      by rewrite Hca. }
  split_and!; [by eapply pq_linked_view| |].
  - apply (carries_trans _ _ I1 R); [|by apply carries_view].
    split; intros m' (Ht & Hb & Hm'); (split_and!; [simpl; try lia; done| |]).
    + intros ch Hch. exfalso. eapply send_insert_old; [exact Hok|exact Hnew| |exact Hch]. lia.
    + destruct (em_pq_ratchet_field m') as [[e' key'|]|]; [|done..]. destruct Hm' as [? Hm'].
      split; [done|]. destruct Hm' as [?|[(y & Hy & Hye & <-)|?]]; [by left| |by right; right].
      right. right. exists p. assert (y = x) as -> by congruence. split_and!; [done|lia|congruence].
    + done.
    + destruct (em_pq_ratchet_field m') as [[|e' h' ct']|]; [done| |done].
      destruct Hm' as [?|?]; [left; simpl; lia|by right].
  - apply (pq_keeps_trans _ _ I1); [|by apply pq_keeps_view].
    intros e' i k _ Hh'. destruct (decide (e' = pc_epoch c)) as [->|]; [|by eapply switch_has].
    destruct (no_future_key I (pc_epoch c) i) as [_ Hno]; [done..|]. by destruct (Hno k).
Qed.

Lemma commit_linked_I I R I' m :
  pq_linked I R → from_responder I R m → committed m I I' → pq_shape I' →
  pq_linked I' R ∧ carries I R I' R ∧ pq_keeps None I I'.
Proof.
  intros Hl Hm Hc Hs'. unfold committed in Hc. pose proof (pl_suite _ _ Hl) as [Hsu _].
  rewrite Hsu, (promoted_initiator _ I) in Hc by apply Hl. destruct Hc as [Hv|Hc].
  - split_and!; [by eapply pq_linked_view|by apply carries_view|by apply pq_keeps_view].
  - destruct (em_pq_ratchet_field m) as [[e key|e h ct]|] eqn:Hf; [| |done].
    + destruct Hm as (_ & _ & Hm). by rewrite Hf in Hm.
    + by eapply complete_linked.
Qed.
End sync.
