(* ===== verification/RatchetChains.v ===== *)
(** * Double ratchet: which chain key a message gets

    The classical half of the ratchet seen from its keys: [key_for] is the key
    a session has for the message [n] of the chain of a peer's ratchet key,
    whether it was kept, is still ahead on the current receive chain, or on
    the chain the next DH step will open. The lemmas describe what the loops
    of [decrypt] and [perform_dh_ratchet] ([messaging.rs], [internals.rs])
    leave behind. *)

From S2P Require Import Prelude SuiteId Platform Wp RatchetTypes RatchetPq Ratchet.
From S2P Require Import RatchetRollback RatchetPqInv RatchetPqKeys RatchetInv RatchetPqSync.

Section chains.
Context `{MlKemCrate} `{!HexCrate} `{!CryptoProvider}.
Context `{!MlKemLaws} `{!HexLaws} `{!ProviderLaws}.
Implicit Types (s : DoubleRatchetSession) (m : EncryptedRatchetMessage).

(** ** One chain *)

Definition ck_next (k : AeadKey) : AeadKey := match kdf_ck k with Ok (_, ck) => ck | _ => k end.
Definition ck_out (k : AeadKey) : AeadKey := match kdf_ck k with Ok (mk, _) => mk | _ => k end.

(** The chain key after [n] steps, and the message key there. *)
Definition ck_at (k : AeadKey) (n : Z) : AeadKey := Nat.iter (Z.to_nat n) ck_next k.
Definition ck_key_at (k : AeadKey) (n : Z) : AeadKey := ck_out (ck_at k n).

Lemma kdf_ck_eq k : kdf_ck k = Ok (ck_out k, ck_next k).
Proof. unfold ck_out, ck_next. by destruct (kdf_ck_ok k) as (mk & ck & -> & _). Qed.
Lemma ck_out_len k : len (aead_ref (ck_out k)) = 32.
Proof. unfold ck_out. by destruct (kdf_ck_ok k) as (mk & ck & -> & ? & _). Qed.

Lemma ck_at_0 k : ck_at k 0 = k.
Proof. done. Qed.
Lemma ck_at_add k a b : 0 ≤ a → 0 ≤ b → ck_at (ck_at k a) b = ck_at k (a + b).
Proof.
  intros Ha Hb. unfold ck_at. rewrite <- Nat.iter_add. f_equal. lia.
Qed.
Lemma ck_at_next k n : 0 ≤ n → ck_next (ck_at k n) = ck_at k (n + 1).
Proof. intros Hn. by rewrite <- ck_at_add by lia. Qed.
Lemma ck_key_at_add k a b : 0 ≤ a → 0 ≤ b → ck_key_at (ck_at k a) b = ck_key_at k (a + b).
Proof. intros Ha Hb. unfold ck_key_at. by rewrite ck_at_add. Qed.

(** ** The keys of a session *)

Definition to_option {E A} (r : res E A) : option A := match r with Ok a => Some a | _ => None end.

(** The root and receive chain a DH step with the key [dh] gives; the first
    step of a session that awaits an identity answer mixes [sec] in. *)
Definition turn (sec : option bytes) s (dh : bytes) : option (AeadKey * AeadKey) :=
  sk ← dh_ratchet_private s;
  z ← to_option (kem_decapsulate sk dh);
  '(rk, ck) ← to_option (kdf_rk (root_key s) z);
  if bool_decide (identity_proof s = IpAwaitingAnswer)
  then secret ← sec; to_option (mix_identity_secret rk ck secret)
  else Some (rk, ck).

Definition on_new_chain s (dh : bytes) : bool := needs_ratchet s (kem_public_key_from_bytes dh).

Definition key_for (sec : option bytes) s (dh : bytes) (n : Z) : option AeadKey :=
  match skipped_message_keys s !! (dh, n) with
  | Some k => Some k
  | None =>
      if on_new_chain s dh then '(_, ck) ← turn sec s dh; Some (ck_key_at ck n)
      else if receiving_chain_length s <=? n
           then Some (ck_key_at (receiving_chain_key s) (n - receiving_chain_length s)) else None
  end.

(** The kept keys of the current chain lie behind its position. *)
Definition tidy s : Prop := ∀ dh n k,
  skipped_message_keys s !! (dh, n) = Some k → on_new_chain s dh = false →
  n < receiving_chain_length s.

(** The classical state. *)
Definition classical s :=
  (root_key s, sending_chain_key s, sending_chain_length s, receiving_chain_key s,
   receiving_chain_length s, dh_ratchet_private s, dh_ratchet_public s, remote_dh_public s,
   previous_sending_length s, skipped_message_keys s, identity_proof s).
(** Whom the session is with. *)
Definition address s :=
  (suite_id s, session_id s, contact_id s, local_user_id s, peer_ad_version s).

Lemma on_new_chain_eq s s' dh :
  remote_dh_public s' = remote_dh_public s → on_new_chain s' dh = on_new_chain s dh.
Proof. unfold on_new_chain, needs_ratchet. by intros ->. Qed.

Lemma on_new_chain_spec s dh r :
  remote_dh_public s = Some r → on_new_chain s dh = negb (bool_decide (kem_public_ref r = dh)).
Proof. unfold on_new_chain, needs_ratchet. intros ->. by rewrite kem_public_ref_from. Qed.

Lemma classical_turn sec s s' dh : classical s' = classical s → turn sec s' dh = turn sec s dh.
Proof. unfold classical, turn. by intros [= -> _ _ _ _ -> _ _ _ _ ->]. Qed.

Lemma classical_key_for sec s s' dh n :
  classical s' = classical s → key_for sec s' dh n = key_for sec s dh n.
Proof.
  intros Hc. unfold key_for. rewrite (classical_turn _ _ _ _ Hc). unfold classical in Hc.
  injection Hc as _ _ _ -> -> _ _ Hr _ -> _. by rewrite (on_new_chain_eq s s').
Qed.

Lemma classical_tidy s s' : classical s' = classical s → tidy s → tidy s'.
Proof.
  unfold classical, tidy. intros [= _ _ _ _ -> _ _ Hr _ -> _].
  by setoid_rewrite (on_new_chain_eq s s' _ Hr).
Qed.

(** ** Moving along a chain *)

(** The receive chain moved on, and the keys from its old position up to
    [upto] were kept under [chain]. *)
Record advanced (chain : bytes) (upto : Z) s s' : Prop := {
  adv_order : receiving_chain_length s ≤ upto ≤ receiving_chain_length s';
  adv_chain : receiving_chain_key s'
    = ck_at (receiving_chain_key s) (receiving_chain_length s' - receiving_chain_length s);
  adv_keys : ∀ c j, skipped_message_keys s' !! (c, j) =
    if decide (c = chain ∧ receiving_chain_length s ≤ j < upto)
    then Some (ck_key_at (receiving_chain_key s) (j - receiving_chain_length s))
    else skipped_message_keys s !! (c, j);
  adv_size : Z.of_nat (size (skipped_message_keys s'))
    ≤ Z.of_nat (size (skipped_message_keys s)) + (upto - receiving_chain_length s);
  adv_rest : root_key s' = root_key s ∧ sending_chain_key s' = sending_chain_key s ∧
    sending_chain_length s' = sending_chain_length s ∧
    dh_ratchet_private s' = dh_ratchet_private s ∧ dh_ratchet_public s' = dh_ratchet_public s ∧
    remote_dh_public s' = remote_dh_public s ∧
    previous_sending_length s' = previous_sending_length s ∧
    identity_proof s' = identity_proof s;
  adv_address : address s' = address s;
  adv_pq : pq_view s' = pq_view s ∧ pq_pending_since s' = pq_pending_since s;
}.

Lemma advanced_refl c s : advanced c (receiving_chain_length s) s s.
Proof.
  split; try done; try lia; [by rewrite Z.sub_diag|].
  intros c' j. rewrite decide_False by lia. done.
Qed.

Lemma advanced_trans c n s s1 s2 :
  advanced c (receiving_chain_length s1) s s1 → advanced c n s1 s2 → advanced c n s s2.
Proof.
  intros [Ho Hc Hk Hz Hr Ha Hp] [Ho' Hc' Hk' Hz' Hr' Ha' Hp']. split; try lia.
  - rewrite Hc', Hc, ck_at_add by lia. f_equal. lia.
  - intros c' j. rewrite Hk', Hk, Hc. destruct (decide (c' = c ∧ _)) as [[-> Hj]|Hj].
    + rewrite decide_True by (split; [done|lia]). rewrite ck_key_at_add by lia. do 2 f_equal. lia.
    + destruct (decide (c' = c ∧ _)) as [[-> Hj']|Hj'];
        [by rewrite decide_True by (split; [done|lia])|rewrite decide_False; [done|]].
      intros [-> ?]. destruct (decide (j < receiving_chain_length s1)); [apply Hj'|apply Hj];
        (split; [done|lia]).
  - destruct_and!; split_and!; congruence.
  - congruence.
  - destruct_and!; split_and!; congruence.
Qed.

(** One round of either loop. *)
Definition kept_one (c : bytes) (t : Z) s : DoubleRatchetSession :=
  s <| skipped_message_keys := <[(c, receiving_chain_length s) := ck_out (receiving_chain_key s)]>
         (skipped_message_keys s) |>
    <| skipped_key_timestamps := <[(c, receiving_chain_length s) := t]> (skipped_key_timestamps s) |>
    <| receiving_chain_key := ck_next (receiving_chain_key s) |>
    <| receiving_chain_length := receiving_chain_length s + 1 |>.

Lemma advanced_one c t s :
  advanced c (receiving_chain_length (kept_one c t s)) s (kept_one c t s).
Proof.
  split; simpl; try done; try lia.
  - by rewrite Z.add_simpl_l.
  - intros c' j. destruct (decide (c' = c ∧ _)) as [[-> Hj]|Hj].
    + assert (j = receiving_chain_length s) as -> by lia. by rewrite lookup_insert_eq, Z.sub_diag.
    + rewrite lookup_insert_ne; [done|]. intros [= <- <-]. apply Hj. split; [done|lia].
  - rewrite map_size_insert. destruct (_ !! _); simpl; lia.
Qed.

Section loops.
Variable snap : DecryptSnapshot.

Lemma wp_kdf_ck_restoring s w Q (E : DrError → DoubleRatchetSession * World → Prop) :
  Q (ck_out (receiving_chain_key s), ck_next (receiving_chain_key s)) (s, w) →
  wp False (restoring snap (lift (map_err KdfCkFailed (kdf_ck (receiving_chain_key s))))) (s, w) Q E.
Proof. intros HQ. apply wp_restore_on_err, wp_lift. by rewrite kdf_ck_eq. Qed.

Lemma wp_bump s w (Q : unit → _ → Prop) E :
  receiving_chain_length s < u32_max →
  Q tt (s <| receiving_chain_length := receiving_chain_length s + 1 |>, w) →
  wp False (bump_receiving_length snap) (s, w) Q E.
Proof.
  intros Hlt HQ. unfold bump_receiving_length, checked_add32. do 2 wp_step.
  rewrite (proj2 (Z.leb_le _ _)) by lia. by wp_step.
Qed.

(** [while self.receiving_chain_length < pn] keeps the rest of the old chain,
    unless there is no room. *)
Lemma skip_old_chain_keeps n c pn s w :
  pn - receiving_chain_length s ≤ Z.of_nat n → pn ≤ u32_max →
  wp False (skip_old_chain snap n c pn) (s, w)
    (λ _ sw, advanced c (receiving_chain_length sw.1) s sw.1 ∧
      receiving_chain_length sw.1 = Z.max (receiving_chain_length s) pn)
    (λ e _, e = TooManySkippedMessages ∧ max_skipped_messages global
      ≤ Z.of_nat (size (skipped_message_keys s)) + (pn - receiving_chain_length s)).
Proof.
  intros Hn Hpn. revert s w Hn.
  induction n as [|n IH]; intros s w Hn; simpl skip_old_chain; do 3 wp_step;
    try (split; [apply advanced_refl|simpl; lia]); [lia|].
  wp_step; [unfold fail_restoring; wp_steps; unfold too_many_skipped in *; by split; [|lia]|].
  wp_step. apply wp_kdf_ck_restoring. wp_step. unfold store_skipped. do 4 wp_step.
  apply wp_bump; [simpl; lia|]. pose proof (advanced_one c (clock w).2 s) as Hone.
  set (s1 := kept_one c (clock w).2 s) in Hone. change (_ <| receiving_chain_length := _ |>) with s1.
  assert (receiving_chain_length s1 = receiving_chain_length s + 1) as Hr1 by done. clearbody s1.
  eapply wp_mono; [apply IH; lia| |].
  - intros _ [s2 w2] [Ha Hr]. simpl in *. split; [by eapply advanced_trans|lia].
  - intros e _ [-> Hz]. split; [done|]. destruct Hone. lia.
Qed.

Lemma kept_one_wf c t s :
  wf_session s → receiving_chain_length s < u32_max → too_many_skipped (kept_one c t s) = false →
  wf_session (kept_one c t s).
Proof.
  intros [[] Hq] Hu Hz. split; [|done]. unfold too_many_skipped in Hz. simpl in Hz.
  constructor; try done; simpl.
  - unfold is_u32 in *. lia.
  - apply skipped_ok_insert_size; [done|lia|apply ck_out_len].
Qed.

(** The receive loop gets to the message's own position, keeping the keys it
    passes, unless there is no room; then the message is opened. *)
Lemma receive_loop_reaches n r m s w Q (E : DrError → DoubleRatchetSession * World → Prop) :
  em_message_number m - receiving_chain_length s + 1 ≤ Z.of_nat n →
  receiving_chain_length s ≤ em_message_number m < u32_max → wf_session s →
  (∀ s' w', advanced (em_dh_public_key m) (receiving_chain_length s') s s' →
    receiving_chain_length s' = em_message_number m → wf_session s' →
    wp False (open_in_order snap r (ck_out (receiving_chain_key s'))
      (ck_next (receiving_chain_key s')) m) (s', w') Q E) →
  (max_skipped_messages global
     ≤ Z.of_nat (size (skipped_message_keys s)) + (em_message_number m - receiving_chain_length s) →
   ∀ sw, E TooManySkippedMessages sw) →
  wp False (receive_loop snap n r m) (s, w) Q E.
Proof.
  revert s w. induction n as [|n IH]; intros s w Hn Hlt Hwf HQ HE; simpl receive_loop; [lia|].
  do 2 wp_step. rewrite (proj2 (Z.leb_le _ _)) by lia. cbn [negb]. wp_step.
  apply wp_kdf_ck_restoring. cbv beta match.
  destruct (Z.eqb_spec (receiving_chain_length s) (em_message_number m)) as [Heq|Hne].
  { apply HQ; [apply advanced_refl|done..]. }
  wp_step. unfold store_skipped. do 4 wp_step. apply wp_bump; [simpl; lia|].
  pose proof (advanced_one (em_dh_public_key m) (clock w).2 s) as Hone.
  pose proof (kept_one_wf (em_dh_public_key m) (clock w).2 s Hwf) as Hwf1.
  set (s1 := kept_one (em_dh_public_key m) (clock w).2 s) in Hone, Hwf1.
  change (_ <| receiving_chain_length := _ |>) with s1.
  assert (receiving_chain_length s1 = receiving_chain_length s + 1) as Hr1 by done. clearbody s1.
  do 2 wp_step. pose proof (adv_size _ _ _ _ Hone) as Hz. wp_step.
  - unfold fail_restoring, too_many_skipped in *. wp_steps. apply HE. lia.
  - apply IH; [lia|lia|apply Hwf1; [lia|done]| |].
    + intros s' w' Ha. apply HQ. by eapply advanced_trans.
    + intros Hmax. apply HE. lia.
Qed.
End loops.

(** ** The DH step *)

(** A public key someone holds the private key of. *)
Definition real_key (dh : bytes) : Prop :=
  ∃ sk pk, from_private_key_to_public_key sk = Ok pk ∧ kem_public_ref pk = dh.

Definition after_answer (p : IdentityProof) : IdentityProof :=
  if bool_decide (p = IpAwaitingAnswer) then IpNone else p.

(** The session turned to the peer's key [dh]: it took the receive chain of
    [turn] and opened a sending chain under a fresh key pair. *)
Record turned (sec : option bytes) (dh : bytes) s s' : Prop := {
  tn_chains : ∃ rk ck sk pk z, turn sec s dh = Some (rk, ck) ∧
    receiving_chain_key s' = ck ∧ receiving_chain_length s' = 0 ∧
    from_private_key_to_public_key sk = Ok pk ∧
    dh_ratchet_private s' = Some sk ∧ dh_ratchet_public s' = pk ∧
    kem_decapsulate sk dh = Ok z ∧
    kdf_rk rk z = Ok (root_key s', sending_chain_key s') ∧ sending_chain_length s' = 0;
  tn_remote : remote_dh_public s' = Some (kem_public_key_from_bytes dh);
  tn_previous : previous_sending_length s' = sending_chain_length s;
  tn_skipped : skipped_message_keys s' = skipped_message_keys s;
  tn_proof : identity_proof s' = after_answer (identity_proof s);
  tn_address : address s' = address s;
}.

Lemma keeps_classical_advance : keeps classical maybe_advance_pq_ratchet.
Proof.
  unfold maybe_advance_pq_ratchet, abandon_unanswered_pq_exchange, start_pq_exchange,
    pq_epoch_is_old. keeps_tac.
Qed.
Lemma keeps_address_advance : keeps address maybe_advance_pq_ratchet.
Proof.
  unfold maybe_advance_pq_ratchet, abandon_unanswered_pq_exchange, start_pq_exchange,
    pq_epoch_is_old. keeps_tac.
Qed.

Lemma turned_same sec dh s s1 s2 :
  classical s2 = classical s1 → address s2 = address s1 → turned sec dh s s1 → turned sec dh s s2.
Proof.
  unfold classical. intros [= E1 E2 E3 E4 E5 E6 E7 E8 E9 E10 E11] Ha
    [(rk & ck & sk & pk & z & HH) Hr Hp Hs Hi Ha1].
  split; try congruence. exists rk, ck, sk, pk, z. rewrite E1, E2, E3, E4, E5, E6, E7. done.
Qed.

Section turning.
Variable t0 : Z.
Hypothesis recent : ∀ w, t0 ≤ (clock w).2 < t0 + max_skipped_message_age_seconds global.

Lemma perform_dh_ratchet_turns dh sec rk ck s w :
  real_key dh → turn sec s dh = Some (rk, ck) → since_ok t0 s →
  wp False (perform_dh_ratchet (kem_public_key_from_bytes dh) sec) (s, w)
    (λ _ sw, turned sec dh s sw.1 ∧ proposed s sw.1 ∧ since_ok t0 sw.1) (λ _ _, False).
Proof.
  intros (skr & pkr & Hpkr & Hdh) Hturn Hso. unfold perform_dh_ratchet. do 5 wp_step.
  pose proof Hturn as Ht. unfold turn in Ht.
  destruct (dh_ratchet_private s) as [sk0|] eqn:Hsk0; [|done]. simpl in Ht.
  destruct (kem_decapsulate sk0 dh) as [z0| |] eqn:Hz0; [|done..]. simpl in Ht.
  destruct (kdf_rk (root_key s) z0) as [[rk0 ck0]| |] eqn:Hkdf; [|done..]. simpl in Ht.
  apply wp_lift. simpl ok_or. rewrite Hsk0. cbn [ok_or]. wp_step.
  rewrite kem_public_ref_from, Hz0. apply wp_lift. cbn [map_err]. wp_step. simpl root_key.
  rewrite Hkdf. apply wp_lift. cbn [map_err]. do 5 wp_step.
  name_state s1.
  apply (wp_mono _ _ _ (λ _ sw, sw.1 = s1 <| root_key := rk |> <| receiving_chain_key := ck |>
    <| identity_proof := after_answer (identity_proof s) |>) _ (λ _ _, False)); [| |done].
  { unfold after_answer. change (identity_proof s1) with (identity_proof s).
    destruct (bool_decide _) eqn:Hb.
    - destruct sec as [secret|]; [|done]. simpl in Ht. wp_step. apply wp_lift. cbn [ok_or].
      wp_step. change (root_key s1) with rk0. change (receiving_chain_key s1) with ck0.
      destruct (mix_identity_secret rk0 ck0 secret) as [[rk1 ck1]| |]; [|done..].
      injection Ht as -> ->. apply wp_lift. by wp_step.
    - injection Ht as -> ->. wp_step. unfold s1. by destruct s. }
  intros _ [s2 w2] Hs2. simpl in Hs2. do 3 wp_step. apply wp_generate_kem_keys.
  intros w3 sk pk Hpk. wp_step.
  destruct (dh_defined sk pk skr pkr Hpk Hpkr) as [z Hz]. rewrite Hdh in Hz. rewrite Hz.
  apply wp_lift. cbn [map_err]. do 3 wp_step.
  destruct (kdf_rk_ok (root_key s2) z) as (rk' & ck' & Hk' & _). rewrite Hk'. apply wp_lift.
  cbn [map_err]. do 8 wp_step. name_state s3.
  assert (turned sec dh s s3) as Ht3.
  { subst s2. split; try done. exists rk, ck, sk, pk, z. by split_and!. }
  assert (pq_view s3 = pq_view s ∧ since_ok t0 s3 ∧ sending_chain_length s3 = 0 ∧
    receiving_chain_length s3 = 0) as (Hv3 & Hso3 & Hl & Hr) by (subst s2; done).
  clearbody s3. rewrite Hl, Hr. unfold debug_assert. change (0 =? 0) with true. do 4 wp_step.
  eapply wp_mono; [apply wp_conj; [apply wp_conj|];
    [by apply (maybe_advance_proposes t0 recent)|apply keeps_classical_advance
    |apply keeps_address_advance]| |by intros e sw [[? _] _]].
  intros _ [s4 w4] [[[Hp Hs4] Hc] Ha]. simpl in *.
  split_and!; [by eapply turned_same|by eapply proposed_view|done].
Qed.
End turning.
End chains.
