(* ===== verification/RatchetDeliver.v ===== *)
(** * Double ratchet: what [decrypt] does with a message it has the key of

    A message whose key the session has, kept, ahead on a chain or behind the
    next DH step, is opened to its plaintext, and every other key of the
    session stays what it was; unless the message lies beyond one of the
    limits the code sets, in which case it is refused for that reason. This is
    [decrypt_message] of [messaging.rs] with both layers of the ratchet. *)

From S2P Require Import Prelude SuiteId Platform Wp RatchetTypes RatchetPq Ratchet.
From S2P Require Import RatchetRollback RatchetPqInv RatchetPqKeys RatchetInv RatchetPqSync RatchetChains.

(** The slot of the classical ratchet a message takes. *)
Abbreviation slot_of m := (em_dh_public_key m, em_message_number m).

Section deliver.
Context `{MlKemCrate} `{!HexCrate} `{!CryptoProvider}.
Context `{!MlKemLaws} `{!HexLaws} `{!ProviderLaws}.
Implicit Types (s : DoubleRatchetSession) (m : EncryptedRatchetMessage).

(** ** The PQ layer *)

Lemma pq_view_set_recv e ch s s' :
  pq_view s' = pq_view s → pq_view (set_recv_chain e ch s') = pq_view (set_recv_chain e ch s).
Proof.
  unfold pq_view, set_recv_chain. intros [= ? ? ? Hc ? ? Hp]. rewrite Hc.
  destruct (find_epoch _ _); simpl; congruence.
Qed.

Lemma pq_view_set_keys ks s s' :
  pq_view s' = pq_view s →
  pq_view (s' <| pq_skipped_keys := ks |>) = pq_view (s <| pq_skipped_keys := ks |>).
Proof. unfold pq_view. simpl. congruence. Qed.

Lemma taken_view_r e i s s1 s2 : pq_view s2 = pq_view s1 → pq_taken e i s s1 → pq_taken e i s s2.
Proof.
  intros Hv [(ch & ks & Ht) Hk Hc Hd]. split.
  - exists ch, ks. by rewrite Hv.
  - intros e' i'. rewrite (pq_view_key_for _ _ _ _ Hv). apply Hk.
  - intros e'. by rewrite (pq_view_recv _ _ _ Hv).
  - by eapply pq_view_tidy.
Qed.

(** A proposal changes no key. *)
Lemma proposed_keys s s' :
  proposed s s' →
  suite_id s' = suite_id s ∧ current_pq_epoch s' = current_pq_epoch s ∧
  pq_skipped_keys s' = pq_skipped_keys s ∧ pq_chains s' = pq_chains s ∧
  pending_pq_ciphertext s' = pending_pq_ciphertext s ∧ is_pq_initiator s' = is_pq_initiator s.
Proof.
  unfold proposed, pq_view. intros [[= ? ? ? ? ? ? ?]|(_ & _ & x & _ & [= ? ? ? ? ? ? ?])]; done.
Qed.

Lemma proposed_recv s s' e : proposed s s' → recv_chain_of s' e = recv_chain_of s e.
Proof. intros (_ & _ & _ & Hc & Hp & _)%proposed_keys. unfold recv_chain_of. by rewrite Hc, Hp. Qed.

Lemma proposed_key_for s s' e i : proposed s s' → pq_key_for s' e i = pq_key_for s e i.
Proof.
  intros Hp. unfold pq_key_for. rewrite (proposed_recv _ _ _ Hp).
  by destruct (proposed_keys _ _ Hp) as (_ & _ & -> & _).
Qed.

Lemma proposed_has s s' e i k : proposed s s' → pq_has s' e i k ↔ pq_has s e i k.
Proof.
  intros Hp. unfold pq_has, pq_lost. rewrite (proposed_key_for _ _ _ _ Hp), (proposed_recv _ _ _ Hp).
  by destruct (proposed_keys _ _ Hp) as (_ & -> & _).
Qed.

Lemma proposed_shape s s' : proposed s s' → pq_shape s → pq_shape s'.
Proof. intros (_ & Hc & _ & Hch & Hp & Hi)%proposed_keys. unfold pq_shape. by rewrite Hc, Hch, Hp, Hi. Qed.

Lemma proposed_tidy s s' : proposed s s' → pq_tidy s → pq_tidy s'.
Proof.
  intros Hp Ht e i k. pose proof (proposed_keys _ _ Hp) as (_ & Hc & Hk & _ & Hct & _).
  rewrite Hk, (proposed_recv _ _ _ Hp). unfold pq_known. rewrite Hc, Hct. apply Ht.
Qed.

Lemma proposed_over s s' e i err : proposed s s' → pq_over s' e i err → pq_over s e i err.
Proof.
  intros Hp. unfold pq_over. rewrite (proposed_recv _ _ _ Hp).
  by destruct (proposed_keys _ _ Hp) as (_ & _ & -> & _).
Qed.

(** Does the message have a slot of an epoch? *)
Definition pq_slotted s m : bool :=
  is_pq_ratchet (suite_id s) && negb (em_pq_message_epoch m =? 0).

(** The PQ key of the message was taken, if it has one. *)
Definition opened m s s' : Prop :=
  if pq_slotted s m then pq_taken (em_pq_message_epoch m) (em_pq_key_index m) s s'
  else pq_view s' = pq_view s.

Lemma opened_view_r m s s1 s2 : pq_view s2 = pq_view s1 → opened m s s1 → opened m s s2.
Proof. unfold opened. intros Hv. case_match; [by apply taken_view_r|congruence]. Qed.

(** The whole of what a delivered message does to the PQ state. *)
Definition pq_received m s s' : Prop := ∃ s1 s2,
  proposed s s1 ∧ opened m s1 s2 ∧ pq_inv s2 ∧ committed m s2 s'.

(** The PQ key sealed into a message is the one the session has, or lost. *)
Definition pq_sealed s m (pk : option bytes) : Prop :=
  if pq_slotted s m
  then ∃ k, pk = Some k ∧ pq_has s (em_pq_message_epoch m) (em_pq_key_index m) k
  else pk = None ∧ (is_pq_ratchet (suite_id s) = true → em_pq_key_index m = 0).

(** [m] was sealed with the chain key [k] for this session. *)
Definition sealed_for s m (k : AeadKey) (p : bytes) : Prop := ∃ pk mk,
  pq_sealed s m pk ∧ mix_pq_message_key k pk = Ok mk ∧ try_aead_decrypt s mk m = Ok p ∧
  em_ad_version m ≤ peer_ad_version s.

Definition pq_limit s m (err : DrError) : Prop :=
  pq_slotted s m = true ∧
  (pq_over s (em_pq_message_epoch m) (em_pq_key_index m) err ∨
   err = PqEpochWithoutChain (em_pq_message_epoch m) (current_pq_epoch s) ∧
     pq_lost s (em_pq_message_epoch m) (em_pq_key_index m)).

Lemma pq_limit_proposed s s' m err : proposed s s' → pq_limit s' m err → pq_limit s m err.
Proof.
  intros Hp. unfold pq_limit, pq_lost, pq_slotted.
  rewrite (proposed_key_for _ _ _ _ Hp), (proposed_recv _ _ _ Hp).
  destruct (proposed_keys _ _ Hp) as (-> & -> & _).
  intros [? [?|?]]; (split; [done|]); [left; by eapply proposed_over|by right].
Qed.

Lemma address_aead s s' k m :
  address s' = address s → try_aead_decrypt s' k m = try_aead_decrypt s k m.
Proof. unfold address, try_aead_decrypt, check_ad_version. by intros [= -> -> -> -> ->]. Qed.

Lemma sealed_for_proposed s s' m k p :
  proposed s s' → address s' = address s → sealed_for s m k p → sealed_for s' m k p.
Proof.
  intros Hp Ha (pk & mk & Hs & Hm & Ht & Hv). exists pk, mk.
  rewrite (address_aead _ _ _ _ Ha). split_and!; try done.
  - unfold pq_sealed, pq_slotted in *. destruct (proposed_keys _ _ Hp) as (-> & _).
    destruct (_ && _); [|done]. destruct Hs as (k' & -> & Hh). exists k'. by rewrite proposed_has.
  - unfold address in Ha. congruence.
Qed.

Lemma proposed_refl s : proposed s s.
Proof. by left. Qed.

(** What the PQ operations of a delivery leave alone. *)
Definition classical_part s := (classical s, address s).

Lemma keeps_part_receive e i : keeps (λ s, (classical_part s, pq_pending_since s)) (pq_receive_key e i).
Proof.
  unfold pq_receive_key. keeps_tac. intros s w. unfold wp, advance_recv_chain. simpl.
  assert (∀ st, (classical_part (write_recv e st s), pq_pending_since (write_recv e st s))
    = (classical_part s, pq_pending_since s)) as Hw.
  { intros st. unfold write_recv, set_recv_chain. by destruct (find_epoch _ _). }
  destruct (pq_recv_loop _ _ _ _ _) as [st []]; simpl; done || apply Hw.
Qed.

Lemma keeps_part_commit m : keeps classical_part (commit_pq_post_decrypt m).
Proof.
  unfold commit_pq_post_decrypt, promote_pending_ciphertext, ingest_public_key, ingest_ciphertext.
  keeps_tac.
Qed.

Lemma pq_receive_key_slotted m pk s w :
  wf_session s → is_u32 (em_pq_key_index m) → em_pq_key_index m < u32_max →
  (is_pq_ratchet (suite_id s) = true → pq_tidy s) → pq_sealed s m pk →
  wp False (pq_receive_key (if is_pq_ratchet (suite_id s) then em_pq_message_epoch m else 0)
              (if is_pq_ratchet (suite_id s) then em_pq_key_index m else 0)) (s, w)
    (λ r sw, r = pk ∧ opened m s sw.1) (λ err _, pq_limit s m err).
Proof.
  intros Hwf Hu Hlt Ht Hs. unfold pq_sealed, opened, pq_slotted in *.
  destruct (is_pq_ratchet (suite_id s)) eqn:Hsu; simpl in *.
  - destruct (Z.eqb_spec (em_pq_message_epoch m) 0) as [Hz|Hz]; simpl in *.
    + destruct Hs as [-> Hi]. unfold pq_receive_key. do 2 wp_step. rewrite Hz, Hi, orb_true_r by done.
      by wp_step.
    + destruct Hs as (k & -> & [Hk|Hl]).
      * eapply wp_mono; [apply pq_receive_key_for; try done; [by apply Ht|apply Hwf]|done|].
        intros err sw ?. split; [unfold pq_slotted; by rewrite Hsu, (proj2 (Z.eqb_neq _ _))|by left].
      * pose proof Hl as (Hn & Hr & _). eapply wp_mono; [apply pq_receive_evicted; try done|done|].
        -- unfold pq_key_for in Hn. by destruct (pq_skipped_keys s !! _).
        -- intros err sw ->. split; [unfold pq_slotted; by rewrite Hsu, (proj2 (Z.eqb_neq _ _))|by right].
  - destruct Hs as [-> _]. unfold pq_receive_key. do 2 wp_step. rewrite Hsu. by wp_step.
Qed.

(** ** Opening *)

Lemma decrypt_with_key_opens k m p s w :
  wf_session s → readable m → em_pq_key_index m < u32_max →
  (is_pq_ratchet (suite_id s) = true → pq_tidy s) → sealed_for s m k p →
  wp False (decrypt_with_key k m) (s, w)
    (λ r sw, r = p ∧ opened m s sw.1 ∧ pq_inv sw.1 ∧ classical_part sw.1 = classical_part s ∧
      pq_pending_since sw.1 = pq_pending_since s)
    (λ err _, pq_limit s m err).
Proof.
  intros Hwf [Hm _] Hlt Ht (pk & mk & Hs & Hmix & Haead & Hv). unfold decrypt_with_key. do 2 wp_step.
  assert (is_u32 (em_pq_key_index m)) as Hu by apply Hm.
  set (e := if is_pq_ratchet (suite_id s) then em_pq_message_epoch m else 0).
  set (i := if is_pq_ratchet (suite_id s) then em_pq_key_index m else 0).
  assert (is_u32 i) as Hui by (unfold i; case_match; [done|apply u32_zero]).
  replace (if is_pq_ratchet (suite_id s) then (em_pq_message_epoch m, em_pq_key_index m) else (0, 0))
    with (e, i) by (unfold e, i; by case_match). wp_step.
  eapply wp_mono; [apply wp_conj; [apply wp_conj|]| |];
    [by apply pq_receive_key_slotted| |apply keeps_part_receive| |by intros err sw [[? _] _]].
  { apply (wp_weaken_panic False); [done|]. by apply pq_receive_key_spec. }
  intros r [s1 w1] [[[-> Ho] [Hwf1 _]] Hk]. simpl in *.
  pose proof (f_equal (snd ∘ fst) Hk : address s1 = address s) as Ha.
  pose proof (f_equal (fst ∘ fst) Hk : classical s1 = classical s) as Hc.
  pose proof (f_equal snd Hk : pq_pending_since s1 = pq_pending_since s) as Hsince. clear Hk.
  wp_step. rewrite Hmix. apply wp_lift. do 3 wp_step. rewrite (address_aead s) by done.
  rewrite Haead. apply wp_lift. do 3 wp_step. split; [done|]. cbn [fst].
  set (s2 := s1 <| peer_ad_version := Z.max (peer_ad_version s1) (em_ad_version m) |>). assert (pq_view s2 = pq_view s1) as Hv2 by done.
  split_and!; [by eapply opened_view_r|apply Hwf1| |done].
  unfold classical_part. f_equal; [done|]. unfold address in *. simpl.
  injection Ha as -> -> -> -> ->. by rewrite Z.max_l.
Qed.

(** What the PQ half is after opening. *)
Definition pq_opened m s s' : Prop := ∃ s2, opened m s s2 ∧ pq_inv s2 ∧ committed m s2 s'.

Lemma committed_view_r m s s1 s2 : pq_view s2 = pq_view s1 → committed m s s1 → committed m s s2.
Proof.
  unfold committed, answered, completed. intros Hv. rewrite Hv. naive_solver.
Qed.

Lemma opened_view_l m s s1 s' : pq_view s1 = pq_view s → opened m s1 s' → opened m s s'.
Proof.
  intros Hv. unfold opened, pq_slotted.
  pose proof (f_equal (fst ∘ fst ∘ fst ∘ fst ∘ fst ∘ fst) Hv : suite_id s1 = suite_id s) as ->.
  case_match; [|congruence]. intros [(ch & ks & Ht) Hk Hc Hd]. split.
  - exists ch, ks. rewrite <- (pq_view_recv _ _ _ Hv).
    rewrite (pq_view_set_keys ks _ _ (pq_view_set_recv _ ch _ _ Hv)) in Ht.
    by rewrite (pq_view_set_keys ks _ _ Hv) in Ht.
  - intros e' i' Hne. rewrite Hk by done. by apply pq_view_key_for.
  - intros e'. by rewrite Hc, (pq_view_recv _ _ _ Hv).
  - done.
Qed.

Lemma pq_opened_view m s s1 s1' s' :
  pq_view s1 = pq_view s → pq_view s' = pq_view s1' → pq_opened m s1 s1' → pq_opened m s s'.
Proof.
  intros Hl Hr (s2 & Ho & Hi & Hc). exists s2.
  split_and!; [by eapply opened_view_l|done|by eapply committed_view_r].
Qed.

Lemma sealed_for_view s s' m k p :
  pq_view s' = pq_view s → address s' = address s → sealed_for s m k p → sealed_for s' m k p.
Proof. intros Hv Ha. apply sealed_for_proposed; [by left|done]. Qed.

Lemma complete_identity_view s :
  pq_view (complete_identity_proof s) = pq_view s ∧
  pq_pending_since (complete_identity_proof s) = pq_pending_since s.
Proof. unfold complete_identity_proof. by case_match. Qed.

Section opening.
Variable t0 : Z.
Hypothesis recent : ∀ w, t0 ≤ (clock w).2 < t0 + max_skipped_message_age_seconds global.
Variable snap : DecryptSnapshot.

(** Opening and committing, the tail of every path. *)
Lemma open_and_commit k m p s w (Q : bytes → _ → Prop) (E : DrError → _ → Prop)
    (tail : bytes → method DoubleRatchetSession DrError bytes) :
  wf_session s → readable m → em_pq_key_index m < u32_max →
  (is_pq_ratchet (suite_id s) = true → pq_tidy s) → sealed_for s m k p → since_ok t0 s →
  (∀ s2 w2, opened m s s2 → pq_inv s2 → classical_part s2 = classical_part s → since_ok t0 s2 →
    wp False (tail p) (s2, w2) Q E) →
  (∀ err sw, pq_limit s m err → E err sw) →
  wp False (restoring snap (decrypt_with_key k m) ≫= tail) (s, w) Q E.
Proof.
  intros Hwf Hm Hlt Ht Hs Hso HQ HE. wp_step. apply wp_restore_on_err.
  eapply wp_mono; [by apply decrypt_with_key_opens| |].
  - intros r [s2 w2] (-> & Ho & Hi & Hc & Hsi). apply HQ; try done.
    unfold since_ok. simpl in Hsi. by rewrite Hsi.
  - intros err sw Hl. by apply HE.
Qed.

Lemma commit_after m s s2 w2 :
  opened m s s2 → pq_inv s2 → since_ok t0 s2 →
  wp False (commit_pq_post_decrypt m) (s2, w2)
    (λ _ sw, pq_opened m s sw.1 ∧ since_ok t0 sw.1 ∧ classical_part sw.1 = classical_part s2)
    (λ _ _, False).
Proof.
  intros Ho Hi Hso. eapply wp_mono; [apply wp_conj; [by apply (commit_commits t0)|
    apply keeps_part_commit]| |by intros ? ? [? _]].
  intros _ [s3 w3] [[Hc Hs3] Hk]. simpl in *. split_and!; [by exists s2|done..].
Qed.

(** The session past the message's own position. *)
Definition passed (r : bool) s : DoubleRatchetSession :=
  let s1 := s <| receiving_chain_key := ck_next (receiving_chain_key s) |>
              <| receiving_chain_length := receiving_chain_length s + 1 |> in
  if r then complete_identity_proof s1 else s1.

Lemma complete_part s s' :
  classical_part s' = classical_part s →
  classical_part (complete_identity_proof s') = classical_part (complete_identity_proof s).
Proof.
  unfold classical_part, classical, address, complete_identity_proof.
  intros [= ? ? ? ? ? ? ? ? ? ? Hi ? ? ? ? ?]. rewrite Hi. destruct (identity_proof s) eqn:Hp; simpl;
    repeat match goal with |- (_, _) = (_, _) => apply f_equal2 end; congruence.
Qed.

Lemma open_in_order_opens r m p s w :
  wf_session s → readable m → em_pq_key_index m < u32_max → em_message_number m < u32_max →
  (is_pq_ratchet (suite_id s) = true → pq_tidy s) → since_ok t0 s →
  receiving_chain_length s = em_message_number m →
  sealed_for s m (ck_out (receiving_chain_key s)) p →
  wp False (open_in_order snap r (ck_out (receiving_chain_key s))
      (ck_next (receiving_chain_key s)) m) (s, w)
    (λ x sw, x = p ∧ pq_opened m s sw.1 ∧ since_ok t0 sw.1 ∧
      classical_part sw.1 = classical_part (passed r s))
    (λ err _, pq_limit s m err).
Proof.
  intros Hwf Hm Hlt Hn Ht Hso Hr Hs. unfold open_in_order. do 3 wp_step. apply wp_bump; [simpl; lia|].
  do 2 wp_step. set (s1 := passed false s). change (_ <| receiving_chain_length := _ |>) with s1.
  assert (wf_session s1) as Hwf1.
  { destruct Hwf as [[] ?]. split; [|done]. constructor; try done. simpl. unfold is_u32 in *. lia. }
  wp_step. assert (receiving_chain_length s1 = em_message_number m + 1) as Hr1 by (simpl; lia).
  rewrite Hr1, Z.eqb_refl. unfold debug_assert. wp_step.
  assert (pq_view s1 = pq_view s) as Hv1 by done.
  apply (open_and_commit _ _ p); try done.
  intros s2 w2 Ho%(opened_view_l m s s1 s2 Hv1) Hi Hc Hs2. wp_step.
  eapply wp_mono; [by apply (commit_after m s)| |done]. intros _ [s3 w3] (Hpo & Hs3 & Hk3).
  simpl in *. destruct r; wp_steps; (split; [done|]).
  - destruct (complete_identity_view s3) as [Hv Hsi]. split_and!.
    + by apply (pq_opened_view m s s s3).
    + unfold since_ok. cbn [fst]. by rewrite Hsi.
    + apply complete_part. by rewrite Hk3, Hc.
  - split_and!; [done..|]. cbn [fst]. by rewrite Hk3, Hc.
Qed.

Lemma open_skipped_opens k slot m p s w :
  wf_session s → readable m → em_pq_key_index m < u32_max →
  (is_pq_ratchet (suite_id s) = true → pq_tidy s) → since_ok t0 s → sealed_for s m k p →
  wp False (open_skipped snap k slot m) (s, w)
    (λ x sw, x = p ∧ pq_opened m s sw.1 ∧ since_ok t0 sw.1 ∧ classical_part sw.1
      = classical_part (s <| skipped_message_keys := delete slot (skipped_message_keys s) |>))
    (λ err _, pq_limit s m err).
Proof.
  intros Hwf Hm Hlt Ht Hso Hs. unfold open_skipped. do 2 wp_step. name_state s1.
  assert (wf_session s1) as Hwf1.
  { destruct Hwf as [[] ?]. split; [|done]. constructor; try done. by apply skipped_ok_delete. }
  assert (pq_view s1 = pq_view s) as Hv1 by done.
  do 2 wp_step. apply (open_and_commit _ _ p); try done.
  intros s2 w2 Ho%(opened_view_l m s s1 s2 Hv1) Hi Hc Hs2. do 3 wp_step.
  assert (receiving_chain_length s2 = receiving_chain_length s1) as ->.
  { unfold classical_part, classical in Hc. congruence. }
  rewrite Z.eqb_refl. unfold debug_assert. do 2 wp_step.
  eapply wp_mono; [by apply (commit_after m s)| |done]. intros _ [s3 w3] (Hpo & Hs3 & Hk3).
  wp_step. split_and!; [done..|]. cbn [fst] in *. by rewrite Hk3, Hc.
Qed.
End opening.

(** ** Delivery *)

(** The number of keys [m] makes the session keep. *)
Definition passes s m : Z :=
  if on_new_chain s (em_dh_public_key m)
  then Z.max 0 (em_previous_chain_length m - receiving_chain_length s) + em_message_number m
  else em_message_number m - receiving_chain_length s.

(** The reasons a message is refused for, although the session has its key. *)
Inductive over_limit s m : DrError → Prop :=
  | over_new_chain :
      skipped_message_keys s !! slot_of m = None → on_new_chain s (em_dh_public_key m) = true →
      max_message_jump global < em_message_number m →
      over_limit s m (JumpAfterDhStep (em_message_number m) (max_message_jump global))
  | over_old_chain :
      skipped_message_keys s !! slot_of m = None → on_new_chain s (em_dh_public_key m) = true →
      receiving_chain_length s + max_message_jump global < em_previous_chain_length m →
      over_limit s m (PreviousChainJump (receiving_chain_length s) (em_previous_chain_length m)
        (max_message_jump global))
  | over_chain :
      skipped_message_keys s !! slot_of m = None → on_new_chain s (em_dh_public_key m) = false →
      receiving_chain_length s + max_message_jump global < em_message_number m →
      over_limit s m (MessageJump (receiving_chain_length s) (em_message_number m)
        (max_message_jump global))
  | over_room :
      skipped_message_keys s !! slot_of m = None →
      max_skipped_messages global ≤ Z.of_nat (size (skipped_message_keys s)) + passes s m →
      over_limit s m TooManySkippedMessages
  | over_pq err : pq_limit s m err → over_limit s m err.

(** What delivery does to the classical half, by where the key was. *)
Inductive received (sec : option bytes) m s s' : Prop :=
  | received_kept k :
      skipped_message_keys s !! slot_of m = Some k →
      classical s' = classical
        (s <| skipped_message_keys := delete (slot_of m) (skipped_message_keys s) |>) →
      received sec m s s'
  | received_on_chain s1 :
      on_new_chain s (em_dh_public_key m) = false →
      advanced (em_dh_public_key m) (em_message_number m) s s1 →
      receiving_chain_length s1 = em_message_number m + 1 →
      classical s' = classical s1 → received sec m s s'
  | received_new_chain r sa sb sc :
      skipped_message_keys s !! slot_of m = None → on_new_chain s (em_dh_public_key m) = true → remote_dh_public s = Some r →
      advanced (kem_public_ref r) (receiving_chain_length sa) s sa →
      receiving_chain_length sa = Z.max (receiving_chain_length s) (em_previous_chain_length m) →
      turned sec (em_dh_public_key m) sa sb →
      advanced (em_dh_public_key m) (em_message_number m) sb sc →
      receiving_chain_length sc = em_message_number m + 1 →
      classical s' = classical (complete_identity_proof sc) → received sec m s s'.

(** The message's key is the session's, and it was sealed with it. *)
Record deliverable (sec : option bytes) s m (p : bytes) : Prop := {
  dl_key : ∃ k, key_for sec s (em_dh_public_key m) (em_message_number m) = Some k ∧
                sealed_for s m k p;
  dl_readable : readable m;
  dl_real : real_key (em_dh_public_key m);
  dl_number : em_message_number m < u32_max;
  dl_pq_index : em_pq_key_index m < u32_max;
}.

Definition both_tidy s : Prop := tidy s ∧ (is_pq_ratchet (suite_id s) = true → pq_tidy s).

(** Past the message's position, seen from the chain it began at. *)
Lemma advanced_passed c s s' :
  advanced c (receiving_chain_length s') s s' →
  advanced c (receiving_chain_length s') s (passed false s').
Proof.
  intros [Ho Hc Hk Hz Hr Ha Hp]. split; try done; simpl; [lia|].
  rewrite Hc, ck_at_next by lia. f_equal. lia.
Qed.

Section delivery.
Variable t0 : Z.
Hypothesis recent : ∀ w, t0 ≤ (clock w).2 < t0 + max_skipped_message_age_seconds global.

Lemma turn_advanced sec c n s s' dh : advanced c n s s' → turn sec s' dh = turn sec s dh.
Proof. intros [_ _ _ _ (Hr & _ & _ & Hp & _ & _ & _ & Hi) _ _]. unfold turn. by rewrite Hr, Hp, Hi. Qed.

(** The classical address of a session along the way. *)
Lemma part_address s s' : classical_part s' = classical_part s → address s' = address s.
Proof. unfold classical_part. congruence. Qed.
Lemma part_classical s s' : classical_part s' = classical_part s → classical s' = classical s.
Proof. unfold classical_part. congruence. Qed.

(** The receive loop on a chain that holds the message. *)
Lemma receive_delivers snap r m p s w n :
  em_message_number m - receiving_chain_length s + 1 ≤ Z.of_nat n →
  receiving_chain_length s ≤ em_message_number m < u32_max →
  wf_session s → readable m → em_pq_key_index m < u32_max →
  (is_pq_ratchet (suite_id s) = true → pq_tidy s) → since_ok t0 s →
  sealed_for s m (ck_key_at (receiving_chain_key s)
    (em_message_number m - receiving_chain_length s)) p →
  wp False (receive_loop snap n r m) (s, w)
    (λ x sw, x = p ∧ pq_opened m s sw.1 ∧ since_ok t0 sw.1 ∧ address sw.1 = address s ∧
      ∃ sc, advanced (em_dh_public_key m) (em_message_number m) s sc ∧
        receiving_chain_length sc = em_message_number m + 1 ∧
        classical sw.1 = classical (if r then complete_identity_proof sc else sc))
    (λ err _, err = TooManySkippedMessages ∧ max_skipped_messages global
         ≤ Z.of_nat (size (skipped_message_keys s))
           + (em_message_number m - receiving_chain_length s) ∨ pq_limit s m err).
Proof.
  intros Hn Hlt Hwf Hm Hi Ht Hso Hs. apply receive_loop_reaches; [lia|lia|done| |by intros; left].
  intros s1 w1 Ha Hr Hwf1. pose proof Ha as [_ Hc _ _ _ Had [Hv Hsi]].
  eapply wp_mono; [apply (open_in_order_opens t0 snap r m p)|..]; try done; try lia.
  - intros Hsu. eapply pq_view_tidy; [done|]. apply Ht. unfold address in Had. congruence.
  - unfold since_ok. by rewrite Hsi.
  - eapply sealed_for_view; [done..|]. rewrite Hc, Hr. exact Hs.
  - intros x [s2 w2] (-> & Hpo & Hs2 & Hcp). cbn [fst] in *.
    assert (address (passed r s1) = address s1) as Hpa.
    { unfold passed, complete_identity_proof. destruct r; [|done]. by case_match. }
    split_and!; try done.
    + by apply (pq_opened_view m s s1 s2).
    + rewrite (part_address _ _ Hcp). congruence.
    + exists (passed false s1). rewrite Hr in Ha. split_and!; [rewrite <- Hr; apply advanced_passed; by rewrite Hr|simpl; lia|].
      by rewrite (part_classical _ _ Hcp).
  - intros err sw Hl. right. by eapply pq_limit_proposed; [left|].
Qed.

Lemma ratchet_to_turns snap m sec rk ck r s w :
  wf_session s → readable m → real_key (em_dh_public_key m) → since_ok t0 s →
  remote_dh_public s = Some r → turn sec s (em_dh_public_key m) = Some (rk, ck) →
  wp False (ratchet_to snap (kem_public_key_from_bytes (em_dh_public_key m)) m sec) (s, w)
    (λ _ sw, wf_session sw.1 ∧ since_ok t0 sw.1 ∧ proposed s sw.1 ∧
      ∃ sa, advanced (kem_public_ref r) (receiving_chain_length sa) s sa ∧
        receiving_chain_length sa
          = Z.max (receiving_chain_length s) (em_previous_chain_length m) ∧
        turned sec (em_dh_public_key m) sa sw.1)
    (λ err _, err = TooManySkippedMessages ∧ max_skipped_messages global
      ≤ Z.of_nat (size (skipped_message_keys s))
        + (em_previous_chain_length m - receiving_chain_length s)).
Proof.
  intros Hwf [Hm _] Hreal Hso Hr Hturn. unfold ratchet_to. do 3 wp_step. rewrite Hr.
  assert (em_previous_chain_length m ≤ u32_max) as Hpn by (destruct Hm as (_ & _ & [] & _); lia).
  eapply wp_mono; [apply wp_conj; [by apply skip_old_chain_keeps; [lia|]|]| |].
  { apply (wp_weaken_panic False); [done|]. apply skip_old_chain_spec; [lia|done]. }
  2: { intros err sw [? _]. done. }
  intros _ [sa wa] [[Ha Hra] Hwfa]. cbn [fst] in *.
  pose proof Ha as [_ _ _ _ _ _ [Hv Hsi]]. apply wp_restore_on_err.
  rewrite <- (turn_advanced _ _ _ _ _ _ Ha) in Hturn.
  eapply wp_mono; [apply wp_conj; [apply (perform_dh_ratchet_turns t0 recent _ sec rk ck); [done..|]|]| |].
  - unfold since_ok. by rewrite Hsi.
  - apply (wp_weaken_panic False); [done|]. by apply perform_dh_ratchet_spec.
  - intros _ [sb wb] [(Ht & Hp & Hs) [Hwfb _]]. split_and!; try done.
    + by eapply proposed_view.
    + by exists sa.
  - by intros err sw [[] _].
Qed.

(** The number of kept keys after a turn. *)
Lemma turned_room sec dh c n s sa sb :
  advanced c n s sa → turned sec dh sa sb →
  Z.of_nat (size (skipped_message_keys sb))
  ≤ Z.of_nat (size (skipped_message_keys s)) + (n - receiving_chain_length s).
Proof. intros [_ _ _ Hz _ _ _] [_ _ _ -> _ _]. done. Qed.

Lemma open_new_chain snap sec m p k s w :
  wf_session s → both_tidy s → since_ok t0 s → deliverable sec s m p →
  on_new_chain s (em_dh_public_key m) = true →
  skipped_message_keys s !! slot_of m = None →
  key_for sec s (em_dh_public_key m) (em_message_number m) = Some k → sealed_for s m k p →
  wp False (ratchet_to snap (kem_public_key_from_bytes (em_dh_public_key m)) m sec;;
      s ← self; receive_loop snap (Z.to_nat (em_message_number m - receiving_chain_length s + 1))
        true m) (s, w)
    (λ x sw, x = p ∧ received sec m s sw.1 ∧ pq_received m s sw.1 ∧ since_ok t0 sw.1 ∧
      address sw.1 = address s)
    (λ err _, over_limit s m err).
Proof.
  intros Hwf [_ Ht] Hso [_ Hm Hreal Hnum Hidx] Hnew Hskip Hk Hs.
  unfold key_for in Hk. rewrite Hskip, Hnew in Hk.
  destruct (turn sec s (em_dh_public_key m)) as [[rk ck]|] eqn:Hturn; [|done].
  simpl in Hk. injection Hk as <-. pose proof Hwf as [[? ? Hrcl ? ? ? [r Hr] ? ?] _].
  assert (0 ≤ em_message_number m) as Hn0 by (destruct Hm as [(_ & [] & _) _]; lia).
  wp_step. eapply wp_mono; [by apply (ratchet_to_turns snap m sec rk ck r)| |].
  2: { intros err sw [-> Hmax]. apply over_room; [done|]. unfold passes. rewrite Hnew. lia. }
  intros _ [sb wb] (Hwfb & Hsb & Hp & sa & Ha & Hra & Hturned). cbn [fst] in *. do 2 wp_step.
  pose proof (turned_room _ _ _ _ _ _ _ Ha Hturned) as Hroom.
  pose proof Hturned as [(rk' & ck' & sk & pk & z & Ht' & Hrck & Hrl & _) _ _ _ _ Hadd].
  rewrite (turn_advanced _ _ _ _ _ _ Ha), Hturn in Ht'. injection Ht' as <- <-.
  assert (address sb = address s) as Hadb by (rewrite Hadd; apply Ha).
  eapply wp_mono; [apply receive_delivers with (p := p); try done; try lia| |].
  - intros Hsu. eapply proposed_tidy, Ht; [done|]. unfold address in Hadb. congruence.
  - eapply sealed_for_proposed; [done..|]. rewrite Hrck, Hrl, Z.sub_0_r. done.
  - intros x [s' w'] (-> & (s2 & Ho & Hi2 & Hc2) & Hs' & Had' & sc & Hsc & Hrc & Hcl).
    cbn [fst] in *. split_and!; [done| | |done|congruence].
    + eapply received_new_chain; done.
    + by exists sb, s2.
  - intros err sw [[-> Hmax]|Hl].
    + apply over_room; [done|]. unfold passes. rewrite Hnew. lia.
    + apply over_pq. by eapply pq_limit_proposed.
Qed.

Lemma open_same_chain snap sec m p k s w :
  wf_session s → both_tidy s → since_ok t0 s → deliverable sec s m p →
  on_new_chain s (em_dh_public_key m) = false →
  skipped_message_keys s !! slot_of m = None →
  key_for sec s (em_dh_public_key m) (em_message_number m) = Some k → sealed_for s m k p →
  wp False (receive_loop snap (Z.to_nat (em_message_number m - receiving_chain_length s + 1))
        false m) (s, w)
    (λ x sw, x = p ∧ received sec m s sw.1 ∧ pq_received m s sw.1 ∧ since_ok t0 sw.1 ∧
      address sw.1 = address s)
    (λ err _, over_limit s m err).
Proof.
  intros Hwf [_ Ht] Hso [_ Hm Hreal Hnum Hidx] Hnew Hskip Hk Hs.
  unfold key_for in Hk. rewrite Hskip, Hnew in Hk.
  destruct (Z.leb_spec (receiving_chain_length s) (em_message_number m)) as [Hle|]; [|done].
  injection Hk as <-.
  eapply wp_mono; [apply receive_delivers with (p := p); try done; lia| |].
  - intros x [s' w'] (-> & (s2 & Ho & Hi2 & Hc2) & Hs' & Had' & sc & Hsc & Hrc & Hcl).
    cbn [fst] in *. split_and!; [done| | |done..].
    + by eapply received_on_chain.
    + exists s, s2. split; [by left|done].
  - intros err sw [[-> Hmax]|Hl].
    + apply over_room; [done|]. unfold passes. rewrite Hnew. lia.
    + by apply over_pq.
Qed.

Lemma check_jump_limit s m err :
  wf_session s → readable m → skipped_message_keys s !! slot_of m = None →
  check_jump s (on_new_chain s (em_dh_public_key m)) m = Err err → over_limit s m err.
Proof.
  intros Hwf [(_ & [] & [] & _) _] Hk. unfold check_jump. destruct (on_new_chain s _) eqn:Hnew.
  - case_match eqn:Hj; [intros [= <-]; apply over_new_chain; [done|done|lia]|].
    case_match eqn:Hp; [|done]. intros [= <-]. apply over_old_chain; [done|done|].
    unfold sat_add32 in Hp. lia.
  - case_match eqn:Hp; [|done]. intros [= <-]. apply over_chain; [done|done|].
    unfold sat_add32 in Hp. lia.
Qed.

Lemma decrypt_clean_delivers sec m p s w :
  wf_session s → both_tidy s → since_ok t0 s → deliverable sec s m p →
  wp False (decrypt_clean m sec) (s, w)
    (λ x sw, x = p ∧ received sec m s sw.1 ∧ pq_received m s sw.1 ∧ since_ok t0 sw.1 ∧
      address sw.1 = address s)
    (λ err _, over_limit s m err).
Proof.
  intros Hwf Hti Hso Hd. pose proof Hd as [(k & Hk & Hs) Hm _ Hnum Hidx].
  unfold decrypt_clean. do 2 wp_step. wp_step.
  - unfold key_for in Hk. rewrite Heqo in Hk. injection Hk as ->.
    eapply wp_mono; [apply (open_skipped_opens t0) with (p := p); try done; apply Hti| |].
    + intros x [s' w'] (-> & (s2 & Ho & Hi2 & Hc2) & Hs' & Hcp). cbn [fst] in *.
      split_and!; [done| | |done|by rewrite (part_address _ _ Hcp)].
      * eapply received_kept; [done|]. by rewrite (part_classical _ _ Hcp).
      * exists s, s2. split; [by left|done].
    + intros err sw Hl. by apply over_pq.
  - unfold open_on_chain. do 3 wp_step.
    change (needs_ratchet s _) with (on_new_chain s (em_dh_public_key m)).
    apply wp_lift_cases; [|by intros err Herr; eapply check_jump_limit|by intros ?%check_jump_no_panic].
    intros _ _. destruct (on_new_chain s (em_dh_public_key m)) eqn:Hnew.
    + by eapply open_new_chain.
    + wp_step. wp_step. do 2 wp_step. by eapply open_same_chain.
Qed.
End delivery.
End deliver.
