(* ===== verification/RatchetPqLink.v ===== *)
(** * Double ratchet: the PQ layers of a sender and a receiver

    The lemmas of [RatchetPqSync.v] speak of the initiator and the responder;
    here the same facts are put for the sender [X] of a message and its
    receiver [Y], [b] telling whether [X] is the initiator, and for every
    suite: one without the PQ ratchet has nothing to keep. *)

From S2P Require Import Prelude SuiteId Platform Wp RatchetTypes RatchetPq Ratchet.
From S2P Require Import RatchetRollback RatchetPqInv RatchetPqKeys RatchetInv RatchetPqSync RatchetChains RatchetDeliver.

(** Does the suite of [s] have the PQ ratchet? *)
Abbreviation ratchets s := (is_pq_ratchet (suite_id s)).

Section pqlink.
Context `{MlKemCrate} `{!HexCrate} `{!CryptoProvider}.
Context `{!MlKemLaws} `{!HexLaws} `{!ProviderLaws}.
Implicit Types (s X Y : DoubleRatchetSession) (m : EncryptedRatchetMessage) (b : bool).

Definition pq_pair b X Y : Prop :=
  ratchets Y = ratchets X ∧
  (ratchets X = true → if b then pq_linked X Y else pq_linked Y X).

Definition pq_from b X Y m : Prop :=
  ratchets X = true → if b then from_initiator X Y m else from_responder Y X m.

(** Messages under way in both directions keep their meaning. *)
Definition pq_carries b X Y X' Y' : Prop :=
  (∀ m, pq_from b X Y m → pq_from b X' Y' m) ∧
  (∀ m, pq_from (negb b) Y X m → pq_from (negb b) Y' X' m).

Lemma pq_pair_sym b X Y : pq_pair b X Y → pq_pair (negb b) Y X.
Proof. unfold pq_pair. intros [Hs Hl]. rewrite Hs. split; [done|]. by destruct b. Qed.

Lemma pq_carries_sym b X Y X' Y' : pq_carries b X Y X' Y' → pq_carries (negb b) Y X Y' X'.
Proof. unfold pq_carries. rewrite negb_involutive. naive_solver. Qed.

(** The ratcheting case, told apart once. *)
Lemma pq_carries_of b X Y X' Y' :
  ratchets Y = ratchets X → ratchets X' = ratchets X → ratchets Y' = ratchets Y →
  (ratchets X = true → if b then carries X Y X' Y' else carries Y X Y' X') →
  pq_carries b X Y X' Y'.
Proof.
  unfold pq_carries, pq_from, carries. intros HY HX' HY' Hc. rewrite HX', HY', HY.
  split; intros m Hm Hr; specialize (Hm Hr); specialize (Hc Hr); destruct b; naive_solver.
Qed.

Lemma view_suite s s' : pq_view s' = pq_view s → suite_id s' = suite_id s.
Proof. apply (f_equal (fst ∘ fst ∘ fst ∘ fst ∘ fst ∘ fst)). Qed.

(** ** Sending *)

Definition pq_slot_apart s m m' : Prop :=
  pq_slotted s m = true →
  (em_pq_message_epoch m', em_pq_key_index m') ≠ (em_pq_message_epoch m, em_pq_key_index m).

Lemma pq_sent_suite s r s' : pq_sent s r s' → suite_id s' = suite_id s.
Proof. by intros (? & _)%sent_same. Qed.

Lemma proposed_pair b X Y X1 :
  pq_pair b X Y → current_pq_epoch X < u32_max → proposed X X1 → pq_shape X1 →
  pq_pair b X1 Y ∧ pq_carries b X Y X1 Y ∧ pq_keeps None X X1.
Proof.
  intros [Hs Hl] Hc Hp Hsh. pose proof (proposed_keys _ _ Hp) as (Hsu & _).
  assert (pq_keeps None X X1) as Hk by (intros e i k _; by apply proposed_has).
  destruct (ratchets X) eqn:HX.
  - specialize (Hl eq_refl).
    assert ((if b then pq_linked X1 Y else pq_linked Y X1) ∧
            (if b then carries X Y X1 Y else carries Y X Y X1)) as [Hl1 Hc1].
    { destruct b.
      - by destruct (propose_linked X Y X1 Hl Hc Hp Hsh) as (? & ? & _).
      - assert (pq_view X1 = pq_view X) as Hv by (apply propose_idle; [apply Hl|done]).
        split; [by eapply pq_linked_view|by apply carries_view]. }
    split_and!; [|by apply pq_carries_of; rewrite ?Hsu, ?HX, ?Hs|done].
    unfold pq_pair. by rewrite Hsu, HX, Hs.
  - split_and!; [|apply pq_carries_of; by rewrite ?Hsu, ?HX, ?Hs|done].
    unfold pq_pair. by rewrite Hsu, HX, Hs.
Qed.

Lemma pq_view_pair b X Y X' Y' :
  pq_view X' = pq_view X → pq_view Y' = pq_view Y → pq_pair b X Y →
  pq_pair b X' Y' ∧ pq_carries b X Y X' Y'.
Proof.
  intros HX HY [Hs Hl].
  pose proof (view_suite _ _ HX) as EX. pose proof (view_suite _ _ HY) as EY.
  split.
  - unfold pq_pair. rewrite EX, EY. split; [done|]. intros Hr. specialize (Hl Hr).
    destruct b; by eapply pq_linked_view.
  - apply pq_carries_of; rewrite ?EX, ?EY; try done. intros _. destruct b; by apply carries_view.
Qed.

Lemma sent_pair b X Y r X' :
  pq_pair b X Y → pq_sent X r X' → pq_shape X' →
  pq_pair b X' Y ∧ pq_carries b X Y X' Y ∧ pq_keeps None X X'.
Proof.
  intros [Hs Hl] Hp Hsh. pose proof (pq_sent_suite _ _ _ Hp) as Hsu.
  assert (pq_keeps None X X') as Hk.
  { intros e i k _. unfold pq_has, pq_lost. rewrite (sent_key_for _ _ _ _ _ Hp).
    destruct (sent_same _ _ _ Hp) as (_ & _ & -> & _ & _ & _ & ->). done. }
  assert (ratchets X = true → (if b then pq_linked X' Y else pq_linked Y X') ∧
            (if b then carries X Y X' Y else carries Y X Y X')) as HH.
  { intros HX. specialize (Hl HX). destruct b.
    - by destruct (send_linked_I X Y r X' Hl Hp Hsh) as (? & ? & _).
    - by destruct (send_linked_R Y X r X' Hl Hp Hsh) as (? & ? & _). }
  split_and!; [|apply pq_carries_of; rewrite ?Hsu; try done; intros Hr; by apply HH|done].
  unfold pq_pair. rewrite Hsu. split; [done|]. intros Hr. by apply HH.
Qed.

(** The slot a message takes: that of the sending chain, in the current epoch. *)
Lemma sent_slot X r X' :
  ratchets X = true → pq_shape X → pq_sent X r X' →
  r.1.1 = current_pq_epoch X ∧ 0 ≤ r.1.2 < u32_max ∧
  (∀ ch, send_chain_of X' r.1.1 = Some ch → r.1.2 < chain_index ch) ∧
  (r.1.1 ≠ 0 → ∃ ch, send_chain_of X r.1.1 = Some ch ∧ r.1.2 = chain_index ch).
Proof.
  intros HX ((_ & _ & Hall) & Hpos & _) Hs. unfold pq_sent in Hs. rewrite HX in Hs. simpl in Hs.
  rewrite Forall_forall in Hall. destruct (Z.eqb_spec (current_pq_epoch X) 0) as [Hz|Hz]; simpl in Hs.
  - destruct Hs as [-> ->]. simpl. split_and!; try (unfold u32_max; lia).
    intros ch Hch. unfold send_chain_of in Hch. destruct (find_epoch 0 _) as [c|] eqn:Hc; [|done].
    apply find_epoch_Some in Hc as [Hin Hc]. destruct (Hall c Hin). lia.
  - destruct Hs as (ch & Hch & -> & Hlt & ->). simpl.
    assert (0 ≤ chain_index ch) as Hge.
    { unfold send_chain_of in Hch. destruct (find_epoch _ _) as [c|] eqn:Hc; [|done]. simpl in Hch.
      apply find_epoch_Some in Hc as [Hin _]. destruct (Hall c Hin) as (_ & _ & Hsend).
      destruct (Hsend ch Hch) as [_ [[] _]]. lia. }
    split_and!; try lia; [|by eauto]. intros ch'. unfold send_chain_of in *. simpl.
    rewrite find_alter_first, decide_True by done. destruct (find_epoch _ _) as [c|]; [|done].
    simpl. intros [= <-]. simpl. lia.
Qed.

(** The key field of a message, at either end. *)
Lemma outgoing_from b X Y m :
  (∀ x, pending_pq_exchange X = Some x → is_pq_initiator X = true) → ratchets X = true →
  (if b then pq_linked X Y else pq_linked Y X) →
  em_pq_message_epoch m = current_pq_epoch X → sent_before X m →
  em_pq_ratchet_field m = take_outgoing_pq_field X →
  if b then from_initiator X Y m else from_responder Y X m.
Proof.
  intros Hex HX Hl Htag Hb Hf. unfold take_outgoing_pq_field in Hf. rewrite HX in Hf.
  simpl in Hf. destruct b.
  - pose proof (pl_roles _ _ Hl) as [Hr _]. pose proof (pl_shape _ _ Hl) as [(_ & _ & Hct) _].
    split_and!; [lia|done|].
    destruct (pending_pq_ciphertext X) as [p|] eqn:Hp.
    { destruct (Hct p eq_refl). congruence. }
    destruct (pending_pq_exchange X) as [x|] eqn:Hx; simpl in Hf; rewrite Hf; [|done].
    destruct (pl_exchange _ _ Hl x Hx) as [Hxe _]. split; [lia|]. right. left. by exists x.
  - pose proof (pl_roles _ _ Hl) as [_ Hr]. split_and!; [lia|done|].
    destruct (pending_pq_ciphertext X) as [p|] eqn:Hp; rewrite Hf; [by right; exists p|].
    destruct (pending_pq_exchange X) as [x|] eqn:Hx; simpl; [|done].
    specialize (Hex x eq_refl). congruence.
Qed.

(** What the message itself says. *)
Lemma sent_message b X Y r X' m :
  pq_pair b X Y → pq_inv X → pq_shape X' → pq_sent X r X' →
  em_pq_message_epoch m = r.1.1 → em_pq_key_index m = r.1.2 →
  em_pq_ratchet_field m = take_outgoing_pq_field X →
  pq_from b X' Y m ∧ pq_sealed Y m r.2 ∧ em_pq_key_index m < u32_max ∧
  ∀ m', pq_from b X Y m' → pq_slot_apart Y m m'.
Proof.
  intros Hpair Hinv Hsh' Hsent He Hi Hf. pose proof Hpair as [Hs Hl].
  pose proof (sent_same _ _ _ Hsent) as (Hsu & Hini & Hcur & Hex & Hct & _).
  destruct (ratchets X) eqn:HX; cycle 1.
  { unfold pq_sent in Hsent. rewrite HX in Hsent. destruct Hsent as [-> ->].
    unfold pq_from, pq_sealed, pq_slot_apart, pq_slotted. rewrite HX, Hs. simpl in *.
    rewrite Hi. unfold u32_max. by split_and!; try lia. }
  specialize (Hl eq_refl). pose proof (pq_inv_shape _ Hinv) as Hsh.
  assert (pq_feeds X Y) as Hfeeds by (destruct b; apply Hl).
  destruct (sent_slot X r X' HX Hsh Hsent) as (Htag & Hix & Hb & Hch).
  split_and!; [| |lia|].
  - intros _. apply outgoing_from; [|by rewrite Hsu| |congruence| |].
    + rewrite Hex, Hini. intros x Hx. by destruct Hinv as [_ _ _ _ Hok _]; destruct (Hok x Hx).
    + destruct (sent_pair b X Y r X' Hpair Hsent Hsh') as ([_ Hl'] & _).
      apply Hl'. by rewrite Hsu.
    + intros ch. rewrite He, Hi. apply Hb.
    + rewrite Hf. unfold take_outgoing_pq_field. by rewrite Hsu, Hct, Hex.
  - destruct (sent_feeds X Y r X' HX Hsent Hfeeds) as [_ [[Hz ->]|(i & k & -> & Hz & Hk & _)]];
      unfold pq_sealed, pq_slotted; rewrite He, Hi, Hs; simpl.
    + done.
    + rewrite (proj2 (Z.eqb_neq _ _)) by done. exists k. split; [done|]. by left.
  - intros m' Hm' Hsl [= Et Ei]. unfold pq_slotted in Hsl. rewrite Hs in Hsl. simpl in Hsl.
    destruct Hch as (ch & Hch & Hc); [lia|].
    assert (sent_before X m') as Hb' by (specialize (Hm' HX); destruct b; apply Hm').
    rewrite <- He, <- Et in Hch. specialize (Hb' ch Hch). lia.
Qed.

(** ** Receiving *)

Lemma promoted_shape e s : pq_inv s → pq_shape (promoted e s).
Proof.
  intros [Hc Hch Hs Hk Hex Hct]. unfold promoted.
  destruct (pending_pq_ciphertext s) as [p|] eqn:Hp; [|by split_and!; [|apply Hc|rewrite Hp]].
  destruct (_ >=? _); [|by split_and!; [|apply Hc|rewrite Hp]].
  destruct (Hct p eq_refl) as [(He & _ & _ & Hep & Hr & ch & Hsend & Hch') Hi].
  assert (0 ≤ current_pq_epoch s) by apply Hc.
  destruct (insert_chains_ok (current_pq_epoch s) (ct_chains p) ch (pq_chains s)) as [Hch2 _];
    [lia|lia|done..|]. rewrite Hep in Hch2. unfold pq_shape. simpl.
  rewrite Z.max_r by lia. split_and!; [done|lia|done].
Qed.

Lemma opened_suite m s s' : opened m s s' → suite_id s' = suite_id s.
Proof.
  unfold opened. destruct (pq_slotted s m); [by intros (? & _)%taken_same|apply view_suite].
Qed.

Lemma committed_suite m s s' : committed m s s' → suite_id s' = suite_id s.
Proof.
  assert (∀ e, suite_id (promoted e s) = suite_id s) as Hp.
  { intros e. unfold promoted. by repeat case_match. }
  unfold committed. case_match; [|apply view_suite].
  rewrite <- (Hp (em_pq_message_epoch m)). intros [Hv|Hc]; [by apply view_suite|].
  destruct (em_pq_ratchet_field m) as [[]|]; [| |done].
  - destruct Hc as (_ & _ & h & w & c & _ & _ & _ & _ & Hv). by apply view_suite in Hv.
  - destruct Hc as (x & ss & c & _ & _ & _ & _ & _ & Hv). by apply view_suite in Hv.
Qed.

(** A key the message does not take is kept. *)
Definition pq_keeps_but m s s' : Prop := ∀ e i k,
  (pq_slotted s m = true → (e, i) ≠ (em_pq_message_epoch m, em_pq_key_index m)) →
  pq_has s e i k → pq_has s' e i k.

Lemma opened_pair b X Y Y' m :
  pq_pair b X Y → pq_from b X Y m → pq_inv Y' → opened m Y Y' →
  pq_pair b X Y' ∧ pq_carries b X Y X Y' ∧ pq_keeps_but m Y Y'.
Proof.
  intros Hpair Hm Hi Ho. pose proof (opened_suite _ _ _ Ho) as Hsu. unfold opened in Ho.
  unfold pq_keeps_but. destruct (pq_slotted Y m) eqn:Hsl; cycle 1.
  { destruct (pq_view_pair b X Y X Y' eq_refl Ho Hpair). split_and!; [done..|].
    intros e i k _. by apply pq_view_has. }
  destruct Hpair as [Hs Hl]. unfold pq_slotted in Hsl. apply andb_true_iff in Hsl as [HY _].
  assert (ratchets X = true) as HX by congruence. specialize (Hl HX). specialize (Hm HX).
  apply pq_inv_shape in Hi.
  assert ((if b then pq_linked X Y' else pq_linked Y' X) ∧
          (if b then carries X Y X Y' else carries Y X Y' X) ∧
          pq_keeps (Some (em_pq_message_epoch m, em_pq_key_index m)) Y Y') as (Hl' & Hc & Hk).
  { destruct b; [by apply take_linked_R|by apply take_linked_I]. }
  split_and!; [|apply pq_carries_of; rewrite ?Hsu; done|].
  - unfold pq_pair. by rewrite Hsu.
  - intros e i k Hne. apply Hk. specialize (Hne eq_refl). congruence.
Qed.

Lemma committed_pair b X Y Y' m :
  pq_pair b X Y → pq_from b X Y m → pq_inv Y → pq_inv Y' → committed m Y Y' →
  pq_pair b X Y' ∧ pq_carries b X Y X Y' ∧ pq_keeps None Y Y'.
Proof.
  intros Hpair Hm Hi Hi' Hc. pose proof (committed_suite _ _ _ Hc) as Hsu.
  destruct (ratchets Y) eqn:HY; cycle 1.
  { unfold committed in Hc. rewrite HY in Hc.
    destruct (pq_view_pair b X Y X Y' eq_refl Hc Hpair). split_and!; [done..|by apply pq_keeps_view]. }
  destruct Hpair as [Hs Hl]. assert (ratchets X = true) as HX by congruence.
  specialize (Hl HX). specialize (Hm HX).
  assert ((if b then pq_linked X Y' else pq_linked Y' X) ∧
          (if b then carries X Y X Y' else carries Y X Y' X) ∧ pq_keeps None Y Y') as (Hl' & Hc' & Hk).
  { destruct b.
    - apply (commit_linked_R X Y Y' m); try done; [by apply promoted_shape|by apply pq_inv_shape].
    - apply (commit_linked_I Y X Y' m); try done. by apply pq_inv_shape. }
  split_and!; [|apply pq_carries_of; rewrite ?Hsu; done|done].
  unfold pq_pair. by rewrite Hsu.
Qed.

Lemma pq_carries_trans b X Y X1 Y1 X2 Y2 :
  pq_carries b X Y X1 Y1 → pq_carries b X1 Y1 X2 Y2 → pq_carries b X Y X2 Y2.
Proof. unfold pq_carries. naive_solver. Qed.

Lemma received_pair b X Y Y' m :
  pq_pair b X Y → pq_from b X Y m → pq_inv Y → pq_inv Y' → current_pq_epoch Y < u32_max →
  pq_received m Y Y' →
  pq_pair b X Y' ∧ pq_carries b X Y X Y' ∧ pq_keeps_but m Y Y'.
Proof.
  intros Hpair Hm Hi Hi' Hu (Y1 & Y2 & Hp & Ho & Hi2 & Hc).
  pose proof (proposed_shape _ _ Hp (pq_inv_shape _ Hi)) as Hsh1.
  destruct (proposed_pair (negb b) Y X Y1 (pq_pair_sym _ _ _ Hpair) Hu Hp Hsh1) as (Hp1 & Hc1 & Hk1).
  apply pq_pair_sym in Hp1. apply pq_carries_sym in Hc1. rewrite negb_involutive in Hp1, Hc1.
  destruct (opened_pair b X Y1 Y2 m Hp1 (proj1 Hc1 _ Hm) Hi2 Ho) as (Hp2 & Hc2 & Hk2).
  assert (pq_from b X Y2 m) as Hm2 by by apply Hc2, Hc1.
  destruct (committed_pair b X Y2 Y' m Hp2 Hm2 Hi2 Hi' Hc) as (Hp3 & Hc3 & Hk3).
  split_and!; [done|by eapply pq_carries_trans, pq_carries_trans|].
  intros e i k Hne Hh. apply Hk3; [done|]. apply Hk2.
  - unfold pq_slotted in *. by destruct (proposed_keys _ _ Hp) as (-> & _).
  - by apply Hk1.
Qed.

(** ** Sending, as a whole *)

Lemma sends_pair b X Y X1 X2 r X' :
  pq_pair b X Y → current_pq_epoch X < u32_max → pq_inv X → pq_inv X1 → pq_inv X' →
  proposed X X1 → pq_sent X1 r X2 → pq_view X' = pq_view X2 →
  pq_pair b X' Y ∧ pq_carries b X Y X' Y ∧ pq_keeps None X X' ∧
  ∀ m, em_pq_message_epoch m = r.1.1 → em_pq_key_index m = r.1.2 →
    em_pq_ratchet_field m = take_outgoing_pq_field X1 →
    pq_from b X' Y m ∧ pq_sealed Y m r.2 ∧ em_pq_key_index m < u32_max ∧
    ∀ m', pq_from b X Y m' → pq_slot_apart Y m m'.
Proof.
  intros Hpair Hu Hi Hi1 Hi' Hp Hs Hv.
  destruct (proposed_pair b X Y X1 Hpair Hu Hp (pq_inv_shape _ Hi1)) as (Hp1 & Hc1 & Hk1).
  pose proof (pq_view_shape X' X2 (eq_sym Hv) (pq_inv_shape _ Hi')) as Hsh2.
  destruct (sent_pair b X1 Y r X2 Hp1 Hs Hsh2) as (Hp2 & Hc2 & Hk2).
  destruct (pq_view_pair b X2 Y X' Y Hv eq_refl Hp2) as [Hp3 Hc3].
  split_and!; [done|by eapply pq_carries_trans, pq_carries_trans| |].
  - eapply pq_keeps_trans; [done|]. eapply pq_keeps_trans; [done|]. by apply pq_keeps_view.
  - intros m He Hx Hf. destruct (sent_message b X1 Y r X2 m Hp1 Hi1) as (Hfr & Hse & Hlt & Hap); try done.
    split_and!; [by apply Hc3|done..|]. intros m' Hm'. apply Hap. by apply Hc1.
Qed.
End pqlink.
