(* ===== verification/RatchetSend.v ===== *)
(** * Double ratchet: what [encrypt] sends

    [encrypt] of [messaging.rs] seals a message with the key at the position
    of both sending chains, moves both chains by one, and changes nothing
    else; a session of the other end opens the message with that key. *)

From S2P Require Import Prelude SuiteId Padding Platform Wp RatchetTypes RatchetPq Ratchet.
From S2P Require Import RatchetRollback RatchetPqInv RatchetPqKeys RatchetInv RatchetPqSync RatchetChains RatchetDeliver.

Section send.
Context `{MlKemCrate} `{!HexCrate} `{!CryptoProvider}.
Context `{!MlKemLaws} `{!HexLaws} `{!ProviderLaws}.
Implicit Types (s X Y : DoubleRatchetSession) (m : EncryptedRatchetMessage).

(** Two ends of one conversation, both of which still write the older
    associated data. *)
Definition peers X Y : Prop :=
  suite_id Y = suite_id X ∧ session_id Y = session_id X ∧ contact_id Y = local_user_id X ∧
  local_user_id Y = contact_id X ∧ peer_ad_version X = AD_VERSION_LEGACY ∧
  peer_ad_version Y = AD_VERSION_LEGACY.

Lemma peers_sym X Y : peers X Y → peers Y X.
Proof. unfold peers. naive_solver. Qed.

Lemma peers_address X Y X' Y' :
  address X' = address X → address Y' = address Y → peers X Y → peers X' Y'.
Proof. unfold address, peers. by intros [= -> -> -> -> ->] [= -> -> -> -> ->]. Qed.

(** The classical state after sending. *)
Definition sent s : DoubleRatchetSession :=
  s <| sending_chain_key := ck_next (sending_chain_key s) |>
    <| sending_chain_length := sending_chain_length s + 1 |>.

(** A message a session sealed. *)
Record sealed_by s (r : Z * Z * option bytes) (field : option PqRatchetWireField)
    (p : bytes) m : Prop := {
  sb_dh : em_dh_public_key m = kem_public_ref (dh_ratchet_public s);
  sb_number : em_message_number m = sending_chain_length s;
  sb_previous : em_previous_chain_length m = previous_sending_length s;
  sb_pq : em_pq_message_epoch m = r.1.1 ∧ em_pq_key_index m = r.1.2;
  sb_field : em_pq_ratchet_field m = field;
  sb_version : em_ad_version m = ad_send_version s;
  sb_suite : em_suite_id m = as_u16 (suite_id s);
  sb_opens : ∀ Y, peers s Y → ∃ mk,
    mix_pq_message_key (ck_out (sending_chain_key s)) r.2 = Ok mk ∧
    try_aead_decrypt Y mk m = Ok p;
}.

Lemma padded_unpads p padded : pad_message_default p = Ok padded → unpad_message padded = Ok p.
Proof.
  intros Hp. pose proof Hp as Hp'. unfold pad_message_default in Hp.
  assert (len p ≤ MAX_MESSAGE_SIZE) as Hl.
  { unfold pad_message in Hp. case_match; [done|]. case_match eqn:Hg; [done|]. lia. }
  destruct (pad_message_ok p DEFAULT_BLOCK_SIZE) as (k & Hk & _ & Heq);
    [unfold DEFAULT_BLOCK_SIZE, MAX_BLOCK_SIZE; lia|done|].
  rewrite Heq in Hp. injection Hp as <-. apply unpad_message_spec. exists k.
  unfold DEFAULT_BLOCK_SIZE in Hk. split; [lia|done].
Qed.

Lemma seal_seals mk padded n e i s w :
  wf_session s → len (aead_ref mk) = 32 → len padded ≤ 2 ^ 32 → sending_chain_length s = n + 1 →
  wp False (seal mk padded n e i) (s, w)
    (λ m sw, sw.1 = s ∧ em_dh_public_key m = kem_public_ref (dh_ratchet_public s) ∧
      em_message_number m = n ∧ em_previous_chain_length m = previous_sending_length s ∧
      em_pq_message_epoch m = e ∧ em_pq_key_index m = i ∧
      em_pq_ratchet_field m = take_outgoing_pq_field s ∧ em_ad_version m = ad_send_version s ∧
      em_suite_id m = as_u16 (suite_id s) ∧
      ∀ Y p, peers s Y → unpad_message padded = Ok p → try_aead_decrypt Y mk m = Ok p)
    (λ _ _, False).
Proof.
  intros Hs Hk Hpad Hn. unfold seal. do 3 wp_step.
  apply wp_generate_nonce; [rewrite nonce_length; lia|]. intros w1 nonce Hnonce.
  rewrite nonce_length in Hnonce. do 2 wp_step. pose proof Hs as [[? ? ? ? ? Hpair ? Hsid ?] Hp].
  destruct Hpair as (sk & _ & Hpk%kem_public_len).
  destruct Hsid as (sid & Hsid & _). pose proof (hex_decode_encode sid) as Hdec.
  rewrite <- Hsid in Hdec. wp_step; [lia|]. wp_step. rewrite Hdec. apply wp_lift. simpl ok_or. wp_step.
  match goal with |- context [aead_encrypt mk nonce padded ?ad] =>
    destruct (aead_encrypt_ok mk nonce padded ad Hk Hnonce Hpad) as [c Hc]; rewrite Hc end.
  apply wp_lift. cbn [map_err]. wp_step. rewrite Hn, Z.eqb_refl. unfold debug_assert. do 2 wp_step.
  split_and!; try done. intros Y p (HYs & HYid & HYc & HYl & HXv & HYv) Hun. unfold try_aead_decrypt.
  simpl. unfold check_ad_version, ad_send_version. rewrite HXv, HYv. simpl. rewrite HYid, Hdec. simpl.
  apply aead_roundtrip in Hc. unfold ad_header_of. simpl. rewrite HYs, HYc, HYl.
  unfold ad_send_version in Hc. rewrite HXv in Hc. simpl in Hc. rewrite Hc. simpl. by rewrite Hun.
Qed.

Section sending.
Variable t0 : Z.
Hypothesis recent : ∀ w, t0 ≤ (clock w).2 < t0 + max_skipped_message_age_seconds global.

Lemma keeps_part_start : keeps classical_part maybe_start_pq_exchange_by_age.
Proof.
  unfold maybe_start_pq_exchange_by_age, abandon_unanswered_pq_exchange, start_pq_exchange,
    pq_epoch_is_old. keeps_tac.
Qed.

Lemma pq_sent_part s r s' :
  pq_sent s r s' → classical_part s' = classical_part s ∧ pq_pending_since s' = pq_pending_since s ∧
  take_outgoing_pq_field s' = take_outgoing_pq_field s.
Proof. unfold pq_sent. destruct (_ && _); [intros (ch & _ & _ & _ & ->)|intros [_ ->]]; done. Qed.

(** The PQ chain of a failed [encrypt] has moved, too. *)
Definition pq_moved s s' : Prop := ∃ s1 s2 r,
  proposed s s1 ∧ pq_inv s1 ∧ pq_sent s1 r s2 ∧ pq_view s' = pq_view s2.

Lemma encrypt_sends p s w :
  wf_session s → since_ok t0 s →
  wp False (encrypt p) (s, w)
    (λ m sw, ∃ s1 s2 r, proposed s s1 ∧ pq_inv s1 ∧ pq_sent s1 r s2 ∧ pq_view sw.1 = pq_view s2 ∧
      sealed_by s r (take_outgoing_pq_field s1) p m ∧ sending_chain_length s < u32_max ∧
      classical_part sw.1 = classical_part (sent s) ∧ since_ok t0 sw.1)
    (λ _ sw, (proposed s sw.1 ∨ pq_moved s sw.1) ∧ classical_part sw.1 = classical_part s ∧
      since_ok t0 sw.1).
Proof.
  intros Hwf Hso. unfold encrypt. wp_step. pose proof (pad_default_cases p) as Hpc. apply wp_lift.
  destruct (pad_message_default p) as [padded|pe|] eqn:Hpad; simpl; [|by split; [left; left|]|done].
  pose proof (padded_len _ _ Hpad) as Hplen. pose proof (padded_unpads _ _ Hpad) as Hun. wp_step.
  eapply wp_mono; [apply wp_conj; [by apply (maybe_start_proposes t0 recent)|apply wp_conj_true;
    [apply keeps_part_start|apply (wp_weaken_panic False); [done|by apply maybe_start_by_age_spec]]]| |
    by intros ? ? [[] _]].
  intros _ [s1 w1] [[Hp Hs1] [Hc1 Hwf1]]. cbn [fst] in *. wp_step.
  assert (pq_inv s1) as Hi1 by apply Hwf1.
  eapply wp_mono; [apply wp_conj; [by apply pq_send_key_sent|
    apply (wp_weaken_panic False); [done|by apply pq_send_key_spec]]| |].
  2: { intros e [s2 w2] [[_ ->] _]. split_and!; [by left|done..]. }
  intros [[e i] pk] [s2 w2] [Hsent (Hwf2 & _)]. cbn [fst] in *.
  destruct (pq_sent_part _ _ _ Hsent) as (Hc2 & Hsi2 & Hf2).
  assert (since_ok t0 s2) as Hs2 by (unfold since_ok; by rewrite Hsi2).
  pose proof (eq_trans Hc2 Hc1) as Hc. do 3 wp_step.
  rewrite kdf_ck_eq. apply wp_lift. cbn [map_err]. wp_step.
  destruct (mix_pq_message_key_spec (ck_out (sending_chain_key s2)) pk (ck_out_len _))
    as (mk & Hmix & Hmk). rewrite Hmix. apply wp_lift. wp_step. apply wp_lift. unfold checked_add32.
  destruct (Z.leb_spec (sending_chain_length s2 + 1) u32_max); cbn [ok_or]; cycle 1.
  { split_and!; [|done..]. right. by exists s1, s2, (e, i, pk). }
  do 2 wp_step. name_state s3. assert (wf_session s3) as Hwf3.
  { destruct Hwf2 as [[] ?]. split; [|done]. constructor; try done.
    change (is_u32 (sending_chain_length s2 + 1)). unfold is_u32 in *. lia. }
  pose proof (part_classical _ _ Hc) as Hcl. pose proof (part_address _ _ Hc) as Had.
  unfold classical in Hcl. injection Hcl as E1 E2 E3 E4 E5 E6 E7 E8 E9 E10 E11.
  eapply wp_mono; [by apply seal_seals| |done].
  intros m [s4 w4] (-> & Hdh & Hnum & Hpn & He & Hix & Hfld & Hver & Hsuite & Hopen). exists s1, s2, (e, i, pk).
  split_and!; try done; [|lia|].
  - split; simpl in *; try congruence; [done|..].
    + rewrite Hfld. exact Hf2.
    + rewrite Hver. unfold ad_send_version. simpl.
      assert (peer_ad_version s2 = peer_ad_version s) as -> by (unfold address in Had; congruence).
      done.
    + rewrite Hsuite. unfold address in Had. simpl. congruence.
    + intros Y HY. exists mk. rewrite <- E2. split; [done|]. apply Hopen; [|done].
      eapply (peers_address s Y); done.
  - unfold classical_part, s3, classical, address in *. simpl.
    repeat match goal with |- (_, _) = (_, _) => apply f_equal2 end; congruence.
Qed.
End sending.
End send.
