(* ===== verification/RatchetLink.v ===== *)
(** * Double ratchet: two sessions of one conversation

    [linked L F] relates the two ends of a conversation: [L] turned to the
    current ratchet key of [F], which has not yet seen the chain [L] sends on.
    Sending keeps the relation; so does receiving, except that the first
    message of a new chain exchanges the parts. The file also says what a
    delivery does to every other key of the receiver. *)

From S2P Require Import Prelude SuiteId Platform Wp RatchetTypes RatchetPq Ratchet.
From S2P Require Import RatchetRollback RatchetPqInv RatchetPqKeys RatchetInv RatchetPqSync RatchetChains RatchetDeliver RatchetSend.

Section link.
Context `{MlKemCrate} `{!HexCrate} `{!CryptoProvider}.
Context `{!MlKemLaws} `{!HexLaws} `{!ProviderLaws}.
Implicit Types (s L F X Y : DoubleRatchetSession) (m : EncryptedRatchetMessage).

(** ** What a delivery leaves of the keys *)

Definition has_kept s (c : bytes) (j : Z) : Prop := is_Some (skipped_message_keys s !! (c, j)).

(** The parts of a session that move only with a DH step. *)
Definition anchor s :=
  (root_key s, sending_chain_key s, sending_chain_length s, dh_ratchet_private s,
   dh_ratchet_public s, remote_dh_public s, previous_sending_length s, identity_proof s).

(** A delivery that takes no DH step. *)
Record stayed (sec : option bytes) m s s' : Prop := {
  st_anchor : anchor s' = anchor s;
  st_keys : ∀ c j, (c, j) ≠ slot_of m → key_for sec s' c j = key_for sec s c j;
  st_tidy : tidy s';
  st_kept : ∀ c j, (c, j) ≠ slot_of m → has_kept s c j → has_kept s' c j;
  st_new : ∀ c j, has_kept s' c j → has_kept s c j ∨ on_new_chain s c = false;
}.

Lemma anchor_turn sec s s' dh : anchor s' = anchor s → turn sec s' dh = turn sec s dh.
Proof. unfold anchor, turn. by intros [= -> _ _ -> _ _ _ ->]. Qed.
Lemma anchor_chain s s' dh : anchor s' = anchor s → on_new_chain s' dh = on_new_chain s dh.
Proof. intros Ha. apply on_new_chain_eq. unfold anchor in Ha. congruence. Qed.

Lemma on_new_chain_inj s c d : on_new_chain s c = false → on_new_chain s d = false → c = d.
Proof.
  unfold on_new_chain, needs_ratchet. destruct (remote_dh_public s); [|done].
  rewrite !kem_public_ref_from, !negb_false_iff, !bool_decide_eq_true. congruence.
Qed.

Lemma classical_anchor s s' : classical s' = classical s → anchor s' = anchor s.
Proof. unfold classical, anchor. by intros [= -> -> -> _ _ -> -> -> -> _ ->]. Qed.
Lemma classical_kept s s' :
  classical s' = classical s → skipped_message_keys s' = skipped_message_keys s.
Proof. unfold classical. by intros [= _ _ _ _ _ _ _ _ _ ? _]. Qed.

Lemma stayed_kept sec m s s' k :
  tidy s → skipped_message_keys s !! slot_of m = Some k →
  classical s' = classical
    (s <| skipped_message_keys := delete (slot_of m) (skipped_message_keys s) |>) →
  stayed sec m s s'.
Proof.
  intros Ht Hk Hc. set (s1 := s <| skipped_message_keys := _ |>) in Hc.
  assert (skipped_message_keys s' = delete (slot_of m) (skipped_message_keys s)) as Hd
    by exact (classical_kept _ _ Hc).
  pose proof (classical_anchor _ _ Hc : _ = anchor s) as Ha.
  split.
  - done.
  - intros c j Hne. rewrite (classical_key_for _ _ _ _ _ Hc). unfold key_for. simpl.
    by rewrite lookup_delete_ne by done.
  - apply (classical_tidy s1); [done|]. intros c j k' Hl. simpl in Hl.
    apply lookup_delete_Some in Hl as [_ Hl]. by apply (Ht c j k').
  - intros c j Hne. unfold has_kept. rewrite Hd. rewrite lookup_delete_ne; done.
  - intros c j [k' Hl]. rewrite Hd in Hl. apply lookup_delete_Some in Hl as [_ Hl]. left. by exists k'.
Qed.

Lemma advanced_anchor c n s s' : advanced c n s s' → anchor s' = anchor s.
Proof.
  intros [_ _ _ _ (? & ? & ? & ? & ? & ? & ? & ?) _ _]. unfold anchor.
  repeat match goal with |- (_, _) = (_, _) => apply f_equal2 end; done.
Qed.

Lemma stayed_on_chain sec m s s1 s' :
  tidy s → on_new_chain s (em_dh_public_key m) = false →
  advanced (em_dh_public_key m) (em_message_number m) s s1 →
  receiving_chain_length s1 = em_message_number m + 1 → classical s' = classical s1 →
  stayed sec m s s'.
Proof.
  intros Ht Hnew Ha Hr Hc. pose proof (advanced_anchor _ _ _ _ Ha) as Han.
  pose proof Ha as [Ho Hch Hk _ _ _ _].
  pose proof (eq_trans (classical_anchor _ _ Hc) Han) as Ha'.
  pose proof (classical_kept _ _ Hc) as Hd.
  split.
  - done.
  - intros c j Hne. rewrite (classical_key_for _ _ _ _ _ Hc). unfold key_for.
    rewrite (anchor_turn sec _ _ c Han), (anchor_chain _ _ c Han), Hk, Hr.
    destruct (decide (c = _ ∧ _)) as [[-> Hj]|Hj].
    + destruct (skipped_message_keys s !! _) as [k|] eqn:Hs.
      * specialize (Ht _ _ _ Hs Hnew). lia.
      * by rewrite Hnew, (proj2 (Z.leb_le _ _)) by lia.
    + destruct (skipped_message_keys s !! _); [done|]. destruct (on_new_chain s c) eqn:Hcn; [done|].
      destruct (Z.leb_spec (em_message_number m + 1) j).
      * rewrite (proj2 (Z.leb_le _ _)) by lia. rewrite Hch, Hr, ck_key_at_add by lia. do 2 f_equal. lia.
      * rewrite (proj2 (Z.leb_gt _ _)); [done|].
        pose proof (on_new_chain_inj _ _ _ Hcn Hnew) as ->.
        destruct (decide (j = em_message_number m)); [congruence|].
        destruct (decide (receiving_chain_length s ≤ j)); [|lia]. destruct Hj. split; [done|lia].
  - apply (classical_tidy s1); [done|]. intros c j k. rewrite Hk, (anchor_chain _ _ c Han), Hr.
    destruct (decide _) as [[-> Hj]|_]; [intros; lia|]. intros Hs Hn. specialize (Ht _ _ _ Hs Hn). lia.
  - intros c j Hne [k Hs]. unfold has_kept. rewrite Hd, Hk. destruct (decide _); [done|]. by exists k.
  - intros c j [k Hs]. rewrite Hd, Hk in Hs. destruct (decide _) as [[-> _]|_]; [by right|].
    left. by exists k.
Qed.

(** A delivery that takes a DH step. *)
Record moved (sec : option bytes) m s s' : Prop := {
  mv_chains : ∃ rk ck sk pk z, turn sec s (em_dh_public_key m) = Some (rk, ck) ∧
    from_private_key_to_public_key sk = Ok pk ∧
    dh_ratchet_private s' = Some sk ∧ dh_ratchet_public s' = pk ∧
    kem_decapsulate sk (em_dh_public_key m) = Ok z ∧
    kdf_rk rk z = Ok (root_key s', sending_chain_key s') ∧
    ∀ j, 0 ≤ j → j ≠ em_message_number m →
      key_for sec s' (em_dh_public_key m) j = Some (ck_key_at ck j);
  mv_lengths : sending_chain_length s' = 0 ∧ previous_sending_length s' = sending_chain_length s;
  mv_remote : remote_dh_public s' = Some (kem_public_key_from_bytes (em_dh_public_key m));
  mv_proof : identity_proof s' ≠ IpAwaitingAnswer;
  mv_tidy : tidy s';
  mv_kept : ∀ c j k, c ≠ em_dh_public_key m →
    skipped_message_keys s !! (c, j) = Some k → skipped_message_keys s' !! (c, j) = Some k;
  mv_old : ∀ c j k, on_new_chain s c = false → key_for sec s c j = Some k →
    j < em_previous_chain_length m → skipped_message_keys s' !! (c, j) = Some k;
  mv_new : ∀ c j, has_kept s' c j →
    has_kept s c j ∨ on_new_chain s c = false ∨ c = em_dh_public_key m;
}.

Lemma complete_fields s :
  let s' := complete_identity_proof s in
  root_key s' = root_key s ∧ sending_chain_key s' = sending_chain_key s ∧
  sending_chain_length s' = sending_chain_length s ∧
  receiving_chain_key s' = receiving_chain_key s ∧
  receiving_chain_length s' = receiving_chain_length s ∧
  dh_ratchet_private s' = dh_ratchet_private s ∧ dh_ratchet_public s' = dh_ratchet_public s ∧
  remote_dh_public s' = remote_dh_public s ∧
  previous_sending_length s' = previous_sending_length s ∧
  skipped_message_keys s' = skipped_message_keys s ∧
  (identity_proof s ≠ IpAwaitingAnswer → identity_proof s' ≠ IpAwaitingAnswer).
Proof. unfold complete_identity_proof. destruct (identity_proof s) eqn:?; simpl; split_and!; congruence || done. Qed.

Lemma classical_moved sec m s s1 s2 :
  classical s2 = classical s1 → moved sec m s s1 → moved sec m s s2.
Proof.
  intros Hc [(rk & ck & sk & pk & z & HH) [? ?] ? ? ? Hk Ho Hn].
  pose proof (classical_kept _ _ Hc) as Hs. pose proof (classical_tidy _ _ Hc) as Ht.
  assert (∀ c j, key_for sec s2 c j = key_for sec s1 c j) as Hkf by (intros; by apply classical_key_for).
  unfold classical in Hc. injection Hc as E1 E2 E3 E4 E5 E6 E7 E8 E9 E10 E11.
  split; try congruence; try by auto.
  - exists rk, ck, sk, pk, z. rewrite E1, E2, E6, E7. by setoid_rewrite Hkf.
  - split; congruence.
  - by rewrite Hs.
  - by rewrite Hs.
  - unfold has_kept. by rewrite Hs.
Qed.

Lemma moved_complete sec m s s' : moved sec m s s' → moved sec m s (complete_identity_proof s').
Proof.
  destruct (complete_fields s') as (E1 & E2 & E3 & E4 & E5 & E6 & E7 & E8 & E9 & E10 & E11).
  intros [(rk & ck & sk & pk & z & HH) [? ?] Hr Hi Ht Hk Ho Hn].
  set (s2 := complete_identity_proof s') in *.
  assert (∀ c, on_new_chain s2 c = on_new_chain s' c) as Hc by (intros; by apply on_new_chain_eq).
  split; try congruence; try by auto.
  - exists rk, ck, sk, pk, z. rewrite E1, E2, E6, E7. destruct HH as (? & ? & ? & ? & ? & ? & HH).
    split_and!; try done. intros j Hj Hne. specialize (HH j Hj Hne). unfold key_for in *.
    rewrite E10, Hc, E4, E5. destruct (skipped_message_keys s' !! _); [done|].
    assert (on_new_chain s' (em_dh_public_key m) = false) as Hf.
    { rewrite (on_new_chain_spec _ _ _ Hr), kem_public_ref_from. by rewrite bool_decide_eq_true_2. }
    by rewrite Hf in *.
  - split; congruence.
  - unfold tidy. rewrite E10, E5. by setoid_rewrite Hc.
  - by rewrite E10.
  - by rewrite E10.
  - unfold has_kept. by rewrite E10.
Qed.

Lemma moved_new_chain sec m s r sa sb sc :
  tidy s → on_new_chain s (em_dh_public_key m) = true → remote_dh_public s = Some r →
  (∀ j, skipped_message_keys s !! (em_dh_public_key m, j) = None) → 0 ≤ em_message_number m →
  advanced (kem_public_ref r) (receiving_chain_length sa) s sa →
  receiving_chain_length sa = Z.max (receiving_chain_length s) (em_previous_chain_length m) →
  turned sec (em_dh_public_key m) sa sb →
  advanced (em_dh_public_key m) (em_message_number m) sb sc →
  receiving_chain_length sc = em_message_number m + 1 → moved sec m s sc.
Proof.
  intros Ht Hnew Hr Hnone Hn Ha Hra Hturn Hsc Hrc.
  pose proof Hturn as [(rk & ck & sk & pk & z & Ht' & Hrck & Hrl & Hpk & Hsk & Hpub & Hz & Hkdf & Hscl)
    Hrem Hprev Hskip Hproof _].
  rewrite (turn_advanced _ _ _ _ _ _ Ha) in Ht'.
  pose proof Ha as [_ _ Hka _ (_ & _ & Hscla & _) _ _].
  pose proof Hsc as [_ Hchc Hkc _ (E1 & E2 & E3 & E4 & E5 & E6 & E7 & E8) _ _].
  assert (kem_public_ref r ≠ em_dh_public_key m) as Hrne.
  { rewrite (on_new_chain_spec _ _ _ Hr) in Hnew. by apply negb_true_iff, bool_decide_eq_false in Hnew. }
  assert (∀ c, on_new_chain s c = false → c = kem_public_ref r) as Hold.
  { intros c. rewrite (on_new_chain_spec _ _ _ Hr). by intros ?%negb_false_iff%bool_decide_eq_true. }
  assert (on_new_chain sc (em_dh_public_key m) = false) as Hcur.
  { erewrite on_new_chain_spec by (by rewrite E6). rewrite kem_public_ref_from.
    by rewrite bool_decide_eq_true_2. }
  assert (∀ j, skipped_message_keys sb !! (em_dh_public_key m, j) = None) as Hnoneb.
  { intros j. rewrite Hskip, Hka, decide_False; [done|]. intros [? _]. congruence. }
  split.
  - exists rk, ck, sk, pk, z. split_and!; try congruence. intros j Hj Hne. unfold key_for.
    rewrite Hcur, Hkc, Hrl, Hrc, Hrck. destruct (decide _) as [[_ Hj']|Hj']; [by rewrite Z.sub_0_r|].
    rewrite Hnoneb. destruct (Z.leb_spec (em_message_number m + 1) j).
    + rewrite Hchc, Hrc, Hrl, Hrck, ck_key_at_add by lia. do 2 f_equal. lia.
    + destruct Hj'. split; [done|lia].
  - split; congruence.
  - congruence.
  - rewrite E8, Hproof. unfold after_answer. by case_bool_decide.
  - intros c j k Hl Hc. rewrite Hrc. pose proof (on_new_chain_inj _ _ _ Hc Hcur) as ->.
    rewrite Hkc, Hrl in Hl. destruct (decide _) as [[_ ?]|_]; [lia|]. by rewrite Hnoneb in Hl.
  - intros c j k Hne Hl. rewrite Hkc, decide_False by (intros [? _]; congruence).
    rewrite Hskip, Hka. destruct (decide _) as [[-> Hj]|_]; [|done].
    specialize (Ht _ _ _ Hl). rewrite (on_new_chain_spec _ _ _ Hr) in Ht.
    rewrite bool_decide_eq_true_2 in Ht by done. specialize (Ht eq_refl). lia.
  - intros c j k Hc Hk Hj. pose proof (Hold c Hc) as ->.
    rewrite Hkc, decide_False by (intros [? _]; congruence). rewrite Hskip, Hka.
    unfold key_for in Hk. rewrite Hc in Hk.
    destruct (skipped_message_keys s !! _) as [k'|] eqn:Hl.
    + specialize (Ht _ _ _ Hl Hc). rewrite decide_False by lia. done.
    + destruct (Z.leb_spec (receiving_chain_length s) j); [|done].
      rewrite decide_True by (split; [done|lia]). done.
  - intros c j [k Hl]. rewrite Hkc in Hl. destruct (decide _) as [[-> _]|_]; [by right; right|].
    rewrite Hskip, Hka in Hl. destruct (decide _) as [[-> _]|_]; [|left; by exists k].
    right. left. rewrite (on_new_chain_spec _ _ _ Hr). by rewrite bool_decide_eq_true_2.
Qed.

(** Every delivery is one or the other. *)
Lemma received_cases sec m s s' :
  tidy s → 0 ≤ em_message_number m →
  (on_new_chain s (em_dh_public_key m) = true → ¬ has_kept s (em_dh_public_key m) (em_message_number m) →
   ∀ j, skipped_message_keys s !! (em_dh_public_key m, j) = None) →
  received sec m s s' →
  (has_kept s (em_dh_public_key m) (em_message_number m) ∨
   on_new_chain s (em_dh_public_key m) = false) ∧ stayed sec m s s' ∨
  on_new_chain s (em_dh_public_key m) = true ∧
  ¬ has_kept s (em_dh_public_key m) (em_message_number m) ∧ moved sec m s s'.
Proof.
  intros Ht Hn Hnone [k Hk Hc|s1 Hnew Ha Hr Hc|r sa sb sc Hk Hnew Hr Ha Hra Htu Hsc Hrc Hc].
  - left. split; [left; by exists k|]. by eapply stayed_kept.
  - left. split; [by right|]. by eapply stayed_on_chain.
  - assert (¬ has_kept s (em_dh_public_key m) (em_message_number m)) as Hnk
      by (intros [k' Hk']; congruence).
    right. split_and!; [done..|]. eapply classical_moved; [done|]. apply moved_complete.
    eapply moved_new_chain; try done. by apply Hnone.
Qed.

(** ** The relation *)

Record linked (sec : option bytes) L F : Prop := {
  lk_remote : remote_dh_public L = Some (dh_ratchet_public F);
  (** the step [F] will take leads to the root and the sending chain of [L] *)
  lk_root : ∃ ck, turn sec F (kem_public_ref (dh_ratchet_public L)) = Some (root_key L, ck) ∧
    sending_chain_key L = ck_at ck (sending_chain_length L);
  lk_unseen : on_new_chain F (kem_public_ref (dh_ratchet_public L)) = true ∧
    ∀ j, skipped_message_keys F !! (kem_public_ref (dh_ratchet_public L), j) = None;
  (** [L] has the key of every message [F] is still to send *)
  lk_back : ∀ j, sending_chain_length F ≤ j →
    key_for sec L (kem_public_ref (dh_ratchet_public F)) j
    = Some (ck_key_at (sending_chain_key F) (j - sending_chain_length F));
  lk_proof : identity_proof L ≠ IpAwaitingAnswer;
}.

(** [F] has the key of every message [L] sends. *)
Lemma linked_forth sec L F j :
  linked sec L F → 0 ≤ sending_chain_length L ≤ j →
  key_for sec F (kem_public_ref (dh_ratchet_public L)) j
  = Some (ck_key_at (sending_chain_key L) (j - sending_chain_length L)).
Proof.
  intros [_ (ck & Ht & Hck) [Hnew Hnone] _ _] Hj. unfold key_for. rewrite Hnone, Hnew, Ht. simpl.
  rewrite Hck, ck_key_at_add by lia. do 2 f_equal. lia.
Qed.

Lemma classical_linked sec L F L' F' :
  classical L' = classical L → classical F' = classical F → linked sec L F → linked sec L' F'.
Proof.
  intros HL HF [Hr (ck & Ht & Hck) [Hn Hnone] Hb Hp].
  pose proof (classical_anchor _ _ HL) as HaL. pose proof (classical_anchor _ _ HF) as HaF.
  pose proof (classical_kept _ _ HF) as HkF.
  assert (∀ c j, key_for sec L' c j = key_for sec L c j) as Hk by (intros; by apply classical_key_for).
  assert (∀ c, turn sec F' c = turn sec F c) as HtF by (intros; by apply anchor_turn).
  assert (∀ c, on_new_chain F' c = on_new_chain F c) as HnF by (intros; by apply anchor_chain).
  unfold anchor in HaL, HaF. injection HaL as E1 E2 E3 E4 E5 E6 E7 E8.
  injection HaF as G1 G2 G3 G4 G5 G6 G7 G8.
  split; rewrite ?E1, ?E2, ?E3, ?E5, ?E6, ?E8, ?G2, ?G3, ?G5, ?HtF, ?HnF, ?HkF; try done.
  - by exists ck.
  - intros j Hj. rewrite Hk. by apply Hb.
Qed.

(** Sending keeps it, at either end. *)
Lemma linked_sent_L sec L F L' :
  0 ≤ sending_chain_length L → classical L' = classical (sent L) → linked sec L F → linked sec L' F.
Proof.
  intros Hn Hc [Hr (ck & Ht & Hck) Hu Hb Hp]. apply (classical_linked sec (sent L) F); [done..|].
  split; try done. exists ck. split; [done|]. simpl. by rewrite Hck, ck_at_next.
Qed.

Lemma linked_sent_F sec L F F' :
  classical F' = classical (sent F) → linked sec L F → linked sec L F'.
Proof.
  intros Hc [Hr Ht Hu Hb Hp]. apply (classical_linked sec L (sent F)); [done..|].
  split; try done. simpl. intros j Hj. rewrite Hb by lia. f_equal.
  rewrite <- (ck_at_0 (sending_chain_key F)) at 2. rewrite (ck_at_next _ 0), ck_key_at_add by lia.
  f_equal. lia.
Qed.

(** Receiving without a DH step keeps it, at either end. *)
Lemma linked_stayed_L sec L F L' m :
  (em_dh_public_key m = kem_public_ref (dh_ratchet_public F) →
   em_message_number m < sending_chain_length F) →
  stayed sec m L L' → linked sec L F → linked sec L' F.
Proof.
  intros Hm [Ha Hk _ _ _] [Hr (ck & Ht & Hck) Hu Hb Hp]. unfold anchor in Ha.
  injection Ha as E1 E2 E3 E4 E5 E6 E7 E8.
  split; rewrite ?E1, ?E2, ?E3, ?E5, ?E6, ?E8; try done.
  - by exists ck.
  - intros j Hj. rewrite Hk; [by apply Hb|]. intros [= Hd ->]. rewrite <- Hd in Hm.
    specialize (Hm eq_refl). lia.
Qed.

Lemma linked_stayed_F sec L F F' m : stayed sec m F F' → linked sec L F → linked sec L F'.
Proof.
  intros [Ha _ _ _ Hnew] [Hr (ck & Ht & Hck) [Hn Hnone] Hb Hp].
  pose proof (anchor_turn sec _ _ (kem_public_ref (dh_ratchet_public L)) Ha) as Ht'.
  pose proof (anchor_chain _ _ (kem_public_ref (dh_ratchet_public L)) Ha) as Hn'.
  unfold anchor in Ha. injection Ha as E1 E2 E3 E4 E5 E6 E7 E8.
  split; rewrite ?E2, ?E3, ?E5, ?Ht', ?Hn'; try done.
  - by exists ck.
  - split; [done|]. intros j. apply eq_None_not_Some. intros Hs.
    destruct (Hnew _ _ Hs) as [[k Hk]|Hf]; [by rewrite Hnone in Hk|congruence].
Qed.

(** The DH step exchanges the parts. *)
Lemma linked_moved sec L F F' m :
  em_dh_public_key m = kem_public_ref (dh_ratchet_public L) →
  em_message_number m < sending_chain_length L →
  (∃ sk, dh_ratchet_private L = Some sk ∧
    from_private_key_to_public_key sk = Ok (dh_ratchet_public L)) →
  kem_public_ref (dh_ratchet_public F') ≠ kem_public_ref (dh_ratchet_public F) →
  (∀ j, skipped_message_keys L !! (kem_public_ref (dh_ratchet_public F'), j) = None) →
  0 ≤ sending_chain_length L → moved sec m F F' → linked sec L F → linked sec F' L.
Proof.
  intros Hdh Hn (skL & HskL & HpkL) Hfresh Hnone Hpos
    [(rk & ck & sk & pk & z & Ht & Hpk & Hsk & Hpub & Hz & Hkdf & Hkeys) [Hl _] Hr Hp _ _ _ _] Hlk.
  pose proof Hlk as [HrL (ck' & Ht' & Hck) _ _ HpL]. rewrite Hdh in *.
  rewrite Ht in Ht'. injection Ht' as -> ->. split.
  - by rewrite Hr, kem_public_from_ref.
  - exists (sending_chain_key F'). rewrite Hl, ck_at_0. split; [|done]. unfold turn.
    rewrite HskL. simpl. rewrite Hpub, <- (dh_commutes sk pk skL (dh_ratchet_public L)) by done.
    rewrite Hz. simpl. rewrite Hkdf. simpl. by rewrite bool_decide_eq_false_2.
  - split; [|done]. rewrite (on_new_chain_spec _ _ _ HrL). apply negb_true_iff, bool_decide_eq_false.
    congruence.
  - intros j Hj. rewrite Hkeys by lia. rewrite Hck, ck_key_at_add by lia. do 2 f_equal. lia.
  - done.
Qed.
End link.
