(* ===== verification/RatchetNetwork.v ===== *)
(** * Double ratchet: conversations

    Two sessions of the double ratchet ([messaging.rs]) and the network
    between them: messages are sent, arrive in any order, are lost, repeated
    or forged. [conversation] is the step relation; the theorems say that in
    every state it leads to, a message under way, whenever it arrives, is
    opened to the plaintext that was sent, or refused for one of the limits
    the code sets, and that the two ends never fall apart. *)

From S2P Require Import Prelude SuiteId Platform Wp RatchetTypes RatchetPq Ratchet.
From S2P Require Import RatchetRollback RatchetPqInv RatchetPqKeys RatchetInv RatchetClean RatchetPqSync.
From S2P Require Import RatchetChains RatchetDeliver RatchetPqLink RatchetSend RatchetLink.

Section network.
Context `{MlKemCrate} `{!HexCrate} `{!CryptoProvider}.
Context `{!MlKemLaws} `{!HexLaws} `{!ProviderLaws}.
Implicit Types (s X Y : DoubleRatchetSession) (m : EncryptedRatchetMessage) (b : bool).

(** ** Messages under way *)

Abbreviation own_key s := (kem_public_ref (dh_ratchet_public s)).

(** Where the key of a message from [X] is at [Y]: on the chain [X] sends on,
    among the kept ones, or further along the chain [Y] is receiving on. *)
Definition located X Y m : Prop :=
  em_dh_public_key m = own_key X ∧ em_previous_chain_length m = previous_sending_length X ∨
  has_kept Y (em_dh_public_key m) (em_message_number m) ∨
  on_new_chain Y (em_dh_public_key m) = false ∧
    em_message_number m < previous_sending_length X ∧ em_dh_public_key m ≠ own_key X.

Record flight (sec : option bytes) (seen : gset bytes) b X Y m (p : bytes) : Prop := {
  fl_deliverable : deliverable sec Y m p;
  fl_located : located X Y m;
  fl_number : em_dh_public_key m = own_key X → em_message_number m < sending_chain_length X;
  fl_pq : pq_from b X Y m;
  fl_seen : em_dh_public_key m ∈ seen;
}.

(** Two messages take different slots of either ratchet. *)
Definition apart Y m m' : Prop := slot_of m' ≠ slot_of m ∧ pq_slot_apart Y m m'.

Abbreviation wire := (gmap nat (EncryptedRatchetMessage * bytes)).

Record one_way (sec : option bytes) (seen : gset bytes) b X Y (out : wire) : Prop := {
  ow_flight : ∀ i m p, out !! i = Some (m, p) → flight sec seen b X Y m p;
  ow_apart : ∀ i j m m' p p', i ≠ j →
    out !! i = Some (m, p) → out !! j = Some (m', p') → apart Y m m';
}.

(** ** One end *)

(** Every ratchet key an end has met. *)
Definition met (seen : gset bytes) s : Prop :=
  own_key s ∈ seen ∧ (∀ c, on_new_chain s c = false → c ∈ seen) ∧ ∀ c j, has_kept s c j → c ∈ seen.

Record end_ok (t0 : Z) (seen : gset bytes) s : Prop := {
  en_wf : wf_session s;
  en_tidy : both_tidy s;
  en_since : since_ok t0 s;
  en_young : young t0 s;
  en_met : met seen s;
}.

Record talk (t0 : Z) (sec : option bytes) b (seen : gset bytes) X Y (to_Y to_X : wire) : Prop := {
  tk_X : end_ok t0 seen X;
  tk_Y : end_ok t0 seen Y;
  tk_peers : peers X Y;
  tk_linked : linked sec X Y ∨ linked sec Y X;
  tk_pq : pq_pair b X Y;
  tk_to_Y : one_way sec seen b X Y to_Y;
  tk_to_X : one_way sec seen (negb b) Y X to_X;
}.

Lemma talk_sym t0 sec b seen X Y o o' :
  talk t0 sec b seen X Y o o' → talk t0 sec (negb b) seen Y X o' o.
Proof.
  intros [? ? ? Hl ? ? ?]. split; try done.
  - by apply peers_sym.
  - destruct Hl; [by right|by left].
  - by apply pq_pair_sym.
  - by rewrite negb_involutive.
Qed.

(** ** Sending *)

Lemma own_key_real s : wf_session s → real_key (own_key s).
Proof. intros [[? ? ? ? ? (sk & _ & Hpk) ? ? ?] _]. by exists sk, (dh_ratchet_public s). Qed.

(** The peer has the key of the next message. *)
Lemma next_key sec X Y :
  wf_session X → linked sec X Y ∨ linked sec Y X →
  key_for sec Y (own_key X) (sending_chain_length X) = Some (ck_out (sending_chain_key X)).
Proof.
  intros [[_ [Hpos _]] _] [Hl|Hl].
  - rewrite (linked_forth sec X Y) by (done || lia). by rewrite Z.sub_diag.
  - destruct Hl as [_ _ _ Hb _]. rewrite Hb by lia. by rewrite Z.sub_diag.
Qed.

Lemma located_sender X X' Y m :
  own_key X' = own_key X → previous_sending_length X' = previous_sending_length X →
  located X Y m → located X' Y m.
Proof. unfold located. by intros -> ->. Qed.

Lemma pair_tidy b X Y : pq_pair b X Y → ratchets X = true → pq_tidy X.
Proof. intros [_ Hl] HX. specialize (Hl HX). destruct b; apply Hl. Qed.

Lemma deliverable_same sec sec' s s' m p :
  address s' = address s →
  (∀ k, key_for sec s (em_dh_public_key m) (em_message_number m) = Some k →
     key_for sec' s' (em_dh_public_key m) (em_message_number m) = Some k) →
  (∀ k, pq_slotted s m = true → pq_has s (em_pq_message_epoch m) (em_pq_key_index m) k →
     pq_has s' (em_pq_message_epoch m) (em_pq_key_index m) k) →
  deliverable sec s m p → deliverable sec' s' m p.
Proof.
  intros Ha Hk Hp [(k & Hkey & pk & mk & Hs & Hmix & Hopen & Hv) ? ? ? ?]. split; try done.
  exists k. split; [by apply Hk|]. exists pk, mk. rewrite (address_aead _ _ _ _ Ha).
  assert (suite_id s' = suite_id s) as Hsu by (unfold address in Ha; congruence).
  split_and!; [|done..|by unfold address in Ha; congruence].
  unfold pq_sealed, pq_slotted in *. rewrite Hsu. destruct (_ && _) eqn:Hsl; [|done].
  destruct Hs as (k' & -> & Hh). exists k'. split; [done|]. by apply Hp.
Qed.

(** What the sender's side of a direction rests on. *)
Lemma one_way_sender sec seen b X X' Y out :
  own_key X' = own_key X → previous_sending_length X' = previous_sending_length X →
  sending_chain_length X ≤ sending_chain_length X' →
  (∀ m, pq_from b X Y m → pq_from b X' Y m) →
  one_way sec seen b X Y out → one_way sec seen b X' Y out.
Proof.
  intros Ho Hp Hs Hc [Hf Ha]. split; [|done]. intros i m p Hi. destruct (Hf i m p Hi) as [? Hl Hn ? ?].
  split; try done; [by eapply located_sender| |by apply Hc].
  rewrite Ho. intros Hd. specialize (Hn Hd). lia.
Qed.

(** What the receiver's side rests on, when no key is spent. *)
Lemma one_way_receiver sec seen b X Y Y' out :
  address Y' = address Y → (∀ c j, key_for sec Y' c j = key_for sec Y c j) →
  skipped_message_keys Y' = skipped_message_keys Y → remote_dh_public Y' = remote_dh_public Y →
  pq_keeps None Y Y' → (∀ m, pq_from b X Y m → pq_from b X Y' m) →
  one_way sec seen b X Y out → one_way sec seen b X Y' out.
Proof.
  intros Ha Hk Hs Hr Hp Hc [Hf Hap]. assert (suite_id Y' = suite_id Y) as Hsu
    by (unfold address in Ha; congruence). split.
  - intros i m p Hi. destruct (Hf i m p Hi) as [Hd Hl Hn Hpq Hse]. split; try done; [| |by apply Hc].
    + eapply deliverable_same; try done; [by setoid_rewrite Hk|]. intros k _. by apply Hp.
    + unfold located, has_kept in *. by rewrite Hs, (on_new_chain_eq Y Y').
  - intros i j m m' p p' Hij Hi Hj. unfold apart, pq_slot_apart, pq_slotted in *. rewrite Hsu. by eapply (Hap i j).
Qed.

(** A message joins the ones under way. *)
Lemma one_way_insert sec seen b X Y out i m p :
  one_way sec seen b X Y out → flight sec seen b X Y m p →
  (∀ j m' p', out !! j = Some (m', p') → apart Y m m' ∧ apart Y m' m) →
  one_way sec seen b X Y (<[i := (m, p)]> out).
Proof.
  intros [Hf Ha] Hfl Hap. split.
  - intros j m' p' Hj. apply lookup_insert_Some in Hj as [[_ [= <- <-]]|[_ Hj]]; [done|by eapply Hf].
  - intros j j' m1 m2 p1 p2 Hne Hj Hj'.
    apply lookup_insert_Some in Hj as [[<- [= <- <-]]|[Hij Hj]];
      apply lookup_insert_Some in Hj' as [[<- [= <- <-]]|[Hij' Hj']]; try done;
      [by destruct (Hap _ _ _ Hj')|by destruct (Hap _ _ _ Hj)|exact (Ha _ _ _ _ _ _ Hne Hj Hj')].
Qed.

Lemma apart_sym Y m m' : apart Y m m' → apart Y m' m.
Proof.
  unfold apart, pq_slot_apart, pq_slotted. intros [Hs Hp]. split; [done|]. intros Hr Heq.
  injection Heq as E1 E2. rewrite <- E1 in Hr. by destruct (Hp Hr); f_equal.
Qed.

Section sending.
Variables (t0 : Z) (sec : option bytes).
Hypothesis recent : ∀ w, t0 ≤ (clock w).2 < t0 + max_skipped_message_age_seconds global.

Lemma end_ok_sent seen b X X' Y :
  end_ok t0 seen X → wf_session X' → since_ok t0 X' → young t0 X' → pq_pair b X' Y →
  remote_dh_public X' = remote_dh_public X → dh_ratchet_public X' = dh_ratchet_public X →
  skipped_message_keys X' = skipped_message_keys X →
  receiving_chain_length X' = receiving_chain_length X → end_ok t0 seen X'.
Proof.
  intros [_ [Ht _] _ _ (Ho & Hn & Hk)] Hwf Hso Hy Hp Er Ep Es El. split; try done.
  - split; [|by eapply pair_tidy]. unfold tidy. rewrite Es, El. by setoid_rewrite (on_new_chain_eq X X' _ Er).
  - unfold met, has_kept. rewrite Es, Ep. by setoid_rewrite (on_new_chain_eq X X' _ Er).
Qed.

Lemma sent_flight seen b X Y r field p m X' :
  end_ok t0 seen X → peers X Y → linked sec X Y ∨ linked sec Y X → readable m →
  sealed_by X r field p m → sending_chain_length X < u32_max →
  own_key X' = own_key X → previous_sending_length X' = previous_sending_length X →
  sending_chain_length X' = sending_chain_length X + 1 →
  pq_from b X' Y m → pq_sealed Y m r.2 → em_pq_key_index m < u32_max →
  flight sec seen b X' Y m p.
Proof.
  intros [Hwf _ _ _ (Hown & _)] Hpe Hl Hrd [Hdh Hn Hpn _ _ Hv _ Hopen] Hlt Eo Ep Es Hpq Hse Hix.
  destruct (Hopen Y Hpe) as (mk & Hmix & Hdec). split; try done.
  - split; try done; [|rewrite Hdh; by apply own_key_real|lia].
    exists (ck_out (sending_chain_key X)). rewrite Hdh, Hn. split; [by apply next_key|].
    exists r.2, mk. split_and!; try done. rewrite Hv. unfold peers, ad_send_version in *.
    destruct Hpe as (_ & _ & _ & _ & -> & ->). done.
  - left. rewrite Eo, Ep. done.
  - rewrite Eo. lia.
  - by rewrite Hdh.
Qed.

Lemma talk_sender b seen X X' Y o o' :
  talk t0 sec b seen X Y o o' → wf_session X' → since_ok t0 X' → young t0 X' →
  address X' = address X → (∀ c j, key_for sec X' c j = key_for sec X c j) →
  remote_dh_public X' = remote_dh_public X → dh_ratchet_public X' = dh_ratchet_public X →
  skipped_message_keys X' = skipped_message_keys X →
  receiving_chain_length X' = receiving_chain_length X →
  previous_sending_length X' = previous_sending_length X →
  sending_chain_length X ≤ sending_chain_length X' →
  linked sec X' Y ∨ linked sec Y X' →
  pq_pair b X' Y → pq_carries b X Y X' Y → pq_keeps None X X' → talk t0 sec b seen X' Y o o'.
Proof.
  intros [HX HY Hpe _ _ HoY HoX] Hwf Hso Hyo Ha Hk Er Ep Es El Epn Hs Hl Hpq [Hc1 Hc2] Hkeep.
  split; try done.
  - by apply (end_ok_sent seen b X X' Y).
  - by eapply peers_address.
  - apply (one_way_sender sec seen b X X' Y); try done. by rewrite Ep.
  - by eapply (one_way_receiver _ _ _ Y X X').
Qed.

Lemma pq_moved_pair b X Y X' :
  pq_pair b X Y → current_pq_epoch X < u32_max → pq_inv X → pq_inv X' →
  proposed X X' ∨ pq_moved X X' →
  pq_pair b X' Y ∧ pq_carries b X Y X' Y ∧ pq_keeps None X X'.
Proof.
  intros Hpq Hu Hi Hi' [Hp|(X1 & X2 & r & Hp & Hi1 & Hs & Hv)].
  - apply proposed_pair; try done. by apply pq_inv_shape.
  - by destruct (sends_pair b X Y X1 X2 r X') as (? & ? & ? & _).
Qed.

Lemma young_keeps X X' :
  young t0 X → (skipped_key_timestamps X', pq_skipped_key_timestamps X')
    = (skipped_key_timestamps X, pq_skipped_key_timestamps X) → young t0 X'.
Proof. unfold young. by intros [? ?] [= -> ->]. Qed.

(** [encrypt], whatever its outcome. *)
Lemma talk_send b seen X Y o o' p w :
  talk t0 sec b seen X Y o o' → current_pq_epoch X < u32_max →
  wp False (encrypt p) (X, w)
    (λ m sw, ∀ i, talk t0 sec b seen sw.1 Y (<[i := (m, p)]> o) o')
    (λ _ sw, talk t0 sec b seen sw.1 Y o o').
Proof.
  intros Htalk Hu. pose proof Htalk as [HX HY Hpe Hl Hpq HoY HoX]. pose proof HX as [Hwf Hti Hso Hyo Hme].
  eapply wp_mono; [apply wp_conj; [by apply (encrypt_sends t0 recent)|apply wp_conj_true;
    [apply (wp_weaken_panic False); [done|by apply encrypt_spec]|apply stays_encrypt]]| |].
  - intros m [X' w'] [(X1 & X2 & r & Hp & Hi1 & Hsent & Hv & Hby & Hlt & Hc & Hso') [[Hwf' Hrd] Hts]] i.
    cbn [fst] in *.
    destruct (sends_pair b X Y X1 X2 r X') as (Hpq' & Hca & Hk & Hmsg); try done; [apply Hwf|apply Hwf'|].
    destruct (Hmsg m) as (Hfrom & Hseal & Hix & Hap); [apply Hby..|].
    pose proof (part_classical _ _ Hc) as Hcl. pose proof (part_address _ _ Hc) as Had.
    pose proof (λ c j, classical_key_for sec _ _ c j Hcl) as Hkf.
    assert (talk t0 sec b seen X' Y o o') as Ht.
    { unfold classical in Hcl. injection Hcl as E1 E2 E3 E4 E5 E6 E7 E8 E9 E10 E11.
      eapply (talk_sender b seen X X' Y); try done; [by eapply young_keeps|simpl in *; lia|].
      destruct Hl as [Hl|Hl]; [left|right].
      - eapply linked_sent_L; [|by apply part_classical|done]. apply Hwf.
      - eapply linked_sent_F; [by apply part_classical|done]. }
    pose proof Ht as [? ? ? ? ? HoY' ?]. split; try done. apply one_way_insert; [done| |].
    + unfold classical in Hcl. injection Hcl as E1 E2 E3 E4 E5 E6 E7 E8 E9 E10 E11.
      eapply (sent_flight seen b X Y r _ p m X'); try done. by rewrite E7.
    + intros j m' p' Hj. pose proof (ow_flight _ _ _ _ _ _ HoY j m' p' Hj) as [_ _ Hn Hpf _].
      assert (apart Y m m') as Ham.
      { split; [|by apply Hap]. destruct Hby as [Hdh Hnum _ _ _ _ _ _]. intros [= E1 E2].
        rewrite E1 in Hn. specialize (Hn Hdh). lia. }
      split; [done|by apply apart_sym].
  - intros e [X' w'] [(Hmv & Hc & Hso') [[Hwf' _] Hts]]. cbn [fst] in *.
    destruct (pq_moved_pair b X Y X') as (Hpq' & Hca & Hk); try done; [apply Hwf|apply Hwf'|].
    pose proof (part_classical _ _ Hc) as Hcl. pose proof (part_address _ _ Hc) as Had.
    pose proof (λ c j, classical_key_for sec _ _ c j Hcl) as Hkf.
    unfold classical in Hcl. injection Hcl as E1 E2 E3 E4 E5 E6 E7 E8 E9 E10 E11.
    eapply (talk_sender b seen X X' Y); try done; [by eapply young_keeps|lia|].
    destruct Hl as [Hl|Hl]; [left|right]; (eapply classical_linked; [..|done]; by apply part_classical).
Qed.
End sending.

(** ** Receiving *)

Lemma one_way_received sec seen b X Y Y' out i m p :
  out !! i = Some (m, p) → address Y' = address Y → pq_keeps_but m Y Y' →
  (∀ m', pq_from b X Y m' → pq_from b X Y' m') →
  (∀ m' p' k, flight sec seen b X Y m' p' → slot_of m' ≠ slot_of m →
     key_for sec Y (em_dh_public_key m') (em_message_number m') = Some k →
     located X Y' m' ∧ key_for sec Y' (em_dh_public_key m') (em_message_number m') = Some k) →
  one_way sec seen b X Y out → one_way sec seen b X Y' (delete i out).
Proof.
  intros Hi Ha Hp Hc Hm [Hf Hap]. split.
  - intros j m' p' Hj. apply lookup_delete_Some in Hj as [Hij Hj].
    destruct (Hap _ _ _ _ _ _ Hij Hi Hj) as [Hs Hps].
    pose proof (Hf j m' p' Hj) as Hfl. pose proof Hfl as [Hd _ ? Hpq ?].
    split; try done; [| |by apply Hc].
    + eapply deliverable_same; try done; [|by intros k _ Hh; apply Hp].
      intros k Hk. by destruct (Hm m' p' k Hfl Hs Hk).
    + destruct (dl_key _ _ _ _ Hd) as (k & Hk & _). by destruct (Hm m' p' k Hfl Hs Hk).
  - intros j j' m1 m2 p1 p2 Hne Hj Hj'. apply lookup_delete_Some in Hj as [_ Hj], Hj' as [_ Hj'].
    assert (suite_id Y' = suite_id Y) as Hsu by (unfold address in Ha; congruence).
    unfold apart, pq_slot_apart, pq_slotted in *. rewrite Hsu. exact (Hap _ _ _ _ _ _ Hne Hj Hj').
Qed.

(** The other messages to an end that took no DH step, and to one that did. *)
Lemma stayed_located sec X Y Y' m m' k :
  stayed sec m Y Y' → slot_of m' ≠ slot_of m → located X Y m' →
  key_for sec Y (em_dh_public_key m') (em_message_number m') = Some k →
  located X Y' m' ∧ key_for sec Y' (em_dh_public_key m') (em_message_number m') = Some k.
Proof.
  intros [Ha Hk _ Hke _] Hne Hl Hkf. split; [|by rewrite Hk].
  unfold located in *. rewrite (anchor_chain _ _ _ Ha). naive_solver.
Qed.

Lemma moved_located sec X Y Y' m m' k :
  linked sec X Y → moved sec m Y Y' → em_dh_public_key m = own_key X →
  em_previous_chain_length m = previous_sending_length X → 0 ≤ em_message_number m' →
  slot_of m' ≠ slot_of m → located X Y m' →
  key_for sec Y (em_dh_public_key m') (em_message_number m') = Some k →
  located X Y' m' ∧ key_for sec Y' (em_dh_public_key m') (em_message_number m') = Some k.
Proof.
  intros [_ _ [Hnew Hnone] _ _] [(rk & ck & sk & pk & z & Ht & _ & _ & _ & _ & _ & Hkeys) _ _ _ _ Hkept Hold _]
    Hdh Hpn Hpos Hne Hl Hkf. rewrite <- Hdh in Hnew, Hnone.
  assert (skipped_message_keys Y' !! slot_of m' = Some k →
    located X Y' m' ∧ key_for sec Y' (em_dh_public_key m') (em_message_number m') = Some k) as Hsk.
  { intros Hk. split; [right; left; by exists k|]. unfold key_for. by rewrite Hk. }
  destruct Hl as [[Hd Hp]|[[k' Hk]|(Hc & Hlt & _)]].
  - split; [by left|]. assert (em_dh_public_key m' = em_dh_public_key m) as Heq by congruence.
    assert (em_message_number m' ≠ em_message_number m) as Hnn by (intros ?; apply Hne; congruence).
    rewrite Heq in *. rewrite Hkeys by done. unfold key_for in Hkf. by rewrite Hnone, Hnew, Ht in Hkf.
  - assert (em_dh_public_key m' ≠ em_dh_public_key m) as Hd by (intros Hd; by rewrite Hd, Hnone in Hk).
    apply Hsk. unfold key_for in Hkf. rewrite Hk in Hkf. injection Hkf as <-. by apply Hkept.
  - apply Hsk. apply Hold; [done..|]. lia.
Qed.

Lemma talk_seen t0 sec b seen seen' X Y o o' :
  seen ⊆ seen' → talk t0 sec b seen X Y o o' → talk t0 sec b seen' X Y o o'.
Proof.
  intros Hsub. assert (∀ s, end_ok t0 seen s → end_ok t0 seen' s) as He.
  { intros s [? ? ? ? (? & ? & ?)]. split; try done. unfold met. set_solver. }
  assert (∀ b X Y out, one_way sec seen b X Y out → one_way sec seen' b X Y out) as Ho.
  { intros b' X' Y' out [Hf Ha]. split; [|done]. intros i m p Hi.
    destruct (Hf i m p Hi). split; try done. by apply Hsub. }
  intros []. split; auto.
Qed.

(** The state [decrypt] leaves when it opens a message, put together. *)
Lemma talk_stayed t0 sec b seen X X' Y o o' i m p :
  talk t0 sec b seen X Y o o' → o' !! i = Some (m, p) → stayed sec m X X' →
  wf_session X' → since_ok t0 X' → young t0 X' → address X' = address X →
  pq_pair b X' Y → pq_carries b X Y X' Y → pq_keeps_but m X X' →
  talk t0 sec b seen X' Y o (delete i o').
Proof.
  intros [HX HY Hpe Hl Hpq HoY HoX] Hi Hst Hwf Hso Hyo Had Hpq' [Hc1 Hc2] Hk.
  pose proof Hst as [Ha Hkf Hti Hkept Hnew]. pose proof (ow_flight _ _ _ _ _ _ HoX _ _ _ Hi) as Hfl.
  pose proof (anchor_chain X X') as Hch.
  assert (linked sec X' Y ∨ linked sec Y X') as Hl'.
  { destruct Hl as [Hl|Hl]; [left|right; by eapply linked_stayed_F].
    eapply linked_stayed_L; [|done..]. apply Hfl. }
  pose proof Ha as Ha2. unfold anchor in Ha2. injection Ha2 as E1 E2 E3 E4 E5 E6 E7 E8.
  split; try done.
  - split; try done; [by split; [|by eapply pair_tidy]|].
    destruct HX as [_ _ _ _ (Ho & Hn & Hke)]. unfold met. rewrite E5.
    split_and!; [done|intros c; rewrite Hch by done; apply Hn|].
    intros c j Hh. destruct (Hnew c j Hh) as [?|?]; [by eapply Hke|by apply Hn].
  - by eapply peers_address.
  - apply (one_way_sender sec seen b X X' Y); try done; [by rewrite E5|lia].
  - apply (one_way_received sec seen (negb b) Y X X' o' i m p); try done.
    intros m' p' k Hf Hs Hkf'. eapply stayed_located; [done..|apply Hf|done].
Qed.

(** Only the end that is behind can be asked for a DH step, and then by the
    key its peer sends under. *)
Lemma new_chain_message sec seen b X Y m p :
  linked sec X Y ∨ linked sec Y X → flight sec seen b X Y m p →
  on_new_chain Y (em_dh_public_key m) = true →
  ¬ has_kept Y (em_dh_public_key m) (em_message_number m) →
  linked sec X Y ∧ em_dh_public_key m = own_key X ∧
  em_previous_chain_length m = previous_sending_length X.
Proof.
  intros Hl [_ [[Hd Hp]|[?|(? & _)]] _ _ _] Hnew Hnk; [|done|congruence].
  split_and!; try done. destruct Hl as [|Hl]; [done|]. exfalso.
  destruct Hl as [Hr _ _ _ _]. rewrite (on_new_chain_spec _ _ _ Hr), Hd in Hnew.
  by rewrite bool_decide_eq_true_2 in Hnew.
Qed.

(** Messages of an end that took a DH step are now of its previous chain. *)
Lemma one_way_moved sec seen b X X' Y out :
  linked sec Y X → own_key X ∈ seen → own_key X' ∉ seen →
  previous_sending_length X' = sending_chain_length X →
  (∀ m, pq_from b X Y m → pq_from b X' Y m) →
  one_way sec seen b X Y out → one_way sec ({[own_key X']} ∪ seen) b X' Y out.
Proof.
  intros [Hr _ _ _ _] Hown Hfresh Hps Hc [Hf Hap]. split; [|done]. intros i m p Hi.
  destruct (Hf i m p Hi) as [Hd Hl Hn Hpq Hs].
  assert (∀ c, on_new_chain Y c = false ↔ c = own_key X) as Hch.
  { intros c. rewrite (on_new_chain_spec _ _ _ Hr), negb_false_iff, bool_decide_eq_true. naive_solver. }
  assert (em_dh_public_key m ≠ own_key X') as Hne by (intros Heq; apply Hfresh; by rewrite <- Heq).
  split; try done; [|by apply Hc|set_solver].
  destruct Hl as [[Hdh _]|[?|(? & _ & Hno)]]; [|by right; left|].
  - right. right. rewrite Hch, Hps. split_and!; [done|by apply Hn|done].
  - exfalso. by apply Hno, Hch.
Qed.

Lemma talk_moved t0 sec b seen X X' Y o o' i m p :
  talk t0 sec b seen X Y o o' → o' !! i = Some (m, p) →
  on_new_chain X (em_dh_public_key m) = true →
  ¬ has_kept X (em_dh_public_key m) (em_message_number m) → moved sec m X X' →
  own_key X' ∉ seen → wf_session X' → since_ok t0 X' → young t0 X' → address X' = address X →
  pq_pair b X' Y → pq_carries b X Y X' Y → pq_keeps_but m X X' →
  talk t0 sec b ({[own_key X']} ∪ seen) X' Y o (delete i o').
Proof.
  intros Htk Hi Hnew Hnk Hmv Hfresh Hwf Hso Hyo Had Hpq' [Hc1 Hc2] Hk.
  assert (seen ⊆ {[own_key X']} ∪ seen) as Hsub by set_solver.
  pose proof (talk_seen _ _ _ _ _ _ _ _ _ Hsub Htk) as [_ HY' _ _ _ _ HoX'].
  destruct Htk as [HX HY Hpe Hl Hpq HoY HoX].
  pose proof (ow_flight _ _ _ _ _ _ HoX _ _ _ Hi) as Hfl.
  destruct (new_chain_message sec seen (negb b) Y X m p) as (HlY & Hdh & Hpn); [naive_solver|done..|].
  pose proof HX as [_ _ _ _ (Ho & Hn & Hke)]. pose proof HY as [HwfY _ _ _ (HoY' & HnY & HkeY)].
  assert (∀ j, skipped_message_keys Y !! (own_key X', j) = None) as Hnone.
  { intros j. apply eq_None_not_Some. intros Hs. by apply Hfresh, (HkeY _ j). }
  split; try done.
  - split; try done; [split; [apply Hmv|by eapply pair_tidy]|].
    destruct Hmv as [_ _ Hr _ _ _ _ Hmn]. unfold met. split_and!; [set_solver| |].
    + intros c. rewrite (on_new_chain_spec _ _ _ Hr), negb_false_iff, bool_decide_eq_true, kem_public_ref_from.
      intros <-. apply Hsub, Hfl.
    + intros c j Hh. apply Hsub. destruct (Hmn c j Hh) as [?|[? | ->]]; [by eapply Hke|by apply Hn|apply Hfl].
  - by eapply peers_address.
  - left. eapply (linked_moved sec Y X X' m); try done.
    + by apply Hfl.
    + destruct HwfY as [[? ? ? ? ? Hkp ? ? ?] _]. exact Hkp.
    + intros Heq. apply Hfresh. by rewrite Heq.
    + apply HwfY.
  - eapply (one_way_moved sec seen b X X' Y); try done. apply Hmv.
  - apply (one_way_received sec _ (negb b) Y X X' o' i m p); try done.
    intros m' p' k Hf Hs Hkf'. eapply (moved_located sec Y X X' m m' k); try done; [|apply Hf].
    destruct Hf as [[_ [(_ & [] & _) _] _ _ _] _ _ _ _]. lia.
Qed.

Section receiving.
Variables (t0 : Z) (sec : option bytes).
Hypothesis recent : ∀ w, t0 ≤ (clock w).2 < t0 + max_skipped_message_age_seconds global.

(** Forgetting when the last ratchet step was, or the prekey header. *)
Lemma talk_forget b seen X X' Y o o' :
  talk t0 sec b seen X Y o o' → wf_session X' → since_ok t0 X' → young t0 X' →
  classical_part X' = classical_part X → pq_view X' = pq_view X →
  talk t0 sec b seen X' Y o o'.
Proof.
  intros Htk Hwf Hso Hyo Hc Hv. pose proof Htk as [_ _ _ Hl Hpq _ _].
  destruct (pq_view_pair b X Y X' Y Hv eq_refl Hpq) as [Hpq' Hca].
  pose proof (part_classical _ _ Hc) as Hcl. pose proof (part_address _ _ Hc) as Had.
  pose proof (λ c j, classical_key_for sec _ _ c j Hcl) as Hkf.
  unfold classical in Hcl. injection Hcl as E1 E2 E3 E4 E5 E6 E7 E8 E9 E10 E11.
  eapply (talk_sender t0 sec b seen X X' Y); try done; [lia| |by apply pq_keeps_view].
  destruct Hl as [Hl|Hl]; [left|right]; (eapply classical_linked; [..|done]; by apply part_classical).
Qed.

(** A message that is refused, wherever it comes from, changes nothing. *)
Lemma refuse_same X m w X' w' e :
  wf_session X → young t0 X →
  decrypt_with_identity_secret m sec (X, w) = ((X', w'), Err e) → same_but_ratchet_time X X'.
Proof.
  intros Hwf Hyo. unfold decrypt_with_identity_secret, decrypt_message.
  unfold mbind at 1, stm_bind at 1, mbind at 1, stm_bind at 1.
  destruct (periodic_cleanup_young t0 recent X w Hwf Hyo) as [w1 ->].
  pose proof (decrypt_clean_restores m sec X w1) as Hr. unfold wp in Hr.
  destruct (decrypt_clean m sec (X, w1)) as [[X2 w2] [x|e'|]]; [done| |done].
  by intros [= <- _ _].
Qed.

Lemma talk_refuse b seen X Y o o' m w X' w' e :
  talk t0 sec b seen X Y o o' →
  decrypt_with_identity_secret m sec (X, w) = ((X', w'), Err e) → talk t0 sec b seen X' Y o o'.
Proof.
  intros Htk Hd. pose proof Htk as [[Hwf _ Hso Hyo _] _ _ _ _ _ _].
  pose proof (refuse_same _ _ _ _ _ _ Hwf Hyo Hd) as Hr.
  assert (wf_session X') as Hwf2 by by eapply wf_same.
  eapply talk_forget; [done..| | | |]; rewrite Hr; done.
Qed.

(** A message under way is opened, or lies beyond a limit. *)
Lemma talk_receive b seen X Y o o' i m p w :
  talk t0 sec b seen X Y o o' → current_pq_epoch X < u32_max → o' !! i = Some (m, p) →
  wp False (decrypt_with_identity_secret m sec) (X, w)
    (λ x sw, x = p ∧
      (remote_dh_public sw.1 = remote_dh_public X → own_key sw.1 = own_key X) ∧
      ((remote_dh_public sw.1 ≠ remote_dh_public X → own_key sw.1 ∉ seen) →
       talk t0 sec b ({[own_key sw.1]} ∪ seen) sw.1 Y o (delete i o')))
    (λ e _, over_limit X m e).
Proof.
  intros Htk Hu Hi. pose proof Htk as [[Hwf Hti Hso Hyo Hme] _ _ Hl Hpq _ HoX].
  pose proof (ow_flight _ _ _ _ _ _ HoX _ _ _ Hi) as Hfl. pose proof (fl_deliverable _ _ _ _ _ _ _ Hfl) as Hd.
  unfold decrypt_with_identity_secret, decrypt_message. do 2 wp_step.
  destruct (periodic_cleanup_young t0 recent X w Hwf Hyo) as [w1 Hcl]. unfold wp at 1. rewrite Hcl.
  eapply wp_mono; [apply wp_conj; [by apply (decrypt_clean_delivers t0 recent sec m p)|apply wp_conj_true;
    [apply (wp_weaken_panic False); [done|apply decrypt_clean_spec; [apply Hd|done]]
    |by apply (stays_decrypt_clean t0 recent)]]| |by intros e sw [? _]].
  intros x [X1 w2] [(-> & Hrec & Hpr & Hso1 & Had) [Hwf1 Hy1]]. cbn [fst] in *. do 2 wp_step.
  split; [done|]. cbn [fst]. set (X' := X1 <| prekey_header := None |>).
  assert (0 ≤ em_message_number m) as Hn by (destruct Hd as [_ [(_ & [] & _) _] _ _ _]; lia).
  assert (talk t0 sec b ({[own_key X1]} ∪ seen) X1 Y o (delete i o') →
          talk t0 sec b ({[own_key X1]} ∪ seen) X' Y o (delete i o')) as Hhdr.
  { intros Ht. by eapply talk_forget. }
  change (remote_dh_public X') with (remote_dh_public X1). change (own_key X') with (own_key X1).
  destruct (received_pair (negb b) Y X X1 m) as (Hpq1 & Hca & Hk); try done;
    [by apply pq_pair_sym|apply Hfl|apply Hwf|apply Hwf1|].
  apply pq_pair_sym in Hpq1. apply pq_carries_sym in Hca. rewrite negb_involutive in Hpq1, Hca.
  destruct (received_cases sec m X X1) as [[_ Hst]|(Hnew & Hnk & Hmv)]; [apply Hti|done| |done|..].
  - intros Hnew Hnk. destruct (new_chain_message sec seen (negb b) Y X m p) as (HlY & -> & _); [naive_solver|done..|].
    apply HlY.
  - assert (own_key X1 = own_key X) as Ho.
    { destruct Hst as [Ha _ _ _ _]. unfold anchor in Ha. congruence. }
    split; [done|]. intros _. apply Hhdr. eapply talk_seen; [|by eapply talk_stayed]. set_solver.
  - assert (remote_dh_public X1 ≠ remote_dh_public X) as Hne.
    { intros Heq. rewrite (mv_remote _ _ _ _ Hmv) in Heq.
      rewrite (on_new_chain_spec _ _ _ (eq_sym Heq)), kem_public_ref_from in Hnew.
      by rewrite bool_decide_eq_true_2 in Hnew. }
    split; [done|]. intros Hfresh. apply Hhdr. eapply talk_moved; try done. by apply Hfresh.
Qed.

(** Reading changes neither the session's id nor its two names. *)
Lemma talk_receive_address b seen X Y o o' i m p w :
  talk t0 sec b seen X Y o o' → o' !! i = Some (m, p) →
  wp False (decrypt_with_identity_secret m sec) (X, w) (λ _ sw, address sw.1 = address X) (λ _ _, True).
Proof.
  intros Htk Hi. pose proof Htk as [[Hwf Hti Hso Hyo Hme] _ _ Hl Hpq _ HoX].
  pose proof (fl_deliverable _ _ _ _ _ _ _ (ow_flight _ _ _ _ _ _ HoX _ _ _ Hi)) as Hd.
  unfold decrypt_with_identity_secret, decrypt_message. do 2 wp_step.
  destruct (periodic_cleanup_young t0 recent X w Hwf Hyo) as [w1 Hcl]. unfold wp at 1. rewrite Hcl.
  eapply wp_mono; [by apply (decrypt_clean_delivers t0 recent sec m p)| |done].
  intros x [X1 w2] (_ & _ & _ & _ & Had). by do 2 wp_step.
Qed.
End receiving.
End network.
