(* ===== verification/RatchetStorage.v ===== *)
(** * Double ratchet: storage

    Models [src/src/crypto/messaging/double_ratchet/storage.rs]: the
    serializable session and its conversion from and to the live one, the
    validation of a stored post-quantum state, and the check that a record
    belongs to whom it is loaded for; the CFE form of a record is in
    [RatchetCfe.v]. The legacy v1 maps of [SerializableSession], which nothing
    reads or writes, are left out. *)

From stdpp Require Import sorting.
From S2P Require Import Prelude SuiteId Padding Platform RatchetTypes RatchetPq Ratchet.

(** ** The stored forms *)

Record SerializablePrekeyHeader := mkSPrekeyHeader {
  sh_one_time_prekey_id : Z;
  sh_kyber_prekey_id : Z;
  sh_kem_ciphertext : bytes;
  sh_kem_identity : bytes;
}.

Record SkippedKeyEntry := mkSkippedKeyEntry {
  sk_dh_public : bytes;
  sk_msg_number : Z;
  sk_key_bytes : bytes;
  sk_timestamp : Z;
}.

Record SerializablePqChain := mkSPqChain { sc_index : Z; sc_key : bytes }.

Record SerializablePqEpochChains := mkSPqEpochChains {
  se_epoch : Z;
  se_send : option SerializablePqChain;
  se_recv : SerializablePqChain;
}.

Record SerializablePqSkippedKey := mkSPqSkippedKey {
  sp_epoch : Z;
  sp_index : Z;
  sp_key : bytes;
  sp_at : Z;
}.

Record SerializablePqPendingExchange := mkSPqExchange {
  sx_epoch : Z;
  sx_public : bytes;
  sx_secret : bytes;
}.

Record SerializablePqPendingCiphertext := mkSPqCiphertext {
  sct_epoch : Z;
  sct_ek_hash : bytes;
  sct_ciphertext : bytes;
  sct_chains : SerializablePqEpochChains;
}.

Record SerializablePqRatchetState := mkSPqState {
  pqs_is_initiator : bool;
  pqs_current_epoch : Z;
  pqs_chains : list SerializablePqEpochChains;
  pqs_skipped : list SerializablePqSkippedKey;
  pqs_pending_exchange : option SerializablePqPendingExchange;
  pqs_pending_ciphertext : option SerializablePqPendingCiphertext;
  pqs_pending_since : Z;
  pqs_epoch_since : Z;
  pqs_turns_since_mix : Z;
}.

Record SerializableSession := mkSSession {
  ss_version : Z;
  ss_suite_id : Z;
  ss_root_key : bytes;
  ss_sending_chain_key : bytes;
  ss_sending_chain_length : Z;
  ss_receiving_chain_key : bytes;
  ss_receiving_chain_length : Z;
  ss_dh_ratchet_private : option bytes;
  ss_dh_ratchet_public : bytes;
  ss_remote_dh_public : option bytes;
  ss_previous_sending_length : Z;
  ss_skipped_keys : list SkippedKeyEntry;
  ss_prekey_header : option SerializablePrekeyHeader;
  ss_pq_handshake : option Z;
  ss_session_id : string;
  ss_contact_id : string;
  ss_local_user_id : string;
  ss_last_ratchet_at : Z;
  ss_peer_ad_version : Z;
  ss_pq_authentication : Z;
  ss_pq_applied : option bool;
  ss_identity_proof_awaiting : bool;
  ss_identity_proof_ciphertext : option bytes;
  ss_pq_ratchet : option SerializablePqRatchetState;
}.

(** [SerializablePqEpochChains::from(&PqEpochChains)] and back. *)
Definition to_schain (c : PqChain) : SerializablePqChain :=
  {| sc_index := chain_index c; sc_key := chain_key c |}.
Definition to_schains (c : PqEpochChains) : SerializablePqEpochChains :=
  {| se_epoch := pc_epoch c; se_send := to_schain <$> pc_send c; se_recv := to_schain (pc_recv c) |}.
Definition of_schain (c : SerializablePqChain) : PqChain :=
  {| chain_index := sc_index c; chain_key := sc_key c |}.
Definition of_schains (c : SerializablePqEpochChains) : PqEpochChains :=
  {| pc_epoch := se_epoch c; pc_send := of_schain <$> se_send c; pc_recv := of_schain (se_recv c) |}.

(** [sort_by_key(|s| (s.epoch, s.index))] *)
Definition pq_key_le (a b : SerializablePqSkippedKey) : Prop :=
  sp_epoch a < sp_epoch b ∨ sp_epoch a = sp_epoch b ∧ sp_index a ≤ sp_index b.
#[global] Instance pq_key_le_dec : RelDecision pq_key_le.
Proof. intros a b. unfold pq_key_le. apply _. Defined.

(** [iter().collect::<HashMap<_, _>>()]: a later entry replaces an earlier one
    with the same key. *)
Definition collect_map {K V} `{Countable K} (l : list (K * V)) : gmap K V :=
  foldl (λ m kv, <[kv.1 := kv.2]> m) ∅ l.

(** ** Validation of a stored PQ state *)

Definition PQ_CHAIN_KEY_LEN : Z := 32.

Inductive PqStateError :=
  | TooManyEpochs (n : Z)
  | EpochOutOfRange (epoch current : Z)
  | ChainKeySize (epoch n : Z)
  | SendChainBehind (epoch current : Z)
  | DuplicateEpoch (epoch : Z)
  | NoSendChain (current : Z)
  | TooManyPqSkipped (n : Z)
  | PqSkippedKeySize (epoch index n : Z)
  | ExchangeEpoch (epoch current : Z)
  | ExchangeKeySizes (pk sk : Z)
  | CiphertextEpoch (epoch current : Z)
  | EkHashSize (n : Z)
  | CiphertextSize (n : Z)
  | CiphertextChainsEpoch (epoch chains : Z)
  | ExchangeAndCiphertext.

Definition validate_pq_epoch_chains (chains : SerializablePqEpochChains) : res PqStateError unit :=
  let check (chain : SerializablePqChain) : res PqStateError unit :=
    guard_err (negb (len (sc_key chain) =? PQ_CHAIN_KEY_LEN))
      (ChainKeySize (se_epoch chains) (len (sc_key chain))) in
  _ ← check (se_recv chains);
  match se_send chains with Some send => check send | None => Ok tt end.

(** The loop over [pq.chains], with the epochs seen so far. *)
Fixpoint validate_chains (current : Z) (seen : gset Z) (l : list SerializablePqEpochChains)
    : res PqStateError unit :=
  match l with
  | [] => Ok tt
  | chains :: l =>
      let epoch := se_epoch chains in
      _ ← guard_err ((epoch =? 0) || (epoch >? current)) (EpochOutOfRange epoch current);
      _ ← validate_pq_epoch_chains chains;
      _ ← guard_err (bool_decide (is_Some (se_send chains)) && negb (epoch =? current))
            (SendChainBehind epoch current);
      _ ← guard_err (bool_decide (epoch ∈ seen)) (DuplicateEpoch epoch);
      validate_chains current ({[epoch]} ∪ seen) l
  end.

Definition validate_exchange (current : Z) (ex : SerializablePqPendingExchange)
    : res PqStateError unit :=
  _ ← guard_err (negb (sx_epoch ex =? sat_add32 current 1)) (ExchangeEpoch (sx_epoch ex) current);
  guard_err (negb (len (sx_public ex) =? MLKEM768_PK_SIZE) || negb (len (sx_secret ex) =? MLKEM768_SK_SIZE))
    (ExchangeKeySizes (len (sx_public ex)) (len (sx_secret ex))).

Definition validate_ciphertext (current : Z) (ct : SerializablePqPendingCiphertext)
    : res PqStateError unit :=
  _ ← guard_err (sct_epoch ct <=? current) (CiphertextEpoch (sct_epoch ct) current);
  _ ← guard_err (negb (len (sct_ek_hash ct) =? 8)) (EkHashSize (len (sct_ek_hash ct)));
  _ ← guard_err (negb (len (sct_ciphertext ct) =? MLKEM768_CT_SIZE))
        (CiphertextSize (len (sct_ciphertext ct)));
  _ ← guard_err (negb (se_epoch (sct_chains ct) =? sct_epoch ct))
        (CiphertextChainsEpoch (sct_epoch ct) (se_epoch (sct_chains ct)));
  validate_pq_epoch_chains (sct_chains ct).

Definition validate_pq_ratchet_state (pq : SerializablePqRatchetState) : res PqStateError unit :=
  let current := pqs_current_epoch pq in
  _ ← guard_err (len (pqs_chains pq) >? PQ_CHAIN_RETENTION) (TooManyEpochs (len (pqs_chains pq)));
  _ ← validate_chains current ∅ (pqs_chains pq);
  _ ← guard_err ((current >? 0) && negb (existsb
          (λ c, (se_epoch c =? current) && bool_decide (is_Some (se_send c))) (pqs_chains pq)))
        (NoSendChain current);
  _ ← guard_err (len (pqs_skipped pq) >? max_skipped_messages global)
        (TooManyPqSkipped (len (pqs_skipped pq)));
  _ ← match List.find (λ s, negb (len (sp_key s) =? PQ_CHAIN_KEY_LEN)) (pqs_skipped pq) with
      | Some bad => Err (PqSkippedKeySize (sp_epoch bad) (sp_index bad) (len (sp_key bad)))
      | None => Ok tt
      end;
  _ ← match pqs_pending_exchange pq with Some ex => validate_exchange current ex | None => Ok tt end;
  _ ← match pqs_pending_ciphertext pq with
      | Some ct => validate_ciphertext current ct | None => Ok tt end;
  guard_err (bool_decide (is_Some (pqs_pending_exchange pq))
             && bool_decide (is_Some (pqs_pending_ciphertext pq))) ExchangeAndCiphertext.

(** ** Identity of a record *)

Inductive IdentityMismatch :=
  | ContactMismatch (record expected : string)
  | LocalUserMismatch (record expected : string).

Definition verify_identity (ss : SerializableSession) (expected_contact_id expected_local : string)
    : res IdentityMismatch unit :=
  if negb (bool_decide (ss_contact_id ss = expected_contact_id))
  then Err (ContactMismatch (ss_contact_id ss) expected_contact_id) else
  if bool_decide (ss_local_user_id ss = EmptyString) || bool_decide (expected_local = EmptyString)
  then Ok tt else
  if negb (bool_decide (ss_local_user_id ss = expected_local))
  then Err (LocalUserMismatch (ss_local_user_id ss) expected_local) else Ok tt.

(** ** Live to stored and back *)

Inductive RestoreError :=
  | UnsupportedSessionVersion (v : Z)
  | InvalidStoredSuite (n : Z).

Section storage.
Context `{MlKemCrate} `{!HexCrate} `{!CryptoProvider}.

Definition skipped_entry (s : DoubleRatchetSession) (kv : (bytes * Z) * AeadKey) : SkippedKeyEntry :=
  {| sk_dh_public := kv.1.1; sk_msg_number := kv.1.2; sk_key_bytes := aead_ref kv.2;
     sk_timestamp := default 0 (skipped_key_timestamps s !! kv.1) |}.

Definition pq_skipped_entry (s : DoubleRatchetSession) (kv : (Z * Z) * bytes)
    : SerializablePqSkippedKey :=
  {| sp_epoch := kv.1.1; sp_index := kv.1.2; sp_key := kv.2;
     sp_at := default 0 (pq_skipped_key_timestamps s !! kv.1) |}.

Definition to_sheader (h : PrekeyHeader) : SerializablePrekeyHeader :=
  {| sh_one_time_prekey_id := ph_one_time_prekey_id h; sh_kyber_prekey_id := ph_kyber_prekey_id h;
     sh_kem_ciphertext := ph_kem_ciphertext h; sh_kem_identity := ph_kem_identity h |}.
Definition of_sheader (h : SerializablePrekeyHeader) : PrekeyHeader :=
  {| ph_one_time_prekey_id := sh_one_time_prekey_id h; ph_kyber_prekey_id := sh_kyber_prekey_id h;
     ph_kem_ciphertext := sh_kem_ciphertext h; ph_kem_identity := sh_kem_identity h |}.

Definition to_sexchange (ex : PendingPqExchange) : SerializablePqPendingExchange :=
  {| sx_epoch := ex_epoch ex; sx_public := kp_public (ex_keypair ex);
     sx_secret := kp_secret (ex_keypair ex) |}.
Definition of_sexchange (ex : SerializablePqPendingExchange) : PendingPqExchange :=
  {| ex_epoch := sx_epoch ex;
     ex_keypair := {| kp_public := sx_public ex; kp_secret := sx_secret ex |} |}.

Definition to_sciphertext (p : PendingPqCiphertext) : SerializablePqPendingCiphertext :=
  {| sct_epoch := ct_epoch p; sct_ek_hash := ct_ek_hash p; sct_ciphertext := ct_ciphertext p;
     sct_chains := to_schains (ct_chains p) |}.
Definition of_sciphertext (p : SerializablePqPendingCiphertext) : PendingPqCiphertext :=
  {| ct_epoch := sct_epoch p; ct_ek_hash := sct_ek_hash p; ct_ciphertext := sct_ciphertext p;
     ct_chains := of_schains (sct_chains p) |}.

Definition pq_to_serializable (s : DoubleRatchetSession) : SerializablePqRatchetState := {|
  pqs_is_initiator := is_pq_initiator s;
  pqs_current_epoch := current_pq_epoch s;
  pqs_chains := to_schains <$> pq_chains s;
  pqs_skipped := merge_sort pq_key_le (pq_skipped_entry s <$> map_to_list (pq_skipped_keys s));
  pqs_pending_exchange := to_sexchange <$> pending_pq_exchange s;
  pqs_pending_ciphertext := to_sciphertext <$> pending_pq_ciphertext s;
  pqs_pending_since := pq_pending_since s;
  pqs_epoch_since := pq_epoch_since s;
  pqs_turns_since_mix := pq_turns_since_mix s;
|}.

Definition to_serializable (s : DoubleRatchetSession) : SerializableSession := {|
  ss_version := 2;
  ss_suite_id := as_u16 (suite_id s);
  ss_root_key := aead_ref (root_key s);
  ss_sending_chain_key := aead_ref (sending_chain_key s);
  ss_sending_chain_length := sending_chain_length s;
  ss_receiving_chain_key := aead_ref (receiving_chain_key s);
  ss_receiving_chain_length := receiving_chain_length s;
  ss_dh_ratchet_private := kem_private_ref <$> dh_ratchet_private s;
  ss_dh_ratchet_public := kem_public_ref (dh_ratchet_public s);
  ss_remote_dh_public := kem_public_ref <$> remote_dh_public s;
  ss_previous_sending_length := previous_sending_length s;
  ss_skipped_keys := skipped_entry s <$> map_to_list (skipped_message_keys s);
  ss_prekey_header := to_sheader <$> prekey_header s;
  ss_pq_handshake := Some (ph_as_u8 (pq_handshake s));
  ss_session_id := session_id s;
  ss_contact_id := contact_id s;
  ss_local_user_id := local_user_id s;
  ss_last_ratchet_at := last_ratchet_at s;
  ss_peer_ad_version := peer_ad_version s;
  ss_pq_authentication := pa_as_u8 (pq_authentication s);
  ss_pq_applied := pq_applied s;
  ss_identity_proof_awaiting := bool_decide (identity_proof s = IpAwaitingAnswer);
  ss_identity_proof_ciphertext := identity_proof_ct s;
  ss_pq_ratchet :=
    if is_pq_ratchet (suite_id s) then Some (pq_to_serializable s) else None;
|}.

Definition restore_pq_ratchet_state (data : SerializableSession) (s : DoubleRatchetSession)
    : DoubleRatchetSession :=
  if negb (is_pq_ratchet (suite_id s)) then s else
  match ss_pq_ratchet data with
  | None => s
  | Some pq =>
      match validate_pq_ratchet_state pq with
      | Ok _ =>
          s <| is_pq_initiator := pqs_is_initiator pq |>
            <| current_pq_epoch := pqs_current_epoch pq |>
            <| pq_chains := of_schains <$> pqs_chains pq |>
            <| pq_skipped_keys :=
                 foldl (λ m x, <[(sp_epoch x, sp_index x) := sp_key x]> m)
                   (pq_skipped_keys s) (pqs_skipped pq) |>
            <| pq_skipped_key_timestamps :=
                 foldl (λ m x, <[(sp_epoch x, sp_index x) := sp_at x]> m)
                   (pq_skipped_key_timestamps s) (pqs_skipped pq) |>
            <| pending_pq_exchange := of_sexchange <$> pqs_pending_exchange pq |>
            <| pending_pq_ciphertext := of_sciphertext <$> pqs_pending_ciphertext pq |>
            <| pq_pending_since := pqs_pending_since pq |>
            <| pq_epoch_since := pqs_epoch_since pq |>
            <| pq_turns_since_mix := pqs_turns_since_mix pq |>
      | _ => s
      end
  end.

Definition restored_proof (ct : option bytes) (awaiting : bool) : IdentityProof :=
  match ct, awaiting with
  | Some ciphertext, _ => IpAnswered ciphertext
  | None, true => IpAwaitingAnswer
  | None, false => IpNone
  end.

(** The session [from_serializable] builds before the PQ state and the
    clean-up. *)
Definition restored_base (data : SerializableSession) (suite_id : SuiteID)
    : DoubleRatchetSession := {|
  suite_id := suite_id;
  root_key := aead_key_from_bytes (ss_root_key data);
  sending_chain_key := aead_key_from_bytes (ss_sending_chain_key data);
  sending_chain_length := ss_sending_chain_length data;
  receiving_chain_key := aead_key_from_bytes (ss_receiving_chain_key data);
  receiving_chain_length := ss_receiving_chain_length data;
  dh_ratchet_private := kem_private_key_from_bytes <$> ss_dh_ratchet_private data;
  dh_ratchet_public := kem_public_key_from_bytes (ss_dh_ratchet_public data);
  remote_dh_public := kem_public_key_from_bytes <$> ss_remote_dh_public data;
  previous_sending_length := ss_previous_sending_length data;
  skipped_message_keys := collect_map ((λ e,
    ((sk_dh_public e, sk_msg_number e), aead_key_from_bytes (sk_key_bytes e)))
    <$> ss_skipped_keys data);
  skipped_key_timestamps := collect_map ((λ e,
    ((sk_dh_public e, sk_msg_number e), sk_timestamp e)) <$> ss_skipped_keys data);
  prekey_header := of_sheader <$> ss_prekey_header data;
  pq_handshake := match ss_pq_handshake data with
                  | Some h => ph_from_u8 h
                  | None => ph_legacy (ss_pq_applied data)
                  end;
  pq_turns_since_mix := 0;
  is_pq_initiator := false;
  current_pq_epoch := 0;
  pq_chains := [];
  pq_skipped_keys := ∅;
  pq_skipped_key_timestamps := ∅;
  pending_pq_exchange := None;
  pending_pq_ciphertext := None;
  pq_pending_since := 0;
  pq_epoch_since := 0;
  session_id := ss_session_id data;
  contact_id := ss_contact_id data;
  local_user_id := ss_local_user_id data;
  last_ratchet_at := ss_last_ratchet_at data;
  peer_ad_version := Z.max (ss_peer_ad_version data) AD_VERSION_LEGACY;
  pq_authentication := pa_from_u8 (ss_pq_authentication data);
  pq_applied := ss_pq_applied data;
  identity_proof :=
    restored_proof (ss_identity_proof_ciphertext data) (ss_identity_proof_awaiting data);
|}.

Definition from_serializable (data : SerializableSession)
    : stm World RestoreError DoubleRatchetSession :=
  if negb (ss_version data =? 1) && negb (ss_version data =? 2)
  then throw (UnsupportedSessionVersion (ss_version data)) else
  suite_id ← lift (map_err (λ e, InvalidStoredSuite (invalid_suite_id e))
    (suite_new (ss_suite_id data)));
  let session := restore_pq_ratchet_state data (restored_base data suite_id) in
  t ← read_clock;
  mret (cleanup_at t (max_skipped_message_age_seconds global) session).
End storage.
