(* ===== verification/RatchetStorageProps.v ===== *)
(** * Double ratchet: storage loses nothing

    The stored form of a well-formed session passes the validation of
    [storage.rs], and restoring it gives the session back. *)

From stdpp Require Import sorting.
From S2P Require Import Prelude SuiteId Padding Platform Wp RatchetTypes RatchetPq Ratchet.
From S2P Require Import RatchetRollback RatchetPqInv RatchetInv RatchetStorage.

(** ** Maps through lists *)

Lemma collect_map_rev {K V} `{Countable K} (l : list (K * V)) :
  collect_map l = list_to_map (reverse l).
Proof.
  unfold collect_map. induction l as [|x l IH] using rev_ind; [done|].
  rewrite foldl_app, reverse_snoc. simpl. by rewrite IH.
Qed.

Lemma collect_map_lookup {K V} `{Countable K} (l : list (K * V)) k v :
  NoDup l.*1 → collect_map l !! k = Some v ↔ (k, v) ∈ l.
Proof.
  intros Hl. rewrite collect_map_rev, <- elem_of_list_to_map, elem_of_reverse; [done|].
  by rewrite fmap_reverse, reverse_Permutation.
Qed.

Lemma Permutation_map_ext {A B} (f g : A → B) l :
  (∀ x, f x = g x) → (f <$> l) ≡ₚ (g <$> l).
Proof. intros Hfg. erewrite list_fmap_ext; [reflexivity|]. by intros. Qed.

(** Reading back the entries a map was written as, in whatever order. *)
Lemma collect_map_entries {K V W} `{Countable K} (m : gmap K V) (m' : gmap K W) (f : K * V → W) l :
  l ≡ₚ ((λ kv, (kv.1, f kv)) <$> map_to_list m) →
  (∀ k w, m' !! k = Some w ↔ ∃ v, m !! k = Some v ∧ w = f (k, v)) →
  collect_map l = m'.
Proof.
  intros Hl Hm. apply map_eq. intros k. apply option_eq. intros w.
  rewrite collect_map_lookup, Hm, Hl, list_elem_of_fmap.
  - split.
    + intros ([k' v] & [= -> ->] & Hin%elem_of_map_to_list). by exists v.
    + intros (v & Hv & ->). exists (k, v). split; [done|]. by apply elem_of_map_to_list.
  - rewrite Hl, <- list_fmap_compose. simpl. apply NoDup_fst_map_to_list.
Qed.

Lemma entries_values {E K V} `{Countable K} (m : gmap K V) (en : K * V → E) (g : E → K)
    (h : E → V) l :
  l ≡ₚ (en <$> map_to_list m) → (∀ kv, g (en kv) = kv.1) → (∀ kv, h (en kv) = kv.2) →
  collect_map ((λ e, (g e, h e)) <$> l) = m.
Proof.
  intros Hl Hg Hh. apply (collect_map_entries m _ (λ kv, kv.2)).
  - rewrite Hl, <- list_fmap_compose. apply Permutation_map_ext. intros kv. simpl. by rewrite Hg, Hh.
  - naive_solver.
Qed.

(** The time stamps, kept beside the keys under the same domain. *)
Lemma entries_times {E K V} `{Countable K} (m : gmap K V) (t : gmap K Z) (en : K * V → E)
    (g : E → K) (h : E → Z) l :
  l ≡ₚ (en <$> map_to_list m) → (∀ kv, g (en kv) = kv.1) →
  (∀ kv, h (en kv) = default 0 (t !! kv.1)) → dom m = dom t →
  collect_map ((λ e, (g e, h e)) <$> l) = t.
Proof.
  intros Hl Hg Hh Hd. apply (collect_map_entries m _ (λ kv, default 0 (t !! kv.1))).
  - rewrite Hl, <- list_fmap_compose. apply Permutation_map_ext. intros kv. simpl. by rewrite Hg, Hh.
  - intros k w. assert (is_Some (m !! k) ↔ is_Some (t !! k)) as Hk
      by by rewrite <- !elem_of_dom, Hd.
    simpl. split.
    + intros Hw. destruct Hk as [_ [v Hv]]; [by rewrite Hw|]. exists v. by rewrite Hw.
    + intros (v & Hv & ->). destruct Hk as [[w Hw] _]; [by rewrite Hv|]. by rewrite Hw.
Qed.

Lemma foldl_collect {A K V} `{Countable K} (g : A → K) (h : A → V) (l : list A) (m : gmap K V) :
  foldl (λ m x, <[g x := h x]> m) m l
  = foldl (λ m kv, <[kv.1 := kv.2]> m) m ((λ x, (g x, h x)) <$> l).
Proof. revert m. induction l as [|x l IH]; intros m; simpl; [done|]. apply IH. Qed.

(** ** Validation *)

Lemma existsb_true {A} (f : A → bool) l x : x ∈ l → f x = true → existsb f l = true.
Proof. intros. apply existsb_exists. exists x. by rewrite <- list_elem_of_In. Qed.

Lemma guard_pass {E A} c (e : E) (f : unit → res E A) :
  c = false → (guard_err c e ≫= f) = f tt.
Proof. by intros ->. Qed.

Lemma validate_epoch_chains_ok c :
  chain_ok (pc_recv c) → (∀ ch, pc_send c = Some ch → chain_ok ch) →
  validate_pq_epoch_chains (to_schains c) = Ok tt.
Proof.
  intros [_ Hr] Hs. unfold validate_pq_epoch_chains, PQ_CHAIN_KEY_LEN. simpl. rewrite Hr. simpl.
  destruct (pc_send c) as [ch|]; [|done]. simpl. destruct (Hs ch eq_refl) as [_ ->]. done.
Qed.

Lemma validate_chains_ok cur seen l :
  StronglySorted epoch_lt l → Forall (epoch_ok cur) l →
  (∀ e, e ∈ seen → Forall (λ c, e < pc_epoch c) l) →
  validate_chains cur seen (to_schains <$> l) = Ok tt.
Proof.
  intros Hs. revert seen. induction Hs as [|c l Hs IH Hlt]; intros seen Hf Hseen; [done|].
  apply Forall_cons_iff in Hf as [(Hp & Hr & Hsend) Hf].
  cbn [fmap list_fmap validate_chains]. change (se_epoch (to_schains c)) with (pc_epoch c).
  rewrite validate_epoch_chains_ok; [|done|intros ch Hch; by apply (Hsend ch)].
  unfold guard_err. destruct (_ || _) eqn:Hb; [lia|]. cbn [mbind res_bind].
  destruct (_ && _) eqn:Hb2.
  { apply andb_true_iff in Hb2 as [Hc Hb2]. apply bool_decide_eq_true in Hc as [sc Hc].
    simpl in Hc. destruct (pc_send c) as [ch|]; [|done]. destruct (Hsend ch eq_refl). lia. }
  cbn [mbind res_bind]. rewrite bool_decide_eq_false_2.
  - cbn [mbind res_bind]. apply IH; [done|]. intros e [->%elem_of_singleton|He]%elem_of_union; [done|].
    specialize (Hseen e He). by apply Forall_cons_iff in Hseen as [_ ?].
  - intros Hin. specialize (Hseen _ Hin). apply Forall_cons_iff in Hseen as [? _]. lia.
Qed.

Lemma validate_exchange_ok cur x :
  exchange_ok cur x → validate_exchange cur (to_sexchange x) = Ok tt.
Proof.
  intros (He & Hp & Hs). unfold validate_exchange.
  cbn [sx_epoch sx_public sx_secret to_sexchange]. by rewrite He, Hp, Hs, !Z.eqb_refl.
Qed.

Lemma validate_ciphertext_ok cur p :
  ciphertext_ok cur p → validate_ciphertext cur (to_sciphertext p) = Ok tt.
Proof.
  intros (He & Hh & Hc & Hce & Hr & ch & Hsend & Hch). unfold validate_ciphertext.
  cbn [sct_epoch sct_ek_hash sct_ciphertext sct_chains to_sciphertext to_schains se_epoch].
  rewrite Hh, Hc, Hce, !Z.eqb_refl, guard_pass by lia. cbn [negb guard_err mbind res_bind].
  apply validate_epoch_chains_ok; [done|]. intros ch'. rewrite Hsend. by intros [= <-].
Qed.

Section props.
Context `{MlKemCrate} `{!HexCrate} `{!CryptoProvider}.
Context `{!MlKemLaws} `{!HexLaws} `{!ProviderLaws}.

Lemma pq_skipped_len s :
  len (pqs_skipped (pq_to_serializable s)) = Z.of_nat (size (pq_skipped_keys s)).
Proof.
  unfold len. simpl. rewrite merge_sort_Permutation, length_fmap.
  by rewrite length_map_to_list.
Qed.

Lemma pq_skipped_find s :
  map_Forall (λ _ k, len (id k) = 32) (pq_skipped_keys s) →
  List.find (λ s, negb (len (sp_key s) =? PQ_CHAIN_KEY_LEN)) (pqs_skipped (pq_to_serializable s)) = None.
Proof.
  intros Hf. destruct (List.find _ _) as [bad|] eqn:Hb; [|done]. exfalso.
  apply find_some in Hb as [Hin Hb]. apply list_elem_of_In in Hin. simpl in Hin.
  rewrite merge_sort_Permutation in Hin. apply list_elem_of_fmap in Hin as ([k v] & -> & Hin).
  apply elem_of_map_to_list in Hin. specialize (Hf _ _ Hin). unfold id, PQ_CHAIN_KEY_LEN in *.
  simpl in Hb. lia.
Qed.

Lemma sends_existsb s :
  sends (current_pq_epoch s) (pq_chains s) →
  (current_pq_epoch s >? 0) && negb (existsb (λ c, (se_epoch c =? current_pq_epoch s)
     && bool_decide (is_Some (se_send c))) (to_schains <$> pq_chains s)) = false.
Proof.
  intros Hs. destruct (current_pq_epoch s >? 0) eqn:Hc; [|done]. simpl.
  destruct Hs as (c & Hf & Hsend); [lia|]. apply find_epoch_Some in Hf as [Hin He].
  rewrite (existsb_true _ _ (to_schains c)); [done|by apply list_elem_of_fmap_2|].
  simpl. rewrite He, Z.eqb_refl. apply bool_decide_eq_true_2. by apply fmap_is_Some.
Qed.

Lemma validate_pq_inv s :
  pq_inv s → validate_pq_ratchet_state (pq_to_serializable s) = Ok tt.
Proof.
  intros [Hu (Hlen & Hs & Hf) Hsends (_ & Hsz & Hkeys) Hex Hct].
  unfold validate_pq_ratchet_state. rewrite pq_skipped_len, pq_skipped_find by done.
  cbn [pqs_current_epoch pqs_chains pqs_pending_exchange pqs_pending_ciphertext pq_to_serializable].
  rewrite guard_pass by (unfold len in *; rewrite length_fmap; lia).
  rewrite validate_chains_ok; [|done..|set_solver]. cbn [mbind res_bind].
  rewrite guard_pass by by apply sends_existsb. rewrite guard_pass by lia. cbn [mbind res_bind].
  destruct (pending_pq_exchange s) as [x|].
  - destruct (Hex x eq_refl) as [Hx Hi]. simpl. rewrite validate_exchange_ok by done. simpl.
    destruct (pending_pq_ciphertext s) as [p|]; [|done]. destruct (Hct p eq_refl). congruence.
  - simpl. destruct (pending_pq_ciphertext s) as [p|]; [|done]. simpl.
    rewrite validate_ciphertext_ok; [done|]. apply (Hct p eq_refl).
Qed.

(** ** The round trip *)

Lemma proof_roundtrip s :
  restored_proof (identity_proof_ct s) (bool_decide (identity_proof s = IpAwaitingAnswer))
  = identity_proof s.
Proof. unfold identity_proof_ct. by destruct (identity_proof s). Qed.

Lemma schains_roundtrip c : of_schains (to_schains c) = c.
Proof. by destruct c as [e [[]|] []]. Qed.
Lemma fmap_roundtrip {A B} (f : A → B) (g : B → A) (o : option A) :
  (∀ a, g (f a) = a) → g <$> (f <$> o) = o.
Proof. intros Hgf. destruct o; simpl; by rewrite ?Hgf. Qed.
Lemma sexchange_roundtrip x : of_sexchange (to_sexchange x) = x.
Proof. by destruct x as [? []]. Qed.
Lemma sciphertext_roundtrip p : of_sciphertext (to_sciphertext p) = p.
Proof. destruct p. unfold of_sciphertext, to_sciphertext. simpl. by rewrite schains_roundtrip. Qed.

(** Restoring the stored form of [s] gives [s] back: whole for the PQ ratchet
    suite, and for the others with the epoch clock reset, which only the PQ
    ratchet reads. *)
Definition stored (s : DoubleRatchetSession) : DoubleRatchetSession :=
  if is_pq_ratchet (suite_id s) then s
  else s <| pq_epoch_since := 0 |>.

Lemma restored_base_roundtrip s :
  base_inv s →
  restored_base (to_serializable s) (suite_id s)
  = s <| pq_turns_since_mix := 0 |> <| is_pq_initiator := false |> <| current_pq_epoch := 0 |>
      <| pq_chains := [] |> <| pq_skipped_keys := ∅ |> <| pq_skipped_key_timestamps := ∅ |>
      <| pending_pq_exchange := None |> <| pending_pq_ciphertext := None |>
      <| pq_pending_since := 0 |> <| pq_epoch_since := 0 |>.
Proof.
  intros [_ _ _ _ (Hd & _ & _) _ _ _ Hv]. unfold restored_base, to_serializable.
  cbn -[collect_map Z.max restored_proof identity_proof_ct fmap option_fmap].
  rewrite !aead_from_ref, kem_public_from_ref, ph_roundtrip, pa_roundtrip, proof_roundtrip.
  rewrite (entries_values (skipped_message_keys s) (skipped_entry s)),
    (entries_times (skipped_message_keys s) (skipped_key_timestamps s) (skipped_entry s));
    try done; [|by intros [[] ?]|by intros [[] ?]|intros []; apply aead_from_ref].
  rewrite !fmap_roundtrip by (by intros []) || auto using kem_public_from_ref, kem_private_from_ref.
  rewrite Z.max_l by (destruct Hv as [-> | ->]; unfold AD_VERSION_LEGACY, AD_VERSION_HEADER; lia).
  by destruct s.
Qed.

Lemma pq_skipped_roundtrip s :
  pq_inv s →
  foldl (λ m x, <[(sp_epoch x, sp_index x) := sp_key x]> m) ∅ (pqs_skipped (pq_to_serializable s))
    = pq_skipped_keys s ∧
  foldl (λ m x, <[(sp_epoch x, sp_index x) := sp_at x]> m) ∅ (pqs_skipped (pq_to_serializable s))
    = pq_skipped_key_timestamps s.
Proof.
  intros [_ _ _ (Hd & _ & _) _ _]. split; rewrite foldl_collect.
  - apply (entries_values _ (pq_skipped_entry s)); [apply merge_sort_Permutation|by intros [[] ?]..].
  - apply (entries_times (pq_skipped_keys s) _ (pq_skipped_entry s));
      [apply merge_sort_Permutation|by intros [[] ?]..|done].
Qed.

Lemma restore_stored s :
  wf_session s →
  restore_pq_ratchet_state (to_serializable s) (restored_base (to_serializable s) (suite_id s))
  = stored s.
Proof.
  intros (Hb & Hp & Hi). rewrite restored_base_roundtrip by done.
  unfold restore_pq_ratchet_state, stored. simpl.
  destruct (is_pq_ratchet (suite_id s)) eqn:Hs; cbn [negb].
  - rewrite validate_pq_inv by done. destruct (pq_skipped_roundtrip s Hp) as [Hk Ht].
    cbn [pqs_skipped pq_to_serializable] in Hk, Ht.
    cbn -[foldl fmap option_fmap list_fmap merge_sort]. rewrite Hk, Ht.
    rewrite <- list_fmap_compose, (list_fmap_ext _ id), list_fmap_id by (intros; apply schains_roundtrip).
    rewrite !fmap_roundtrip by auto using sciphertext_roundtrip, sexchange_roundtrip.
    by destruct s.
  - specialize (Hi Hs). destruct s. unfold pq_state in Hi. simpl in *. by simplify_eq.
Qed.

(** The stored form of a well-formed session passes the checks and gives it back. *)
Lemma restore_roundtrip s w :
  wf_session s →
  from_serializable (to_serializable s) w
  = let (w', t) := clock w in
    (w', Ok (cleanup_at t (max_skipped_message_age_seconds global) (stored s))).
Proof.
  intros Hs. unfold from_serializable. cbn [ss_version ss_suite_id to_serializable].
  rewrite suite_new_roundtrip by apply Hs.
  cbn -[cleanup_at restore_pq_ratchet_state restored_base to_serializable].
  unfold mbind, stm_bind, lift, read_clock. rewrite restore_stored by done.
  by destruct (clock w).
Qed.
End props.
