(* ===== verification/RatchetCfe.v ===== *)
(** * Double ratchet: the CFE record of a session

    Models the CFE session record of [src/src/cfe/types.rs] and the conversion
    of a [SerializableSession] to and from it
    ([src/src/crypto/messaging/double_ratchet/storage.rs]), and proves that a
    session survives the whole way to the record and back. [SecretBytes] and
    [ByteBuf] are byte strings. *)

From S2P Require Import Prelude SuiteId Padding Platform RatchetTypes RatchetPq Ratchet.
From S2P Require Import RatchetInv RatchetStorage RatchetStorageProps.

(** ** The record *)

Record CfeSkippedKeyEntryV1 := mkCfeSkipped {
  cs_dh_pub : bytes;
  cs_msg_number : Z;
  cs_key_bytes : bytes;
  cs_timestamp : Z;
}.

Record CfePrekeyHeaderV1 := mkCfePrekeyHeader {
  ch_one_time_prekey_id : Z;
  ch_kyber_prekey_id : Z;
  ch_kem_ciphertext : bytes;
  ch_kem_identity : bytes;
}.

Record CfeRetiredMarkV1 := mkCfeRetiredMark { rm_retired_at : Z; rm_held_back : bool }.

Record CfePqChainV2 := mkCfePqChain { cc_index : Z; cc_key : bytes }.

Record CfePqEpochChainsV2 := mkCfePqEpochChains {
  ce_epoch : Z;
  ce_send : option CfePqChainV2;
  ce_recv : CfePqChainV2;
}.

Record CfePqSkippedKeyV2 := mkCfePqSkipped {
  ck_epoch : Z;
  ck_index : Z;
  ck_key : bytes;
  ck_at : Z;
}.

Record CfePqPendingExchangeV1 := mkCfePqExchange {
  cx_epoch : Z;
  cx_public : bytes;
  cx_secret : bytes;
}.

Record CfePqPendingCiphertextV2 := mkCfePqCiphertext {
  cp_epoch : Z;
  cp_ek_hash : bytes;
  cp_ciphertext : bytes;
  cp_chains : CfePqEpochChainsV2;
}.

Record CfePqRatchetStateV2 := mkCfePqState {
  cq_is_initiator : bool;
  cq_current_epoch : Z;
  cq_chains : list CfePqEpochChainsV2;
  cq_skipped : list CfePqSkippedKeyV2;
  cq_pending_exchange : option CfePqPendingExchangeV1;
  cq_pending_ciphertext : option CfePqPendingCiphertextV2;
  cq_pending_since : Z;
  cq_turns_since_mix : Z;
  cq_epoch_since : Z;
}.

(** [CfeSessionStateV1]; [previous] holds [CfePreviousStateV1], a state with
    the time it was replaced and whether it is held back. *)
Inductive CfeSessionStateV1 := mkCfeSession {
  cf_ver : Z;
  cf_suite_id : Z;
  cf_contact_id : string;
  cf_local_uid : string;
  cf_session_id : bytes;
  cf_rk : bytes;
  cf_sck : bytes;
  cf_rck : bytes;
  cf_scl : Z;
  cf_rcl : Z;
  cf_psl : Z;
  cf_dh_priv : option bytes;
  cf_dh_pub : bytes;
  cf_rdh_pub : option bytes;
  cf_skipped : list CfeSkippedKeyEntryV1;
  cf_prekey_header : option CfePrekeyHeaderV1;
  cf_pq_handshake : option Z;
  cf_last_ratchet_at : Z;
  cf_peer_ad_version : Z;
  cf_pq_authentication : Z;
  cf_pq_applied : option bool;
  cf_identity_proof_awaiting : bool;
  cf_identity_proof_ciphertext : option bytes;
  cf_pqr : option CfePqRatchetStateV2;
  cf_previous : list CfePreviousStateV1;
  cf_retired : option CfeRetiredMarkV1;
}
with CfePreviousStateV1 := mkCfePrevious {
  pv_retired_at : Z;
  pv_state : CfeSessionStateV1;
  pv_held_back : bool;
}.

Inductive CfeRecordError :=
  | SuiteOutOfRange (n : Z)
  | SessionIdNotHex
  | SessionIdLength (n : Z)
  | RecordVersion (n : Z).

(** ** Conversions *)

Definition cfe_chain (ch : SerializablePqChain) : CfePqChainV2 :=
  {| cc_index := sc_index ch; cc_key := sc_key ch |}.
Definition cfe_epoch_chains (c : SerializablePqEpochChains) : CfePqEpochChainsV2 :=
  {| ce_epoch := se_epoch c; ce_send := cfe_chain <$> se_send c; ce_recv := cfe_chain (se_recv c) |}.
Definition serializable_chain (ch : CfePqChainV2) : SerializablePqChain :=
  {| sc_index := cc_index ch; sc_key := cc_key ch |}.
Definition serializable_epoch_chains (c : CfePqEpochChainsV2) : SerializablePqEpochChains :=
  {| se_epoch := ce_epoch c; se_send := serializable_chain <$> ce_send c;
     se_recv := serializable_chain (ce_recv c) |}.

Definition cfe_pq_state (pq : SerializablePqRatchetState) : CfePqRatchetStateV2 := {|
  cq_is_initiator := pqs_is_initiator pq;
  cq_current_epoch := pqs_current_epoch pq;
  cq_chains := cfe_epoch_chains <$> pqs_chains pq;
  cq_skipped := (λ s, {| ck_epoch := sp_epoch s; ck_index := sp_index s; ck_key := sp_key s;
                         ck_at := sp_at s |}) <$> pqs_skipped pq;
  cq_pending_exchange := (λ ex, {| cx_epoch := sx_epoch ex; cx_public := sx_public ex;
                                   cx_secret := sx_secret ex |}) <$> pqs_pending_exchange pq;
  cq_pending_ciphertext :=
    (λ p, {| cp_epoch := sct_epoch p; cp_ek_hash := sct_ek_hash p;
             cp_ciphertext := sct_ciphertext p; cp_chains := cfe_epoch_chains (sct_chains p) |})
    <$> pqs_pending_ciphertext pq;
  cq_pending_since := pqs_pending_since pq;
  cq_turns_since_mix := pqs_turns_since_mix pq;
  cq_epoch_since := pqs_epoch_since pq;
|}.

Definition serializable_pq_state (pq : CfePqRatchetStateV2) : SerializablePqRatchetState := {|
  pqs_is_initiator := cq_is_initiator pq;
  pqs_current_epoch := cq_current_epoch pq;
  pqs_chains := serializable_epoch_chains <$> cq_chains pq;
  pqs_skipped := (λ s, {| sp_epoch := ck_epoch s; sp_index := ck_index s; sp_key := ck_key s;
                          sp_at := ck_at s |}) <$> cq_skipped pq;
  pqs_pending_exchange := (λ ex, {| sx_epoch := cx_epoch ex; sx_public := cx_public ex;
                                    sx_secret := cx_secret ex |}) <$> cq_pending_exchange pq;
  pqs_pending_ciphertext :=
    (λ p, {| sct_epoch := cp_epoch p; sct_ek_hash := cp_ek_hash p;
             sct_ciphertext := cp_ciphertext p;
             sct_chains := serializable_epoch_chains (cp_chains p) |})
    <$> cq_pending_ciphertext pq;
  pqs_pending_since := cq_pending_since pq;
  pqs_epoch_since := cq_epoch_since pq;
  pqs_turns_since_mix := cq_turns_since_mix pq;
|}.

Section cfe.
Context `{!HexCrate}.

(** [SerializableSession::to_cfe_v1] *)
Definition to_cfe_v1 (s : SerializableSession) : res CfeRecordError CfeSessionStateV1 :=
  suite_id ← (if ss_suite_id s <=? u8_max then Ok (ss_suite_id s)
              else Err (SuiteOutOfRange (ss_suite_id s)));
  session_id_raw ← ok_or (hex_decode (ss_session_id s)) SessionIdNotHex;
  _ ← guard_err (negb (len session_id_raw =? 16)) (SessionIdLength (len session_id_raw));
  Ok {|
    cf_ver := 1;
    cf_suite_id := suite_id;
    cf_contact_id := ss_contact_id s;
    cf_local_uid := ss_local_user_id s;
    cf_session_id := session_id_raw;
    cf_rk := ss_root_key s;
    cf_sck := ss_sending_chain_key s;
    cf_rck := ss_receiving_chain_key s;
    cf_scl := ss_sending_chain_length s;
    cf_rcl := ss_receiving_chain_length s;
    cf_psl := ss_previous_sending_length s;
    cf_dh_priv := ss_dh_ratchet_private s;
    cf_dh_pub := ss_dh_ratchet_public s;
    cf_rdh_pub := ss_remote_dh_public s;
    cf_skipped := (λ e, {| cs_dh_pub := sk_dh_public e; cs_msg_number := sk_msg_number e;
                           cs_key_bytes := sk_key_bytes e; cs_timestamp := sk_timestamp e |})
                  <$> ss_skipped_keys s;
    cf_prekey_header :=
      (λ h, {| ch_one_time_prekey_id := sh_one_time_prekey_id h;
               ch_kyber_prekey_id := sh_kyber_prekey_id h;
               ch_kem_ciphertext := sh_kem_ciphertext h;
               ch_kem_identity := sh_kem_identity h |}) <$> ss_prekey_header s;
    cf_pq_handshake := ss_pq_handshake s;
    cf_last_ratchet_at := ss_last_ratchet_at s;
    cf_peer_ad_version := ss_peer_ad_version s;
    cf_pq_authentication := ss_pq_authentication s;
    cf_pq_applied := ss_pq_applied s;
    cf_identity_proof_awaiting := ss_identity_proof_awaiting s;
    cf_identity_proof_ciphertext := ss_identity_proof_ciphertext s;
    cf_pqr := cfe_pq_state <$> ss_pq_ratchet s;
    cf_previous := [];
    cf_retired := None;
  |}.

(** [SerializableSession::from_cfe_v1] *)
Definition from_cfe_v1 (data : CfeSessionStateV1) : res CfeRecordError SerializableSession :=
  if negb (cf_ver data =? 1) then Err (RecordVersion (cf_ver data)) else
  Ok {|
    ss_version := 2;
    ss_suite_id := cf_suite_id data;
    ss_root_key := cf_rk data;
    ss_sending_chain_key := cf_sck data;
    ss_sending_chain_length := cf_scl data;
    ss_receiving_chain_key := cf_rck data;
    ss_receiving_chain_length := cf_rcl data;
    ss_dh_ratchet_private := cf_dh_priv data;
    ss_dh_ratchet_public := cf_dh_pub data;
    ss_remote_dh_public := cf_rdh_pub data;
    ss_previous_sending_length := cf_psl data;
    ss_skipped_keys := (λ e, {| sk_dh_public := cs_dh_pub e; sk_msg_number := cs_msg_number e;
                                sk_key_bytes := cs_key_bytes e; sk_timestamp := cs_timestamp e |})
                       <$> cf_skipped data;
    ss_prekey_header :=
      (λ h, {| sh_one_time_prekey_id := ch_one_time_prekey_id h;
               sh_kyber_prekey_id := ch_kyber_prekey_id h;
               sh_kem_ciphertext := ch_kem_ciphertext h;
               sh_kem_identity := ch_kem_identity h |}) <$> cf_prekey_header data;
    ss_pq_handshake := cf_pq_handshake data;
    ss_session_id := hex_encode (cf_session_id data);
    ss_contact_id := cf_contact_id data;
    ss_local_user_id := cf_local_uid data;
    ss_last_ratchet_at := cf_last_ratchet_at data;
    ss_peer_ad_version := cf_peer_ad_version data;
    ss_pq_authentication := cf_pq_authentication data;
    ss_pq_applied := cf_pq_applied data;
    ss_identity_proof_awaiting := cf_identity_proof_awaiting data;
    ss_identity_proof_ciphertext := cf_identity_proof_ciphertext data;
    ss_pq_ratchet := serializable_pq_state <$> cf_pqr data;
  |}.
End cfe.

(** ** The round trip *)

Lemma list_roundtrip {A B} (f : A → B) (g : B → A) (l : list A) :
  (∀ a, g (f a) = a) → g <$> (f <$> l) = l.
Proof. intros Hgf. induction l as [|a l IH]; [done|]. by rewrite !fmap_cons, Hgf, IH. Qed.

Lemma epoch_chains_roundtrip c : serializable_epoch_chains (cfe_epoch_chains c) = c.
Proof. by destruct c as [? [[]|] []]. Qed.

Lemma pq_state_roundtrip pq : serializable_pq_state (cfe_pq_state pq) = pq.
Proof.
  destruct pq as [ini cur chs sk ex ct t1 t2 n]. unfold serializable_pq_state, cfe_pq_state.
  cbn [pqs_is_initiator pqs_current_epoch pqs_chains pqs_skipped pqs_pending_exchange
    pqs_pending_ciphertext pqs_pending_since pqs_epoch_since pqs_turns_since_mix
    cq_is_initiator cq_current_epoch cq_chains cq_skipped cq_pending_exchange
    cq_pending_ciphertext cq_pending_since cq_epoch_since cq_turns_since_mix].
  rewrite !list_roundtrip, !fmap_roundtrip; try done; try (by intros []).
  - intros []. simpl. by rewrite epoch_chains_roundtrip.
  - apply epoch_chains_roundtrip.
Qed.

Section roundtrip.
Context `{!HexCrate} `{!HexLaws}.

(** A record loses nothing of a session whose id is 16 bytes in hex. *)
Lemma cfe_roundtrip s b :
  ss_version s = 2 → ss_suite_id s ≤ u8_max → ss_session_id s = hex_encode b → len b = 16 →
  ∃ c, to_cfe_v1 s = Ok c ∧ from_cfe_v1 c = Ok s.
Proof.
  intros Hv Hsu Hid Hb. eexists. split.
  - unfold to_cfe_v1. rewrite Hid, hex_decode_encode, (proj2 (Z.leb_le _ _)) by done.
    cbn [mbind res_bind ok_or]. rewrite Hb. cbn [mbind res_bind guard_err negb Z.eqb Pos.eqb].
    reflexivity.
  - unfold from_cfe_v1. cbn [cf_ver Z.eqb Pos.eqb negb]. f_equal.
    destruct s. simpl in *. subst. rewrite !list_roundtrip, !fmap_roundtrip; try done;
      auto using pq_state_roundtrip; by intros [].
Qed.
End roundtrip.

Section live.
Context `{MlKemCrate} `{!HexCrate} `{!CryptoProvider}.
Context `{!MlKemLaws} `{!HexLaws} `{!ProviderLaws}.

(** To the record and back, and the session restored from it. *)
Lemma record_roundtrip s w :
  wf_session s →
  ∃ c d, to_cfe_v1 (to_serializable s) = Ok c ∧ from_cfe_v1 c = Ok d ∧
    from_serializable d w
    = let (w', t) := clock w in
      (w', Ok (cleanup_at t (max_skipped_message_age_seconds global) (stored s))).
Proof.
  intros Hs. pose proof Hs as ([Hsu _ _ _ _ _ _ (b & Hid & Hb) _] & _ & _).
  destruct (cfe_roundtrip (to_serializable s) b) as (c & Hc & Hd); try done.
  { simpl. by apply supported_u8. }
  exists c, (to_serializable s). split_and!; [done..|]. by apply restore_roundtrip.
Qed.
End live.
