(* ===== verification/RatchetReach.v ===== *)
(** * Double ratchet: every session in use is well formed

    The states a session goes through, as a step relation over the operations
    of the session API ([messaging.rs], [internals.rs] and [storage.rs]), and
    the theorems that hold in all of them: the invariant, no panic, and the
    only reasons a send can fail, and that storing loses nothing. *)

From S2P Require Import Prelude SuiteId Padding Platform Wp Classic Toy RatchetTypes RatchetPq.
From S2P Require Import Ratchet RatchetDemo RatchetRollback RatchetPqInv RatchetInv.
From S2P Require Import RatchetStorage RatchetStorageProps RatchetCfe.

Section reach.
Context `{MlKemCrate} `{!HexCrate} `{!CryptoProvider}.
Context `{!MlKemLaws} `{!HexLaws} `{!ProviderLaws}.

(** One call on a session. A failing call is a step too: it may leave changes
    behind. A message is any bytes the wire can carry. *)
Inductive session_step : DoubleRatchetSession → DoubleRatchetSession → Prop :=
  | step_encrypt p s w s' w' r :
      encrypt p (s, w) = ((s', w'), r) → session_step s s'
  | step_decrypt m sec s w s' w' r :
      readable m →
      decrypt_with_identity_secret m sec (s, w) = ((s', w'), r) → session_step s s'
  | step_answer secret ct s w s' w' r :
      answer_initiator_identity secret ct (s, w) = ((s', w'), r) → session_step s s'
  | step_cleanup age s w s' w' r :
      cleanup_old_skipped_keys age (s, w) = ((s', w'), r) → session_step s s'
  | step_mark a s : session_step s (mark_pqxdh_v2 a s)
  | step_header h s : session_step s (set_prekey_header h s)
  | step_expect s : session_step s (expect_identity_answer s)
  | step_reload s w s' w' c d :
      to_cfe_v1 (to_serializable s) = Ok c → from_cfe_v1 c = Ok d →
      from_serializable d w = (w', Ok s') → session_step s s'.

(** The sessions the two constructors and any number of calls lead to. *)
Inductive reachable : DoubleRatchetSession → Prop :=
  | reach_initiator root st remote contact local suite s w w' :
      is_supported (as_u16 suite) = true →
      new_initiator_session root st remote contact local suite w = (w', Ok s) → reachable s
  | reach_responder root identity m contact local s p w w' :
      readable m →
      new_responder_session root identity m contact local w = (w', Ok (s, p)) → reachable s
  | reach_step s s' : reachable s → session_step s s' → reachable s'.

(** ** The constructors *)

Lemma session_id_ok root local contact :
  ∃ b, derive_shared_session_id root local contact = Ok (hex_encode b) ∧ len b = 16.
Proof.
  unfold derive_shared_session_id. destruct (String.leb _ _);
    match goal with |- context [hkdf_derive_key ?s ?k ?i 16] =>
      destruct (hkdf_total s k i 16) as (b & -> & Hb); [lia|] end; by exists b.
Qed.

(** The session both constructors build. *)
Definition fresh_session (suite : SuiteID) (rk ck rck : AeadKey) (sk : KemPrivateKey)
    (pk remote : KemPublicKey) (sid contact local : string) (t1 t2 : Z) (ini : bool)
    : DoubleRatchetSession := {|
  suite_id := suite; root_key := rk; sending_chain_key := ck; sending_chain_length := 0;
  receiving_chain_key := rck; receiving_chain_length := 0;
  dh_ratchet_private := Some sk; dh_ratchet_public := pk; remote_dh_public := Some remote;
  previous_sending_length := 0; skipped_message_keys := ∅; skipped_key_timestamps := ∅;
  prekey_header := None; pq_handshake := PhNone; pq_turns_since_mix := 0;
  is_pq_initiator := ini; current_pq_epoch := 0; pq_chains := [];
  pq_skipped_keys := ∅; pq_skipped_key_timestamps := ∅; pending_pq_exchange := None;
  pending_pq_ciphertext := None; pq_pending_since := 0; pq_epoch_since := t1;
  session_id := sid; contact_id := contact; local_user_id := local; last_ratchet_at := t2;
  peer_ad_version := AD_VERSION_LEGACY; pq_authentication := PaClassic;
  pq_applied := Some false; identity_proof := IpNone |}.

Lemma fresh_wf suite rk ck rck sk pk remote sid contact local t1 t2 ini :
  is_supported (as_u16 suite) = true → from_private_key_to_public_key sk = Ok pk →
  (∃ b, sid = hex_encode b ∧ len b = 16) →
  (ini = true → is_pq_ratchet suite = true) →
  wf_session (fresh_session suite rk ck rck sk pk remote sid contact local t1 t2 ini).
Proof.
  intros Hsu Hk Hid Hini. assert (is_u32 0) by done. split_and!.
  - constructor; simpl; auto using skipped_ok_empty; by exists sk.
  - constructor; simpl; auto using chains_ok_empty, skipped_ok_empty; done.
  - intros Hs. destruct ini; [|done]. simpl in Hs. rewrite Hini in Hs; done.
Qed.

Lemma new_initiator_spec root st remote contact local suite w :
  is_supported (as_u16 suite) = true →
  wp False (new_initiator_session root st remote contact local suite) w
    (λ s _, wf_session s) (λ _ _, True).
Proof.
  intros Hsu. unfold new_initiator_session. wp_step.
  destruct (session_id_ok root local contact) as (b & -> & Hb). apply wp_lift. cbn [map_err].
  wp_step. destruct (hkdf_total initial_salt root (as_bytes "InitialRootKey") 32)
    as (rk & -> & _); [lia|]. apply wp_lift. cbn [map_err]. wp_step.
  apply wp_lift_cases; [|done|by intros ?%map_err_panic%kem_public_no_panic].
  intros pk Hpk%map_err_ok. wp_step.
  apply wp_lift_cases; [|done|by intros ?%map_err_panic%kem_decapsulate_no_panic]. intros dh _.
  wp_step. destruct (kdf_rk_ok (aead_key_from_bytes rk) dh) as (rk' & ck & -> & _).
  apply wp_lift. cbn [map_err]. wp_step. apply wp_read_clock. intros w1 _. wp_step.
  apply wp_read_clock. intros w2 _. wp_step.
  change (wf_session (fresh_session suite rk' ck aead_default (is_ephemeral_private st) pk remote
    (hex_encode b) contact local (clock w).2 (clock w1).2 (is_pq_ratchet suite))).
  apply fresh_wf; [done|done|by exists b|done].
Qed.

Lemma responder_keys_no_panic root identity remote contact local :
  match responder_keys root identity remote contact local with
  | Ok (sid, _, _) => ∃ b, sid = hex_encode b ∧ len b = 16
  | Err _ => True
  | Panic => False
  end.
Proof.
  unfold responder_keys. destruct (session_id_ok root local contact) as (b & -> & Hb).
  destruct (hkdf_total initial_salt root (as_bytes "InitialRootKey") 32) as (rk & -> & _); [lia|].
  simpl. destruct (kem_decapsulate identity _) as [dh| |] eqn:Hdh; simpl; [|done|].
  - destruct (kdf_rk_ok (aead_key_from_bytes rk) dh) as (rk' & ck & -> & _). simpl. by exists b.
  - by apply kem_decapsulate_no_panic in Hdh.
Qed.

Lemma responder_sending_no_panic rk sk remote m :
  match responder_sending rk sk remote m with
  | Ok (_, _, suite) => is_supported (as_u16 suite) = true
  | Err _ => True
  | Panic => False
  end.
Proof.
  unfold responder_sending. destruct (kem_decapsulate sk _) as [dh| |] eqn:Hdh; simpl; [|done|].
  - destruct (kdf_rk_ok rk dh) as (rk' & ck & -> & _). simpl.
    pose proof (suite_new_spec (em_suite_id m)) as Hsu. destruct (suite_new _); simpl; [|done..].
    by destruct Hsu as [? ->].
  - by apply kem_decapsulate_no_panic in Hdh.
Qed.

Lemma responder_base_spec root identity m contact local w :
  wp False (responder_base root identity m contact local) w (λ s _, wf_session s) (λ _ _, True).
Proof.
  unfold responder_base. wp_step.
  pose proof (responder_keys_no_panic root identity
    (kem_public_key_from_bytes (em_dh_public_key m)) contact local) as Hk.
  apply wp_lift_cases; [|done|by intros Hp; rewrite Hp in Hk].
  intros [[sid rk] ck] Hk'. rewrite Hk' in Hk. do 2 wp_step.
  apply wp_generate_kem_keys. intros w1 sk pk Hkp. wp_step.
  pose proof (responder_sending_no_panic rk sk (kem_public_key_from_bytes (em_dh_public_key m)) m)
    as Hs. apply wp_lift_cases; [|done|by intros Hp; rewrite Hp in Hs].
  intros [[rk' ck'] suite] Hs'. rewrite Hs' in Hs. wp_step. apply wp_read_clock. intros w2 _.
  wp_step. apply wp_read_clock. intros w3 _. wp_step. by apply fresh_wf.
Qed.

Lemma new_responder_spec root identity m contact local w :
  readable m →
  wp False (new_responder_session root identity m contact local) w
    (λ sp _, wf_session sp.1) (λ _ _, True).
Proof.
  intros Hm. pose proof (responder_base_spec root identity m contact local w) as Hb.
  unfold wp, new_responder_session in *.
  destruct (responder_base _ _ _ _ _ w) as [w1 [s|e|]]; [|done|done].
  pose proof (decrypt_spec m None s w1 Hm Hb) as Hd. unfold wp, decrypt in *.
  by destruct (decrypt_with_identity_secret m None (s, w1)) as [[s2 w2] [p|e|]].
Qed.

Lemma initiator_reachable root st remote contact local suite s w :
  is_supported (as_u16 suite) = true →
  (new_initiator_session root st remote contact local suite w).2 = Ok s → reachable s.
Proof.
  intros Hs Hr. apply (reach_initiator root st remote contact local suite s w
    (new_initiator_session root st remote contact local suite w).1 Hs).
  rewrite <- Hr. apply surjective_pairing.
Qed.

(** ** The invariant *)

Lemma reload_wf s w s' w' c d :
  wf_session s → to_cfe_v1 (to_serializable s) = Ok c → from_cfe_v1 c = Ok d →
  from_serializable d w = (w', Ok s') → wf_session s'.
Proof.
  intros Hs Hc Hd Hr. pose proof Hs as ([Hsu _ _ _ _ _ _ (b & Hid & Hb) _] & _ & _).
  destruct (cfe_roundtrip (to_serializable s) b) as (c' & Hc' & Hd'); try done.
  { simpl. by apply supported_u8. }
  assert (d = to_serializable s) as -> by congruence. rewrite restore_roundtrip in Hr by done.
  destruct (clock w). simplify_eq. apply cleanup_at_wf. unfold stored. by case_match.
Qed.

Lemma answer_spec secret ct s w :
  wf_session s →
  wp False (answer_initiator_identity secret ct) (s, w)
    (λ _ sw, wf_session sw.1) (λ _ sw, wf_session sw.1).
Proof.
  intros Hs. unfold answer_initiator_identity. do 3 wp_step; [by wp_steps|]. wp_step.
  destruct (mix_identity_secret_spec (root_key s) (sending_chain_key s) secret) as (rk & ck & ->).
  apply wp_lift. wp_steps. destruct Hs as [[] [[] ?]]. split_and!; [by constructor..|done].
Qed.

Lemma step_wf s s' : wf_session s → session_step s s' → wf_session s'.
Proof.
  intros Hs. destruct 1 as [p s w s' w' r Hr|m sec s w s' w' r Hm Hr|sec ct s w s' w' r Hr
    |age s w s' w' r Hr|a s|h s|s|s w s' w' c d Hc Hd Hr].
  - pose proof (encrypt_spec p s w Hs) as Hp. unfold wp in Hp. rewrite Hr in Hp.
    destruct r; [apply Hp..|done].
  - pose proof (decrypt_spec m sec s w Hm Hs) as Hp. unfold wp in Hp. rewrite Hr in Hp.
    by destruct r.
  - pose proof (answer_spec sec ct s w Hs) as Hp. unfold wp in Hp. rewrite Hr in Hp.
    by destruct r.
  - unfold cleanup_old_skipped_keys, now, update, mbind, stm_bind in Hr. simpl in Hr.
    destruct (clock w). simplify_eq. by apply cleanup_at_wf.
  - by destruct Hs as [[] [[] ?]]; split_and!; [constructor..|].
  - by destruct Hs as [[] [[] ?]]; split_and!; [constructor..|].
  - by destruct Hs as [[] [[] ?]]; split_and!; [constructor..|].
  - by eapply reload_wf.
Qed.

Lemma reachable_inv s : reachable s → wf_session s.
Proof.
  induction 1 as [root st remote contact local suite s w w' Hsu Hr
    |root identity m contact local s p w w' Hm Hr|s s' _ IH Hstep].
  - pose proof (new_initiator_spec root st remote contact local suite w Hsu) as Hp.
    unfold wp in Hp. by rewrite Hr in Hp.
  - pose proof (new_responder_spec root identity m contact local w Hm) as Hp.
    unfold wp in Hp. by rewrite Hr in Hp.
  - by eapply step_wf.
Qed.

(** C7: every session in use is well formed. Whatever calls are made on a
    session, in whatever order and with whatever outcome, it keeps its
    invariant: a supported suite, counters within 32 bits, a key pair that
    matches, a session id of 16 bytes in hex, at most [max_skipped_messages]
    kept keys of each kind, each of 32 bytes and with its time, at most
    [PQ_CHAIN_RETENTION] epochs in increasing order of which only the current
    one sends, and at most one exchange in flight, on the side that may have
    one. *)
Theorem reachable_wf s : reachable s → wf_session s.
Proof. apply reachable_inv. Qed.

(** C5: no call on a session in use panics. [encrypt] and [decrypt] always
    return, on any plaintext and on any message whose fields have the widths of
    their types and whose nonce has the twelve bytes the AEAD asserts (the callers
    cut them off the front of the sealed box, [decrypt_wire_payload] in
    [Lifecycle.v]); no [debug_assert!], no [expect] and no slice index in them is
    ever out of step. A nonce of another length would make [decrypt] panic in the
    cipher crate. *)
Theorem reachable_no_panic s :
  reachable s →
  (∀ p w, (encrypt p (s, w)).2 ≠ Panic) ∧
  (∀ m sec w, readable m → (decrypt_with_identity_secret m sec (s, w)).2 ≠ Panic).
Proof.
  intros Hs%reachable_inv. split.
  - intros p w. pose proof (encrypt_spec p s w Hs) as Hp. unfold wp in Hp.
    by destruct (encrypt p (s, w)) as [? []].
  - intros m sec w Hm. pose proof (decrypt_spec m sec s w Hm Hs) as Hp. unfold wp in Hp.
    by destruct (decrypt_with_identity_secret m sec (s, w)) as [? []].
Qed.

(** a send fails only for a reason of its own. In a session in use,
    [encrypt] returns a message that its receiver's parser accepts, or fails
    because the plaintext is larger than [MAX_MESSAGE_SIZE], or because a
    32-bit counter is exhausted; no other error of the ratchet can occur. *)
Theorem reachable_encrypt_errors s p w :
  reachable s →
  match (encrypt p (s, w)).2 with
  | Ok m => readable m
  | Err e => encrypt_error p e
  | Panic => False
  end.
Proof.
  intros Hs%reachable_inv. pose proof (encrypt_spec p s w Hs) as Hp. unfold wp in Hp.
  destruct (encrypt p (s, w)) as [? []]; simpl; [apply Hp..|done].
Qed.

(** storing a session and loading it back loses nothing. A session in use
    converts to a CFE record without error, the record converts back, passes
    every check of [from_serializable] (version, suite, and the whole
    validation of the post-quantum state), and the session restored is the one
    stored, less the skipped keys that have expired when it is loaded. *)
Theorem session_record_roundtrip s w :
  reachable s →
  ∃ c d, to_cfe_v1 (to_serializable s) = Ok c ∧ from_cfe_v1 c = Ok d ∧
    from_serializable d w
    = let (w', t) := clock w in
      (w', Ok (cleanup_at t (max_skipped_message_age_seconds global) (stored s))).
Proof. intros Hs%reachable_inv. by apply record_roundtrip. Qed.
End reach.

Lemma demo_reachable suite :
  is_supported (as_u16 suite) = true →
  is_ok (demo_initiator suite demo_world).2 = true → reachable (demo_alice suite).
Proof.
  unfold demo_alice. intros Hs Hr%result_ok. unfold demo_initiator in *.
  by eapply initiator_reachable.
Qed.

Lemma reachable_wf_witness : wf_session (demo_alice PQ_RATCHET).
Proof. apply reachable_wf. apply demo_reachable; vm_compute; reflexivity. Defined.

Lemma reachable_no_panic_witness :
  (encrypt demo_hello (demo_alice PQ_RATCHET, demo_world)).2 ≠ Panic.
Proof.
  apply (reachable_no_panic (demo_alice PQ_RATCHET)).
  apply demo_reachable; vm_compute; reflexivity.
Defined.

Lemma reachable_encrypt_errors_witness : readable (demo_first PQ_RATCHET).
Proof.
  pose proof (reachable_encrypt_errors (demo_alice PQ_RATCHET) demo_hello demo_world) as Hm.
  assert (is_ok (encrypt demo_hello (demo_alice PQ_RATCHET, demo_world)).2 = true) as He
    by (vm_compute; reflexivity).
  apply result_ok in He. rewrite He in Hm. apply Hm.
  apply demo_reachable; vm_compute; reflexivity.
Defined.

Lemma session_record_roundtrip_witness :
  let s := demo_alice PQ_RATCHET in
  ∃ c d, to_cfe_v1 (to_serializable s) = Ok c ∧ from_cfe_v1 c = Ok d ∧
    from_serializable d demo_world
    = let (w', t) := clock demo_world in
      (w', Ok (cleanup_at t (max_skipped_message_age_seconds global) (stored s))).
Proof.
  intros s. apply (session_record_roundtrip s demo_world).
  apply demo_reachable; vm_compute; reflexivity.
Defined.
