(* ===== verification/RatchetConversation.v ===== *)
(** * Double ratchet: what a conversation guarantees

    The step relation [conversation]: the initiator's session and what it sends
    before its peer has answered ([opening]); the responder's session, built
    from the first of these messages that arrives, and its identity proof if
    there is one ([answered]); then any interleaving of [encrypt], of deliveries
    in any order, of refused messages (forged, repeated or beyond a limit), of
    losses, of storing and loading, and of the labels the orchestrator sets. The
    theorems of the double ratchet proper are stated of every state it leads
    to. *)

From S2P Require Import Prelude SuiteId Padding Platform Wp Classic Toy RatchetTypes RatchetPq Ratchet.
From S2P Require Import RatchetDemo RatchetRollback RatchetPqInv RatchetPqKeys RatchetInv RatchetClean.
From S2P Require Import RatchetPqSync RatchetChains RatchetDeliver RatchetPqLink RatchetSend RatchetLink.
From S2P Require Import RatchetNetwork RatchetStorage RatchetStorageProps RatchetCfe RatchetReach.

Section conversation.
Context `{MlKemCrate} `{!HexCrate} `{!CryptoProvider}.
Context `{!MlKemLaws} `{!HexLaws} `{!ProviderLaws}.
Implicit Types (s X Y A B : DoubleRatchetSession) (m : EncryptedRatchetMessage) (b : bool).

Abbreviation own_key s := (kem_public_ref (dh_ratchet_public s)).
Abbreviation wire := (gmap nat (EncryptedRatchetMessage * bytes)).

(** ** The steps of one end *)

(** [acts sec seen X out inn X' out' inn' seen']: the end [X], with the messages
    [out] on their way from it and [inn] on their way to it. [seen] are the
    ratchet keys used so far: a generated key is a new one. *)
Inductive acts (sec : option bytes) (seen : gset bytes) X (out inn : wire) :
    DoubleRatchetSession → wire → wire → gset bytes → Prop :=
  | act_send i p w X' w' m :
      current_pq_epoch X < u32_max → out !! i = None →
      encrypt p (X, w) = ((X', w'), Ok m) →
      acts sec seen X out inn X' (<[i := (m, p)]> out) inn seen
  | act_send_fails p w X' w' e :
      current_pq_epoch X < u32_max → encrypt p (X, w) = ((X', w'), Err e) →
      acts sec seen X out inn X' out inn seen
  | act_receive i m p w X' w' p' :
      current_pq_epoch X < u32_max → inn !! i = Some (m, p) →
      decrypt_with_identity_secret m sec (X, w) = ((X', w'), Ok p') →
      (remote_dh_public X' ≠ remote_dh_public X → own_key X' ∉ seen) →
      acts sec seen X out inn X' out (delete i inn) ({[own_key X']} ∪ seen)
  | act_refuse m w X' w' e :
      decrypt_with_identity_secret m sec (X, w) = ((X', w'), Err e) →
      acts sec seen X out inn X' out inn seen
  | act_lose i : acts sec seen X out inn X (delete i out) inn seen
  | act_reload w X' w' c d :
      to_cfe_v1 (to_serializable X) = Ok c → from_cfe_v1 c = Ok d →
      from_serializable d w = (w', Ok X') → acts sec seen X out inn X' out inn seen
  | act_mark a : acts sec seen X out inn (mark_pqxdh_v2 a X) out inn seen
  | act_header h : acts sec seen X out inn (set_prekey_header h X) out inn seen.

(** ** The two ends *)

Record handshake := mkHandshake {
  hs_root : bytes;              (** the key X3DH gives both *)
  hs_state : InitiatorState;
  hs_identity : KemPrivateKey;  (** the responder's identity key pair *)
  hs_remote : KemPublicKey;
  hs_alice : string;
  hs_bob : string;
  hs_suite : SuiteID;
}.

Definition initiates (h : handshake) (w : World) : World * res DrError DoubleRatchetSession :=
  new_initiator_session (hs_root h) (hs_state h) (hs_remote h) (hs_bob h) (hs_alice h) (hs_suite h) w.
Definition responds (h : handshake) (m : EncryptedRatchetMessage) (w : World)
    : World * res DrError DoubleRatchetSession :=
  responder_base (hs_root h) (hs_identity h) m (hs_alice h) (hs_bob h) w.

(** The initiator before its peer has a session: it may have sent several
    messages. It expects an identity proof when the handshake has one. *)
Inductive opening (h : handshake) (sec : option bytes) : DoubleRatchetSession → wire → Prop :=
  | opening_new w w' A :
      is_supported (as_u16 (hs_suite h)) = true →
      from_private_key_to_public_key (hs_identity h) = Ok (hs_remote h) →
      initiates h w = (w', Ok A) →
      opening h sec (match sec with Some _ => expect_identity_answer A | None => A end) ∅
  | opening_acts A out A' out' seen :
      opening h sec A out → acts sec seen A out ∅ A' out' ∅ seen → opening h sec A' out'.

(** The responder answers the initiator's identity key right after the first
    message. *)
Definition answered (sec : option bytes) B B' : Prop :=
  match sec with
  | None => B' = B
  | Some secret => ∃ ct w w', answer_initiator_identity secret ct (B, w) = ((B', w'), Ok tt)
  end.

Record conv := mkConv {
  cv_alice : DoubleRatchetSession;
  cv_bob : DoubleRatchetSession;
  cv_to_bob : wire;
  cv_to_alice : wire;
  cv_seen : gset bytes;
}.

(** [conv_open] is [new_responder_session] in two parts, so that the key pair
    that it generates can be said to be new. *)
Inductive conversation (h : handshake) (sec : option bytes) : conv → Prop :=
  | conv_open A out i m p w1 w2 B0 B1 w3 p' B :
      opening h sec A out → out !! i = Some (m, p) →
      responds h m w1 = (w2, Ok B0) →
      own_key B0 ∉ ({[own_key A; kem_public_ref (hs_remote h)]} : gset bytes) →
      decrypt m (B0, w2) = ((B1, w3), Ok p') →
      (remote_dh_public B1 ≠ remote_dh_public B0 →
       own_key B1 ∉ ({[own_key B0; own_key A; kem_public_ref (hs_remote h)]} : gset bytes)) →
      answered sec B1 B →
      conversation h sec (mkConv A B (delete i out) ∅
        {[own_key B1; own_key B0; own_key A; kem_public_ref (hs_remote h)]})
  | conv_alice A B o o' seen A1 o1 o1' seen1 :
      conversation h sec (mkConv A B o o' seen) → acts sec seen A o o' A1 o1 o1' seen1 →
      conversation h sec (mkConv A1 B o1 o1' seen1)
  | conv_bob A B o o' seen B1 o1 o1' seen1 :
      conversation h sec (mkConv A B o o' seen) → acts sec seen B o' o B1 o1' o1 seen1 →
      conversation h sec (mkConv A B1 o1 o1' seen1).

(** ** The steps keep the two ends together *)

Section invariant.
Variables (t0 : Z) (sec : option bytes).
Hypothesis recent : ∀ w, t0 ≤ (clock w).2 < t0 + max_skipped_message_age_seconds global.

Lemma talk_lose b seen X Y o o' i :
  talk t0 sec b seen X Y o o' → talk t0 sec b seen X Y (delete i o) o'.
Proof.
  intros [? ? ? ? ? [Hf Ha] ?]. split; try done. split.
  - intros j m p Hj. apply lookup_delete_Some in Hj as [_ Hj]. by eapply Hf.
  - intros j j' m m' p p' Hne Hj Hj'. apply lookup_delete_Some in Hj as [_ Hj], Hj' as [_ Hj'].
    exact (Ha _ _ _ _ _ _ Hne Hj Hj').
Qed.

Lemma reload_stored X w X' w' c d :
  wf_session X → young t0 X → to_cfe_v1 (to_serializable X) = Ok c → from_cfe_v1 c = Ok d →
  from_serializable d w = (w', Ok X') → X' = stored X.
Proof.
  intros Hwf Hyo Hc Hd Hs. destruct (record_roundtrip X w Hwf) as (c' & d' & Hc' & Hd' & Hf).
  assert (c' = c) as -> by congruence. assert (d' = d) as -> by congruence.
  rewrite Hs in Hf. destruct (clock w) as [w1 t] eqn:Hw. injection Hf as _ ->.
  replace t with ((clock w).2) by (by rewrite Hw).
  apply (cleanup_young t0 recent); unfold stored; by case_match.
Qed.

Lemma talk_reload b seen X Y o o' w X' w' c d :
  to_cfe_v1 (to_serializable X) = Ok c → from_cfe_v1 c = Ok d →
  from_serializable d w = (w', Ok X') →
  talk t0 sec b seen X Y o o' → talk t0 sec b seen X' Y o o'.
Proof.
  intros Hc Hd Hs Htk. pose proof Htk as [[Hwf _ Hso Hyo _] _ _ _ _ _ _].
  pose proof (step_wf _ _ Hwf (step_reload X w X' w' c d Hc Hd Hs)) as Hwf'.
  rewrite (reload_stored _ _ _ _ _ _ Hwf Hyo Hc Hd Hs) in *.
  unfold stored in *. destruct (is_pq_ratchet _); [done|]. by eapply talk_forget.
Qed.

Lemma acts_talk b seen X Y o o' X1 o1 o1' seen1 :
  acts sec seen X o o' X1 o1 o1' seen1 →
  talk t0 sec b seen X Y o o' → talk t0 sec b seen1 X1 Y o1 o1'.
Proof.
  intros [i p w X' w' m Hu Hi He|p w X' w' e Hu He|i m p w X' w' p' Hu Hi Hd Hf|m w X' w' e Hd|i
    |w X' w' c d Hc Hd Hs|a|h] Ht.
  - pose proof (talk_send t0 sec recent b seen X Y o o' p w Ht Hu) as Hw. unfold wp in Hw.
    rewrite He in Hw. apply Hw.
  - pose proof (talk_send t0 sec recent b seen X Y o o' p w Ht Hu) as Hw. unfold wp in Hw.
    by rewrite He in Hw.
  - pose proof (talk_receive t0 sec recent b seen X Y o o' i m p w Ht Hu Hi) as Hw. unfold wp in Hw.
    rewrite Hd in Hw. by apply Hw.
  - by eapply talk_refuse.
  - by apply talk_lose.
  - by eapply talk_reload.
  - eapply talk_forget; try done; try apply Ht.
  - eapply talk_forget; try done; try apply Ht.
Qed.

(** ** The initiator on its own *)

Definition base s :=
  (root_key s, dh_ratchet_private s, dh_ratchet_public s, remote_dh_public s, identity_proof s,
   suite_id s).

Definition lone s (out : wire) : Prop :=
  wf_session s ∧ since_ok t0 s ∧ young t0 s ∧
  map_Forall (λ _ mp, em_dh_public_key mp.1 = own_key s ∧ em_suite_id mp.1 = as_u16 (suite_id s)) out.

Lemma part_base s s' : classical_part s' = classical_part (sent s) ∨ classical_part s' = classical_part s →
  base s' = base s.
Proof.
  unfold classical_part, classical, address, base.
  intros [Hc|Hc]; simpl in Hc; injection Hc; intros;
    repeat match goal with |- (_, _) = (_, _) => apply f_equal2 end; congruence.
Qed.

(** What [encrypt] leaves, whatever its outcome. *)
Lemma encrypt_lone p X w X' w' r o :
  encrypt p (X, w) = ((X', w'), r) → lone X o → lone X' o ∧ base X' = base X ∧
  ∀ m, r = Ok m → em_dh_public_key m = own_key X ∧ em_suite_id m = as_u16 (suite_id X).
Proof.
  intros He (Hwf & Hso & Hyo & Hms). pose proof (encrypt_sends t0 recent p X w Hwf Hso) as Hw.
  pose proof (stays_encrypt p X w) as Ht. unfold wp in Hw, Ht. rewrite He in Hw, Ht. cbn [fst] in *.
  pose proof (step_wf _ _ Hwf (step_encrypt p X w X' w' r He)) as Hwf'.
  assert (base X' = base X ∧ since_ok t0 X') as [Hb Hso'].
  { destruct r as [m|e|]; [|by destruct Hw as (_ & Hc & ?); split; [apply part_base; by right|]|done].
    destruct Hw as (s1 & s2 & r & _ & _ & _ & _ & _ & _ & Hc & ?). split; [apply part_base; by left|done]. }
  assert (young t0 X') as Hyo' by (by eapply young_keeps; [|destruct r]).
  pose proof Hb as Hb'. unfold base in Hb'. injection Hb' as _ _ Eo _ _ Es. split_and!; try done.
  - split_and!; try done. intros k mp Hk. rewrite Eo, Es. by apply (Hms k).
  - intros m ->. destruct Hw as (s1 & s2 & r & _ & _ & _ & _ & Hby & _). split; apply Hby.
Qed.

Lemma acts_lone seen X o X1 o1 o1' seen1 :
  acts sec seen X o ∅ X1 o1 o1' seen1 → lone X o → lone X1 o1 ∧ base X1 = base X.
Proof.
  intros [i p w X' w' m Hu Hi He|p w X' w' e Hu He|i m p w X' w' p' Hu Hi Hd Hf|m w X' w' e Hd|i
    |w X' w' c d Hc Hd Hs|a|h] Hlo; pose proof Hlo as (Hwf & Hso & Hyo & Hms).
  - destruct (encrypt_lone p X w X' w' _ o He Hlo) as ((? & ? & ? & Hms') & Hb & Hm).
    split; [|done]. split; [done|]. split_and!; try done. apply map_Forall_insert_2; [|done].
    unfold base in Hb. injection Hb as _ _ -> _ _ ->. by apply Hm.
  - by destruct (encrypt_lone p X w X' w' _ o He Hlo) as (? & ? & _).
  - done.
  - pose proof (refuse_same t0 sec recent X m w X' w' e Hwf Hyo Hd) as Hr.
    assert (wf_session X') by by eapply wf_same. rewrite Hr. by split_and!.
  - split; [|done]. split; [done|]. split_and!; try done. by apply map_Forall_delete.
  - pose proof (step_wf _ _ Hwf (step_reload X w X' w' c d Hc Hd Hs)) as Hwf'.
    rewrite (reload_stored _ _ _ _ _ _ Hwf Hyo Hc Hd Hs) in *. unfold stored in *.
    by destruct (is_pq_ratchet _).
  - done.
  - done.
Qed.
End invariant.

(** ** The constructors *)

Lemma shared_session_id_sym root x y :
  derive_shared_session_id root x y = derive_shared_session_id root y x.
Proof.
  unfold derive_shared_session_id.
  destruct (String.leb x y) eqn:Hxy, (String.leb y x) eqn:Hyx; try done.
  - by rewrite (String.leb_antisym x y Hxy Hyx).
  - destruct (String.leb_total x y); congruence.
Qed.

(** The handshake's part in a fresh session: the id, the first root key and the
    step with the responder's identity key. *)
Record handshaken (root : bytes) (alice bob sid : string) (z : bytes) (rk ck : AeadKey) : Prop := {
  hk_sid : derive_shared_session_id root alice bob = Ok sid;
  hk_root : ∃ k, hkdf_derive_key initial_salt root (as_bytes "InitialRootKey") 32 = Ok k ∧
    kdf_rk (aead_key_from_bytes k) z = Ok (rk, ck);
}.

Lemma new_initiator_opens root st remote contact local suite w :
  wp True (new_initiator_session root st remote contact local suite) w
    (λ A _, ∃ sid z rk ck pk t1 t2, handshaken root local contact sid z rk ck ∧
      from_private_key_to_public_key (is_ephemeral_private st) = Ok pk ∧
      kem_decapsulate (is_ephemeral_private st) (kem_public_ref remote) = Ok z ∧
      A = fresh_session suite rk ck aead_default (is_ephemeral_private st) pk remote sid contact
            local t1 t2 (is_pq_ratchet suite))
    (λ _ _, True).
Proof.
  unfold new_initiator_session. wp_step. apply wp_lift_cases; [|done..]. intros sid Hsid%map_err_ok.
  wp_step. apply wp_lift_cases; [|done..]. intros k Hk%map_err_ok.
  wp_step. apply wp_lift_cases; [|done..]. intros pk Hpk%map_err_ok.
  wp_step. apply wp_lift_cases; [|done..]. intros z Hz%map_err_ok.
  wp_step. apply wp_lift_cases; [|done..]. intros [rk ck] Hkdf%map_err_ok.
  wp_step. apply wp_read_clock. intros w1 _. wp_step. apply wp_read_clock. intros w2 _. wp_step.
  exists sid, z, rk, ck, pk, (clock w).2, (clock w1).2. split_and!; try done. split; [done|by exists k].
Qed.

Lemma responder_base_opens root identity m contact local w :
  wp True (responder_base root identity m contact local) w
    (λ B _, ∃ sid z z2 rk ck rk2 ck2 sk pk suite t1 t2, handshaken root local contact sid z rk ck ∧
      kem_decapsulate identity (em_dh_public_key m) = Ok z ∧
      from_private_key_to_public_key sk = Ok pk ∧
      kem_decapsulate sk (em_dh_public_key m) = Ok z2 ∧ kdf_rk rk z2 = Ok (rk2, ck2) ∧
      suite_new (em_suite_id m) = Ok suite ∧
      B = fresh_session suite rk2 ck2 ck sk pk (kem_public_key_from_bytes (em_dh_public_key m)) sid
            contact local t1 t2 false)
    (λ _ _, True).
Proof.
  unfold responder_base. wp_step. apply wp_lift_cases; [|done..].
  intros [[sid rk] ck] Hkeys. unfold responder_keys in Hkeys. rewrite kem_public_ref_from in Hkeys.
  destruct (derive_shared_session_id root local contact) as [sid'| |] eqn:Hsid; [|done..].
  destruct (hkdf_derive_key _ _ _ _) as [k| |] eqn:Hk; [|done..]. simpl in Hkeys.
  destruct (kem_decapsulate identity _) as [z| |] eqn:Hz; [|done..]. simpl in Hkeys.
  destruct (kdf_rk _ z) as [[rk' ck']| |] eqn:Hkdf; [|done..]. simpl in Hkeys.
  injection Hkeys as -> -> ->. do 2 wp_step. apply wp_generate_kem_keys. intros w1 sk pk Hpk.
  wp_step. apply wp_lift_cases; [|done..]. intros [[rk2 ck2] suite] Hsend.
  unfold responder_sending in Hsend. rewrite kem_public_ref_from in Hsend.
  destruct (kem_decapsulate sk _) as [z2| |] eqn:Hz2; [|done..]. simpl in Hsend.
  destruct (kdf_rk rk z2) as [[rk2' ck2']| |] eqn:Hkdf2; [|done..]. simpl in Hsend.
  destruct (suite_new (em_suite_id m)) as [suite'| |] eqn:Hsu; [|done..]. injection Hsend as -> -> ->.
  wp_step. apply wp_read_clock. intros w2 _. wp_step. apply wp_read_clock. intros w3 _. wp_step.
  exists sid, z, z2, rk, ck, rk2, ck2, sk, pk, suite, (clock w1).2, (clock w2).2.
  split_and!; try done. split; [done|by exists k].
Qed.

(** The responder's constructor does not fail on keys of key pairs. *)
Lemma responder_base_total root identity remote sk pk m suite contact local w :
  from_private_key_to_public_key identity = Ok remote → from_private_key_to_public_key sk = Ok pk →
  em_dh_public_key m = kem_public_ref pk → suite_new (em_suite_id m) = Ok suite →
  wp False (responder_base root identity m contact local) w (λ _ _, True) (λ _ _, False).
Proof.
  intros Hid Hpk Hm Hsu. unfold responder_base. rewrite Hm, kem_public_from_ref. wp_step.
  destruct (session_id_ok root local contact) as (b & Hsid & _).
  destruct (hkdf_total initial_salt root (as_bytes "InitialRootKey") 32) as (k & Hk & _); [lia|].
  destruct (dh_defined identity remote sk pk Hid Hpk) as [z Hz].
  destruct (kdf_rk_ok (aead_key_from_bytes k) z) as (rk & ck & Hkdf & _).
  unfold responder_keys. rewrite Hsid, Hk. simpl. rewrite Hz. simpl. rewrite Hkdf. apply wp_lift.
  simpl. do 2 wp_step. apply wp_generate_kem_keys. intros w1 sk' pk' Hpk'. wp_step.
  destruct (dh_defined sk' pk' sk pk Hpk' Hpk) as [z' Hz'].
  destruct (kdf_rk_ok rk z') as (rk' & ck' & Hkdf' & _).
  unfold responder_sending. rewrite Hz'. simpl. rewrite Hkdf'. simpl. rewrite Hsu. apply wp_lift.
  simpl. wp_step. apply wp_read_clock. intros w2 _. wp_step. apply wp_read_clock. intros w3 _. by wp_step.
Qed.

(** Nor does the initiator's. *)
Lemma new_initiator_total root st pk identity remote contact local suite w :
  from_private_key_to_public_key (is_ephemeral_private st) = Ok pk → from_private_key_to_public_key identity = Ok remote →
  wp False (new_initiator_session root st remote contact local suite) w (λ _ _, True) (λ _ _, False).
Proof.
  intros Hpk Hid. unfold new_initiator_session. destruct (session_id_ok root local contact) as (b & Hsid & _).
  destruct (hkdf_total initial_salt root (as_bytes "InitialRootKey") 32) as (k & Hk & _); [lia|].
  destruct (dh_defined _ pk identity remote Hpk Hid) as [z Hz].
  destruct (kdf_rk_ok (aead_key_from_bytes k) z) as (rk & ck & Hkdf & _).
  wp_step. apply wp_lift. rewrite Hsid. cbn [map_err]. wp_step. apply wp_lift. rewrite Hk. cbn [map_err].
  wp_step. apply wp_lift. rewrite Hpk. cbn [map_err]. wp_step. apply wp_lift. rewrite Hz. cbn [map_err].
  wp_step. apply wp_lift. rewrite Hkdf. cbn [map_err].
  wp_step. apply wp_read_clock. intros w1 _. wp_step. apply wp_read_clock. intros w2 _. by wp_step.
Qed.

(** Both sessions right after their constructors. *)
Definition fresh_pair (h : handshake) A B : Prop :=
  ∃ rkA ckA rkB ckB skA pkA skB pkB sid t1 t2 t3 t4 z,
    A = fresh_session (hs_suite h) rkA ckA aead_default skA pkA (hs_remote h) sid (hs_bob h)
          (hs_alice h) t1 t2 (is_pq_ratchet (hs_suite h)) ∧
    B = fresh_session (hs_suite h) rkB ckB ckA skB pkB pkA sid (hs_alice h) (hs_bob h) t3 t4 false ∧
    from_private_key_to_public_key skA = Ok pkA ∧ from_private_key_to_public_key skB = Ok pkB ∧
    kem_decapsulate skA (kem_public_ref pkB) = Ok z ∧ kdf_rk rkA z = Ok (rkB, ckB) ∧
    wf_session A ∧ wf_session B.

Lemma constructors_fresh h m A B w1 w1' w2 w2' :
  is_supported (as_u16 (hs_suite h)) = true →
  from_private_key_to_public_key (hs_identity h) = Ok (hs_remote h) →
  initiates h w1 = (w1', Ok A) → em_dh_public_key m = own_key A →
  em_suite_id m = as_u16 (hs_suite h) → responds h m w2 = (w2', Ok B) → fresh_pair h A B.
Proof.
  intros Hsu Hid HA Hdh Hms HB. destruct h as [root st identity remote alice bob suite].
  unfold initiates, responds in *. simpl in *.
  pose proof (new_initiator_opens root st remote bob alice suite w1) as HwA. unfold wp in HwA.
  pose proof (responder_base_opens root identity m alice bob w2) as HwB. unfold wp in HwB.
  pose proof (new_initiator_spec root st remote bob alice suite w1 Hsu) as HfA. unfold wp in HfA.
  pose proof (responder_base_spec root identity m alice bob w2) as HfB. unfold wp in HfB.
  rewrite HA in HwA, HfA. rewrite HB in HwB, HfB.
  destruct HwA as (sid & z & rk & ck & pk & t1 & t2 & [Hsid (k & Hk & Hkdf)] & Hpk & Hz & HeqA).
  destruct HwB as (sid' & z' & z2 & rk' & ck' & rk2 & ck2 & sk & pkB & suite' & t3 & t4 &
    [Hsid' (k' & Hk' & Hkdf')] & Hz' & HpkB & Hz2 & Hkdf2 & Hsuite & HeqB).
  assert (em_dh_public_key m = kem_public_ref pk) as Hm by (rewrite Hdh, HeqA; done).
  rewrite Hm in *. rewrite <- (dh_commutes _ pk identity remote Hpk Hid) in Hz'.
  assert (z' = z) as -> by congruence. assert (k' = k) as -> by congruence.
  rewrite Hkdf in Hkdf'. injection Hkdf' as <- <-. rewrite shared_session_id_sym in Hsid'.
  assert (sid' = sid) as -> by congruence. rewrite kem_public_from_ref in HeqB.
  assert (suite' = suite) as ->.
  { apply suite_new_as_u16 in Hsuite. destruct suite, suite'. simpl in *. congruence. }
  exists rk, ck, rk2, ck2, (is_ephemeral_private st), pk, sk, pkB, sid, t1, t2, t3, t4, z2.
  simpl. split_and!; try done. by rewrite <- (dh_commutes sk pkB _ pk HpkB Hpk).
Qed.

Lemma initiates_fields h w w' A :
  initiates h w = (w', Ok A) → suite_id A = hs_suite h ∧ remote_dh_public A = Some (hs_remote h).
Proof.
  unfold initiates. intros HA. pose proof (new_initiator_opens (hs_root h) (hs_state h) (hs_remote h)
    (hs_bob h) (hs_alice h) (hs_suite h) w) as Hw. unfold wp in Hw. rewrite HA in Hw.
  by destruct Hw as (? & ? & ? & ? & ? & ? & ? & _ & _ & _ & ->).
Qed.

Lemma initiates_pair h w w' A :
  initiates h w = (w', Ok A) → ∃ sk, from_private_key_to_public_key sk = Ok (dh_ratchet_public A).
Proof.
  unfold initiates. intros HA. pose proof (new_initiator_opens (hs_root h) (hs_state h) (hs_remote h)
    (hs_bob h) (hs_alice h) (hs_suite h) w) as Hw. unfold wp in Hw. rewrite HA in Hw.
  destruct Hw as (? & ? & ? & ? & ? & ? & ? & _ & ? & _ & ->). by eexists.
Qed.

Lemma fresh_end_ok t0 seen suite rk ck rck sk pk remote sid contact local t1 t2 ini :
  let s := fresh_session suite rk ck rck sk pk remote sid contact local t1 t2 ini in
  wf_session s → kem_public_ref pk ∈ seen → kem_public_ref remote ∈ seen → end_ok t0 seen s.
Proof.
  intros s Hwf Hown Hrem. split; [done|by split|by left|by split; apply map_Forall_empty|].
  split_and!; [done| |by intros c j [k ?]].
  intros c. rewrite (on_new_chain_spec s c remote) by done. case_bool_decide; [by subst|done].
Qed.

Lemma fresh_pq_pair h A B : fresh_pair h A B → pq_pair true A B.
Proof.
  intros (rkA & ckA & rkB & ckB & skA & pkA & skB & pkB & sid & t1 & t2 & t3 & t4 & z & HA & HB & _ & _ &
    _ & _ & HwA & HwB).
  pose proof HwA as (_ & HpA & _). pose proof HwB as (_ & HpB & _).
  split; [by subst|]. intros Hr. split; subst A B; simpl in *; try done.
  - split; by apply pq_inv_shape.
  - split; intros He; by destruct He.
  - by left.
Qed.

(** Nothing is under way. *)
Lemma fresh_talk t0 h A B :
  fresh_pair h A B → own_key B ∉ ({[own_key A; kem_public_ref (hs_remote h)]} : gset bytes) →
  talk t0 None true {[own_key B; own_key A; kem_public_ref (hs_remote h)]} A B ∅ ∅.
Proof.
  intros Hf Hfr. pose proof (fresh_pq_pair _ _ _ Hf) as Hpq.
  destruct Hf as (rkA & ckA & rkB & ckB & skA & pkA & skB & pkB & sid & t1 & t2 & t3 & t4 & z & -> & -> &
    HpA & HpB & Hz & Hkdf & HwA & HwB). simpl in *.
  split; try done.
  - apply fresh_end_ok; [done|set_solver..].
  - apply fresh_end_ok; [done|set_solver..].
  - right. split; try done.
    + exists ckB. simpl. rewrite ck_at_0. split; [|done]. unfold turn. simpl. rewrite Hz. simpl.
      by rewrite Hkdf.
    + split; [|done]. erewrite on_new_chain_spec by done. rewrite bool_decide_eq_false_2; [done|].
      simpl. set_solver.
    + intros j Hj. simpl in *. unfold key_for. simpl. erewrite on_new_chain_spec by done.
      rewrite bool_decide_eq_true_2 by done. simpl. by destruct (Z.leb_spec 0 j); [|lia].
Qed.

(** ** The identity proof *)

(** A session apart from its root, its sending chain and the state of the
    identity proof. *)
Record unmixed s s' : Prop := {
  um_pq : pq_view s' = pq_view s;
  um_address : address s' = address s;
  um_own : dh_ratchet_public s' = dh_ratchet_public s;
  um_remote : remote_dh_public s' = remote_dh_public s;
  um_receiving : (receiving_chain_key s', receiving_chain_length s')
    = (receiving_chain_key s, receiving_chain_length s);
  um_sending : (sending_chain_length s', previous_sending_length s')
    = (sending_chain_length s, previous_sending_length s);
  um_skipped : skipped_message_keys s' = skipped_message_keys s;
  um_times : (skipped_key_timestamps s', pq_skipped_key_timestamps s')
    = (skipped_key_timestamps s, pq_skipped_key_timestamps s);
  um_since : pq_pending_since s' = pq_pending_since s;
}.

Lemma unmixed_sym s s' : unmixed s s' → unmixed s' s.
Proof. by intros []; split. Qed.

Lemma unmixed_key_for sec sec' s s' c j :
  unmixed s s' → on_new_chain s c = false ∨ has_kept s c j →
  key_for sec' s' c j = key_for sec s c j.
Proof.
  intros [_ _ _ Hr [= Hrk Hrl] _ Hs _ _] Hc. unfold key_for, has_kept in *.
  rewrite (on_new_chain_eq s s') by done. rewrite Hs, Hrk, Hrl.
  by destruct Hc as [->|[k ->]].
Qed.

Lemma unmixed_end_ok t0 seen s s' : unmixed s s' → wf_session s' → end_ok t0 seen s → end_ok t0 seen s'.
Proof.
  intros [Hv _ Ho Hr [= Hrk Hrl] _ Hs Ht Hp] Hwf [_ [Hti Hpt] Hso Hyo (Hown & Hn & Hk)].
  pose proof (λ c, on_new_chain_eq s s' c Hr) as Hc. split; try done.
  - split; [unfold tidy; rewrite Hs, Hrl; by setoid_rewrite Hc|].
    rewrite (view_suite _ _ Hv). intros Hsu. eapply pq_view_tidy; [done|by apply Hpt].
  - unfold since_ok. by rewrite Hp.
  - by eapply young_keeps.
  - unfold met, has_kept. rewrite Ho, Hs. by setoid_rewrite Hc.
Qed.

(** The secret of the identity proof enters the root both ends step to: what is
    under way to the responder is on chains it has. *)
Lemma talk_remix t0 sec sec' seen A A' B B' out :
  talk t0 sec true seen A B out ∅ → linked sec B A → unmixed A A' → unmixed B B' →
  wf_session A' → wf_session B' → linked sec' B' A' → talk t0 sec' true seen A' B' out ∅.
Proof.
  intros [HA HB Hpe _ Hpq [Hf Hap] _] Hl HuA HuB HwA HwB Hl'.
  pose proof HuA as [HvA HadA HoA HrA _ [= HsA HpA] _ _ _].
  pose proof HuB as [HvB HadB HoB HrB _ _ HskB _ _].
  destruct (pq_view_pair true A B A' B' HvA HvB Hpq) as [Hpq' [Hca _]].
  split; [by eapply unmixed_end_ok..| |by right|done| |done].
  - by apply (peers_address A B).
  - split.
    + intros i m p Hi. destruct (Hf i m p Hi) as [Hd Hlo Hn Hpf Hse]. split; [| | |by apply Hca|done].
      * eapply deliverable_same; [done| |intros k _; by apply (pq_keeps_view _ _ HvB)|done].
        intros k. rewrite (unmixed_key_for sec sec' B B'); [done|done|].
        destruct Hlo as [[Hdh _]|[?|[? _]]]; [|by right|by left]. left.
        rewrite (on_new_chain_spec _ _ _ (lk_remote _ _ _ Hl)), Hdh. by rewrite bool_decide_eq_true_2.
      * unfold located, has_kept in *. rewrite HoA, HpA, HskB, (on_new_chain_eq B B') by done. done.
      * by rewrite HoA, HsA.
    + intros i j m m' p p' Hij Hi Hj. unfold apart, pq_slot_apart, pq_slotted in *.
      rewrite (view_suite _ _ HvB). by eapply (Hap i j).
Qed.

Lemma answer_cases secret ct B w B' w' :
  answer_initiator_identity secret ct (B, w) = ((B', w'), Ok tt) →
  sending_chain_length B = 0 ∧ identity_proof B = IpNone ∧ ∃ rk ck,
    mix_identity_secret (root_key B) (sending_chain_key B) secret = Ok (rk, ck) ∧
    B' = B <| root_key := rk |> <| sending_chain_key := ck |> <| identity_proof := IpAnswered ct |>.
Proof.
  unfold answer_initiator_identity, mbind, stm_bind, self. simpl.
  destruct (Z.eqb_spec (sending_chain_length B) 0) as [Hl|]; [|by intros]. simpl.
  case_bool_decide as Hp; [|by intros]. simpl. unfold lift.
  destruct (mix_identity_secret _ _ _) as [[rk ck]| |] eqn:Hm; [|done..].
  intros [= <- _]. split_and!; [done..|]. by exists rk, ck.
Qed.

Lemma answer_unmixed secret ct B w B' w' :
  answer_initiator_identity secret ct (B, w) = ((B', w'), Ok tt) → unmixed B B'.
Proof. intros (_ & _ & rk & ck & _ & ->)%answer_cases. by split. Qed.

Definition unexpecting A := A <| identity_proof := IpNone |>.

Lemma linked_answer secret ct A B B' w w' :
  answer_initiator_identity secret ct (B, w) = ((B', w'), Ok tt) →
  identity_proof A = IpAwaitingAnswer → linked None B (unexpecting A) → linked (Some secret) B' A.
Proof.
  intros Ha HA [Hr (ck0 & Ht & Hck) Hu Hb _]. pose proof (answer_unmixed _ _ _ _ _ _ Ha) as Hum.
  apply answer_cases in Ha as (Hl & _ & rk & ck & Hm & HB). rewrite Hl, ck_at_0 in Hck.
  split; try by rewrite HB.
  - exists ck. rewrite HB. simpl. rewrite Hl, ck_at_0. split; [|done].
    unfold turn, unexpecting in *. simpl in *. destruct (dh_ratchet_private A) as [sk|]; [|done].
    simpl in *. destruct (kem_decapsulate sk _); [|done..]. simpl in *.
    destruct (kdf_rk _ _) as [[rk' ck']| |]; [|done..]. simpl in *. injection Ht as -> ->.
    rewrite bool_decide_eq_true_2 by done. simpl. by rewrite <- Hck, Hm.
  - intros j Hj. rewrite (unmixed_key_for None (Some secret) B B'); [by apply Hb|done|].
    left. rewrite (on_new_chain_spec _ _ _ Hr). by rewrite bool_decide_eq_true_2.
Qed.

(** And back, for the root the answer was mixed into. *)
Lemma linked_unanswer secret ct A A0 B B' w w' :
  answer_initiator_identity secret ct (B, w) = ((B', w'), Ok tt) → base A = base A0 →
  linked None B (unexpecting A0) → linked (Some secret) B' A → linked None B (unexpecting A).
Proof.
  intros Ha HA [_ Ht _ _ Hp] [Hr _ Hu Hb _]. pose proof (answer_unmixed _ _ _ _ _ _ Ha) as Hum.
  unfold base in HA. injection HA as E1 E2 E3 E4 E5 E6.
  pose proof Hum as [_ _ Ho Hrem _ _ _ _ _]. rewrite Ho in Hu. rewrite Hrem in Hr. split; try done.
  - unfold turn, unexpecting in *. simpl in *. by rewrite E1, E2.
  - intros j Hj. rewrite <- (unmixed_key_for None (Some secret) B B'); [by apply Hb|done|].
    left. rewrite (on_new_chain_spec _ _ _ Hr). by rewrite bool_decide_eq_true_2.
Qed.

(** ** Every state of a conversation *)

Section states.
Variables (t0 : Z) (h : handshake) (sec : option bytes).
Hypothesis recent : ∀ w, t0 ≤ (clock w).2 < t0 + max_skipped_message_age_seconds global.

Definition seen_at A B : gset bytes := {[own_key B; own_key A; kem_public_ref (hs_remote h)]}.
Definition new_key A B : Prop := own_key B ∉ ({[own_key A; kem_public_ref (hs_remote h)]} : gset bytes).
Definition started A : DoubleRatchetSession :=
  match sec with Some _ => expect_identity_answer A | None => A end.

Lemma fresh_linked A B : fresh_pair h A B → new_key A B → linked None B A.
Proof.
  intros Hf Hn. pose proof (fresh_talk t0 h A B Hf Hn) as [_ _ _ [Hl|Hl] _ _ _]; [|done].
  destruct Hl as [Hr _ _ _ _]. exfalso. apply Hn. apply elem_of_union_r, elem_of_singleton.
  destruct Hf as (? & ? & ? & ? & ? & ? & ? & ? & ? & ? & ? & ? & ? & ? & -> & -> & _). simpl in *.
  congruence.
Qed.

Lemma fresh_answered A B B' :
  fresh_pair h A B → new_key A B → answered sec B B' →
  talk t0 sec true (seen_at A B) (started A) B' ∅ ∅.
Proof.
  intros Hf Hn Ha. pose proof (fresh_talk t0 h A B Hf Hn) as Ht.
  pose proof (fresh_linked A B Hf Hn) as Hl. unfold answered, started in *.
  destruct sec as [secret|]; [|by subst]. destruct Ha as (ct & w & w' & Ha).
  assert (unexpecting A = A) as HA.
  { destruct Hf as (? & ? & ? & ? & ? & ? & ? & ? & ? & ? & ? & ? & ? & ? & -> & _). done. }
  destruct Hf as (? & ? & ? & ? & ? & ? & ? & ? & ? & ? & ? & ? & ? & ? & _ & _ & _ & _ & _ & _ & HwA & HwB).
  apply (talk_remix t0 None (Some secret) _ A (expect_identity_answer A) B B' ∅ Ht Hl).
  - by split.
  - by eapply answer_unmixed.
  - apply (step_wf A); [done|constructor].
  - eapply (step_wf B); [done|by econstructor].
  - eapply linked_answer; [done|done|]. change (linked None B (unexpecting A)). by rewrite HA.
Qed.

Lemma acts_any_seen seen seen' X o X1 o1 :
  acts sec seen X o ∅ X1 o1 ∅ seen → acts sec seen' X o ∅ X1 o1 ∅ seen'.
Proof. intros Ha. inversion Ha; subst; try done; by econstructor. Qed.

(** The initiator on its own, whichever responder it will meet. *)
Record opening_ok A (out : wire) A0 : Prop := {
  oo_supported : is_supported (as_u16 (hs_suite h)) = true;
  oo_identity : from_private_key_to_public_key (hs_identity h) = Ok (hs_remote h);
  oo_initiates : ∃ w w', initiates h w = (w', Ok A0);
  oo_base : base A = base (started A0);
  oo_lone : lone t0 A out;
  oo_talk : ∀ B B', fresh_pair h A0 B → new_key A0 B → answered sec B B' →
    talk t0 sec true (seen_at A0 B) A B' out ∅;
}.

Lemma opening_opens A out : opening h sec A out → ∃ A0, opening_ok A out A0.
Proof.
  induction 1 as [w w' A0 Hsu Hid Hi|A out A' out' seen _ [A0 [Hsu Hid Hi Hb Hlo Ht]] Ha].
  - exists A0. split; [done|done|by exists w, w'|done| |by apply fresh_answered].
    pose proof (new_initiator_opens (hs_root h) (hs_state h) (hs_remote h) (hs_bob h) (hs_alice h)
      (hs_suite h) w) as Hw. pose proof (new_initiator_spec (hs_root h) (hs_state h) (hs_remote h)
      (hs_bob h) (hs_alice h) (hs_suite h) w Hsu) as Hwf. unfold wp in Hw, Hwf.
    unfold initiates in Hi. rewrite Hi in Hw, Hwf.
    assert (wf_session (started A0)) by (unfold started; case_match; [apply (step_wf A0); [done|constructor]|done]).
    destruct Hw as (? & ? & ? & ? & ? & ? & ? & _ & _ & _ & ->).
    split; [done|]. unfold started in *. case_match; (split_and!; [by left|by split; apply map_Forall_empty|]);
      apply map_Forall_empty.
  - exists A0. destruct (acts_lone t0 sec recent _ _ _ _ _ _ _ Ha Hlo) as [Hlo' Hb'].
    split; try done; [congruence|]. intros B B' Hf Hn Han. eapply acts_talk; [done|by eapply acts_any_seen|].
    by eapply Ht.
Qed.

Lemma answer_exists secret B :
  sending_chain_length B = 0 → identity_proof B = IpNone → ∀ w,
  ∃ B', answer_initiator_identity secret [] (B, w) = ((B', w), Ok tt).
Proof.
  intros Hl Hp w. destruct (mix_identity_secret_spec (root_key B) (sending_chain_key B) secret)
    as (rk & ck & Hm).
  unfold answer_initiator_identity, mbind, stm_bind, self, lift. simpl. rewrite Hl. simpl.
  rewrite bool_decide_eq_true_2 by done. simpl. rewrite Hm. by eexists.
Qed.

(** The responder's view of an opening before it answers. *)
Lemma opening_unanswered A out A0 B0 :
  opening_ok A out A0 → fresh_pair h A0 B0 → new_key A0 B0 → ∀ w : World,
  ∃ A1, talk t0 None true (seen_at A0 B0) A1 B0 out ∅ ∧ linked None B0 A1 ∧
    match sec with
    | Some _ => A1 = unexpecting A ∧ identity_proof A = IpAwaitingAnswer
    | None => A1 = A
    end.
Proof.
  intros [_ _ _ Hb [HwA _] Ht] Hf Hn w. pose proof (fresh_linked _ _ Hf Hn) as Hl0.
  pose proof Hf as Hf'.
  destruct Hf' as (? & ? & ? & ? & ? & ? & ? & ? & ? & ? & ? & ? & ? & ? & HA & HB & _ & _ & _ & _ & _ & HwB).
  assert (remote_dh_public A = Some (hs_remote h)) as Hrem.
  { unfold base in Hb. injection Hb as _ _ _ -> _ _. unfold started. case_match; by rewrite HA. }
  assert (∀ sec' B, own_key B = own_key B0 → ¬ linked sec' A B) as Hnot.
  { intros sec' B Ho [Hr _ _ _ _]. apply Hn. apply elem_of_union_r, elem_of_singleton.
    rewrite <- Ho. congruence. }
  unfold started, answered in *. destruct sec as [secret|].
  - assert (sending_chain_length B0 = 0 ∧ identity_proof B0 = IpNone) as [HB1 HB2] by by rewrite HB.
    destruct (answer_exists secret B0 HB1 HB2 w) as [B' Ha].
    pose proof (answer_unmixed _ _ _ _ _ _ Ha) as Hum.
    pose proof (Ht B0 B' Hf Hn (ex_intro _ _ (ex_intro _ _ (ex_intro _ _ Ha)))) as Htk.
    pose proof Htk as [_ _ _ [Hl|Hl] _ _ _].
    { exfalso. eapply Hnot; [|done]. by rewrite (um_own _ _ Hum). }
    assert (unexpecting (expect_identity_answer A0) = A0) as HA0 by by rewrite HA.
    assert (linked None B0 (unexpecting A)) as Hl1.
    { eapply linked_unanswer; [done|done| |done]. by rewrite HA0. }
    exists (unexpecting A). split_and!; [|done|done|].
    + apply (talk_remix t0 (Some secret) None _ A _ B' B0 out Htk Hl); try done.
      by apply unmixed_sym.
    + unfold base in Hb. injection Hb as _ _ _ _ -> _. done.
  - exists A. pose proof (Ht B0 B0 Hf Hn eq_refl) as Htk. split_and!; [done| |done].
    pose proof Htk as [_ _ _ [Hl|Hl] _ _ _]; [|done]. by edestruct (Hnot None B0).
Qed.

(** A message of the initiator's gives a responder that fits it. *)
Lemma opening_header A out A0 i m p :
  opening_ok A out A0 → out !! i = Some (m, p) →
  em_dh_public_key m = own_key A0 ∧ em_suite_id m = as_u16 (hs_suite h) ∧
  own_key A = own_key A0 ∧ remote_dh_public A = Some (hs_remote h).
Proof.
  intros [_ _ (w & w' & HA) Hb (_ & _ & _ & Hms) _] Hi. destruct (Hms i (m, p) Hi) as [Hdh Hsu].
  simpl in Hdh, Hsu. destruct (initiates_fields _ _ _ _ HA) as [Es Er].
  assert (own_key A = own_key A0 ∧ suite_id A = suite_id A0 ∧ remote_dh_public A = remote_dh_public A0)
    as (Eo & Es' & Er').
  { unfold base, started in Hb. destruct sec; simpl in Hb; injection Hb; intros; split_and!; congruence. }
  split_and!; congruence.
Qed.

Lemma opening_meets A out i m p w1 w2 B0 :
  opening h sec A out → out !! i = Some (m, p) → responds h m w1 = (w2, Ok B0) → new_key A B0 →
  ∃ A1, talk t0 None true (seen_at A B0) A1 B0 out ∅ ∧ linked None B0 A1 ∧
    em_dh_public_key m = own_key A1 ∧ remote_dh_public A = Some (hs_remote h) ∧
    (receiving_chain_length B0 = 0 ∧ skipped_message_keys B0 = ∅ ∧ current_pq_epoch B0 = 0 ∧
     pending_pq_ciphertext B0 = None) ∧
    match sec with
    | Some _ => A1 = unexpecting A ∧ identity_proof A = IpAwaitingAnswer
    | None => A1 = A
    end.
Proof.
  intros [A0 Ho]%opening_opens Hi HB Hn. destruct (opening_header _ _ _ _ _ _ Ho Hi) as (Hdh & Hsu' & Eo & Er).
  pose proof Ho as [Hsu Hid (w & w' & HA) _ _ _].
  assert (fresh_pair h A0 B0) as Hf by (eapply constructors_fresh; done).
  assert (new_key A0 B0) as Hn0 by by (unfold new_key in *; rewrite <- Eo).
  destruct (opening_unanswered A out A0 B0 Ho Hf Hn0 w2) as (A1 & Htk & Hl & HA1).
  assert (seen_at A0 B0 = seen_at A B0) as Hseen by by (unfold seen_at; rewrite Eo).
  rewrite Hseen in Htk. exists A1. split_and!; try done.
  1: rewrite Hdh, <- Eo; destruct sec; [by destruct HA1 as [-> _]|by subst].
  all: destruct Hf as (? & ? & ? & ? & ? & ? & ? & ? & ? & ? & ? & ? & ? & ? & _ & -> & _); done.
Qed.

(** The first message, read by a responder that has not answered. *)
Lemma opening_reads A out i m p w1 w2 B0 :
  opening h sec A out → out !! i = Some (m, p) → responds h m w1 = (w2, Ok B0) → new_key A B0 →
  wp False (decrypt m) (B0, w2)
    (λ p' sw, p' = p ∧
      ((remote_dh_public sw.1 ≠ remote_dh_public B0 → own_key sw.1 ∉ seen_at A B0) →
       ∀ B, answered sec sw.1 B →
         talk t0 sec true ({[own_key sw.1]} ∪ seen_at A B0) A B (delete i out) ∅))
    (λ e _, over_limit B0 m e).
Proof.
  intros Ho Hi HB Hn.
  destruct (opening_meets A out i m p w1 w2 B0 Ho Hi HB Hn) as (A1 & Htk & Hl & _ & Er & (_ & _ & Hep & _) & HA1).
  assert (current_pq_epoch B0 < u32_max) as Hu by (by rewrite Hep).
  apply talk_sym in Htk.
  eapply wp_mono; [by apply (talk_receive t0 None recent _ _ _ _ _ _ i m p w2 Htk)| |done].
  intros p' [B1 w3] (-> & Hsame & Htk'). cbn [fst] in *. split; [done|]. intros Hfr B Hans.
  specialize (Htk' Hfr). apply talk_sym in Htk'. simpl in Htk'. unfold answered in Hans.
  destruct sec as [secret|]; [|by subst]. destruct HA1 as [-> Hp]. destruct Hans as (ct & w4 & w5 & Hans).
  assert (linked None B1 (unexpecting A)) as Hl1.
  { pose proof Htk' as [_ _ _ [[Hr _ _ _ _]|?] _ _ _]; [|done]. exfalso. simpl in Hr.
    assert (own_key B1 = kem_public_ref (hs_remote h)) as Heq by (simpl in *; congruence).
    apply Hfr; [|unfold seen_at; rewrite Heq; set_solver].
    intros Hrr. apply Hn. rewrite <- (Hsame Hrr), Heq. set_solver. }
  apply (talk_remix t0 None (Some secret) _ (unexpecting A) A B1 B _ Htk' Hl1); try done.
  - by eapply answer_unmixed.
  - exact (en_wf _ _ _ (tk_X _ _ _ _ _ _ _ _ Htk')).
  - eapply (step_wf B1); [apply Htk'|by econstructor].
  - by eapply linked_answer.
Qed.

Lemma conversation_talk c :
  conversation h sec c →
  talk t0 sec true (cv_seen c) (cv_alice c) (cv_bob c) (cv_to_bob c) (cv_to_alice c).
Proof.
  induction 1 as [A out i m p w1 w2 B0 B1 w3 p' B Ho Hi HB Hn Hd Hfr Ha|A B o o' seen A1 o1 o1' seen1 _ IH Ha
    |A B o o' seen B1 o1 o1' seen1 _ IH Ha]; simpl in *.
  - pose proof (opening_reads A out i m p w1 w2 B0 Ho Hi HB Hn) as Hw. unfold wp in Hw. rewrite Hd in Hw.
    destruct Hw as [_ Hw]. eapply talk_seen; [|by apply Hw]. unfold seen_at. simpl. set_solver.
  - by eapply acts_talk.
  - apply (talk_sym _ _ false). eapply acts_talk; [done..|]. by apply (talk_sym _ _ true).
Qed.
End states.

(** ** The limits *)

(** Executable: the message is refused for none of the configured limits, on
    the number of messages skipped at once and kept at all, of either ratchet,
    and its PQ epoch has not been dropped. *)
Definition pq_within s m : bool :=
  if pq_slotted s m then
    match recv_chain_of s (em_pq_message_epoch m) with
    | Some ch =>
        (Z.of_nat (size (pq_skipped_keys s)) + (em_pq_key_index m - chain_index ch)
           <? max_skipped_messages global) &&
        (em_pq_key_index m <=? chain_index ch + max_message_jump global)
    | None =>
        (match pq_key_for s (em_pq_message_epoch m) (em_pq_key_index m) with
         | Some _ => true
         | None => false
         end) || (current_pq_epoch s <? em_pq_message_epoch m)
    end
  else true.

Definition classical_within s m : bool :=
  (if on_new_chain s (em_dh_public_key m) then
     (em_message_number m <=? max_message_jump global) &&
     (em_previous_chain_length m <=? receiving_chain_length s + max_message_jump global)
   else em_message_number m <=? receiving_chain_length s + max_message_jump global) &&
  (Z.of_nat (size (skipped_message_keys s)) + passes s m <? max_skipped_messages global).

Definition within_limits s m : bool :=
  match skipped_message_keys s !! slot_of m with
  | Some _ => true
  | None => classical_within s m
  end && pq_within s m.

Lemma within_not_over s m e : within_limits s m = true → ¬ over_limit s m e.
Proof.
  unfold within_limits, classical_within. intros [Hj Hp]%andb_prop Ho.
  destruct Ho as [Hk Hc Hl|Hk Hc Hl|Hk Hc Hl|Hk Hl|e (Hsl & Hpq)]; try rewrite Hk in Hj;
    try rewrite Hc in Hj; try lia.
  unfold pq_within in Hp. rewrite Hsl in Hp.
  destruct Hpq as [(ch & Hch & Ho)|(_ & Hk & Hch & He)]; rewrite Hch in Hp.
  - destruct Ho as [[_ ?]|[_ ?]]; lia.
  - rewrite Hk in Hp. simpl in Hp. lia.
Qed.

Lemma wp_run {S E V} ϕ (k : stm S E V) (x : S) Q R :
  wp ϕ k x Q R →
  match (k x).2 with Ok a => Q a (k x).1 | Err e => R e (k x).1 | Panic => ϕ end.
Proof. unfold wp. by destruct (k x) as [? []]. Qed.

Section arrival.
Variables (t0 : Z) (h : handshake) (sec : option bytes) (c : conv).
Hypothesis recent : ∀ w, t0 ≤ (clock w).2 < t0 + max_skipped_message_age_seconds global.
Hypothesis Hc : conversation h sec c.

(** The end that reads, and what is on its way to it. *)
Definition reader b : DoubleRatchetSession := if b then cv_alice c else cv_bob c.
Definition inbox b : wire := if b then cv_to_alice c else cv_to_bob c.

Lemma conversation_receive b i m p w :
  inbox b !! i = Some (m, p) → current_pq_epoch (reader b) < u32_max →
  wp False (decrypt_with_identity_secret m sec) (reader b, w) (λ x _, x = p)
    (λ e _, over_limit (reader b) m e).
Proof.
  intros Hi Hu. pose proof (conversation_talk t0 h sec recent c Hc) as Ht.
  assert (∃ o, talk t0 sec b (cv_seen c) (reader b) (reader (negb b)) o (inbox b)) as [o Hb].
  { destruct b; [by eexists|]. apply (talk_sym _ _ true) in Ht. by eexists. }
  eapply wp_mono; [by apply (talk_receive t0 sec recent _ _ _ _ _ _ i m p w Hb)| |done]. by intros x sw [-> _].
Qed.
End arrival.

Lemma skipped_below_jump : max_skipped_messages global ≤ max_message_jump global.
Proof. by vm_compute. Qed.

(** A message that opens a session is within the limits of the session it opens. *)
Lemma opening_within t0 sec seen A1 B0 out i m p :
  talk t0 sec true seen A1 B0 out ∅ → linked sec B0 A1 → out !! i = Some (m, p) →
  em_dh_public_key m = own_key A1 →
  receiving_chain_length B0 = 0 → skipped_message_keys B0 = ∅ → current_pq_epoch B0 = 0 →
  pending_pq_ciphertext B0 = None → em_message_number m < max_skipped_messages global →
  within_limits B0 m = true.
Proof.
  intros [_ _ _ _ [Hs Hpq] [Hf _] _] Hl Hi Hdh Hr Hk He Hp Hn. pose proof skipped_below_jump.
  destruct (Hf i m p Hi) as [[_ [(_ & _ & _ & _ & [Hm0 _] & _) _] _ _ _] _ _ Hfrom _].
  unfold within_limits, classical_within, passes. rewrite Hk, lookup_empty, map_size_empty.
  rewrite (on_new_chain_spec _ _ _ (lk_remote _ _ _ Hl)), Hdh, bool_decide_eq_true_2 by done.
  simpl. rewrite Hr. apply andb_true_iff. split; [apply andb_true_iff; split; [apply Z.leb_le; lia|apply Z.ltb_lt; lia]|].
  unfold pq_within, pq_slotted. destruct (is_pq_ratchet _) eqn:Hsu; [|done].
  destruct (Z.eqb_spec (em_pq_message_epoch m) 0) as [|Hne]; [done|]. exfalso.
  symmetry in Hs. destruct (Hfrom Hs) as [Hle _].
  destruct (Hpq Hs) as [_ _ _ _ _ _ [[Heq _]|(_ & p' & b & Hp' & _)]]; [lia|congruence].
Qed.

(** C1: messages arrive. In every state a conversation leads to - two sessions
    opened by the constructors on the same X3DH key, with or without the
    identity proof, and any interleaving of sending, delivery in any order,
    loss, refused messages (forged, repeated, out of bounds), storing and
    loading - every message still under way, to either end, is decrypted to
    the plaintext that [encrypt] was given, or is refused for one of the
    configured limits: it is too far ahead, too many keys would have to be
    kept, or its PQ epoch has been dropped. Four things are assumed: every clock
    reading lies in one interval of [max_skipped_message_age_seconds], a week (past
    it kept keys are dropped and a proposal may be repeated, [RatchetStale.v]); a
    freshly generated ratchet key is one neither end has used; the reader's PQ
    epoch is below the last 32-bit number; and the laws of the platform, of the
    provider and of ML-KEM. *)
Theorem messages_arrive t0 h sec c b i m p w :
  (∀ w, t0 ≤ (clock w).2 < t0 + max_skipped_message_age_seconds global) →
  conversation h sec c → inbox c b !! i = Some (m, p) → current_pq_epoch (reader c b) < u32_max →
  match (decrypt_with_identity_secret m sec (reader c b, w)).2 with
  | Ok p' => p' = p
  | Err e => over_limit (reader c b) m e
  | Panic => False
  end.
Proof.
  intros Hr Hc Hi Hu. exact (wp_run _ _ _ _ _ (conversation_receive t0 h sec c Hr Hc b i m p w Hi Hu)).
Qed.

(** C2: within a week nothing gets stuck. Under the assumptions of the previous
    theorem (the clock within one interval of [max_skipped_message_age_seconds],
    fresh ratchet keys, a PQ epoch below the last), a message under way that is
    within the limits is decrypted: no sequence of events that fits the interval,
    of whatever outcome, leaves the two ends in states that no longer understand
    each other. Over a longer time one can ([RatchetStale.v]). *)
Theorem conversation_lives t0 h sec c b i m p w :
  (∀ w, t0 ≤ (clock w).2 < t0 + max_skipped_message_age_seconds global) →
  conversation h sec c → inbox c b !! i = Some (m, p) → current_pq_epoch (reader c b) < u32_max →
  within_limits (reader c b) m = true →
  ∃ s' w', decrypt_with_identity_secret m sec (reader c b, w) = ((s', w'), Ok p).
Proof.
  intros Hr Hc Hi Hu Hl. pose proof (conversation_receive t0 h sec c Hr Hc b i m p w Hi Hu) as Hw.
  unfold wp in Hw. destruct (decrypt_with_identity_secret _ _ _) as [[s' w'] [x|e|]]; [|by destruct (within_not_over _ _ e Hl)|done].
  exists s', w'. by subst.
Qed.

(** Every message of an opening names the initiator's ephemeral key. *)
Lemma opening_ephemeral t0 h sec A out i m p :
  (∀ w, t0 ≤ (clock w).2 < t0 + max_skipped_message_age_seconds global) →
  opening h sec A out → out !! i = Some (m, p) →
  ∃ pk, from_private_key_to_public_key (is_ephemeral_private (hs_state h)) = Ok pk ∧ em_dh_public_key m = kem_public_ref pk.
Proof.
  intros Hr Ho Hi. destruct (opening_opens t0 h sec Hr A out Ho) as [A0 Hok].
  destruct (opening_header t0 h sec A out A0 i m p Hok Hi) as (Hdh & _). destruct Hok as [_ _ (w & w' & HA) _ _ _].
  pose proof (new_initiator_opens (hs_root h) (hs_state h) (hs_remote h) (hs_bob h) (hs_alice h) (hs_suite h) w) as Hw.
  unfold wp in Hw. unfold initiates in HA. rewrite HA in Hw. destruct Hw as (? & ? & ? & ? & pk & ? & ? & _ & Hpk & _ & ->).
  by exists pk.
Qed.

(** The responder's session from a first message, and its id. *)
Lemma first_message_session t0 h sec A out i m p w :
  (∀ w, t0 ≤ (clock w).2 < t0 + max_skipped_message_age_seconds global) →
  opening h sec A out → out !! i = Some (m, p) → em_message_number m < max_skipped_messages global →
  (∀ w' B, responds h m w = (w', Ok B) →
    own_key B ∉ ({[own_key A; kem_public_ref (hs_remote h)]} : gset bytes)) →
  ∃ B w', new_responder_session (hs_root h) (hs_identity h) m (hs_alice h) (hs_bob h) w = (w', Ok (B, p)) ∧
    derive_shared_session_id (hs_root h) (hs_alice h) (hs_bob h) = Ok (session_id B).
Proof.
  intros Hr Ho Hi Hn Hfr. destruct (opening_opens t0 h sec Hr A out Ho) as [A0 Hok].
  destruct (opening_header t0 h sec A out A0 i m p Hok Hi) as (Hdh & Hsu & _ & _).
  destruct Hok as [Hs Hid (w0 & w0' & HA) _ _ _].
  destruct (initiates_pair _ _ _ _ HA) as (sk & Hpk).
  pose proof (responder_base_total (hs_root h) (hs_identity h) (hs_remote h) sk _ m (hs_suite h)
    (hs_alice h) (hs_bob h) w Hid Hpk Hdh) as Hb. rewrite Hsu in Hb.
  specialize (Hb (suite_new_roundtrip _ Hs)). unfold wp in Hb. unfold responds in Hfr. unfold new_responder_session.
  destruct (responder_base _ _ _ _ _ _) as [w1 [B0|e|]] eqn:HB; [|done..].
  specialize (Hfr _ _ eq_refl).
  destruct (opening_meets t0 h sec Hr A out i m p w w1 B0 Ho Hi HB Hfr) as (A1 & Htk & Hl & Hdh1 & _ & (? & ? & ? & ?) & _).
  pose proof (opening_within t0 None _ A1 B0 out i m p Htk Hl Hi Hdh1) as Hlim.
  pose proof (opening_reads t0 h sec Hr A out i m p w w1 B0 Ho Hi HB Hfr) as Hd. unfold wp in Hd.
  pose proof (talk_receive_address t0 None Hr _ _ _ _ _ _ i m p w1 (talk_sym _ _ _ _ _ _ _ _ Htk) Hi) as Hadr. unfold wp in Hadr.
  pose proof (responder_base_opens (hs_root h) (hs_identity h) m (hs_alice h) (hs_bob h) w) as Hop. unfold wp in Hop. rewrite HB in Hop.
  destruct (decrypt m (B0, w1)) as [[B w2] [x|e|]] eqn:Hdec; [|by destruct (within_not_over B0 m e); auto|done].
  unfold decrypt in Hdec. rewrite Hdec in Hadr. destruct Hd as [-> _]. exists B, w2. split; [done|].
  destruct Hop as (sid & ? & ? & ? & ? & ? & ? & ? & ? & ? & ? & ? & [Hsid _] & _ & _ & _ & _ & _ & EB).
  rewrite EB in Hadr. unfold address in Hadr. simpl in Hadr. rewrite shared_session_id_sym, Hsid. f_equal. by injection Hadr.
Qed.

(** C3: a session opens. The initiator may have sent any number of messages
    before its peer answered, some of which were lost; the responder builds its
    session from whichever arrives first, if fewer than [max_skipped_messages]
    were sent before it, and reads it. The clock stays within one interval of
    [max_skipped_message_age_seconds], and the ratchet key the responder generates
    is neither the initiator's nor the one the initiator opened with. *)
Theorem first_message_opens t0 h sec A out i m p w :
  (∀ w, t0 ≤ (clock w).2 < t0 + max_skipped_message_age_seconds global) →
  opening h sec A out → out !! i = Some (m, p) → em_message_number m < max_skipped_messages global →
  (∀ w' B, responds h m w = (w', Ok B) →
    own_key B ∉ ({[own_key A; kem_public_ref (hs_remote h)]} : gset bytes)) →
  ∃ B w', new_responder_session (hs_root h) (hs_identity h) m (hs_alice h) (hs_bob h) w
    = (w', Ok (B, p)).
Proof.
  intros Hr Ho Hi Hn Hfr. destruct (first_message_session t0 h sec A out i m p w Hr Ho Hi Hn Hfr) as (B & w' & HB & _).
  by exists B, w'.
Qed.
End conversation.

(** ** A conversation that evaluates *)

Definition demo_handshake : handshake :=
  mkHandshake (demo_bytes 9) (mkInitiatorState (demo_bytes 55)) (demo_bytes 77) (demo_bytes 77)
    "alice" "bob" PQ_RATCHET.
Definition demo_at (z : Z) : World := z.
Definition demo_secret : bytes := demo_bytes 5.
Definition demo_opened : DoubleRatchetSession := expect_identity_answer (demo_alice PQ_RATCHET).

(** Alice's first message, Bob's session from it, his answer and his reply. *)
Definition demo_run1 := encrypt demo_hello (demo_opened, (demo_at 200)).
Definition demo_run2 := responds demo_handshake (result demo_run1.2) (demo_at 300).
Definition demo_run3 := decrypt (result demo_run1.2) (result demo_run2.2, demo_run2.1).
Definition demo_run4 := answer_initiator_identity demo_secret demo_hello (demo_run3.1.1, (demo_at 450)).
Definition demo_run5 := encrypt demo_hello (demo_run4.1.1, (demo_at 500)).

Lemma demo_runs_ok :
  is_ok (demo_initiator PQ_RATCHET demo_world).2 && is_ok demo_run1.2 && is_ok demo_run2.2 &&
  is_ok demo_run3.2 && is_ok demo_run4.2 && is_ok demo_run5.2 = true.
Proof. vm_compute. reflexivity. Qed.

Lemma pair_ok {W E A} `{Inhabited A} (x : W * res E A) :
  is_ok x.2 = true → x = (x.1, Ok (result x.2)).
Proof. by destruct x as [? []]. Qed.

Lemma unit_ok {E} (x : res E unit) : is_ok x = true → x = Ok tt.
Proof. by destruct x as [[]| |]. Qed.

Lemma demo_clock w : 0 ≤ (clock w).2 < 0 + max_skipped_message_age_seconds global.
Proof.
  assert (2 ^ 19 ≤ max_skipped_message_age_seconds global) by by vm_compute.
  simpl. pose proof (Z.mod_pos_bound w (2 ^ 19)). lia.
Qed.

Lemma demo_opening :
  opening demo_handshake (Some demo_secret) demo_run1.1.1 {[0%nat := (result demo_run1.2, demo_hello)]}.
Proof.
  pose proof demo_runs_ok as [[[[[H0 H1]%andb_prop _]%andb_prop _]%andb_prop _]%andb_prop _]%andb_prop.
  eapply (opening_acts _ _ demo_opened ∅ _ _ ∅); [|eapply (act_send _ _ _ _ _ 0%nat demo_hello (demo_at 200))].
  - apply (opening_new demo_handshake (Some demo_secret) demo_world
      (demo_initiator PQ_RATCHET demo_world).1); [done|by vm_compute|].
    exact (pair_ok (demo_initiator PQ_RATCHET demo_world) H0).
  - by vm_compute.
  - done.
  - apply run_eq. by apply result_ok.
Qed.

Definition demo_key (s : DoubleRatchetSession) : bytes := kem_public_ref (dh_ratchet_public s).
Definition demo_seen : gset bytes :=
  {[demo_key demo_run3.1.1; demo_key (result demo_run2.2); demo_key demo_run1.1.1;
    kem_public_ref (hs_remote demo_handshake)]}.
Definition demo_conv : conv :=
  mkConv demo_run1.1.1 demo_run5.1.1 (delete 0%nat {[0%nat := (result demo_run1.2, demo_hello)]})
    (<[0%nat := (result demo_run5.2, demo_hello)]> ∅) demo_seen.

Lemma demo_conversation : conversation demo_handshake (Some demo_secret) demo_conv.
Proof.
  pose proof demo_runs_ok as [[[[_ H2]%andb_prop H3]%andb_prop H4]%andb_prop H5]%andb_prop.
  apply (conv_bob _ _ demo_run1.1.1 demo_run4.1.1
    (delete 0%nat {[0%nat := (result demo_run1.2, demo_hello)]}) ∅ demo_seen).
  - apply (conv_open demo_handshake (Some demo_secret) demo_run1.1.1
      {[0%nat := (result demo_run1.2, demo_hello)]} 0%nat (result demo_run1.2) demo_hello
      (demo_at 300) demo_run2.1 (result demo_run2.2) demo_run3.1.1 demo_run3.1.2 (result demo_run3.2)).
    + exact demo_opening.
    + apply lookup_singleton_eq.
    + exact (pair_ok demo_run2 H2).
    + apply (bool_decide_eq_true_1 _). vm_compute. reflexivity.
    + apply run_eq. by apply result_ok.
    + intros Hne. destruct Hne. vm_compute. reflexivity.
    + exists demo_hello, (demo_at 450), demo_run4.1.2. apply run_eq. by apply unit_ok.
  - apply (act_send _ _ _ _ _ 0%nat demo_hello (demo_at 500) _ demo_run5.1.2).
    + by vm_compute.
    + done.
    + apply run_eq. by apply result_ok.
Qed.

Lemma demo_inbox : inbox demo_conv true !! 0%nat = Some (result demo_run5.2, demo_hello).
Proof. reflexivity. Qed.
Lemma demo_reader : current_pq_epoch (reader demo_conv true) < u32_max.
Proof. by vm_compute. Qed.

Lemma messages_arrive_witness :
  match (decrypt_with_identity_secret (result demo_run5.2) (Some demo_secret)
           (reader demo_conv true, demo_at 600)).2 with
  | Ok p' => p' = demo_hello
  | Err e => over_limit (reader demo_conv true) (result demo_run5.2) e
  | Panic => False
  end.
Proof.
  exact (messages_arrive 0 demo_handshake (Some demo_secret) demo_conv true 0 _ _ (demo_at 600)
    demo_clock demo_conversation demo_inbox demo_reader).
Defined.

Lemma conversation_lives_witness :
  within_limits (reader demo_conv true) (result demo_run5.2) = true ∧
  ∃ s' w', decrypt_with_identity_secret (result demo_run5.2) (Some demo_secret)
    (reader demo_conv true, demo_at 600) = ((s', w'), Ok demo_hello).
Proof.
  assert (within_limits (reader demo_conv true) (result demo_run5.2) = true) as Hl
    by (vm_compute; reflexivity).
  split; [exact Hl|].
  exact (conversation_lives 0 demo_handshake (Some demo_secret) demo_conv true 0 _ _ (demo_at 600)
    demo_clock demo_conversation demo_inbox demo_reader Hl).
Defined.

Lemma first_message_opens_witness :
  ∃ B w', new_responder_session (demo_bytes 9) (demo_bytes 77) (result demo_run1.2) "alice" "bob"
    (demo_at 300) = (w', Ok (B, demo_hello)).
Proof.
  apply (first_message_opens 0 demo_handshake (Some demo_secret) demo_run1.1.1 _ 0
    (result demo_run1.2) demo_hello (demo_at 300) demo_clock demo_opening).
  - apply lookup_singleton_eq.
  - by vm_compute.
  - intros w' B HB. replace B with (result demo_run2.2) by (unfold demo_run2; by rewrite HB).
    apply (bool_decide_eq_true_1 _). vm_compute. reflexivity.
Defined.
