(* ===== verification/RatchetStale.v ===== *)
(** * Double ratchet: a late PQ proposal

    [abandon_unanswered_pq_exchange] lets the initiator give up a proposal after
    a week and make another for the same epoch. A message that carries the old
    key may still be under way. [RatchetConversation.v] keeps the clock within
    a week; here it does not, and the old key arrives after the exchange it was
    replaced by has completed. The theorem is about every responder in that place;
    the run at the end takes two sessions there. *)

From S2P Require Import Prelude SuiteId Padding Platform Wp Classic Toy RatchetTypes RatchetPq Ratchet.
From S2P Require Import RatchetRollback RatchetPqInv RatchetDemo.

Section late.
Context `{MlKemCrate} `{!HexCrate} `{!CryptoProvider} `{!ProviderLaws}.
Abbreviation dr A := (method DoubleRatchetSession DrError A).
Implicit Types (s R : DoubleRatchetSession) (m : EncryptedRatchetMessage).

(** What decides how a proposal is met: the role, the epoch reached, the epochs with
    chains, and the proposal answered last. *)
Definition meeting s :=
  (suite_id s, is_pq_initiator s, current_pq_epoch s, pc_epoch <$> pq_chains s,
   (λ p, (ct_epoch p, ct_ek_hash p)) <$> pending_pq_ciphertext s).

(** A method that leaves it alone when it succeeds. *)
Definition leaves {A} (f : dr A) : Prop := ∀ s w,
  wp True f (s, w) (λ _ sw, meeting sw.1 = meeting s) (λ _ _, True).

Lemma leaves_keeps {A} (f : dr A) : keeps meeting f → leaves f.
Proof. intros Hf s w. by eapply wp_mono; [apply Hf|..]. Qed.
Lemma leaves_bind {A B} (f : dr A) (g : A → dr B) : leaves f → (∀ a, leaves (g a)) → leaves (f ≫= g).
Proof.
  intros Hf Hg s w. apply wp_bind. eapply wp_mono; [apply Hf| |done].
  intros a [s' w'] Hs. simpl in *. eapply wp_mono; [apply Hg| |done]. simpl. congruence.
Qed.
Lemma leaves_restoring {A} sn (f : dr A) : leaves f → leaves (restoring sn f).
Proof. intros Hf s w. unfold restoring. wp_step. by eapply wp_mono; [apply Hf|..]. Qed.
Lemma leaves_fail {A} sn e : leaves (fail_restoring (A := A) sn e).
Proof. intros s w. unfold fail_restoring. by wp_steps. Qed.

(** ** Up to the commit *)

Lemma keeps_meeting_advance : keeps meeting maybe_advance_pq_ratchet.
Proof.
  unfold maybe_advance_pq_ratchet, abandon_unanswered_pq_exchange, pq_epoch_is_old, start_pq_exchange.
  keeps_tac.
Qed.
Hint Resolve keeps_meeting_advance : keeps.
Lemma keeps_meeting_dh k sec : keeps meeting (perform_dh_ratchet k sec).
Proof. unfold perform_dh_ratchet, debug_assert. keeps_tac. Qed.
Lemma keeps_meeting_cleanup : keeps meeting periodic_cleanup.
Proof. unfold periodic_cleanup, cleanup_old_skipped_keys. keeps_tac. Qed.
Lemma keeps_meeting_store c k n : keeps meeting (store_skipped c k n).
Proof. unfold store_skipped. keeps_tac. Qed.

Lemma alter_first_epochs f e l : (∀ c, pc_epoch (f c) = pc_epoch c) → pc_epoch <$> alter_first_epoch f e l = pc_epoch <$> l.
Proof.
  intros Hf. induction l as [|c l IH]; [done|]. cbn [alter_first_epoch]. destruct (pc_epoch c =? e); rewrite !fmap_cons; [by rewrite Hf|by rewrite IH].
Qed.

Lemma keeps_meeting_receive e i : keeps meeting (pq_receive_key e i).
Proof.
  unfold pq_receive_key. keeps_tac. intros s w. unfold wp, advance_recv_chain. simpl.
  assert (∀ st, meeting (write_recv e st s) = meeting s) as Hw.
  { intros st. unfold write_recv, set_recv_chain, meeting. destruct (find_epoch _ _); simpl.
    - by rewrite alter_first_epochs.
    - by destruct (pending_pq_ciphertext s). }
  destruct (pq_recv_loop _ _ _ _ _) as [st []]; simpl; done || apply Hw.
Qed.
Hint Resolve keeps_meeting_receive : keeps.
Lemma leaves_with_key k m : leaves (decrypt_with_key k m).
Proof. apply leaves_keeps. unfold decrypt_with_key. keeps_tac. Qed.

Lemma leaves_bump sn : leaves (bump_receiving_length sn).
Proof.
  intros s w. unfold bump_receiving_length. do 2 wp_step. wp_step; [by wp_step|]. apply leaves_fail.
Qed.
Lemma leaves_skip_old sn n c pn : leaves (skip_old_chain sn n c pn).
Proof.
  induction n as [|n IH]; cbn [skip_old_chain]; (apply leaves_bind; [done|intros s]); case_match; try done.
  case_match; [apply leaves_fail|]. apply leaves_bind; [apply leaves_restoring, leaves_keeps, keeps_lift|]. intros [k nx].
  apply leaves_bind; [apply leaves_keeps, keeps_meeting_store|]. intros _. apply leaves_bind; [apply leaves_bump|done].
Qed.
Lemma leaves_ratchet_to sn k m sec : leaves (ratchet_to sn k m sec).
Proof.
  unfold ratchet_to. apply leaves_bind; [done|intros s]. apply leaves_bind; [|intros _; apply leaves_restoring, leaves_keeps, keeps_meeting_dh].
  case_match; [apply leaves_skip_old|done].
Qed.

(** ** The proposal *)

Section proposal.
Context (e : Z) (key h : bytes) (m : EncryptedRatchetMessage).
Hypothesis Hfield : em_pq_ratchet_field m = Some (PublicKey e key).
Hypothesis Hepoch : em_pq_message_epoch m < e.
Hypothesis Hhash : pq_ek_hash key = Ok h.
Hypothesis Hsize : len key = MLKEM768_PK_SIZE.
Hypothesis Hvalid : mlkem_ek_valid key = true.

(** The responder holds ready the chains of epoch [e], agreed on another key. *)
Definition answered_another s : Prop :=
  is_pq_ratchet (suite_id s) = true ∧ is_pq_initiator s = false ∧ current_pq_epoch s < e ∧
  (e ∉ (pc_epoch <$> pq_chains s)) ∧
  ∃ p, pending_pq_ciphertext s = Some p ∧ ct_epoch p = e ∧ ct_ek_hash p ≠ h.

(** It answers [key], and its chain for the epoch's messages comes of that answer. *)
Definition answers_late s : Prop := ∃ w c,
  pq_epoch_chains (mlkem_encapsulate key w).2.2 e false = Ok c ∧
  pending_pq_ciphertext s = Some {| ct_epoch := e; ct_ek_hash := h; ct_ciphertext := (mlkem_encapsulate key w).2.1; ct_chains := c |} ∧
  recv_chain_of s e = Some (pc_recv c).

Definition ends_late {A} (f : dr A) : Prop := ∀ s w,
  answered_another s → wp True f (s, w) (λ _ sw, answers_late sw.1) (λ _ _, True).

Lemma meeting_answered s s' : meeting s' = meeting s → answered_another s → answered_another s'.
Proof.
  unfold meeting, answered_another. intros [= -> -> -> Hc Hp] (? & ? & ? & Hf & p & Hs & He & Hh). rewrite Hc. split_and!; [done..|].
  rewrite Hs in Hp. destruct (pending_pq_ciphertext s') as [q|]; [|done]. injection Hp as Hqe Hqh. exists q. split_and!; congruence.
Qed.

Lemma ends_after {A B} (f : dr A) (g : A → dr B) : leaves f → (∀ a, ends_late (g a)) → ends_late (f ≫= g).
Proof.
  intros Hf Hg s w Hs. apply wp_bind. eapply wp_mono; [apply Hf| |done]. intros a [s' w'] Hm. apply Hg. by eapply meeting_answered.
Qed.
Lemma ends_fail {A} sn err : ends_late (fail_restoring (A := A) sn err).
Proof. intros s w _. unfold fail_restoring. by wp_steps. Qed.

Lemma no_chains l : e ∉ (pc_epoch <$> l) → find_epoch e l = None.
Proof.
  induction l as [|c l IH]; [done|]. rewrite fmap_cons, not_elem_of_cons. intros [Hc Hl]. cbn [find_epoch].
  destruct (Z.eqb_spec (pc_epoch c) e); [done|]. by apply IH.
Qed.

Lemma ends_commit : ends_late (commit_pq_post_decrypt m).
Proof.
  intros s w (Hsu & Hi & Hcur & Hch & p & Hp & Hpe & Hph). unfold commit_pq_post_decrypt. do 2 wp_step. rewrite Hsu. cbn [negb].
  unfold promote_pending_ciphertext. do 3 wp_step. rewrite Hp, Hpe. destruct (Z.geb_spec (em_pq_message_epoch m) e); [lia|]. wp_step. rewrite Hfield.
  unfold ingest_public_key. do 2 wp_step. rewrite Hi. destruct (Z.leb_spec e (current_pq_epoch s)); [lia|]. wp_step. apply wp_lift. rewrite Hhash.
  cbv beta match zeta. rewrite Hp, Hpe, Z.eqb_refl, bool_decide_eq_false_2 by done. cbn [andb]. do 3 wp_step.
  unfold mlkem768_encapsulate. rewrite Hsize, Z.eqb_refl, Hvalid. cbn [negb]. unfold wp at 1.
  destruct (mlkem_encapsulate key w) as [w1 [ct ss]] eqn:Hw. cbn [mlkem_shared_secret mlkem_ciphertext]. do 2 wp_step. apply wp_lift.
  destruct (pq_epoch_chains_spec ss e false) as (c & ch & Hc & _). rewrite Hc. wp_step. exists w, c. rewrite Hw. cbn [fst snd].
  split_and!; [done|done|]. unfold recv_chain_of. cbn. by rewrite no_chains, Z.eqb_refl.
Qed.
Lemma ends_in_order sn r k n : ends_late (open_in_order sn r k n m).
Proof.
  unfold open_in_order. apply ends_after; [by apply leaves_keeps, keeps_update; intros []|intros _].
  apply ends_after; [apply leaves_bump|intros _]. apply ends_after; [done|intros s1].
  apply ends_after; [by apply leaves_keeps; unfold debug_assert; keeps_tac|intros _].
  apply ends_after; [apply leaves_restoring, leaves_with_key|intros p]. intros s w Hs. wp_step.
  eapply wp_mono; [by apply ends_commit| |done]. intros _ [s2 w2] Hl. destruct r; wp_steps; [|done].
  unfold complete_identity_proof. cbn [fst]. by case_match.
Qed.

Lemma ends_skipped sn k slot : ends_late (open_skipped sn k slot m).
Proof.
  unfold open_skipped. apply ends_after; [by apply leaves_keeps, keeps_update; intros []|intros _].
  apply ends_after; [done|intros s1]. apply ends_after; [apply leaves_restoring, leaves_with_key|intros p].
  apply ends_after; [done|intros s2]. apply ends_after; [by apply leaves_keeps; unfold debug_assert; keeps_tac|intros _].
  intros s w Hs. wp_step. eapply wp_mono; [by apply ends_commit|done..].
Qed.

Lemma ends_receive sn n r : ends_late (receive_loop sn n r m).
Proof.
  induction n as [|n IH]; cbn [receive_loop]; (apply ends_after; [done|intros s1]).
  - case_match; [intros s w _; by wp_steps|done].
  - case_match; [intros s w _; by wp_steps|]. apply ends_after; [apply leaves_restoring, leaves_keeps, keeps_lift|]. intros [k nx].
    case_match; [apply ends_in_order|]. apply ends_after; [apply leaves_keeps, keeps_meeting_store|intros _].
    apply ends_after; [apply leaves_bump|intros _]. apply ends_after; [done|intros s2]. case_match; [apply ends_fail|done].
Qed.

Lemma ends_decrypt sec : ends_late (decrypt_with_identity_secret m sec).
Proof.
  intros s w Hs. unfold decrypt_with_identity_secret. wp_step. eapply wp_mono with (Q := λ _ sw, answers_late sw.1); [|by intros; wp_steps|done].
  revert s w Hs. unfold decrypt_message. apply ends_after; [apply leaves_keeps, keeps_meeting_cleanup|intros _]. unfold decrypt_clean.
  apply ends_after; [done|intros s1]. case_match; [apply ends_skipped|]. unfold open_on_chain. apply ends_after; [done|intros s2].
  apply ends_after; [apply leaves_keeps, keeps_lift|intros _]. apply ends_after; [case_match; [apply leaves_ratchet_to|done]|intros _].
  apply ends_after; [done|intros s3]. apply ends_receive.
Qed.
End proposal.

(** C15: a late proposal loses the epoch it is for. Take any responder that holds ready the
    chains of an epoch agreed on one key of the initiator's, and any message of an earlier
    epoch, with another key for the same epoch, that it opens: one the initiator sent before
    it gave that key up. The chain the responder had for the initiator's messages of the
    epoch is replaced by one derived from a fresh encapsulation to the old key, whatever the
    initiator has done meanwhile with the answer to the new one. *)
Theorem late_proposal_loses_epoch e key h m sec p R w R' w' plaintext :
  is_pq_ratchet (suite_id R) = true → is_pq_initiator R = false →
  current_pq_epoch R < e → (e ∉ (pc_epoch <$> pq_chains R)) →
  pending_pq_ciphertext R = Some p → ct_epoch p = e →
  em_pq_ratchet_field m = Some (PublicKey e key) → em_pq_message_epoch m < e →
  len key = MLKEM768_PK_SIZE → mlkem_ek_valid key = true → pq_ek_hash key = Ok h → ct_ek_hash p ≠ h →
  decrypt_with_identity_secret m sec (R, w) = ((R', w'), Ok plaintext) →
  recv_chain_of R e = Some (pc_recv (ct_chains p)) ∧
  ∃ w1 c, pq_epoch_chains (mlkem_encapsulate key w1).2.2 e false = Ok c ∧
    recv_chain_of R' e = Some (pc_recv c) ∧
    pending_pq_ciphertext R' = Some {|
      ct_epoch := e; ct_ek_hash := h; ct_ciphertext := (mlkem_encapsulate key w1).2.1; ct_chains := c |}.
Proof.
  intros Hsu Hi Hcur Hch Hp Hpe Hf Hme Hlen Hv Hh Hne Hrun. split.
  { unfold recv_chain_of. by rewrite no_chains, Hp, Hpe, Z.eqb_refl. }
  pose proof (ends_decrypt e key h m Hf Hme Hh Hlen Hv sec R w) as Hend. unfold wp in Hend. rewrite Hrun in Hend.
  destruct Hend as (w1 & c & Hc & Hpend & Hrecv); [|by exists w1, c]. split_and!; [done..|]. by exists p.
Qed.
End late.

(** A clock on which a thousand seconds pass with each reading. *)
Definition late_time (w : Z) : Z := (w * 1000) `mod` 2 ^ 40.
#[local] Instance late_platform : Platform := toy_clocked late_time.
#[local] Instance late_platform_laws : PlatformLaws.
Proof.
  split.
  - intros w. cbn. unfold late_time, is_u64, u64_max. pose proof (Z.mod_pos_bound (w * 1000) (2 ^ 40)). lia.
  - intros n w Hn. cbn. rewrite len_replicate. lia.
Qed.
#[local] Instance late_mlkem : MlKemCrate := toy_mlkem_on late_time.

Definition late_at (days : Z) : World := days * 90.

(** The session and the result of a call that succeeds. *)
Definition after {A} (x : (DoubleRatchetSession * World) * res DrError A)
    : res DrError (DoubleRatchetSession * A) :=
  match x with
  | ((s, _), Ok a) => Ok (s, a)
  | (_, Err e) => Err e
  | (_, Panic) => Panic
  end.

Definition late_initiator : stm World DrError DoubleRatchetSession :=
  new_initiator_session (demo_bytes 9) (mkInitiatorState (demo_bytes 55)) (demo_bytes 77)
    "bob" "alice" PQ_RATCHET.
Definition late_responder (m : EncryptedRatchetMessage)
    : stm World DrError (DoubleRatchetSession * bytes) :=
  new_responder_session (demo_bytes 9) (demo_bytes 77) m "alice" "bob".

(** Both sessions are opened on day 0. On day 8 Alice proposes a key; the
    message is delayed. On day 16 she gives the key up and proposes another,
    which Bob answers and she completes. Her next message is in the new epoch.
    Bob as he stands then, the delayed message and the next one. *)
Definition late_story : res DrError (DoubleRatchetSession * EncryptedRatchetMessage * EncryptedRatchetMessage) :=
  alice ← (late_initiator (late_at 0)).2;
  '(alice, opening) ← after (encrypt demo_hello (alice, late_at 0));
  '(bob, _) ← (late_responder opening (late_at 1)).2;
  '(alice, delayed) ← after (encrypt demo_hello (alice, late_at 8));
  '(alice, again) ← after (encrypt demo_hello (alice, late_at 16));
  '(bob, _) ← after (decrypt again (bob, late_at 16));
  '(bob, reply) ← after (encrypt demo_hello (bob, late_at 16));
  '(alice, _) ← after (decrypt reply (alice, late_at 17));
  '(alice, next) ← after (encrypt demo_hello (alice, late_at 17));
  Ok (bob, delayed, next).

Definition late_bob : DoubleRatchetSession := (result late_story).1.1.
Definition late_delayed : EncryptedRatchetMessage := (result late_story).1.2.
Definition late_next : EncryptedRatchetMessage := (result late_story).2.

(** The key that comes late, and the answer to the key that replaced it. *)
Definition late_key : bytes :=
  match em_pq_ratchet_field late_delayed with Some (PublicKey _ key) => key | _ => [] end.
Definition late_answer : PendingPqCiphertext :=
  default (mkPendingPqCiphertext 0 [] [] (mkPqEpochChains 0 None (mkPqChain 0 []))) (pending_pq_ciphertext late_bob).

(** What Bob is once the delayed message has come. *)
Definition late_reading : (DoubleRatchetSession * World) * res DrError bytes :=
  decrypt_with_identity_secret late_delayed None (late_bob, late_at 17).
Definition late_misled : DoubleRatchetSession := late_reading.1.1.

(** At the end of the story Bob can read Alice's next message. The delayed one opens too;
    once it has, his chain for the epoch is another one and her next message no longer
    decrypts. *)
Lemma late_proposal_loses_epoch_witness :
  (∃ c, recv_chain_of late_misled 1 = Some (pc_recv c) ∧ recv_chain_of late_bob 1 ≠ Some (pc_recv c)) ∧
  (decrypt late_next (late_bob, late_at 17)).2 = Ok demo_hello ∧
  ∃ e, (decrypt late_next (late_misled, late_at 17)).2 = Err (DecryptionFailed e).
Proof.
  split; [|split; [vm_compute; reflexivity|eexists; vm_compute; reflexivity]].
  destruct (late_proposal_loses_epoch 1 late_key (result (pq_ek_hash late_key)) late_delayed None late_answer late_bob (late_at 17)
      late_misled late_reading.1.2 demo_hello) as (_ & w & c & _ & Hr & _).
  - vm_compute. reflexivity.
  - vm_compute. reflexivity.
  - vm_compute. reflexivity.
  - refine (bool_decide_unpack _ _). vm_compute. exact I.
  - vm_compute. reflexivity.
  - vm_compute. reflexivity.
  - vm_compute. reflexivity.
  - vm_compute. reflexivity.
  - vm_compute. reflexivity.
  - vm_compute. reflexivity.
  - vm_compute. reflexivity.
  - refine (bool_decide_unpack _ _). vm_compute. exact I.
  - exact (run_eq late_reading (Ok demo_hello) ltac:(vm_compute; reflexivity)).
  - assert (recv_chain_of late_bob 1 ≠ recv_chain_of late_misled 1) as Hne.
    { intros Heq%(f_equal (λ o, chain_key <$> o)). revert Heq. refine (bool_decide_unpack _ _). vm_compute. exact I. }
    exact (ex_intro _ c (conj Hr (λ Heq, Hne (eq_trans Heq (eq_sym Hr))))).
Defined.
