(* ===== verification/RatchetTermination.v ===== *)
(** * Double ratchet: the loops of [decrypt] end

    The three [while] and [loop] statements a received message drives, in
    [decrypt_message] of [messaging.rs] and [pq_receive_key] of [internals.rs]. The
    message number, the previous chain length and the key index come from the
    header, before anything is authenticated. Each loop is given as its round, with
    no bound on how often it is run; shown is that it leaves, after a number of
    rounds the configuration bounds, and with what the definitions of the model
    return. *)

From S2P Require Import Prelude SuiteId Padding Platform Wp Classic Toy RatchetTypes RatchetPq.
From S2P Require Import Ratchet RatchetDemo RatchetRollback.

(** [loop { round }]: another round, or the value with which the loop leaves.
    [runs round k x y] goes round [k] times from [x] before it leaves with [y]. *)
Inductive runs {X Y} (round : X → X + Y) : nat → X → Y → Prop :=
  | runs_leave x y : round x = inr y → runs round 0 x y
  | runs_round x x' k y : round x = inl x' → runs round k x' y → runs round (S k) x y.

(** A definition by rounds with a measure that each round takes one from. *)
Lemma runs_measure {X Y} (round : X → X + Y) (loop : nat → X → Y) (inv : X → Prop) (rest : X → Z) :
  (∀ x, inv x → rest x ≤ 0 → round x = inr (loop 0%nat x)) →
  (∀ n x, loop (S n) x = match round x with inl x' => loop n x' | inr y => y end) →
  (∀ x x', inv x → round x = inl x' → inv x' ∧ rest x' = rest x - 1) →
  ∀ n x, inv x → rest x ≤ Z.of_nat n → ∃ k, (k ≤ n)%nat ∧ runs round k x (loop n x).
Proof.
  intros H0 HS Hr n. induction n as [|n IH]; intros x Hi Hn.
  - exists O. split; [done|]. constructor. by apply H0.
  - rewrite HS. destruct (round x) as [x'|y] eqn:Hx; [|by exists O; split; [lia|constructor]].
    destruct (Hr x x' Hi Hx) as [Hi' Hm]. destruct (IH x' Hi') as (k & Hk & Hrun); [lia|].
    exists (S k). split; [lia|]. by econstructor.
Qed.

Section termination.
Context `{MlKemCrate} `{!HexCrate} `{!CryptoProvider}.
#[local] Abbreviation state := (DoubleRatchetSession * World)%type.
#[local] Abbreviation outcome A := (state * res DrError A)%type.
#[local] Abbreviation dr A := (method DoubleRatchetSession DrError A).

(** A round that goes on as [m] does not fail. *)
Definition go_on {A B} (m : dr A) (f : A → state → state + outcome B) (sw : state) : state + outcome B :=
  match m sw with
  | (sw, Ok x) => f x sw
  | (sw, Err e) => inr (sw, Err e)
  | (sw, Panic) => inr (sw, Panic)
  end.

Definition skip_round (snap : DecryptSnapshot) (old_chain : bytes) (pn : Z) (sw : state) : state + outcome unit :=
  if negb (receiving_chain_length sw.1 <? pn) then inr (sw, Ok tt) else
  if too_many_skipped sw.1 then inr (fail_restoring snap TooManySkippedMessages sw) else
  go_on (restoring snap (lift (map_err KdfCkFailed (kdf_ck (receiving_chain_key sw.1)))))
    (λ '(msg_key, next_chain), go_on (store_skipped old_chain msg_key next_chain)
       (λ _, go_on (bump_receiving_length snap) (λ _, inl))) sw.

Definition receive_round (snap : DecryptSnapshot) (ratchet : bool) (m : EncryptedRatchetMessage) (sw : state) : state + outcome bytes :=
  if negb (receiving_chain_length sw.1 <=? em_message_number m) then
    inr ((update (restore_snapshot snap);; s ← self; throw (MessageKeyConsumed (em_message_number m) (receiving_chain_length s))) sw)
  else
  go_on (restoring snap (lift (map_err KdfCkFailed (kdf_ck (receiving_chain_key sw.1)))))
    (λ '(msg_key, next_chain) sw1,
       if receiving_chain_length sw.1 =? em_message_number m then inr (open_in_order snap ratchet msg_key next_chain m sw1) else
       go_on (store_skipped (em_dh_public_key m) msg_key next_chain)
         (λ _, go_on (bump_receiving_length snap)
            (λ _ sw, if too_many_skipped sw.1 then inr (fail_restoring snap TooManySkippedMessages sw) else inl sw)) sw1) sw.

Definition pq_round (epoch index t : Z) (st : PqRecv) : PqRecv + (PqRecv * res DrError (option bytes)) :=
  match pq_chain_step (pr_chain st) with
  | Ok (chain', i, key) =>
      let st := mkPqRecv chain' (pr_keys st) (pr_timestamps st) in
      if i =? index then inr (st, Ok (Some key)) else
      if Z.of_nat (size (pr_keys st)) >=? max_skipped_messages global then inr (st, Err TooManySkippedPqKeys) else
      inl (mkPqRecv chain' (<[(epoch, i) := key]> (pr_keys st)) (<[(epoch, i) := t]> (pr_timestamps st)))
  | Err e => inr (st, Err e)
  | Panic => inr (st, Panic)
  end.

(** [bump_receiving_length] and [store_skipped] by what they do to the length. *)
Lemma bump_length snap s w x : bump_receiving_length snap (s, w) = (x, Ok tt) → receiving_chain_length x.1 = receiving_chain_length s + 1.
Proof.
  unfold bump_receiving_length, checked_add32, mbind, stm_bind. cbn.
  destruct (_ <=? _); cbn; [|discriminate]. intros Hx. by injection Hx as <-.
Qed.
Lemma store_length c k n s w x : store_skipped c k n (s, w) = (x, Ok tt) → receiving_chain_length x.1 = receiving_chain_length s.
Proof.
  unfold store_skipped, now, mbind, stm_bind. cbn. destruct (clock w) as [w' t]. cbn. intros Hx. by injection Hx as <-.
Qed.
Lemma kdf_keeps snap s w x r : restoring snap (lift (map_err KdfCkFailed (kdf_ck (receiving_chain_key s)))) (s, w) = (x, Ok r) → x = (s, w).
Proof. unfold restoring, restore_on_err, on_err. cbn. destruct (kdf_ck _); cbn; congruence. Qed.
Lemma go_on_inl {A B} (m : dr A) (f : A → state → state + outcome B) sw sw' :
  go_on m f sw = inl sw' → ∃ x sw1, m sw = (sw1, Ok x) ∧ f x sw1 = inl sw'.
Proof. unfold go_on. destruct (m sw) as [sw1 [x|e|]]; [eauto|discriminate..]. Qed.

Lemma skip_moves snap c pn x x' : skip_round snap c pn x = inl x' → receiving_chain_length x'.1 = receiving_chain_length x.1 + 1.
Proof.
  destruct x as [s w]. unfold skip_round. repeat (case_match; [discriminate|]).
  intros ([k n] & x1 & Hk%kdf_keeps & ([] & x2 & Hs & ([] & x3 & Hb & Hx)%go_on_inl)%go_on_inl)%go_on_inl. subst x1.
  injection Hx as <-. destruct x2 as [s2 w2]. apply store_length in Hs. apply bump_length in Hb. cbn in *. lia.
Qed.
Lemma receive_moves snap r m x x' : receive_round snap r m x = inl x' → receiving_chain_length x'.1 = receiving_chain_length x.1 + 1.
Proof.
  destruct x as [s w]. unfold receive_round. case_match; [discriminate|].
  intros ([k n] & x1 & Hk%kdf_keeps & Hx)%go_on_inl. subst x1. revert Hx. case_match; [discriminate|].
  intros ([] & x2 & Hs & ([] & x3 & Hb & Hx)%go_on_inl)%go_on_inl. revert Hx. case_match; [discriminate|]. intros Hx. injection Hx as <-.
  destruct x2 as [s2 w2]. apply store_length in Hs. apply bump_length in Hb. cbn in *. lia.
Qed.
Lemma pq_moves epoch index t st st' : pq_round epoch index t st = inl st' →
  chain_index (pr_chain st') = chain_index (pr_chain st) + 1 ∧ chain_index (pr_chain st) ≠ index.
Proof.
  unfold pq_round, pq_chain_step, mbind, res_bind, checked_add32. destruct (map_err _ _) as [out|e|]; [|discriminate..].
  destruct (_ <=? _); cbn [ok_or]; [|discriminate]. destruct (slice 0 32 out); [|discriminate..]. destruct (slice_from 32 out); [|discriminate..].
  destruct (Z.eqb_spec (chain_index (pr_chain st)) index); [discriminate|]. case_match; [discriminate|]. intros Hx. by injection Hx as <-.
Qed.

(** The definitions of the model go round as the loops do. *)
Lemma skip_rounds snap c pn n x :
  skip_old_chain snap (S n) c pn x = match skip_round snap c pn x with inl x' => skip_old_chain snap n c pn x' | inr y => y end.
Proof.
  destruct x as [s w]. unfold skip_round, go_on. cbn [skip_old_chain]. unfold mbind at 1, stm_bind at 1. cbn [self fst].
  destruct (negb _); [done|]. destruct (too_many_skipped s); [done|]. unfold mbind, stm_bind.
  destruct (restoring snap _ _) as [x1 [[k nx]|e|]]; [|done..]. destruct (store_skipped c k nx x1) as [x2 [[]|e|]]; [|done..].
  by destruct (bump_receiving_length snap x2) as [x3 [[]|e|]].
Qed.
Lemma receive_rounds snap r m n x :
  receive_loop snap (S n) r m x = match receive_round snap r m x with inl x' => receive_loop snap n r m x' | inr y => y end.
Proof.
  destruct x as [s w]. unfold receive_round, go_on. cbn [receive_loop]. unfold mbind at 1, stm_bind at 1. cbn [self fst].
  destruct (negb _); [done|]. unfold mbind, stm_bind.
  destruct (restoring snap _ _) as [x1 [[k nx]|e|]]; [|done..]. destruct (_ =? _); [done|].
  destruct (store_skipped _ k nx x1) as [x2 [[]|e|]]; [|done..]. destruct (bump_receiving_length snap x2) as [[s3 w3] [[]|e|]]; [|done..].
  cbn [self fst]. by destruct (too_many_skipped s3).
Qed.
Lemma pq_rounds epoch index t n st :
  pq_recv_loop (S n) epoch index t st = match pq_round epoch index t st with inl st' => pq_recv_loop n epoch index t st' | inr y => y end.
Proof.
  unfold pq_round. cbn [pq_recv_loop]. destruct (pq_chain_step _) as [[[c i] key]|e|]; [|done..]. cbn. by repeat case_match.
Qed.

(** A DH step starts a new receiving chain. *)
Lemma length_start : keeps receiving_chain_length start_pq_exchange.
Proof. unfold start_pq_exchange. keeps_tac. Qed.
Lemma length_abandon : keeps receiving_chain_length abandon_unanswered_pq_exchange.
Proof. unfold abandon_unanswered_pq_exchange. keeps_tac. Qed.
Lemma length_epoch_is_old : keeps receiving_chain_length pq_epoch_is_old.
Proof. unfold pq_epoch_is_old. keeps_tac. Qed.
Lemma length_assert b : keeps receiving_chain_length (debug_assert b).
Proof. unfold debug_assert. keeps_tac. Qed.
Hint Resolve length_start length_abandon length_epoch_is_old length_assert : keeps.
Lemma length_maybe_advance : keeps receiving_chain_length maybe_advance_pq_ratchet.
Proof. unfold maybe_advance_pq_ratchet. keeps_tac. Qed.
Hint Resolve length_maybe_advance : keeps.

Lemma dh_ratchet_restarts k sec s w :
  wp True (perform_dh_ratchet k sec) (s, w) (λ _ sw, receiving_chain_length sw.1 = 0) (λ _ _, True).
Proof.
  unfold perform_dh_ratchet. do 5 wp_step. apply wp_lift_cases; [|done..]. intros sk _. wp_step.
  apply wp_lift_cases; [|done..]. intros dh _. wp_step. apply wp_lift_cases; [|done..]. intros [rk ck] _. do 2 wp_step.
  match goal with |- wp _ ?m (?s, _) _ _ => assert (keeps receiving_chain_length m) as Hk by keeps_tac end.
  eapply wp_mono; [apply Hk| |done]. by intros _ sw ->.
Qed.

Lemma skip_ends snap old pn s w : ∃ k, (k ≤ Z.to_nat (pn - receiving_chain_length s))%nat ∧
  runs (skip_round snap old pn) k (s, w) (skip_old_chain snap (Z.to_nat (pn - receiving_chain_length s)) old pn (s, w)).
Proof.
  apply (runs_measure _ (λ n, skip_old_chain snap n old pn) (λ _, True) (λ x, pn - receiving_chain_length x.1)); [| | |done|cbn; lia].
  - intros [s' w'] _ Hr. cbn in Hr. unfold skip_round. cbn. unfold mbind, stm_bind. cbn.
    by destruct (Z.ltb_spec (receiving_chain_length s') pn); [lia|].
  - intros n x. apply skip_rounds.
  - intros x x' _ Hx%skip_moves. split; [done|]. lia.
Qed.
Lemma receive_ends snap r m s w : ∃ k, (k ≤ Z.to_nat (em_message_number m - receiving_chain_length s + 1))%nat ∧
  runs (receive_round snap r m) k (s, w) (receive_loop snap (Z.to_nat (em_message_number m - receiving_chain_length s + 1)) r m (s, w)).
Proof.
  apply (runs_measure _ (λ n, receive_loop snap n r m) (λ _, True) (λ x, em_message_number m - receiving_chain_length x.1 + 1)); [| | |done|cbn; lia].
  - intros [s' w'] _ Hr. cbn in Hr. unfold receive_round. cbn. unfold mbind, stm_bind. cbn.
    by destruct (Z.leb_spec (receiving_chain_length s') (em_message_number m)); [lia|].
  - intros n x. apply receive_rounds.
  - intros x x' _ Hx%receive_moves. split; [done|]. lia.
Qed.
Lemma pq_ends epoch index t st : chain_index (pr_chain st) ≤ index →
  ∃ k, (k ≤ Z.to_nat (index - chain_index (pr_chain st) + 1))%nat ∧
  runs (pq_round epoch index t) k st (pq_recv_loop (Z.to_nat (index - chain_index (pr_chain st) + 1)) epoch index t st).
Proof.
  intros Hi. apply (runs_measure _ (λ n, pq_recv_loop n epoch index t) (λ st, chain_index (pr_chain st) ≤ index)
    (λ st, index - chain_index (pr_chain st) + 1)); [| | |done|lia].
  - intros st' Hi' Hr. lia.
  - intros n st'. apply pq_rounds.
  - intros st1 st2 Hi1 [Hc Hne]%pq_moves. split; lia.
Qed.

#[local] Abbreviation max_jump := (max_message_jump global).

(** C22: Decrypting ends, whatever the header claims. Past the jump guards, the loop
    that keeps the rest of the old chain, the loop that walks the receiving chain to
    the message - from where it stood, or from the start of the chain of a new DH
    step - and the loop that walks the post-quantum chain each leave of their own
    accord after at most the configured jump and one more round, with the result the
    model's definitions give; no number in a forged header makes them run longer. *)
Theorem decrypt_loops_end snap s w m :
  (∀ old, check_jump s true m = Ok tt →
    let pn := em_previous_chain_length m in
    ∃ k, Z.of_nat k ≤ max_jump ∧ runs (skip_round snap old pn) k (s, w)
      (skip_old_chain snap (Z.to_nat (pn - receiving_chain_length s)) old pn (s, w))) ∧
  (∀ ratchet remote secret s0 w0 s1 w1, check_jump s ratchet m = Ok tt →
    (if ratchet then perform_dh_ratchet remote secret (s0, w0) = ((s1, w1), Ok tt) else s1 = s) →
    ∃ k, Z.of_nat k ≤ max_jump + 1 ∧ runs (receive_round snap ratchet m) k (s1, w1)
      (receive_loop snap (Z.to_nat (em_message_number m - receiving_chain_length s1 + 1)) ratchet m (s1, w1))) ∧
  (∀ epoch index t chain keys times, chain_index chain ≤ index ≤ sat_add32 (chain_index chain) max_jump →
    let st := mkPqRecv chain keys times in
    ∃ k, Z.of_nat k ≤ max_jump + 1 ∧ runs (pq_round epoch index t) k st
      (pq_recv_loop (Z.to_nat (index - chain_index chain + 1)) epoch index t st)).
Proof.
  assert (0 ≤ max_jump) by done. split_and!.
  - intros old Hj pn. assert (pn ≤ receiving_chain_length s + max_jump) as Hpn.
    { revert Hj. unfold check_jump. case_match; [discriminate|]. case_match; [discriminate|]. intros _. unfold sat_add32 in *. lia. }
    destruct (skip_ends snap old pn s w) as (k & Hk & Hr). exists k. split; [lia|done].
  - intros ratchet remote secret s0 w0 s1 w1 Hj Hs1.
    assert (em_message_number m ≤ receiving_chain_length s1 + max_jump) as Hn.
    { revert Hj. unfold check_jump. destruct ratchet.
      - pose proof (dh_ratchet_restarts remote secret s0 w0) as Hw. unfold wp in Hw. rewrite Hs1 in Hw. cbn in Hw.
        case_match; [discriminate|]. intros _. lia.
      - subst s1. case_match; [discriminate|]. intros _. unfold sat_add32 in *. lia. }
    destruct (receive_ends snap ratchet m s1 w1) as (k & Hk & Hr). exists k. split; [lia|done].
  - intros epoch index t chain keys times Hi st. destruct (pq_ends epoch index t st) as (k & Hk & Hr); [apply Hi|].
    exists k. split; [|done]. unfold sat_add32 in Hi. cbn in *. lia.
Qed.
End termination.

(** A header that claims message 2000 of a new chain and 7 more of the old one. *)
Definition demo_claim : EncryptedRatchetMessage := mkMessage (demo_bytes 9) 2000 [] [] 7 2 0 0 None None 0.
Lemma decrypt_loops_end_witness :
  ∃ k, Z.of_nat k ≤ 2000 ∧ runs (skip_round (take_snapshot inhabitant) (demo_bytes 8) 7) k (inhabitant, demo_world)
    (skip_old_chain (take_snapshot inhabitant) 7 (demo_bytes 8) 7 (inhabitant, demo_world)).
Proof.
  destruct (decrypt_loops_end (take_snapshot inhabitant) inhabitant demo_world demo_claim) as [Hs _].
  exact (Hs (demo_bytes 8) eq_refl).
Defined.
