(* ===== verification/Crates.v ===== *)
(** * Crates and errors shared by the components around the ratchet

    [Sha2Crate] and [HmacCrate] stand for the crates [sha2] and [hmac];
    [hkdf_no_salt] is [Hkdf::new] without a salt; [as_key32] is the helper
    of [src/src/crypto/mod.rs]; [ConstructError] is the error type
    of [src/src/utils/error.rs]. Messages are kept as far as a caller can tell
    them apart: a constructor's argument names the case, not its text. *)

From S2P Require Import Prelude Platform Classic Toy.

(** [Sha256::digest] *)
Class Sha2Crate := { sha256 : bytes → bytes }.
Class Sha2Laws `{Sha2Crate} : Prop := { sha256_len : ∀ b, len (sha256 b) = 32 }.

#[global] Instance toy_sha2 : Sha2Crate := {| sha256 b := toy_stream 32 (digest 11 b) |}.
#[global] Instance toy_sha2_laws : Sha2Laws.
Proof. split. intros b. unfold len. cbn [sha256 toy_sha2]. by rewrite toy_stream_len. Qed.

(** [Hmac::<Sha256>::new_from_slice(key)], [update], [finalize]. *)
Class HmacCrate := { hmac_sha256 : bytes → bytes → bytes }.
Class HmacLaws `{HmacCrate} : Prop := { hmac_sha256_len : ∀ k b, len (hmac_sha256 k b) = 32 }.

#[global] Instance toy_hmac : HmacCrate := {| hmac_sha256 k b := toy_stream 32 (digest (digest 13 k) b) |}.
#[global] Instance toy_hmac_laws : HmacLaws.
Proof. split. intros k b. unfold len. cbn [hmac_sha256 toy_hmac]. by rewrite toy_stream_len. Qed.

(** [verify_truncated_left]: refuses an empty tag and one longer than the MAC. *)
Definition verify_truncated_left `{HmacCrate} (key msg tag : bytes) : bool :=
  (0 <? len tag) && (len tag <=? 32) &&
  bool_decide (take (length tag) (hmac_sha256 key msg) = tag).

(** [Hkdf::<Sha256>::new(None, ikm).expand(info, out)]: no salt is a salt of
    [HashLen] zeros. *)
Definition hkdf_no_salt `{ClassicCrates} (ikm info : bytes) (l : Z) : option bytes :=
  hkdf_sha256 (replicate 32 Byte.x00) ikm info l.

(** [.expect(..)]: a failure panics. *)
Definition expect {E A} (o : option A) : res E A :=
  match o with Some a => Ok a | None => Panic end.

Definition as_key32 (b : bytes) (what : string) : res CryptoError bytes :=
  if len b =? 32 then Ok b else Err (InvalidInputError what).

(** [OsRng.fill_bytes(&mut \[0u8; n\])] *)
Definition fill_bytes `{Platform} {E} (n : Z) : stm World E bytes := λ w,
  let (w, b) := os_rng n w in (w, Ok b).

Inductive ConstructError :=
  | Crypto (e : CryptoError)
  | StorageError (m : string)
  | NetworkError (m : string)
  | CoreSerializationError (m : string)
  | ValidationError (m : string)
  | SessionError (m : string)
  | NotFound (m : string)
  | InvalidInput (m : string)
  | InternalError (m : string)
  | NotImplemented
  | Unauthenticated (m : string).
