(* ===== verification/Gf256.v ===== *)
(** * The field GF(2^8) of social recovery

    Models the field arithmetic of [src/src/crypto/social_recovery.rs]: the
    tables of powers and logarithms that [build_gf_exp] and [build_gf_log] fill
    at compile time, and [gf_mul] and [gf_div] on top of them. The theorem of
    this file is that the table look-ups multiply and divide in the field the
    comment names: polynomials over GF(2) modulo x^8 + x^4 + x^3 + x + 1. *)

From S2P Require Import Prelude.
From Stdlib Require Import Ring Field.

(** ** The tables *)

(** One round of [build_gf_exp]: from [x] to [3 * x]. *)
Definition gf_next (x : Z) : Z :=
  let x2 := if negb (Z.land x 0x80 =? 0) then Z.land (Z.lxor (Z.shiftl x 1) 0x11b) 0xFF
            else Z.land (Z.shiftl x 1) 0xFF in
  Z.lxor x2 (Z.land x 0xFF).

Fixpoint build_gf_exp_loop (rounds : nat) (x : Z) : list byte :=
  match rounds with
  | O => [byte_of_Z 1]
  | S rounds => byte_of_Z x :: build_gf_exp_loop rounds (gf_next x)
  end.
Definition build_gf_exp : list byte := build_gf_exp_loop 255 1.

Fixpoint build_gf_log_loop (rounds : nat) (i : nat) (exp log : list byte) : list byte :=
  match rounds with
  | O => log
  | S rounds =>
      let e := default Byte.x00 (exp !! i) in
      build_gf_log_loop rounds (S i) exp
        (<[Z.to_nat (byte_to_Z e) := byte_of_Z (Z.of_nat i)]> log)
  end.
Definition build_gf_log (exp : list byte) : list byte :=
  build_gf_log_loop 255 0 exp (replicate 256 Byte.x00).

Definition GF_EXP : list byte := Eval vm_compute in build_gf_exp.
Definition GF_LOG : list byte := Eval vm_compute in build_gf_log GF_EXP.

Definition gf_exp_at (i : Z) : byte := default Byte.x00 (GF_EXP !! Z.to_nat i).
Definition gf_log_at (a : byte) : Z :=
  byte_to_Z (default Byte.x00 (GF_LOG !! Z.to_nat (byte_to_Z a))).

Definition gf_mul (a b : byte) : byte :=
  if (byte_eqb a 0) || (byte_eqb b 0) then Byte.x00
  else gf_exp_at ((gf_log_at a + gf_log_at b) `mod` 255).

(** [debug_assert!(b != 0)]: a division by zero is a panic of the debug build,
    and nonsense in the release build. *)
Definition gf_div {E} (a b : byte) : res E byte :=
  if byte_eqb b 0 then Panic else
  Ok (if byte_eqb a 0 then Byte.x00
      else gf_exp_at ((gf_log_at a + 255 - gf_log_at b) `mod` 255)).

(** [a ^ b] *)
Definition bxor (a b : byte) : byte := byte_of_Z (Z.lxor (byte_to_Z a) (byte_to_Z b)).

(** ** The field by its definition *)

(** Multiplication by x, and by a polynomial, its lowest coefficient first. *)
Definition xtime (a : Z) : Z :=
  if Z.testbit a 7 then Z.lxor (Z.shiftl a 1) 0x11b else Z.shiftl a 1.
Fixpoint poly_mul (n : nat) (a b : Z) : Z :=
  match n with
  | O => 0
  | S n => Z.lxor (if Z.odd b then a else 0) (poly_mul n (xtime a) (Z.div2 b))
  end.
Definition gf_ref (a b : byte) : byte := byte_of_Z (poly_mul 8 (byte_to_Z a) (byte_to_Z b)).

(** ** All bytes *)

Definition all_bytes : list byte := byte_of_Z <$> seqZ 0 256.

Lemma all_bytes_in b : b ∈ all_bytes.
Proof.
  apply list_elem_of_fmap. exists (byte_to_Z b). split; [by rewrite byte_of_to_Z|].
  apply elem_of_seqZ. pose proof (byte_to_Z_range b). lia.
Qed.

Lemma by_bytes (f : byte → bool) : forallb f all_bytes = true → ∀ a, f a = true.
Proof. intros Hf a. rewrite forallb_forall in Hf. apply Hf, list_elem_of_In, all_bytes_in. Qed.

Lemma by_bytes2 (f : byte → byte → bool) :
  forallb (λ a, forallb (f a) all_bytes) all_bytes = true → ∀ a b, f a b = true.
Proof. intros Hf a. apply by_bytes. revert a. by apply by_bytes. Qed.

Definition byte_same (a b : byte) : bool := Byte.eqb a b.
Lemma byte_same_eq a b : byte_same a b = true → a = b.
Proof. apply Byte.byte_dec_bl. Qed.

(** ** Equivalence *)

Lemma gf_mul_ref a b : gf_mul a b = gf_ref a b.
Proof.
  apply byte_same_eq. revert a b. apply by_bytes2. vm_compute. reflexivity.
Qed.

(** ** The laws of a field *)

(** Equations between exclusive ors hold bit by bit. *)
Ltac bits_xor :=
  apply Z.bits_inj'; intros ? ?; rewrite ?Z.land_spec, ?Z.lxor_spec, ?Z.land_spec;
  repeat match goal with |- context [Z.testbit ?x ?k] => destruct (Z.testbit x k) end;
  reflexivity.

Lemma bxor_of_Z x y : bxor (byte_of_Z x) (byte_of_Z y) = byte_of_Z (Z.lxor x y).
Proof.
  apply byte_to_Z_inj. unfold bxor. rewrite !byte_to_of_Z.
  change 256 with (2 ^ 8). rewrite <- !Z.land_ones by lia. bits_xor.
Qed.

Lemma bxor_comm a b : bxor a b = bxor b a.
Proof. unfold bxor. by rewrite Z.lxor_comm. Qed.
Lemma bxor_assoc a b c : bxor a (bxor b c) = bxor (bxor a b) c.
Proof.
  rewrite <- (byte_of_to_Z a), <- (byte_of_to_Z b), <- (byte_of_to_Z c).
  by rewrite !bxor_of_Z, Z.lxor_assoc.
Qed.
Lemma bxor_0_l a : bxor Byte.x00 a = a.
Proof. apply byte_of_to_Z. Qed.
Lemma bxor_diag a : bxor a a = Byte.x00.
Proof. unfold bxor. by rewrite Z.lxor_nilpotent. Qed.

Lemma xtime_lxor a b : xtime (Z.lxor a b) = Z.lxor (xtime a) (xtime b).
Proof.
  unfold xtime. rewrite Z.lxor_spec, Z.shiftl_lxor.
  destruct (Z.testbit a 7), (Z.testbit b 7); cbn [xorb]; bits_xor.
Qed.

Lemma poly_mul_lxor n a b c : poly_mul n (Z.lxor a b) c = Z.lxor (poly_mul n a c) (poly_mul n b c).
Proof.
  revert a b c. induction n as [|n IH]; intros a b c; [done|]. cbn [poly_mul].
  rewrite xtime_lxor, IH. destruct (Z.odd c).
  - bits_xor.
  - by rewrite !Z.lxor_0_l.
Qed.

Lemma gf_mul_bxor_l a b c : gf_mul (bxor a b) c = bxor (gf_mul a c) (gf_mul b c).
Proof.
  rewrite !gf_mul_ref. unfold gf_ref. rewrite bxor_of_Z, <- poly_mul_lxor. do 2 f_equal.
  unfold bxor. apply byte_to_of_Z_small.
  enough (0 ≤ Z.lxor (byte_to_Z a) (byte_to_Z b) < 2 ^ 8) by (unfold is_u8, u8_max; lia).
  pose proof (byte_to_Z_range a). pose proof (byte_to_Z_range b). split; [apply Z.lxor_nonneg; lia|].
  destruct (decide (Z.lxor (byte_to_Z a) (byte_to_Z b) = 0)) as [->|]; [done|].
  apply Z.log2_lt_pow2; [|pose proof (Z.log2_lxor (byte_to_Z a) (byte_to_Z b))].
  - pose proof (proj2 (Z.lxor_nonneg (byte_to_Z a) (byte_to_Z b))). lia.
  - assert (∀ x, 0 ≤ x < 256 → Z.log2 x ≤ 7) as Hlog.
    { intros x Hx. destruct (decide (x = 0)) as [->|]; [done|].
      apply Z.lt_succ_r, Z.log2_lt_pow2; simpl; lia. }
    pose proof (Hlog (byte_to_Z a)). pose proof (Hlog (byte_to_Z b)). lia.
Qed.

Lemma gf_mul_comm a b : gf_mul a b = gf_mul b a.
Proof. unfold gf_mul. by rewrite orb_comm, Z.add_comm. Qed.
Lemma gf_mul_0_l a : gf_mul Byte.x00 a = Byte.x00.
Proof. done. Qed.
Lemma gf_mul_0_r a : gf_mul a Byte.x00 = Byte.x00.
Proof. by rewrite gf_mul_comm. Qed.
Lemma gf_mul_1_l a : gf_mul Byte.x01 a = a.
Proof. apply byte_same_eq. revert a. apply by_bytes. vm_compute. reflexivity. Qed.

Lemma gf_log_range a : 0 ≤ gf_log_at a < 255.
Proof.
  enough ((0 <=? gf_log_at a) && (gf_log_at a <? 255) = true) by lia.
  revert a. apply by_bytes. vm_compute. reflexivity.
Qed.
Lemma gf_exp_log a : a ≠ Byte.x00 → gf_exp_at (gf_log_at a) = a.
Proof.
  intros Ha. enough (byte_eqb a 0 || byte_same (gf_exp_at (gf_log_at a)) a = true) as H.
  - apply orb_prop in H as [H|H]; [|by apply byte_same_eq]. destruct Ha. apply byte_to_Z_inj.
    unfold byte_eqb in H. by apply Z.eqb_eq in H.
  - revert a Ha. intros a _. revert a. apply by_bytes. vm_compute. reflexivity.
Qed.
(** The powers are exactly the non-zero elements, once each. *)
Lemma gf_log_exp i : 0 ≤ i < 255 → gf_log_at (gf_exp_at i) = i ∧ gf_exp_at i ≠ Byte.x00.
Proof.
  intros Hi. enough ((gf_log_at (gf_exp_at i) =? i) && negb (byte_same (gf_exp_at i) Byte.x00) = true) as H.
  - apply andb_prop in H as [H1 H2]. split; [by apply Z.eqb_eq|]. intros He. by rewrite He in H2.
  - assert (forallb (λ j, (gf_log_at (gf_exp_at j) =? j) && negb (byte_same (gf_exp_at j) Byte.x00))
      (seqZ 0 255) = true) as Hall by (vm_compute; reflexivity).
    rewrite forallb_forall in Hall.
    apply Hall, list_elem_of_In, elem_of_seqZ. lia.
Qed.

Lemma byte_eqb_0 a : byte_eqb a 0 = false ↔ a ≠ Byte.x00.
Proof.
  unfold byte_eqb. rewrite Z.eqb_neq. split; [by intros H ->|]. intros H He. destruct H.
  by apply byte_to_Z_inj.
Qed.

Lemma gf_mul_exp a b : a ≠ Byte.x00 → b ≠ Byte.x00 →
  gf_mul a b = gf_exp_at ((gf_log_at a + gf_log_at b) `mod` 255).
Proof. intros Ha%byte_eqb_0 Hb%byte_eqb_0. unfold gf_mul. by rewrite Ha, Hb. Qed.

Lemma gf_mul_nonzero a b : a ≠ Byte.x00 → b ≠ Byte.x00 → gf_mul a b ≠ Byte.x00.
Proof. intros Ha Hb. rewrite gf_mul_exp by done. apply gf_log_exp, Z.mod_pos_bound. lia. Qed.

Lemma gf_mul_assoc a b c : gf_mul a (gf_mul b c) = gf_mul (gf_mul a b) c.
Proof.
  destruct (decide (a = Byte.x00)) as [->|Ha]; [done|].
  destruct (decide (b = Byte.x00)) as [->|Hb]; [by rewrite gf_mul_0_l, gf_mul_0_r, gf_mul_0_l|].
  destruct (decide (c = Byte.x00)) as [->|Hc]; [by rewrite !gf_mul_0_r|].
  rewrite (gf_mul_exp a (gf_mul b c)), (gf_mul_exp (gf_mul a b) c) by auto using gf_mul_nonzero.
  rewrite !gf_mul_exp by done.
  rewrite !(proj1 (gf_log_exp _ (Z.mod_pos_bound _ 255 ltac:(lia)))).
  rewrite Zplus_mod_idemp_r, Zplus_mod_idemp_l. do 2 f_equal. lia.
Qed.

(** The inverse that [gf_div] multiplies by. *)
Definition gf_inv (b : byte) : byte := gf_exp_at ((255 - gf_log_at b) `mod` 255).

Lemma gf_inv_l b : b ≠ Byte.x00 → gf_mul (gf_inv b) b = Byte.x01.
Proof.
  intros Hb. unfold gf_inv. destruct (gf_log_exp ((255 - gf_log_at b) `mod` 255)) as [Hl Hn].
  { apply Z.mod_pos_bound. lia. }
  rewrite gf_mul_exp, Hl, Zplus_mod_idemp_l by done.
  replace (255 - gf_log_at b + gf_log_at b) with 255 by lia. reflexivity.
Qed.

Lemma gf_div_ok {E} a b : b ≠ Byte.x00 → @gf_div E a b = Ok (gf_mul a (gf_inv b)).
Proof.
  intros Hb. unfold gf_div. rewrite (proj2 (byte_eqb_0 b)) by done. f_equal.
  destruct (byte_eqb a 0) eqn:Ha.
  { unfold gf_mul. by rewrite Ha. }
  apply byte_eqb_0 in Ha. unfold gf_inv.
  destruct (gf_log_exp ((255 - gf_log_at b) `mod` 255)) as [Hl Hn]; [apply Z.mod_pos_bound; lia|].
  rewrite gf_mul_exp, Hl, Zplus_mod_idemp_r by done. do 2 f_equal. lia.
Qed.

Lemma gf_field : field_theory Byte.x00 Byte.x01 bxor gf_mul bxor (λ a, a)
  (λ a b, gf_mul a (gf_inv b)) gf_inv eq.
Proof.
  split; [split|..]; try done.
  - apply bxor_0_l.
  - apply bxor_comm.
  - apply bxor_assoc.
  - apply gf_mul_1_l.
  - apply gf_mul_comm.
  - apply gf_mul_assoc.
  - apply gf_mul_bxor_l.
  - apply bxor_diag.
  - apply gf_inv_l.
Qed.

(** C11: the tables multiply and divide in GF(2^8). [gf_mul] is multiplication
    of polynomials over GF(2) modulo x^8 + x^4 + x^3 + x + 1, the field is a
    field with it and with the exclusive or as addition, and [gf_div] by a
    non-zero element is its inverse. *)
Theorem gf_arithmetic :
  (∀ a b, gf_mul a b = gf_ref a b) ∧
  (∀ a b c, gf_mul (bxor a b) c = bxor (gf_mul a c) (gf_mul b c)) ∧
  (∀ a b c, gf_mul a (gf_mul b c) = gf_mul (gf_mul a b) c) ∧
  ∀ (E : Type) a b, b ≠ Byte.x00 → ∃ q, @gf_div E a b = Ok q ∧ gf_mul q b = a.
Proof.
  split_and!; [exact gf_mul_ref|exact gf_mul_bxor_l|exact gf_mul_assoc|].
  intros E a b Hb. exists (gf_mul a (gf_inv b)). split; [by apply gf_div_ok|].
  by rewrite <- gf_mul_assoc, gf_inv_l, gf_mul_comm, gf_mul_1_l.
Qed.
