(* ===== verification/Shamir.v ===== *)
(** * Polynomials over GF(2^8)

    What Shamir's scheme rests on: interpolation at 0 returns the constant
    coefficient, whichever points and however many more than the degree are
    given, and a polynomial with more roots than its degree is zero. *)

From S2P Require Import Prelude Gf256.
From Stdlib Require Import Ring Field.

Declare Scope gf_scope.
Delimit Scope gf_scope with gf.
Infix "+" := bxor : gf_scope.
Infix "*" := gf_mul : gf_scope.
Notation "0" := Byte.x00 : gf_scope.
Notation "1" := Byte.x01 : gf_scope.

(** Coefficients are bits: [x + x] is zero. *)
Lemma gf_morph : ring_morph Byte.x00 Byte.x01 bxor gf_mul bxor (λ a, a) eq
  false true xorb andb xorb (λ b, b) Bool.eqb (λ b : bool, if b then Byte.x01 else Byte.x00).
Proof. split; try done; by intros [] []. Qed.
Ltac gf_const t :=
  match t with
  | Byte.x00 => constr:(false)
  | Byte.x01 => constr:(true)
  | _ => InitialRing.NotConstant
  end.
Add Field gf : gf_field (morphism gf_morph, constants [gf_const]).

(** ** Values *)

(** The value at [x], the lowest coefficient first. *)
Fixpoint eval (cs : bytes) (x : byte) : byte :=
  match cs with
  | [] => 0%gf
  | c :: cs => (c + x * eval cs x)%gf
  end.

Lemma eval_0 c cs : eval (c :: cs) 0%gf = c.
Proof. simpl. ring. Qed.

(** Division by [x - a]: the remainder is the value at [a]. *)
Fixpoint quot (a : byte) (cs : bytes) : bytes :=
  match cs with
  | [] => []
  | _ :: cs => match cs with [] => [] | _ => eval cs a :: quot a cs end
  end.

Lemma quot_eval a cs x : eval cs x = (eval cs a + (x + a) * eval (quot a cs) x)%gf.
Proof.
  induction cs as [|c cs IH]; simpl; [ring|]. destruct cs as [|d cs]; [simpl; ring|].
  change (eval (eval (d :: cs) a :: quot a (d :: cs)) x)
    with (eval (d :: cs) a + x * eval (quot a (d :: cs)) x)%gf.
  rewrite IH at 1. ring.
Qed.

Lemma quot_length a cs : length (quot a cs) = pred (length cs).
Proof. induction cs as [|c [|d cs] IH]; [done..|]. simpl in *. by rewrite IH. Qed.

Abbreviation zeros := (Forall (λ c, c = 0%gf)).

Lemma zeros_eval cs x : zeros cs → eval cs x = 0%gf.
Proof. induction 1 as [|c cs -> _ IH]; simpl; [done|]. rewrite IH. ring. Qed.

Lemma quot_zeros a cs : zeros (quot a cs) → eval cs a = 0%gf → zeros cs.
Proof.
  induction cs as [|c [|d cs] IH]; intros Hq He; [done| |].
  - simpl in He. constructor; [|done]. rewrite <- He. ring.
  - apply Forall_cons in Hq as [Hh Hq]. specialize (IH Hq Hh). constructor; [|done].
    change (c + a * eval (d :: cs) a = 0)%gf in He. rewrite Hh in He. rewrite <- He. ring.
Qed.

Lemma gf_no_zero_divisors a b : (a * b)%gf = 0%gf → a = 0%gf ∨ b = 0%gf.
Proof.
  intros H. destruct (decide (a = Byte.x00)) as [|Ha]; [by left|].
  destruct (decide (b = Byte.x00)) as [|Hb]; [by right|]. by apply gf_mul_nonzero in H.
Qed.
Lemma bxor_eq_0 a b : (a + b)%gf = 0%gf → a = b.
Proof.
  intros H. transitivity (a + b + b)%gf; [ring|rewrite H; ring].
Qed.

(** More roots than the degree. *)
Lemma too_many_roots cs xs :
  NoDup xs → (length cs ≤ length xs)%nat → Forall (λ x, eval cs x = 0%gf) xs → zeros cs.
Proof.
  revert cs. induction xs as [|a xs IH]; intros cs Hn Hl Hr.
  - destruct cs; [done|simpl in Hl; lia].
  - apply NoDup_cons in Hn as [Ha Hn]. apply Forall_cons in Hr as [Hra Hr].
    apply (quot_zeros a); [|done]. apply IH; [done|rewrite quot_length; simpl in Hl; lia|].
    rewrite Forall_forall in Hr |- *. intros x Hx. pose proof (Hr x Hx) as He.
    rewrite (quot_eval a), Hra in He. destruct (gf_no_zero_divisors (x + a)%gf (eval (quot a cs) x)) as [Hz|]; [|by apply bxor_eq_0 in Hz; subst|done].
    rewrite <- He. ring.
Qed.

(** ** Interpolation at 0 *)

Definition num_of (xs : bytes) (x : byte) : byte :=
  foldr (λ y acc, if decide (y = x) then acc else (y * acc)%gf) 1%gf xs.
Definition den_of (xs : bytes) (x : byte) : byte :=
  foldr (λ y acc, if decide (y = x) then acc else ((x + y) * acc)%gf) 1%gf xs.
(** The weight of the point [x] among [xs]. *)
Definition weight (xs : bytes) (x : byte) : byte := (num_of xs x * gf_inv (den_of xs x))%gf.
Definition weighted (xs l : bytes) (f : byte → byte) : byte :=
  foldr (λ x acc, (f x * weight xs x + acc)%gf) 0%gf l.
Definition interpolate (xs : bytes) (f : byte → byte) : byte := weighted xs xs f.

Lemma gf_sum_nonzero a b : a ≠ b → (a + b)%gf ≠ 0%gf.
Proof. intros H ?%bxor_eq_0. done. Qed.
Lemma den_nonzero xs x : den_of xs x ≠ 0%gf.
Proof.
  induction xs as [|y xs IH]; [done|]. simpl. destruct (decide (y = x)) as [|Hne]; [done|].
  apply gf_mul_nonzero; [|done]. apply gf_sum_nonzero. congruence.
Qed.

Lemma weight_other xs a x : x ≠ a → ((x + a) * weight (a :: xs) x = a * weight xs x)%gf.
Proof.
  intros Hne. unfold weight. simpl. destruct (decide (a = x)) as [->|_]; [done|].
  pose proof (den_nonzero xs x). pose proof (gf_sum_nonzero x a Hne). field. by split.
Qed.
Lemma weight_swap xs a b x : weight (a :: b :: xs) x = weight (b :: a :: xs) x.
Proof.
  unfold weight. simpl. destruct (decide (a = x)), (decide (b = x)); try done.
  f_equal; [|f_equal]; ring.
Qed.

Lemma weighted_ext xs xs' l f g :
  (∀ x, x ∈ l → (f x * weight xs x = g x * weight xs' x)%gf) → weighted xs l f = weighted xs' l g.
Proof.
  induction l as [|x l IH]; intros Hl; [done|]. simpl. rewrite Hl by set_solver.
  by rewrite IH by set_solver.
Qed.
Lemma weighted_add xs l f g :
  weighted xs l (λ x, (f x + g x)%gf) = (weighted xs l f + weighted xs l g)%gf.
Proof. induction l as [|x l IH]; simpl; [done|]. rewrite IH. ring. Qed.
Lemma weighted_mul xs l c f : weighted xs l (λ x, (c * f x)%gf) = (c * weighted xs l f)%gf.
Proof. induction l as [|x l IH]; simpl; [ring|]. rewrite IH. ring. Qed.

(** Dropping a point the function vanishes at. *)
Lemma interpolate_drop a xs f :
  a ∉ xs → interpolate (a :: xs) (λ x, ((x + a) * f x)%gf) = (a * interpolate xs f)%gf.
Proof.
  intros Ha. unfold interpolate. cbn [weighted foldr]. rewrite bxor_diag.
  change (foldr _ _ xs) with (weighted (a :: xs) xs (λ x, ((x + a) * f x)%gf)).
  rewrite <- weighted_mul.
  rewrite (weighted_ext (a :: xs) xs xs _ (λ x, (a * f x)%gf)); [ring|].
  intros x Hx. assert (x ≠ a) as Hne by set_solver.
  transitivity (f x * ((x + a) * weight (a :: xs) x))%gf; [ring|]. rewrite weight_other by done. ring.
Qed.

Lemma interpolate_swap a b xs f : interpolate (a :: b :: xs) f = interpolate (b :: a :: xs) f.
Proof.
  unfold interpolate. cbn [weighted foldr].
  change (foldr _ _ xs) with (weighted (a :: b :: xs) xs f) at 1.
  change (foldr _ _ xs) with (weighted (b :: a :: xs) xs f).
  rewrite (weighted_ext (a :: b :: xs) (b :: a :: xs)) with (g := f) by (intros; by rewrite weight_swap).
  rewrite !(weight_swap xs a b). ring.
Qed.

(** The weights sum to one. *)
Lemma interpolate_one xs : NoDup xs → xs ≠ [] → interpolate xs (λ _, 1%gf) = 1%gf.
Proof.
  remember (length xs) as n eqn:Hn. revert xs Hn.
  induction n as [|n IH]; intros [|a [|b xs]] Hn Hd Hne; try done.
  - unfold interpolate, weighted, weight, num_of, den_of. simpl. rewrite !decide_True by done. reflexivity.
  - pose proof Hd as [Ha [Hb Hd']%NoDup_cons]%NoDup_cons. assert (a ≠ b) as Hab by set_solver.
    assert (interpolate (a :: b :: xs) (λ x, ((x + a) * 1 + (x + b) * 1)%gf) = (a + b)%gf) as Hs.
    { unfold interpolate. rewrite weighted_add. change (weighted ?x ?x ?f) with (interpolate x f).
      rewrite interpolate_drop by done. rewrite (interpolate_swap a b xs).
      rewrite interpolate_drop by set_solver. simpl in Hn.
      rewrite !IH; [ring| | | | | |]; try done; try (simpl; lia); constructor; set_solver. }
    transitivity (gf_inv (a + b) * ((a + b) * interpolate (a :: b :: xs) (λ _, 1)))%gf.
    { field. by apply gf_sum_nonzero. }
    unfold interpolate at 1. rewrite <- weighted_mul.
    rewrite (weighted_ext _ (a :: b :: xs) _ _ (λ x, ((x + a) * 1 + (x + b) * 1)%gf)) by (intros; f_equal; ring).
    change (weighted ?x ?x ?f) with (interpolate x f).
    rewrite Hs. apply gf_inv_l. by apply gf_sum_nonzero.
Qed.

(** Interpolation at 0 gives back the value at 0. *)
Lemma interpolate_eval cs xs :
  NoDup xs → xs ≠ [] → (length cs ≤ length xs)%nat → interpolate xs (eval cs) = eval cs 0%gf.
Proof.
  revert cs. induction xs as [|a xs IH]; intros cs Hd Hne Hl; [done|].
  pose proof Hd as [Ha Hd']%NoDup_cons. rewrite (quot_eval a cs 0%gf).
  transitivity (interpolate (a :: xs) (λ x, (eval cs a * 1 + (x + a) * eval (quot a cs) x)%gf)).
  { apply weighted_ext. intros x _. f_equal. rewrite (quot_eval a cs x). ring. }
  unfold interpolate. rewrite weighted_add, weighted_mul. change (weighted ?x ?x ?f) with (interpolate x f).
  rewrite interpolate_one, interpolate_drop by done.
  destruct xs as [|b xs].
  - destruct cs as [|c [|d cs]]; [..|simpl in Hl; lia]; simpl; unfold interpolate; simpl; ring.
  - rewrite IH; [ring|done|done|]. rewrite quot_length. simpl in *. lia.
Qed.
