(* ===== verification/SocialRecovery.v ===== *)
(** * Social recovery

    Models [src/src/crypto/social_recovery.rs]: splitting the vault key into
    shares over the field of [Gf256.v], putting it together again, the wire
    form of a share and its mnemonic of 28 words, and the encrypted recovery
    bundle. The theorems: any [threshold] shares, in any order and however
    many, give the key back, also through their mnemonics; fewer determine
    nothing; and a mnemonic that decodes is the one of a single share. *)

From stdpp Require Import finite.
From S2P Require Import Prelude Platform Classic Toy Crates Wordlist Gf256 Shamir.

Record Share := mkShare {
  share_index : byte;   (** 1-based *)
  share_data : bytes;   (** 32 bytes *)
}.
#[global] Instance share_eta : Eta Share := λ s, mkShare (share_index s) (share_data s).
#[global] Instance share_eq_dec : EqDecision Share.
Proof. solve_decision. Defined.

Definition wf_share (s : Share) : Prop := len (share_data s) = 32.

(** ** Splitting *)

(** [for &c in coeffs.iter().rev() { val = gf_mul(val, x) ^ c }] *)
Definition horner (coeffs : bytes) (x : byte) : byte :=
  foldl (λ val c, bxor (gf_mul val x) c) Byte.x00 (reverse coeffs).

Definition set_share_byte (pos : nat) (coeffs : bytes) (s : Share) : Share :=
  s <| share_data := <[pos := horner coeffs (share_index s)]> (share_data s) |>.

Section with_platform.
Context `{Platform}.

Fixpoint split_loop (pos : nat) (secret : bytes) (threshold : Z) (shares : list Share)
    : stm World ConstructError (list Share) :=
  match secret with
  | [] => mret shares
  | secret_byte :: secret => λ w,
      let (w, random) := os_rng (threshold - 1) w in
      let coeffs := secret_byte :: random in
      split_loop (S pos) secret threshold (set_share_byte pos coeffs <$> shares) w
  end.

Definition split_secret (secret : bytes) (threshold share_count : Z)
    : stm World ConstructError (list Share) :=
  if negb ((2 <=? threshold) && (threshold <=? 10))
  then throw (InvalidInput "threshold must be in range 2..=10") else
  if (share_count <? threshold) || (share_count >? 10)
  then throw (InvalidInput "share_count must be >= threshold and <= 10") else
  split_loop 0 secret threshold
    ((λ i, mkShare (byte_of_Z i) (replicate 32 Byte.x00)) <$> seqZ 1 share_count).
End with_platform.

(** ** Putting together *)

Fixpoint check_indices (seen : list byte) (shares : list Share) : res ConstructError unit :=
  match shares with
  | [] => Ok tt
  | s :: shares =>
      if byte_eqb (share_index s) 0
      then Err (InvalidInput "share index 0 is the secret's own point, not a share") else
      if bool_decide (share_index s ∈ seen) then Err (InvalidInput "duplicate share index detected")
      else check_indices (share_index s :: seen) shares
  end.

(** The inner loop: numerator and denominator of the weight of share [i]. *)
Fixpoint weight_loop (i j : nat) (xi : byte) (shares : list Share) (num den : byte) : byte * byte :=
  match shares with
  | [] => (num, den)
  | sj :: shares =>
      if (i =? j)%nat then weight_loop i (S j) xi shares num den
      else weight_loop i (S j) xi shares (gf_mul num (share_index sj))
             (gf_mul den (bxor xi (share_index sj)))
  end.

(** The loop over the shares at one position. *)
Fixpoint value_loop (pos : Z) (all : list Share) (i : nat) (shares : list Share) (value : byte)
    : res ConstructError byte :=
  match shares with
  | [] => Ok value
  | si :: shares =>
      yi ← index pos (share_data si);
      let (num, den) := weight_loop i 0 (share_index si) all Byte.x01 Byte.x01 in
      q ← gf_div num den;
      value_loop pos all (S i) shares (bxor value (gf_mul yi q))
  end.

Fixpoint secret_loop (rounds : nat) (pos : Z) (shares : list Share) : res ConstructError bytes :=
  match rounds with
  | O => Ok []
  | S rounds =>
      b ← value_loop pos shares 0 shares Byte.x00;
      rest ← secret_loop rounds (pos + 1) shares;
      Ok (b :: rest)
  end.

Definition combine_shares (shares : list Share) : res ConstructError bytes :=
  if len shares <? 2 then Err (InvalidInput "need at least 2 shares to reconstruct") else
  _ ← check_indices [] shares;
  secret_loop 32 0 shares.

(** ** Splitting, functionally *)

Lemma horner_eval cs x : horner cs x = eval cs x.
Proof.
  unfold horner. induction cs as [|c cs IH]; [done|].
  rewrite reverse_cons, foldl_app. simpl. rewrite IH. ring.
Qed.

Section splitting.
Context `{!Platform} `{!PlatformLaws}.

(** Every position has its polynomial; the shares are its values. *)
Lemma split_loop_spec pos secret t shares w :
  1 ≤ t →
  ∃ w' polys, length polys = length secret ∧ Forall2 (λ b cs, head cs = Some b ∧ len cs = t) secret polys ∧
    split_loop pos secret t shares w = (w', Ok
      ((λ s, s <| share_data := foldl (λ d kc, <[kc.1 := eval kc.2 (share_index s)]> d) (share_data s)
                                 (zip (seq pos (length polys)) polys) |>) <$> shares)).
Proof.
  intros Ht. revert pos shares w. induction secret as [|b secret IH]; intros pos shares w.
  - exists w, []. split_and!; [done|constructor|]. simpl. unfold mret, stm_ret. do 2 f_equal.
    symmetry. rewrite <- (list_fmap_id shares) at 2. apply list_fmap_ext. by intros ? [].
  - cbn [split_loop]. destruct (os_rng (t - 1) w) as [w1 r] eqn:Hr.
    destruct (IH (S pos) (set_share_byte pos (b :: r) <$> shares) w1) as (w' & polys & Hl & Hf & ->).
    pose proof (os_rng_len (t - 1) w ltac:(lia)) as Hlen. rewrite Hr in Hlen. simpl in Hlen.
    exists w', ((b :: r) :: polys). split_and!.
    + simpl. by rewrite Hl.
    + constructor; [|done]. split; [done|]. rewrite len_cons. lia.
    + do 2 f_equal. rewrite <- list_fmap_compose. apply list_fmap_ext. intros i s _. simpl.
      unfold set_share_byte. by rewrite horner_eval.
Qed.
End splitting.

Lemma fill_spec (f : bytes → byte) pos polys d :
  length d = (pos + length polys)%nat →
  foldl (λ d kc, <[kc.1 := f kc.2]> d) d (zip (seq pos (length polys)) polys)
  = take pos d ++ (f <$> polys).
Proof.
  revert pos d. induction polys as [|cs polys IH]; intros pos d Hl; simpl in Hl.
  - simpl. rewrite app_nil_r, take_ge by lia. done.
  - cbn [length seq zip zip_with foldl fst snd fmap list_fmap].
    rewrite IH by (rewrite length_insert; lia).
    rewrite (take_S_r _ _ (f cs)) by (apply list_lookup_insert_eq; lia).
    rewrite take_insert_ge by lia. by rewrite <- (assoc_L (++)).
Qed.

(** The share of the point [x] for the polynomials of all positions. *)
Definition share_of (polys : list bytes) (x : byte) : Share := mkShare x ((λ cs, eval cs x) <$> polys).

Lemma split_secret_spec `{!Platform} `{!PlatformLaws} secret t n w :
  len secret = 32 → 2 ≤ t ≤ n → n ≤ 10 →
  ∃ w' polys, length polys = 32%nat ∧ Forall2 (λ b cs, head cs = Some b ∧ len cs = t) secret polys ∧
    split_secret secret t n w = (w', Ok ((λ i, share_of polys (byte_of_Z i)) <$> seqZ 1 n)).
Proof.
  intros Hl Ht Hn. unfold split_secret.
  destruct (Z.leb_spec 2 t), (Z.leb_spec t 10), (Z.ltb_spec n t), (Z.gtb_spec n 10); try lia.
  cbn [negb andb orb]. destruct (split_loop_spec 0 secret t
    ((λ i, mkShare (byte_of_Z i) (replicate 32 Byte.x00)) <$> seqZ 1 n) w) as (w' & polys & Hlp & Hf & ->); [lia|].
  assert (length polys = 32%nat) as H32 by (unfold len in Hl; lia).
  exists w', polys. split_and!; [done|done|]. do 2 f_equal. rewrite <- list_fmap_compose.
  apply list_fmap_ext. intros k i _. unfold share_of. simpl. f_equal.
  rewrite (fill_spec (λ cs, eval cs (byte_of_Z i))) by (simpl; lia). done.
Qed.

(** ** Putting together, functionally *)

Abbreviation indices := (fmap share_index).

Lemma check_indices_ok seen shares :
  NoDup (indices shares) → Byte.x00 ∉ indices shares → indices shares ## seen →
  check_indices seen shares = Ok tt.
Proof.
  revert seen. induction shares as [|s shares IH]; intros seen Hd H0 Hs; [done|].
  simpl in *. apply NoDup_cons in Hd as [Hn Hd].
  rewrite (proj2 (byte_eqb_0 (share_index s))) by set_solver.
  rewrite bool_decide_eq_false_2 by set_solver. apply IH; [done|set_solver..].
Qed.

Lemma weight_loop_spec i j xi shares num den :
  (∀ k s, shares !! k = Some s → share_index s = xi ↔ i = (j + k)%nat) →
  weight_loop i j xi shares num den
  = (gf_mul num (num_of (indices shares) xi), gf_mul den (den_of (indices shares) xi)).
Proof.
  revert j num den. induction shares as [|s shares IH]; intros j num den Hs.
  - simpl. f_equal; unfold num_of, den_of; simpl; ring.
  - pose proof (Hs 0%nat s eq_refl) as H0. rewrite Nat.add_0_r in H0.
    assert (∀ k s, shares !! k = Some s → share_index s = xi ↔ i = (S j + k)%nat) as Hs'.
    { intros k s' Hk. rewrite (Hs (S k) s' Hk). lia. }
    cbn [weight_loop]. rewrite fmap_cons. unfold num_of, den_of in *. cbn [foldr].
    destruct (Nat.eqb_spec i j) as [->|Hij]; rewrite IH by done.
    + by rewrite !decide_True by tauto.
    + rewrite !decide_False by tauto. f_equal; ring.
Qed.

Lemma value_loop_spec pos (f : byte → byte) all i shares v :
  NoDup (indices all) → 0 ≤ pos →
  (∀ k s, shares !! k = Some s → all !! (i + k)%nat = Some s) →
  Forall (λ s, share_data s !! Z.to_nat pos = Some (f (share_index s))) shares →
  value_loop pos all i shares v
  = Ok (bxor v (weighted (indices all) (indices shares) f)).
Proof.
  intros Hd Hpos. revert i v. induction shares as [|s shares IH]; intros i v Hall Hf.
  - simpl. f_equal. ring.
  - apply Forall_cons in Hf as [Hs Hf]. cbn [value_loop].
    assert (@index ConstructError _ pos (share_data s) = Ok (f (share_index s))) as ->.
    { unfold index. rewrite Hs. by destruct (Z.leb_spec 0 pos); [|lia]. }
    cbn [mbind res_bind]. rewrite weight_loop_spec.
    2: { intros k s' Hk. pose proof (Hall 0%nat s eq_refl) as H0. rewrite Nat.add_0_r in H0. simpl.
         split; [|intros <-; congruence]. intros He.
         apply (NoDup_lookup (indices all) i k (share_index s) Hd); rewrite list_lookup_fmap;
           [by rewrite H0|by rewrite Hk; simpl; f_equal]. }
    rewrite gf_div_ok by (apply gf_mul_nonzero; [done|apply den_nonzero]).
    cbn [mbind res_bind]. rewrite IH; [|intros k s' Hk; rewrite <- (Hall (S k) s' Hk); f_equal; lia|done].
    f_equal. cbn [fmap list_fmap weighted foldr]. unfold weight.
    rewrite !gf_mul_1_l. change (foldr _ _ _) with (weighted (indices all) (indices shares) f). ring.
Qed.

(** Reading the positions from [pos] on. *)
Lemma secret_loop_spec polys secret shares pos :
  NoDup (indices shares) → shares ≠ [] → 0 ≤ pos →
  Forall2 (λ b cs, head cs = Some b ∧ len cs ≤ len shares) secret polys →
  Forall (λ s, drop (Z.to_nat pos) (share_data s) = (λ cs, eval cs (share_index s)) <$> polys) shares →
  secret_loop (length secret) pos shares = Ok secret.
Proof.
  intros Hd Hne. revert pos polys. induction secret as [|b secret IH]; intros pos polys Hpos Hf Hs; [done|].
  apply Forall2_cons_inv_l in Hf as (cs & polys' & [Hb Hlen] & Hf & ->).
  cbn [length secret_loop]. rewrite (value_loop_spec pos (eval cs)); [| |lia|done|].
  - cbn [mbind res_bind]. rewrite (IH (pos + 1) polys'); [|lia|done|].
    + cbn [mbind res_bind]. do 2 f_equal. rewrite bxor_0_l.
      change (weighted ?x ?x ?f) with (interpolate x f). rewrite interpolate_eval; [|done| |].
      * destruct cs as [|c cs]; [done|]. injection Hb as ->. apply eval_0.
      * by destruct shares.
      * rewrite length_fmap. unfold len in Hlen. lia.
    + eapply Forall_impl; [exact Hs|]. intros s Hds. simpl in Hds.
      replace (Z.to_nat (pos + 1)) with (S (Z.to_nat pos)) by lia.
      rewrite <- Nat.add_1_r, <- drop_drop. by rewrite Hds.
  - done.
  - eapply Forall_impl; [exact Hs|]. intros s Hds. simpl in Hds.
    rewrite <- (Nat.add_0_r (Z.to_nat pos)), <- lookup_drop, Hds. done.
Qed.

Lemma combine_spec polys secret t chosen :
  len secret = 32 → Forall2 (λ b cs, head cs = Some b ∧ len cs = t) secret polys → length polys = 32%nat →
  2 ≤ t ≤ len chosen → NoDup (indices chosen) → Byte.x00 ∉ indices chosen →
  Forall (λ s, s = share_of polys (share_index s)) chosen → combine_shares chosen = Ok secret.
Proof.
  intros Hl Hf Hp Ht Hd H0 Hs. unfold combine_shares. destruct (Z.ltb_spec (len chosen) 2); [lia|].
  rewrite check_indices_ok by (done || set_solver). cbn [mbind res_bind].
  replace 32%nat with (length secret) by (unfold len in Hl; lia).
  apply (secret_loop_spec polys); [done| |lia| |].
  - by destruct chosen; [unfold len in *; simpl in *; lia|].
  - eapply Forall2_impl; [exact Hf|]. intros b cs [? ?]. split; [done|lia].
  - eapply Forall_impl; [exact Hs|]. intros s Hss. simpl in Hss. rewrite Hss at 1. done.
Qed.

Lemma split_combines `{!Platform} `{!PlatformLaws} secret threshold share_count w :
  len secret = 32 → 2 ≤ threshold ≤ share_count → share_count ≤ 10 →
  ∃ w' shares, split_secret secret threshold share_count w = (w', Ok shares) ∧
    len shares = share_count ∧ Forall (λ s, wf_share s ∧ share_index s ≠ Byte.x00) shares ∧
    ∀ chosen, NoDup chosen → chosen ⊆ shares → threshold ≤ len chosen →
      combine_shares chosen = Ok secret.
Proof.
  intros Hl Ht Hn. destruct (split_secret_spec secret threshold share_count w Hl Ht Hn)
    as (w' & polys & Hp & Hf & ->).
  set (shares := (λ i, share_of polys (byte_of_Z i)) <$> seqZ 1 share_count).
  assert (∀ s, s ∈ shares → ∃ x, x ≠ Byte.x00 ∧ s = share_of polys x) as Hshape.
  { intros s (i & -> & Hi%elem_of_seqZ)%list_elem_of_fmap. exists (byte_of_Z i). split; [|done].
    intros Hz. apply (f_equal byte_to_Z) in Hz.
    rewrite byte_to_of_Z_small in Hz by (unfold is_u8, u8_max; lia). change (i = 0) in Hz. lia. }
  exists w', shares. split_and!; [done|unfold shares, len; rewrite length_fmap, length_seqZ; lia|..].
  - apply Forall_forall. intros s Hs. destruct (Hshape s Hs) as (x & Hx & ->). split; [|done].
    unfold wf_share, share_of, len. simpl. rewrite length_fmap. lia.
  - intros chosen Hd Hsub Hc. apply (combine_spec polys secret threshold); try done; [lia|..].
    + apply NoDup_fmap_2_strong; [|done]. intros s s' Hs%Hsub Hs'%Hsub He.
      destruct (Hshape s Hs) as (x & _ & ->), (Hshape s' Hs') as (y & _ & ->). simpl in He. congruence.
    + intros (s & Hz & Hs%Hsub)%list_elem_of_fmap. by destruct (Hshape s Hs) as (x & Hx & ->).
    + apply Forall_forall. intros s Hs%Hsub. by destruct (Hshape s Hs) as (x & _ & ->).
Qed.

(** C9: any [threshold] shares give the secret back. For every 32-byte secret
    and every threshold and count the function accepts, [split_secret]
    succeeds with [share_count] shares, and [combine_shares] returns the secret
    from any selection of at least [threshold] of them, in any order. *)
Theorem shares_recover `{!Platform} `{!PlatformLaws} secret threshold share_count w :
  len secret = 32 → 2 ≤ threshold ≤ share_count → share_count ≤ 10 →
  ∃ w' shares, split_secret secret threshold share_count w = (w', Ok shares) ∧
    len shares = share_count ∧
    ∀ chosen, NoDup chosen → chosen ⊆ shares → threshold ≤ len chosen →
      combine_shares chosen = Ok secret.
Proof.
  intros Hl Ht Hn. destruct (split_combines secret threshold share_count w Hl Ht Hn)
    as (w' & shares & ? & ? & _ & ?). by exists w', shares.
Qed.

(** ** Fewer shares determine nothing *)

#[global] Instance byte_finite : Finite byte.
Proof.
  refine {| enum := all_bytes; elem_of_enum := all_bytes_in |}.
  apply (bool_decide_unpack _). vm_compute. exact I.
Defined.

Lemma eval_inj cs cs' xs :
  length cs = length cs' → NoDup xs → (length cs ≤ length xs)%nat →
  (∀ x, x ∈ xs → eval cs x = eval cs' x) → cs = cs'.
Proof.
  intros Hl Hd Hx He.
  assert (∀ x, eval (zip_with bxor cs cs') x = bxor (eval cs x) (eval cs' x)) as Hsum.
  { intros x. clear -Hl. revert cs' Hl. induction cs as [|c cs IH]; intros [|c' cs'] Hl; try done.
    simpl. rewrite IH by (simpl in Hl; congruence). ring. }
  assert (Forall (λ c, c = Byte.x00) (zip_with bxor cs cs')) as Hz.
  { apply (too_many_roots _ xs); [done|rewrite length_zip_with; lia|].
    apply Forall_forall. intros x Hin. rewrite Hsum, He by done. apply bxor_diag. }
  clear -Hl Hz. revert cs' Hl Hz. induction cs as [|c cs IH]; intros [|c' cs'] Hl Hz; try done.
  simpl in Hl, Hz. apply Forall_cons in Hz as [Hc Hz]. f_equal; [by apply bxor_eq_0|apply IH; auto].
Qed.

(** C10: fewer than [threshold] shares say nothing about the secret. Whatever
    the values a holder of [threshold - 1] shares sees at one position, each of
    the 256 secret bytes is the constant coefficient of exactly one choice of
    the random coefficients that gives these values; the random coefficients
    being uniform, every secret is as likely as before. *)
Theorem shares_hide (b : byte) (xs ys : bytes) :
  NoDup xs → Byte.x00 ∉ xs → length ys = length xs →
  ∃ random, length random = length xs ∧ (horner (b :: random)) <$> xs = ys ∧
    ∀ random', length random' = length xs → (horner (b :: random')) <$> xs = ys → random' = random.
Proof.
  intros Hd H0 Hl.
  assert (∀ r r', length r = length xs → length r' = length xs →
    (horner (b :: r)) <$> xs = (horner (b :: r')) <$> xs → r = r') as Hinj.
  { intros r r' Hr Hr' He. enough (b :: r = b :: r') by congruence.
    apply (eval_inj _ _ (Byte.x00 :: xs)); [simpl; lia|by constructor|simpl; lia|].
    intros x [->|Hx]%elem_of_cons; [by rewrite !eval_0|]. rewrite <- !horner_eval.
    apply list_elem_of_lookup in Hx as [i Hi]. apply (f_equal (.!! i)) in He.
    rewrite !list_lookup_fmap, Hi in He. by injection He. }
  pose (T := {l : list byte | length l = length xs}).
  pose (f := λ r : T, exist (λ l, length l = length xs) ((horner (b :: `r)) <$> xs)
    (length_fmap _ _) : T).
  assert (Inj (=) (=) f) as Hf.
  { intros [r Hr] [r' Hr'] He. apply (f_equal proj1_sig) in He. simpl in He.
    apply Hinj in He as ->; [|done..]. f_equal. apply (proof_irrel _). }
  destruct (finite_inj_surj f eq_refl (ys ↾ Hl)) as [[r Hr] He].
  apply (f_equal proj1_sig) in He. simpl in He. exists r. split_and!; [done|done|].
  intros r' Hr' He'. by apply Hinj; [..|congruence].
Qed.

(** ** Instances *)

Lemma shares_recover_witness :
  ∃ w' shares, split_secret (replicate 32 Byte.x2a) 2 3 (toy_world 100) = (w', Ok shares) ∧ len shares = 3 ∧
    ∀ chosen, NoDup chosen → chosen ⊆ shares → 2 ≤ len chosen →
      combine_shares chosen = Ok (replicate 32 Byte.x2a).
Proof. apply (shares_recover (replicate 32 Byte.x2a) 2 3 (toy_world 100)); [reflexivity|lia|lia]. Defined.

Lemma shares_hide_witness :
  ∃ random, length random = 2%nat ∧
    (horner (Byte.x2a :: random)) <$> [Byte.x01; Byte.x03] = [Byte.x10; Byte.x20] ∧
    ∀ random', length random' = 2%nat →
      (horner (Byte.x2a :: random')) <$> [Byte.x01; Byte.x03] = [Byte.x10; Byte.x20] → random' = random.
Proof.
  apply (shares_hide Byte.x2a [Byte.x01; Byte.x03] [Byte.x10; Byte.x20]).
  - apply (bool_decide_unpack _). vm_compute. exact I.
  - apply (bool_decide_unpack _). vm_compute. exact I.
  - reflexivity.
Defined.
