(* ===== verification/Mnemonic.v ===== *)
(** * Share mnemonics and the recovery bundle

    The rest of [src/src/crypto/social_recovery.rs]: a share as 35 bytes with a
    checksum, as 28 words of ten bits each, and back; the vault key through the
    mnemonics of its shares; the encrypted recovery bundle. *)

From S2P Require Import Prelude Platform Classic Toy Crates Wordlist Gf256 Shamir SocialRecovery.

(** ** Bits *)

(** [(bytes[byte_idx] >> bit_shift) & 1] at the bit position [p]. *)
Definition bit_at (bs : bytes) (p : Z) : Z :=
  Z.land (Z.shiftr (byte_to_Z (default Byte.x00 (bs !! Z.to_nat (p / 8)))) (7 - p `mod` 8)) 1.

(** One word: [val = (val << 1) | bit] over ten positions, in a [u16]. *)
Definition word_at (bs : bytes) (w : Z) : Z :=
  foldl (λ val b, Z.lor (Z.land (Z.shiftl val 1) u16_max) (bit_at bs (w * 10 + b))) 0 (seqZ 0 10).
Definition bytes_to_word_indices (bs : bytes) : list Z := word_at bs <$> seqZ 0 28.

(** [result[byte_idx] |= bit << bit_shift] *)
Definition or_bit (p : Z) (bit : Z) (result : bytes) : bytes :=
  alter (λ x, byte_of_Z (Z.lor (byte_to_Z x) (Z.shiftl bit (7 - p `mod` 8)))) (Z.to_nat (p / 8)) result.

Definition word_to_bytes (result : bytes) (wv : Z * Z) : bytes :=
  foldl (λ result b, or_bit (wv.1 * 10 + b) (Z.land (Z.shiftr wv.2 (9 - b)) 1) result) result (seqZ 0 10).
Definition word_indices_to_bytes (indices : list Z) : bytes :=
  foldl word_to_bytes (replicate 35 Byte.x00) (zip (seqZ 0 28) indices).

(** ** Wire form *)

Section wire.
Context `{Sha2Crate}.

Definition checksum (b : bytes) : bytes := take 2 (sha256 b).

Definition share_to_wire (share : Share) : bytes :=
  let buf := share_index share :: share_data share in buf ++ checksum buf.

Definition wire_to_share (buf : bytes) : res ConstructError Share :=
  let body := take 33 buf in
  if negb (bool_decide (drop 33 buf = checksum body))
  then Err (InvalidInput "share checksum mismatch") else
  match body with
  | [] => Panic
  | index :: data =>
      if byte_eqb index 0
      then Err (InvalidInput "share index 0 is the secret's own point, not a share")
      else Ok (mkShare index data)
  end.

(** ** Words *)

(** The white space of [str::split_whitespace], as it starts a string: the
    Unicode property [White_Space], in UTF-8. *)
Definition ascii_is (c : Ascii.ascii) (n : N) : bool := (Ascii.N_of_ascii c =? n)%N.
Definition ascii_in (c : Ascii.ascii) (lo hi : N) : bool :=
  ((lo <=? Ascii.N_of_ascii c) && (Ascii.N_of_ascii c <=? hi))%N.

Definition white_prefix (s : string) : option string :=
  match s with
  | EmptyString => None
  | String c r =>
      if ascii_in c 9 13 || ascii_is c 32 then Some r else
      match r with
      | EmptyString => None
      | String d r1 =>
          if ascii_is c 0xC2 && (ascii_is d 0x85 || ascii_is d 0xA0) then Some r1 else
          match r1 with
          | EmptyString => None
          | String e r2 =>
              if (ascii_is c 0xE1 && ascii_is d 0x9A && ascii_is e 0x80) ||
                 (ascii_is c 0xE2 && ascii_is d 0x80 &&
                  (ascii_in e 0x80 0x8A || ascii_is e 0xA8 || ascii_is e 0xA9 || ascii_is e 0xAF)) ||
                 (ascii_is c 0xE2 && ascii_is d 0x81 && ascii_is e 0x9F) ||
                 (ascii_is c 0xE3 && ascii_is d 0x80 && ascii_is e 0x80)
              then Some r2 else None
          end
      end
  end.

(** The maximal runs of other characters. [fuel] is the length of the string:
    each step takes at least one byte off. *)
Definition flush (word : string) (words : list string) : list string :=
  match word with EmptyString => words | _ => word :: words end.
Fixpoint split_words (fuel : nat) (word s : string) : list string :=
  match fuel with
  | O => flush word []
  | S fuel =>
      match s with
      | EmptyString => flush word []
      | String c r =>
          match white_prefix s with
          | Some rest => flush word (split_words fuel EmptyString rest)
          | None => split_words fuel (word ++ String c EmptyString) r
          end
      end
  end.
Definition split_whitespace (s : string) : list string := split_words (S (String.length s)) EmptyString s.

(** [iter().position(|w| w == word)] *)
Fixpoint position_from (i : Z) (word : string) (l : list string) : option Z :=
  match l with
  | [] => None
  | x :: l => if String.eqb x word then Some i else position_from (i + 1) word l
  end.
Definition position (word : string) : option Z := position_from 0 word WORDLIST.

Definition encode_share (share : Share) : res ConstructError string :=
  words ← mapM (λ i, index i WORDLIST) (bytes_to_word_indices (share_to_wire share));
  Ok (String.concat " " words).

Definition decode_share (mnemonic : string) : res ConstructError Share :=
  let words := split_whitespace mnemonic in
  if negb (len words =? 28) then Err (InvalidInput "expected 28 words") else
  indices ← mapM (λ word, ok_or (position word) (InvalidInput "unknown SLIP-39 word")) words;
  wire_to_share (word_indices_to_bytes indices).

Definition create_recovery_shares `{!Platform} (vault_key : bytes) (threshold share_count : Z)
    : stm World ConstructError (list string) :=
  shares ← split_secret vault_key threshold share_count;
  lift (mapM encode_share shares).

Definition reconstruct_vault_key (mnemonics : list string) : res ConstructError bytes :=
  shares ← mapM decode_share mnemonics;
  combine_shares shares.
End wire.

(** ** Bits, by position *)

(** The bit of a byte string at a position, the highest of a byte first. *)
Definition bit_of (bs : bytes) (p : Z) : bool :=
  Z.testbit (byte_to_Z (default Byte.x00 (bs !! Z.to_nat (p / 8)))) (7 - p `mod` 8).
(** The bit of a list of ten-bit words. *)
Definition word_bit (ws : list Z) (p : Z) : bool :=
  Z.testbit (default 0 (ws !! Z.to_nat (p / 10))) (9 - p `mod` 10).

Lemma low_bit a n : 0 ≤ n → Z.land (Z.shiftr a n) 1 = Z.b2z (Z.testbit a n).
Proof.
  intros Hn. change 1 with (Z.ones 1). rewrite Z.land_ones by lia. change (2 ^ 1) with 2.
  rewrite <- Z.bit0_mod, Z.shiftr_spec by lia. f_equal.
Qed.

Lemma byte_ext a b : (∀ j, 0 ≤ j < 8 → Z.testbit (byte_to_Z a) j = Z.testbit (byte_to_Z b) j) → a = b.
Proof.
  intros Hj. apply byte_to_Z_inj, Z.bits_inj'. intros n Hn.
  destruct (decide (n < 8)) as [|Hge]; [by apply Hj|].
  rewrite <- (byte_to_of_Z_small (byte_to_Z a)), <- (byte_to_of_Z_small (byte_to_Z b)), !byte_to_of_Z
    by (pose proof (byte_to_Z_range a); pose proof (byte_to_Z_range b); unfold is_u8, u8_max; lia).
  by rewrite !(Z.mod_pow2_bits_high _ 8) by lia.
Qed.

Lemma testbit_succ_div2 a n : 0 ≤ n → Z.testbit a (Z.succ n) = Z.testbit (a / 2) n.
Proof.
  intros Hn. rewrite <- Z.div2_div, Z.div2_spec, Z.shiftr_spec by lia. f_equal.
Qed.

(** Appending a bit. *)
Lemma push_bit v (b : bool) :
  0 ≤ v < 2 ^ 15 → Z.lor (Z.land (Z.shiftl v 1) u16_max) (Z.b2z b) = Z.b2z b + 2 * v.
Proof.
  intros Hv. change u16_max with (Z.ones 16). rewrite Z.land_ones, Z.shiftl_mul_pow2 by lia.
  rewrite Z.mod_small by lia. apply Z.bits_inj'. intros n Hn. rewrite Z.lor_spec.
  change (2 ^ 1) with 2. rewrite (Z.mul_comm v). destruct (decide (n = 0)) as [->|Hne].
  - by rewrite Z.testbit_even_0, Z.add_b2z_double_bit0, Z.b2z_bit0.
  - replace n with (Z.succ (n - 1)) by lia.
    rewrite (testbit_succ_div2 (Z.b2z b + 2 * v)), Z.add_b2z_double_div2 by lia.
    rewrite Z.testbit_even_succ by lia. rewrite testbit_succ_div2 by lia.
    by destruct b; simpl; rewrite Z.bits_0, orb_false_r.
Qed.

Definition bits_val (l : list bool) : Z := foldl (λ v b, Z.b2z b + 2 * v) 0 l.

Lemma bits_val_snoc l b : bits_val (l ++ [b]) = Z.b2z b + 2 * bits_val l.
Proof. unfold bits_val. by rewrite foldl_app. Qed.
Lemma bits_val_range l : 0 ≤ bits_val l < 2 ^ len l.
Proof.
  induction l as [|b l IH] using rev_ind; [done|]. rewrite bits_val_snoc, len_app.
  change (len [b]) with 1. rewrite Z.pow_add_r by (pose proof (len_nonneg l); lia).
  destruct b; simpl; lia.
Qed.
Lemma bits_val_testbit l i :
  0 ≤ i < len l → Z.testbit (bits_val l) i = default false (l !! Z.to_nat (len l - 1 - i)).
Proof.
  revert i. induction l as [|b l IH] using rev_ind; intros i; [unfold len; simpl; lia|].
  rewrite bits_val_snoc, len_app. change (len [b]) with 1. intros Hi.
  destruct (decide (i = 0)) as [->|Hne].
  - rewrite Z.add_b2z_double_bit0. replace (Z.to_nat (len l + 1 - 1 - 0)) with (length l) by (unfold len; lia).
    by rewrite list_lookup_middle.
  - replace i with (Z.succ (i - 1)) by lia.
    rewrite testbit_succ_div2, Z.add_b2z_double_div2, IH by lia.
    rewrite lookup_app_l by (unfold len in *; lia). do 3 f_equal. lia.
Qed.

(** The word loop collects ten bits. *)
Lemma word_loop_val (f : Z → Z) (g : Z → bool) l v0 l0 :
  (∀ b, b ∈ l → f b = Z.b2z (g b)) → v0 = bits_val l0 → len l0 + len l ≤ 16 →
  foldl (λ val b, Z.lor (Z.land (Z.shiftl val 1) u16_max) (f b)) v0 l = bits_val (l0 ++ (g <$> l)).
Proof.
  revert v0 l0. induction l as [|b l IH]; intros v0 l0 Hf Hv Hl.
  - simpl. by rewrite app_nil_r.
  - rewrite len_cons in Hl. pose proof (len_nonneg l). cbn [foldl].
    rewrite Hf, Hv, push_bit by (set_solver || (pose proof (bits_val_range l0);
      pose proof (Z.pow_le_mono_r 2 (len l0) 15 ltac:(lia) ltac:(lia)); lia)).
    rewrite <- bits_val_snoc. rewrite (IH _ (l0 ++ [g b])).
    + by rewrite <- (assoc_L (++)).
    + set_solver.
    + done.
    + rewrite len_app. change (len [g b]) with 1. lia.
Qed.

Lemma word_at_val bs w :
  0 ≤ w → word_at bs w = bits_val ((λ b, bit_of bs (w * 10 + b)) <$> seqZ 0 10).
Proof.
  intros Hw. unfold word_at. apply (word_loop_val _ _ _ _ []); [|done|done].
  intros b Hb. unfold bit_at, bit_of. apply low_bit.
  pose proof (Z.mod_pos_bound (w * 10 + b) 8). lia.
Qed.

Lemma word_at_testbit bs w b :
  0 ≤ w → 0 ≤ b < 10 → Z.testbit (word_at bs w) (9 - b) = bit_of bs (w * 10 + b).
Proof.
  intros Hw Hb. rewrite word_at_val by done. rewrite bits_val_testbit; change (len _) with 10; [|lia].
  rewrite list_lookup_fmap. replace (10 - 1 - (9 - b)) with b by lia.
  by rewrite (lookup_seqZ_lt 0 10 (Z.to_nat b)), Z2Nat.id by lia.
Qed.
Lemma word_at_range bs w : 0 ≤ w → 0 ≤ word_at bs w < 1024.
Proof.
  intros Hw. rewrite word_at_val by done.
  pose proof (bits_val_range ((λ b, bit_of bs (w * 10 + b)) <$> seqZ 0 10)) as Hr.
  change (2 ^ len _) with 1024 in Hr. done.
Qed.

(** ** Setting bits *)

Lemma or_bit_length p b r : length (or_bit p b r) = length r.
Proof. apply length_alter. Qed.

Lemma bit_of_or p q (b : bool) r :
  0 ≤ p → 0 ≤ q < 8 * len r →
  bit_of (or_bit p (Z.b2z b) r) q = bit_of r q || (b && (p =? q)).
Proof.
  intros Hp Hq. unfold bit_of, or_bit.
  pose proof (Z.mod_pos_bound p 8). pose proof (Z.mod_pos_bound q 8).
  pose proof (Z.div_mod p 8). pose proof (Z.div_mod q 8).
  assert (0 ≤ p / 8) by (apply Z.div_pos; lia). assert (0 ≤ q / 8) by (apply Z.div_pos; lia).
  destruct (decide (Z.to_nat (p / 8) = Z.to_nat (q / 8))) as [He|Hne]; cycle 1.
  { rewrite list_lookup_alter_ne by done. destruct (Z.eqb_spec p q) as [->|]; [done|].
    by rewrite andb_false_r, orb_false_r. }
  rewrite He, list_lookup_alter_eq.
  destruct (r !! Z.to_nat (q / 8)) as [x|] eqn:Hx.
  2: { apply lookup_ge_None in Hx. unfold len in Hq. lia. }
  simpl. rewrite byte_to_of_Z. change 256 with (2 ^ 8). rewrite Z.mod_pow2_bits_low by lia.
  rewrite Z.lor_spec, Z.shiftl_spec by lia. f_equal.
  destruct (Z.eqb_spec p q) as [->|Hne].
  - by rewrite Z.sub_diag, Z.b2z_bit0, andb_true_r.
  - rewrite andb_false_r. destruct b; [|by rewrite Z.bits_0].
    destruct (decide (7 - q `mod` 8 - (7 - p `mod` 8) < 0)) as [|]; [by rewrite Z.testbit_neg_r|].
    change (Z.b2z true) with (2 ^ 0). apply Z.pow2_bits_false. lia.
Qed.

Lemma or_bits_spec (g : Z → bool) n r :
  (∀ q, 0 ≤ q < 8 * len r → bit_of r q = false) → 0 ≤ n →
  let r' := foldl (λ r p, or_bit p (Z.b2z (g p)) r) r (seqZ 0 n) in
  length r' = length r ∧ ∀ q, 0 ≤ q < 8 * len r → bit_of r' q = (q <? n) && g q.
Proof.
  intros Hr. revert n. refine (natlike_ind _ _ _); cbv zeta.
  - split; [done|]. intros q Hq. rewrite Hr by done. by destruct (Z.ltb_spec q 0); [lia|].
  - intros n Hn [IHl IH]. rewrite <- Z.add_1_r, (seqZ_app 0 n 1), foldl_app by lia.
    rewrite Z.add_0_l. replace (seqZ n 1) with [n] by (unfold seqZ; simpl; f_equal; lia).
    cbn [foldl]. split.
    + by rewrite or_bit_length.
    + intros q Hq. rewrite bit_of_or; [|lia|unfold len in *; lia]. rewrite IH by done.
      destruct (Z.ltb_spec q n), (Z.ltb_spec q (n + 1)), (Z.eqb_spec n q); subst; try lia;
        rewrite ?andb_false_r, ?andb_true_r, ?orb_false_r; done.
Qed.

Lemma foldl_bind {A B C} (h : A → C → A) (g : B → list C) (l : list B) r :
  foldl (λ r w, foldl h r (g w)) r l = foldl h r (l ≫= g).
Proof. revert r. induction l as [|w l IH]; intros r; [done|]. simpl. by rewrite foldl_app, IH. Qed.

Lemma positions : (seqZ 0 28 ≫= λ w, (λ b, w * 10 + b) <$> seqZ 0 10) = seqZ 0 280.
Proof. vm_compute. reflexivity. Qed.

Lemma foldl_ext_in {A B} (f g : A → B → A) l r :
  (∀ a b, b ∈ l → f a b = g a b) → foldl f r l = foldl g r l.
Proof.
  revert r. induction l as [|x l IH]; intros r Hl; [done|]. simpl. rewrite Hl by set_solver.
  apply IH. set_solver.
Qed.

Lemma lookup_seqZ_0 n i : 0 ≤ i < n → seqZ 0 n !! Z.to_nat i = Some i.
Proof. intros Hi. rewrite lookup_seqZ_lt by lia. f_equal. lia. Qed.

Lemma word_indices_flat ws :
  length ws = 28%nat →
  word_indices_to_bytes ws
  = foldl (λ r p, or_bit p (Z.b2z (word_bit ws p)) r) (replicate 35 Byte.x00) (seqZ 0 280).
Proof.
  intros Hl. unfold word_indices_to_bytes. rewrite <- positions, <- foldl_bind.
  replace (zip (seqZ 0 28) ws) with ((λ w, (w, default 0 (ws !! Z.to_nat w))) <$> seqZ 0 28).
  - rewrite foldl_fmap. apply foldl_ext_in. intros r w Hw. unfold word_to_bytes. simpl fst. simpl snd.
    rewrite foldl_fmap. apply foldl_ext_in. intros r' b Hb. f_equal.
    apply elem_of_seqZ in Hw, Hb. rewrite low_bit by lia. unfold word_bit.
    rewrite Z.div_add_l, (Z.div_small b), Z.add_0_r by lia.
    by rewrite Z.add_comm, Z.mod_add, Z.mod_small by lia.
  - apply list_eq. intros i. rewrite list_lookup_fmap, lookup_zip_with.
    destruct (decide (i < 28)%nat) as [Hi|Hi].
    + replace i with (Z.to_nat (Z.of_nat i)) by lia. rewrite lookup_seqZ_0 by lia. simpl.
      destruct (lookup_lt_is_Some_2 ws (Z.to_nat (Z.of_nat i))) as [x ->]; [lia|]. done.
    + rewrite lookup_ge_None_2 by (rewrite length_seqZ; lia). done.
Qed.

Lemma word_indices_bits ws :
  length ws = 28%nat → length (word_indices_to_bytes ws) = 35%nat ∧
  ∀ q, 0 ≤ q < 280 → bit_of (word_indices_to_bytes ws) q = word_bit ws q.
Proof.
  intros Hl. rewrite word_indices_flat by done.
  destruct (or_bits_spec (word_bit ws) 280 (replicate 35 Byte.x00)) as [Hlen Hbits]; [|lia|].
  - intros q Hq. unfold bit_of. rewrite lookup_replicate_2; [by rewrite Z.bits_0|].
    change (len _) with 35 in Hq. pose proof (Z.div_lt_upper_bound q 8 35). lia.
  - split; [done|]. intros q Hq. rewrite Hbits by done. by destruct (Z.ltb_spec q 280); [|lia].
Qed.

Lemma bytes_bits_ext bs bs' :
  length bs = 35%nat → length bs' = 35%nat → (∀ q, 0 ≤ q < 280 → bit_of bs q = bit_of bs' q) → bs = bs'.
Proof.
  intros Hl Hl' Hq. apply (list_eq_same_length _ _ 35); [done..|]. intros i x y Hi Hx Hy.
  apply byte_ext. intros j Hj. specialize (Hq (8 * Z.of_nat i + (7 - j)) ltac:(lia)).
  unfold bit_of in Hq. rewrite (Z.mul_comm 8), Z.div_add_l, Z.div_small, Z.add_0_r, Nat2Z.id in Hq by lia.
  rewrite Z.add_comm, Z.mod_add, Z.mod_small in Hq by lia. rewrite Hx, Hy in Hq. simpl in Hq.
  by replace (7 - (7 - j)) with j in Hq by lia.
Qed.

Lemma bytes_to_words_lookup bs i :
  0 ≤ i < 28 → bytes_to_word_indices bs !! Z.to_nat i = Some (word_at bs i).
Proof. intros Hi. unfold bytes_to_word_indices. by rewrite list_lookup_fmap, lookup_seqZ_0. Qed.

Lemma words_of_bytes_bit bs q : 0 ≤ q < 280 → word_bit (bytes_to_word_indices bs) q = bit_of bs q.
Proof.
  intros Hq. unfold word_bit. pose proof (Z.div_mod q 10). pose proof (Z.mod_pos_bound q 10).
  assert (0 ≤ q / 10 < 28) by (split; [apply Z.div_pos; lia|apply Z.div_lt_upper_bound; lia]).
  rewrite bytes_to_words_lookup by lia. simpl. rewrite word_at_testbit by lia. f_equal. lia.
Qed.

(** 35 bytes to 28 words and back, and the other way around. *)
Lemma bytes_words_bytes bs : length bs = 35%nat → word_indices_to_bytes (bytes_to_word_indices bs) = bs.
Proof.
  intros Hl. destruct (word_indices_bits (bytes_to_word_indices bs)) as [Hlen Hb].
  { unfold bytes_to_word_indices. by rewrite length_fmap, length_seqZ. }
  apply bytes_bits_ext; [done..|]. intros q Hq. by rewrite Hb, words_of_bytes_bit.
Qed.

Lemma words_bytes_words ws :
  length ws = 28%nat → Forall (λ x, 0 ≤ x < 1024) ws → bytes_to_word_indices (word_indices_to_bytes ws) = ws.
Proof.
  intros Hl Hr. destruct (word_indices_bits ws Hl) as [_ Hb].
  apply (list_eq_same_length _ _ 28); [done|unfold bytes_to_word_indices; by rewrite length_fmap, length_seqZ|].
  intros i x y Hi Hx Hy.
  assert (bytes_to_word_indices (word_indices_to_bytes ws) !! i = Some (word_at (word_indices_to_bytes ws) (Z.of_nat i))) as Hw.
  { replace i with (Z.to_nat (Z.of_nat i)) at 1 by lia. apply bytes_to_words_lookup. lia. }
  assert (0 ≤ y < 1024) as Hy' by (eapply Forall_lookup_1 in Hr; done).
  rewrite Hx in Hw. injection Hw as ->. apply Z.bits_inj'. intros j Hj.
  pose proof (word_at_range (word_indices_to_bytes ws) (Z.of_nat i)) as Hr'.
  destruct (decide (j < 10)) as [Hj10|Hj10].
  - replace j with (9 - (9 - j)) at 1 by lia. rewrite word_at_testbit, Hb by lia.
    unfold word_bit. rewrite Z.div_add_l, (Z.div_small (9 - j)), Z.add_0_r, Nat2Z.id by lia. rewrite Hy. simpl.
    rewrite Z.add_comm, Z.mod_add, Z.mod_small by lia. f_equal. lia.
  - rewrite <- (Z.mod_small (word_at _ _) (2 ^ 10)), <- (Z.mod_small y (2 ^ 10)) by lia.
    by rewrite !Z.mod_pow2_bits_high by lia.
Qed.

(** ** Words *)

Definition letter (c : Ascii.ascii) : bool := ascii_in c 97 122.
Fixpoint letters (s : string) : bool :=
  match s with EmptyString => true | String c s => letter c && letters s end.
Definition plain (s : string) : bool := negb (String.eqb s EmptyString) && letters s.

Lemma letter_not_white c r : letter c = true → white_prefix (String c r) = None.
Proof.
  unfold letter, ascii_in, white_prefix. intros [Hl Hh]%andb_prop.
  apply N.leb_le in Hl, Hh. unfold ascii_in, ascii_is.
  assert (∀ n, (n < 97 ∨ 122 < n)%N → (Ascii.N_of_ascii c =? n)%N = false) as Hne
    by (intros n Hn; apply N.eqb_neq; lia).
  assert ((9 <=? Ascii.N_of_ascii c)%N && (Ascii.N_of_ascii c <=? 13)%N = false) as ->
    by (apply andb_false_iff; right; apply N.leb_gt; lia).
  rewrite !Hne by lia. simpl. destruct r as [|d [|e r]]; done.
Qed.

Lemma string_cons_app c (a b : string) : (String c a ++ b)%string = String c (a ++ b).
Proof. reflexivity. Qed.
Lemma string_app_assoc (a b c : string) : ((a ++ b) ++ c = a ++ (b ++ c))%string.
Proof. induction a as [|x a IH]; [done|]. by rewrite !string_cons_app, IH. Qed.
Lemma string_app_length (a b : string) : String.length (a ++ b) = (String.length a + String.length b)%nat.
Proof. induction a as [|x a IH]; [done|]. rewrite string_cons_app. simpl. by rewrite IH. Qed.
Lemma string_app_nil_r (a : string) : (a ++ "")%string = a.
Proof. induction a as [|x a IH]; [done|]. by rewrite string_cons_app, IH. Qed.

Lemma split_letters fuel w word rest :
  letters w = true →
  split_words (String.length w + fuel) word (w ++ rest) = split_words fuel (word ++ w) rest.
Proof.
  revert word. induction w as [|c w IH]; intros word Hw; [by rewrite string_app_nil_r|].
  simpl in Hw. apply andb_prop in Hw as [Hc Hw]. rewrite string_cons_app. cbn [String.length Nat.add split_words].
  rewrite letter_not_white by done. rewrite IH by done. by rewrite string_app_assoc.
Qed.

Lemma flush_plain w ws : plain w = true → flush w ws = w :: ws.
Proof. by destruct w. Qed.

Lemma split_concat fuel ws :
  Forall (λ w, plain w = true) ws →
  (String.length (String.concat " " ws) < fuel)%nat → split_words fuel "" (String.concat " " ws) = ws.
Proof.
  intros Hp. revert fuel. induction Hp as [|w ws Hw Hp IH]; intros fuel Hf.
  - by destruct fuel.
  - pose proof Hw as [_ Hl]%andb_prop. destruct ws as [|w' ws].
    + simpl in *. replace fuel with (String.length w + (fuel - String.length w))%nat by lia.
      transitivity (split_words (String.length w + (fuel - String.length w)) "" (w ++ ""));
        [by rewrite string_app_nil_r|]. rewrite split_letters by done.
      destruct (fuel - String.length w)%nat eqn:?; [lia|]. by apply flush_plain.
    + cbn [String.concat] in Hf |- *. rewrite string_app_length in Hf. simpl in Hf.
      replace fuel with (String.length w + S (fuel - String.length w - 1))%nat by lia.
      rewrite split_letters by done. rewrite string_cons_app. cbn [split_words white_prefix].
      match goal with |- context [ascii_in ?c 9 13 || ascii_is ?c 32] =>
        change (ascii_in c 9 13 || ascii_is c 32) with true end. cbv iota.
      change ("" +:+ ?x) with x in *. rewrite flush_plain by done. f_equal. apply IH. cbn [String.concat].
      lia.
Qed.

Lemma wordlist_plain : Forall (λ w, plain w = true) WORDLIST.
Proof. apply Forall_forall. intros w Hw. apply list_elem_of_In in Hw. revert w Hw. apply forallb_forall. vm_compute. reflexivity. Qed.

Lemma wordlist_at i : 0 ≤ i < 1024 →
  ∃ w, WORDLIST !! Z.to_nat i = Some w ∧ @index ConstructError _ i WORDLIST = Ok w ∧
    position w = Some i ∧ plain w = true.
Proof.
  intros Hi. destruct (lookup_lt_is_Some_2 WORDLIST (Z.to_nat i)) as [w Hw].
  { change (length WORDLIST) with 1024%nat. lia. }
  exists w. split_and!; [done| | |by eapply Forall_lookup_1 in Hw; [|apply wordlist_plain]].
  - unfold index. rewrite Hw. by destruct (Z.leb_spec 0 i); [|lia].
  - assert (forallb (λ i, match WORDLIST !! Z.to_nat i with
      | Some w => match position w with Some j => j =? i | None => false end
      | None => false end) (seqZ 0 1024) = true) as Hall by (vm_compute; reflexivity).
    rewrite forallb_forall in Hall. specialize (Hall i). rewrite Hw in Hall.
    assert (In i (seqZ 0 1024)) as Hin by (apply list_elem_of_In, elem_of_seqZ; lia).
    specialize (Hall Hin). destruct (position w) as [j|]; [|done]. f_equal. lia.
Qed.

Lemma position_from_sound k w l i :
  position_from k w l = Some i → k ≤ i < k + len l ∧ l !! Z.to_nat (i - k) = Some w.
Proof.
  revert k. induction l as [|x l IH]; intros k Hi; simpl in Hi; [done|].
  rewrite len_cons. pose proof (len_nonneg l). destruct (String.eqb_spec x w) as [->|_].
  - injection Hi as <-. rewrite Z.sub_diag. split; [lia|done].
  - apply IH in Hi as [Hr Hl]. split; [lia|].
    replace (Z.to_nat (i - k)) with (S (Z.to_nat (i - (k + 1)))) by lia. done.
Qed.
Lemma position_sound w i : position w = Some i → 0 ≤ i < 1024 ∧ WORDLIST !! Z.to_nat i = Some w.
Proof.
  intros Hp%position_from_sound. rewrite Z.sub_0_r in Hp. by change (len WORDLIST) with 1024 in Hp.
Qed.

(** ** Shares and mnemonics *)

Section shares.
Context `{!Sha2Crate} `{!Sha2Laws}.

Lemma checksum_length b : length (checksum b) = 2%nat.
Proof. unfold checksum. rewrite length_take. pose proof (sha256_len b). unfold len in *. lia. Qed.

Lemma share_to_wire_length s : wf_share s → length (share_to_wire s) = 35%nat.
Proof.
  unfold wf_share, share_to_wire, len. intros Hl. rewrite length_app, checksum_length. simpl. lia.
Qed.

Lemma wire_share s : wf_share s → share_index s ≠ Byte.x00 → wire_to_share (share_to_wire s) = Ok s.
Proof.
  intros Hw Hi%byte_eqb_0. unfold wire_to_share, share_to_wire.
  assert (33%nat = length (share_index s :: share_data s)) as ->
    by (simpl; unfold wf_share, len in Hw; lia).
  rewrite take_app_length, drop_app_length. rewrite bool_decide_eq_true_2 by done.
  cbn [negb]. rewrite Hi. by destruct s.
Qed.

Lemma wire_to_share_inv buf s :
  length buf = 35%nat → wire_to_share buf = Ok s →
  share_to_wire s = buf ∧ wf_share s ∧ share_index s ≠ Byte.x00.
Proof.
  intros Hl. unfold wire_to_share. case_bool_decide as Hc; [|done]. cbn [negb].
  destruct (take 33 buf) as [|i d] eqn:Ht; [done|].
  destruct (byte_eqb i 0) eqn:Hi; [done|]. intros [= <-]. apply byte_eqb_0 in Hi.
  unfold share_to_wire, wf_share. simpl. split_and!; [|..|done].
  - rewrite <- Hc, app_comm_cons, <- Ht. apply take_drop.
  - apply (f_equal length) in Ht. rewrite length_take, Hl in Ht. cbn in Ht. unfold len. lia.
Qed.

(** What [encode_share] joins. *)
Definition words_of (s : Share) : list string :=
  (λ i, default "" (WORDLIST !! Z.to_nat i)) <$> bytes_to_word_indices (share_to_wire s).

Lemma word_index_range bs i : i ∈ bytes_to_word_indices bs → 0 ≤ i < 1024.
Proof.
  intros (w & -> & Hw%elem_of_seqZ)%list_elem_of_fmap. apply word_at_range. lia.
Qed.

Lemma encode_share_words s : encode_share s = Ok (String.concat " " (words_of s)).
Proof.
  unfold encode_share. rewrite (mapM_res_spec _ (λ i, default "" (WORDLIST !! Z.to_nat i))); [done|].
  intros i Hi%word_index_range. destruct (wordlist_at i Hi) as (w & -> & -> & _). done.
Qed.

Lemma words_of_split s : split_whitespace (String.concat " " (words_of s)) = words_of s.
Proof.
  apply split_concat; [|lia]. apply Forall_fmap, Forall_forall. intros i Hi%word_index_range.
  destruct (wordlist_at i Hi) as (w & Hw & _ & _ & Hp). simpl. by rewrite Hw.
Qed.

Lemma decode_encode s :
  wf_share s → share_index s ≠ Byte.x00 → decode_share (String.concat " " (words_of s)) = Ok s.
Proof.
  intros Hw Hi. unfold decode_share. rewrite words_of_split.
  change (len (words_of s)) with 28. cbn [negb Z.eqb Pos.eqb].
  assert (mapM (λ word, ok_or (position word) (InvalidInput "unknown SLIP-39 word")) (words_of s)
    = Ok (bytes_to_word_indices (share_to_wire s))) as ->.
  { apply mapM_res_fmap. intros i Hr%word_index_range.
    destruct (wordlist_at i Hr) as (w & -> & _ & Hp & _). simpl. by rewrite Hp. }
  cbn [mbind res_bind]. rewrite bytes_words_bytes by by apply share_to_wire_length. by apply wire_share.
Qed.

(** A mnemonic gives back its share. Every share of 32 bytes with an index
    other than 0 has a mnemonic, and decoding it gives the share. *)
Theorem mnemonic_roundtrip s :
  wf_share s → share_index s ≠ Byte.x00 →
  ∃ m, encode_share s = Ok m ∧ decode_share m = Ok s.
Proof.
  intros Hw Hi. eexists. split; [apply encode_share_words|]. by apply decode_encode.
Qed.

(** only mnemonics decode. A text that decodes to a share consists of that
    share's 28 words, however they are spaced; its index is not 0. In
    particular no text decodes to two shares, and a changed word is noticed or
    belongs to another share with its own checksum. *)
Theorem mnemonic_canonical m s :
  decode_share m = Ok s →
  encode_share s = Ok (String.concat " " (split_whitespace m)) ∧ wf_share s ∧
  share_index s ≠ Byte.x00.
Proof.
  unfold decode_share. destruct (Z.eqb_spec (len (split_whitespace m)) 28) as [Hl|]; [|done]. cbn [negb].
  destruct (mapM _ (split_whitespace m)) as [ws| |] eqn:Hm; [|done..]. cbn [mbind res_bind].
  apply mapM_res_inv in Hm. pose proof (Forall2_length _ _ _ Hm) as Hlen.
  assert (length ws = 28%nat) as H28 by (unfold len in Hl; lia).
  destruct (word_indices_bits ws H28) as [H35 _]. intros (Hwire & Hw & Hi)%wire_to_share_inv; [|done].
  split_and!; [|done..]. rewrite encode_share_words. do 2 f_equal. unfold words_of. rewrite Hwire.
  assert (Forall2 (λ word i, (0 ≤ i < 1024) ∧ WORDLIST !! Z.to_nat i = Some word) (split_whitespace m) ws) as Hf.
  { eapply Forall2_impl; [exact Hm|]. intros word i Hp. simpl in Hp.
    destruct (position word) as [j|] eqn:Hj; [|done]. injection Hp as <-. by apply position_sound. }
  rewrite words_bytes_words; [|done|].
  - clear -Hf. induction Hf as [|word i l k [_ Hi] _ IH]; [done|]. rewrite fmap_cons, IH. by rewrite Hi.
  - clear -Hf. induction Hf as [|word i l k [Hi _] _ IH]; by constructor.
Qed.

Lemma decode_all (shares : list Share) :
  Forall (λ s, wf_share s ∧ share_index s ≠ Byte.x00) shares →
  mapM decode_share ((λ s, String.concat " " (words_of s)) <$> shares) = Ok shares.
Proof.
  intros Hs. apply mapM_res_fmap. intros s Hin. rewrite Forall_forall in Hs.
  destruct (Hs s Hin). by apply decode_encode.
Qed.

(** the vault key comes back from its mnemonics. Setting up recovery gives
    one mnemonic per share, and any [threshold] of them, in any order, give
    the key. *)
Theorem vault_key_recovers `{!Platform} `{!PlatformLaws} vault_key threshold share_count w :
  len vault_key = 32 → 2 ≤ threshold ≤ share_count → share_count ≤ 10 →
  ∃ w' mnemonics, create_recovery_shares vault_key threshold share_count w = (w', Ok mnemonics) ∧
    len mnemonics = share_count ∧
    ∀ chosen, NoDup chosen → chosen ⊆ mnemonics → threshold ≤ len chosen →
      reconstruct_vault_key chosen = Ok vault_key.
Proof.
  intros Hl Ht Hn. destruct (split_combines vault_key threshold share_count w Hl Ht Hn)
    as (w' & shares & Hsp & Hlen & Hwf & Hc).
  exists w', ((λ s, String.concat " " (words_of s)) <$> shares). split_and!.
  - unfold create_recovery_shares, mbind, stm_bind. rewrite Hsp. unfold lift. do 2 f_equal.
    apply mapM_res_spec. intros s _. apply encode_share_words.
  - unfold len. by rewrite length_fmap.
  - intros chosen Hd Hsub Hch.
    assert (∃ l, chosen = (λ s, String.concat " " (words_of s)) <$> l ∧ l ⊆ shares) as (l & -> & Hls).
    { clear Hd Hch. induction chosen as [|m chosen IH]; [exists []; split; [done|]; by intros ? ?%not_elem_of_nil|].
      destruct IH as (l & -> & Hls); [intros x Hx; apply Hsub; by right|].
      assert (m ∈ (λ s, String.concat " " (words_of s)) <$> shares) as Hm by (apply Hsub; by left).
      apply list_elem_of_fmap in Hm as (s & -> & Hs). exists (s :: l). split; [done|].
      by intros x [->|Hx]%elem_of_cons; [|apply Hls]. }
    unfold reconstruct_vault_key. rewrite decode_all.
    + cbn [mbind res_bind]. apply Hc; [|done|by unfold len in *; rewrite length_fmap in Hch].
      by eapply NoDup_fmap_1.
    + rewrite Forall_forall in Hwf |- *. intros s Hs. by apply Hwf, Hls.
Qed.
End shares.

(** ** The recovery bundle *)

Record RecoveryBundle := mkRecoveryBundle {
  device_signing_key : bytes;
  device_identity_key : bytes;
  rb_device_id : string;
  rb_created_at : Z;
}.

(** [serde_json] on a bundle. *)
Class BundleJson := {
  bundle_to_string : RecoveryBundle → res string string;
  bundle_from_str : string → res string RecoveryBundle;
}.
Class BundleJsonLaws `{BundleJson} : Prop := {
  bundle_json_roundtrip : ∀ b s, bundle_to_string b = Ok s →
    bundle_from_str s = Ok b ∧ utf8_valid (as_bytes s) = true;
}.

Section bundle.
Context `{!Platform} `{!ClassicCrates}.

Definition encrypt_bundle (vault_key : bytes) (plaintext_json : string)
    : stm World ConstructError bytes := λ w,
  let (w, nonce) := os_rng 12 w in
  (w, ciphertext ← ok_or (chacha_encrypt vault_key nonce (as_bytes plaintext_json) [])
        (InternalError "bundle encryption failed");
      Ok (nonce ++ ciphertext)).

Definition decrypt_bundle (vault_key ciphertext : bytes) : res ConstructError string :=
  if len ciphertext <? 12 then Err (InvalidInput "ciphertext is too short (< 12 bytes)") else
  plaintext ← ok_or (chacha_decrypt vault_key (take 12 ciphertext) (drop 12 ciphertext) [])
    (InternalError "bundle decryption failed");
  ok_or (from_utf8 plaintext) (InternalError "bundle is not valid UTF-8").

Context `{!BundleJson}.

Definition seal_recovery_bundle (vault_key : bytes) (bundle : RecoveryBundle)
    : stm World ConstructError bytes :=
  json ← lift (map_err CoreSerializationError (bundle_to_string bundle));
  encrypt_bundle vault_key json.

Definition open_recovery_bundle (vault_key ciphertext : bytes) : res ConstructError RecoveryBundle :=
  json ← decrypt_bundle vault_key ciphertext;
  map_err CoreSerializationError (bundle_from_str json).

Context `{!PlatformLaws} `{!ClassicCratesLaws} `{!BundleJsonLaws}.

Lemma encrypt_bundle_opens vault_key json w w' c :
  utf8_valid (as_bytes json) = true →
  encrypt_bundle vault_key json w = (w', Ok c) → decrypt_bundle vault_key c = Ok json.
Proof.
  intros Hu. unfold encrypt_bundle, decrypt_bundle. pose proof (os_rng_len 12 w) as Hn.
  destruct (os_rng 12 w) as [w1 nonce]. simpl in Hn.
  destruct (chacha_encrypt _ _ _ _) as [ct|] eqn:Hc; [|done]. intros [= _ <-].
  assert (length nonce = 12%nat) as H12 by (unfold len in Hn; lia).
  rewrite len_app. pose proof (len_nonneg ct). destruct (Z.ltb_spec (len nonce + len ct) 12); [lia|].
  rewrite <- H12 at 1 2. rewrite take_app_length, drop_app_length.
  rewrite (chacha_roundtrip _ _ _ _ _ Hc). cbn [ok_or mbind res_bind]. by rewrite from_utf8_as_bytes.
Qed.

(** A sealed recovery bundle opens under its key, and gives the bundle
    that was sealed. *)
Theorem recovery_bundle_roundtrip vault_key bundle w w' sealed :
  seal_recovery_bundle vault_key bundle w = (w', Ok sealed) →
  open_recovery_bundle vault_key sealed = Ok bundle.
Proof.
  unfold seal_recovery_bundle, open_recovery_bundle, lift, mbind, stm_bind.
  destruct (bundle_to_string bundle) as [json| |] eqn:Hj; [|done..].
  destruct (bundle_json_roundtrip _ _ Hj) as [Hb Hu]. intros He.
  rewrite (encrypt_bundle_opens _ _ _ _ _ Hu He). cbn. by rewrite Hb.
Qed.
End bundle.

(** ** Instances *)

Definition demo_share : Share := mkShare Byte.x03 (replicate 32 Byte.x2a).

Lemma mnemonic_roundtrip_witness : ∃ m, encode_share demo_share = Ok m ∧ decode_share m = Ok demo_share.
Proof. apply (mnemonic_roundtrip demo_share); [reflexivity|discriminate]. Defined.

Definition demo_mnemonic : string :=
  match encode_share demo_share with Ok m => m | _ => EmptyString end.

Lemma mnemonic_canonical_witness :
  encode_share demo_share = Ok (String.concat " " (split_whitespace demo_mnemonic)) ∧
  wf_share demo_share ∧ share_index demo_share ≠ Byte.x00.
Proof. apply (mnemonic_canonical demo_mnemonic demo_share). vm_compute. reflexivity. Defined.

Lemma vault_key_recovers_witness :
  ∃ w' mnemonics,
    create_recovery_shares (replicate 32 Byte.x2a) 2 3 (toy_world 100) = (w', Ok mnemonics) ∧
    len mnemonics = 3 ∧
    ∀ chosen, NoDup chosen → chosen ⊆ mnemonics → 2 ≤ len chosen →
      reconstruct_vault_key chosen = Ok (replicate 32 Byte.x2a).
Proof. apply (vault_key_recovers (replicate 32 Byte.x2a) 2 3 (toy_world 100)); [reflexivity|lia|lia]. Defined.

(** Stands for [serde_json]: bundles without keys, written as their device id. *)
#[local] Instance toy_bundle_json : BundleJson := {|
  bundle_to_string b :=
    match b with
    | mkRecoveryBundle [] [] id 0 => if utf8_valid (as_bytes id) then Ok id else Err "bundle"
    | _ => Err "bundle"
    end;
  bundle_from_str s := Ok (mkRecoveryBundle [] [] s 0);
|}.
#[local] Instance toy_bundle_json_laws : BundleJsonLaws.
Proof.
  split. intros [[|??] [|??] id [| |]] s; try done. simpl. destruct (utf8_valid (as_bytes id)) eqn:Hu; [|done].
  by intros [= <-].
Qed.

Definition demo_bundle : RecoveryBundle := mkRecoveryBundle [] [] "phone" 0.
Definition demo_sealed := seal_recovery_bundle (replicate 32 Byte.x2a) demo_bundle (toy_world 100).

Lemma recovery_bundle_roundtrip_witness :
  ∃ c, demo_sealed = (demo_sealed.1, Ok c) ∧
    open_recovery_bundle (replicate 32 Byte.x2a) c = Ok demo_bundle.
Proof.
  eexists. split; [vm_compute; reflexivity|].
  eapply (recovery_bundle_roundtrip (replicate 32 Byte.x2a) demo_bundle (toy_world 100)).
  vm_compute. reflexivity.
Defined.
