(* ===== verification/CfeEnvelope.v ===== *)
(** * The CFE envelope

    Models [src/src/cfe/envelope.rs], [src/src/cfe/compat.rs],
    [src/src/cfe/error.rs] and the message types of [src/src/cfe/types.rs]: the
    16-byte header every stored blob starts with. The payload's MessagePack
    form ([rmp_serde]) and the checksum ([crc32fast]) are parameters. *)

From S2P Require Import Prelude SuiteId Platform Classic Toy RatchetTypes WirePayload Crates.

(** ** Message types and errors *)

Inductive CfeMessageType :=
  | PrivateKeys
  | SessionState
  | OtpkBundle
  | RegistrationBundle
  | OrchestratorState
  | KyberPrivateKeys
  | MlsStore
  | Generic.
#[global] Instance cfe_type_eq_dec : EqDecision CfeMessageType.
Proof. solve_decision. Defined.

(** [msg_type as u8] *)
Definition cfe_type_u8 (t : CfeMessageType) : Z :=
  match t with
  | PrivateKeys => 0x01
  | SessionState => 0x02
  | OtpkBundle => 0x03
  | RegistrationBundle => 0x04
  | OrchestratorState => 0x05
  | KyberPrivateKeys => 0x20
  | MlsStore => 0x44
  | Generic => 0x7F
  end.

Definition cfe_type_from_u8 (value : Z) : option CfeMessageType :=
  match value with
  | 0x01 => Some PrivateKeys
  | 0x02 => Some SessionState
  | 0x03 => Some OtpkBundle
  | 0x04 => Some RegistrationBundle
  | 0x05 => Some OrchestratorState
  | 0x20 => Some KyberPrivateKeys
  | 0x44 => Some MlsStore
  | 0x7F => Some Generic
  | _ => None
  end.

Inductive CfeError :=
  | TooShort (min got : Z)
  | InvalidMagic
  | LegacyJson
  | UnsupportedVersion (v : Z)
  | UnknownType (t : Z)
  | ChecksumMismatch (stored computed : Z)
  | PayloadTooLarge (max got : Z)
  | TruncatedPayload (expected got : Z)
  | InvalidReservedBytes
  | UnsupportedFlags (f : Z)
  | TypeMismatch (expected got : CfeMessageType)
  | InvalidFormat
  | SerializeFailed (m : string)
  | DeserializeFailed (m : string)
  | LegacyJsonParseFailed (m : string)
  | Base64DecodeFailed (m : string)
  | InvalidField (m : string).

(** ** Legacy JSON *)

Definition json_space (b : byte) : bool :=
  byte_eqb b 32 || byte_eqb b 9 || byte_eqb b 10 || byte_eqb b 13.
Definition looks_like_legacy_json (data : bytes) : bool :=
  match head (filter (λ b, json_space b = false) data) with
  | Some b => byte_eqb b 123 || byte_eqb b 91
  | None => false
  end.
Definition legacy_json_error_if_detected (data : bytes) : res CfeError unit :=
  guard_err (looks_like_legacy_json data) LegacyJson.

(** ** The envelope *)

Definition CFE_MAGIC : bytes := [byte_of_Z 0x43; byte_of_Z 0x46].
Definition CFE_VERSION : Z := 0x01.
Definition CFE_HEADER_LEN : Z := 16.
Definition MAX_PAYLOAD_LEN : Z := 256 * 1024.
Definition MAX_STATE_PAYLOAD_LEN : Z := 64 * 1024 * 1024.

Definition max_payload_len (msg_type : CfeMessageType) : Z :=
  match msg_type with
  | Generic => MAX_PAYLOAD_LEN
  | PrivateKeys | SessionState | OtpkBundle | RegistrationBundle | OrchestratorState
  | KyberPrivateKeys | MlsStore => MAX_STATE_PAYLOAD_LEN
  end.

Record CfeEnvelope := mkCfeEnvelope {
  cfe_version : Z;
  cfe_msg_type : CfeMessageType;
  cfe_flags : Z;
  cfe_payload : bytes;
}.

(** [crc32fast::Hasher] over one buffer. *)
Class Crc32Crate := { crc32 : bytes → Z }.
Class Crc32Laws `{Crc32Crate} : Prop := { crc32_u32 : ∀ b, is_u32 (crc32 b) }.

(** [rmp_serde::to_vec_named] and [from_slice] at one type. *)
Class MessagePack (T : Type) := {
  rmp_to_vec : T → res string bytes;
  rmp_from_slice : bytes → res string T;
}.
Class MessagePackLaws T `{MessagePack T} : Prop := {
  rmp_roundtrip : ∀ v b, rmp_to_vec v = Ok b → rmp_from_slice b = Ok v;
  rmp_to_vec_no_panic : ∀ v, rmp_to_vec v ≠ Panic;
  rmp_from_slice_no_panic : ∀ b, rmp_from_slice b ≠ Panic;
}.

Section envelope.
Context `{!Crc32Crate}.

(** The bytes in front of a payload. *)
Definition cfe_header (msg_type : CfeMessageType) (payload : bytes) : bytes :=
  CFE_MAGIC ++ [byte_of_Z CFE_VERSION; byte_of_Z (cfe_type_u8 msg_type); byte_of_Z 0]
  ++ replicate 3 (byte_of_Z 0) ++ le_bytes 4 (len payload) ++ le_bytes 4 (crc32 payload).

Definition cfe_encode {T} `{!MessagePack T} (msg_type : CfeMessageType) (value : T)
    : res CfeError bytes :=
  payload ← map_err SerializeFailed (rmp_to_vec value);
  let max := max_payload_len msg_type in
  if len payload >? max then Err (PayloadTooLarge max (len payload)) else
  Ok (cfe_header msg_type payload ++ payload).

Definition parse_header (data : bytes) : res CfeError CfeEnvelope :=
  if len data <? CFE_HEADER_LEN then
    _ ← legacy_json_error_if_detected data;
    Err (TooShort CFE_HEADER_LEN (len data))
  else
  magic ← slice 0 2 data;
  if negb (bool_decide (magic = CFE_MAGIC)) then
    _ ← legacy_json_error_if_detected data;
    Err InvalidMagic
  else
  version ← index 2 data;
  if negb (byte_eqb version CFE_VERSION) then Err (UnsupportedVersion (byte_to_Z version)) else
  msg_type_raw ← index 3 data;
  msg_type ← ok_or (cfe_type_from_u8 (byte_to_Z msg_type_raw)) (UnknownType (byte_to_Z msg_type_raw));
  flags ← index 4 data;
  if negb (byte_eqb flags 0) then Err (UnsupportedFlags (byte_to_Z flags)) else
  r5 ← index 5 data; r6 ← index 6 data; r7 ← index 7 data;
  if negb (byte_eqb r5 0) || negb (byte_eqb r6 0) || negb (byte_eqb r7 0)
  then Err InvalidReservedBytes else
  len_bytes ← slice 8 12 data;
  let payload_len := le_val len_bytes in
  let max := max_payload_len msg_type in
  if payload_len >? max then Err (PayloadTooLarge max payload_len) else
  let total_len := CFE_HEADER_LEN + payload_len in
  if len data <? total_len
  then Err (TruncatedPayload payload_len (sat_sub (len data) CFE_HEADER_LEN)) else
  crc_bytes ← slice 12 16 data;
  let stored_crc := le_val crc_bytes in
  raw_payload ← slice CFE_HEADER_LEN total_len data;
  let computed_crc := crc32 raw_payload in
  if negb (stored_crc =? computed_crc) then Err (ChecksumMismatch stored_crc computed_crc) else
  Ok (mkCfeEnvelope (byte_to_Z version) msg_type (byte_to_Z flags) raw_payload).

Definition cfe_decode (data : bytes) : res CfeError CfeEnvelope := parse_header data.

Definition decode_as {T} `{!MessagePack T} (data : bytes) (expected_type : CfeMessageType)
    : res CfeError T :=
  envelope ← parse_header data;
  if negb (bool_decide (cfe_msg_type envelope = expected_type))
  then Err (TypeMismatch expected_type (cfe_msg_type envelope)) else
  map_err DeserializeFailed (rmp_from_slice (cfe_payload envelope)).
End envelope.

(** ** The header, read back *)

Lemma type_u8_from t : cfe_type_from_u8 (cfe_type_u8 t) = Some t.
Proof. by destruct t. Qed.
Lemma type_from_u8_inv v t : cfe_type_from_u8 v = Some t → cfe_type_u8 t = v.
Proof. unfold cfe_type_from_u8. repeat case_match; by intros [= <-]. Qed.
Lemma type_u8_range t : is_u8 (cfe_type_u8 t).
Proof. by destruct t. Qed.

Section laws.
Context `{!Crc32Crate} `{!Crc32Laws}.

Lemma len_cfe_header t p : len (cfe_header t p) = 16.
Proof. reflexivity. Qed.

Lemma payload_cap_u32 t n : 0 ≤ n ≤ max_payload_len t → 0 ≤ n < 256 ^ 4.
Proof. unfold max_payload_len, MAX_PAYLOAD_LEN, MAX_STATE_PAYLOAD_LEN. destruct t; lia. Qed.

(** The bytes of a header, taken apart. *)
Lemma cfe_header_parts t p : ∃ l c, cfe_header t p = CFE_MAGIC ++
    [byte_of_Z CFE_VERSION; byte_of_Z (cfe_type_u8 t); byte_of_Z 0; byte_of_Z 0; byte_of_Z 0; byte_of_Z 0]
    ++ l ++ c ∧ l = le_bytes 4 (len p) ∧ c = le_bytes 4 (crc32 p) ∧ len l = 4 ∧ len c = 4.
Proof. by eexists _, _. Qed.

(** Whatever follows the payload is not looked at. *)
Lemma parse_header_written t p rest :
  len p ≤ max_payload_len t →
  parse_header (cfe_header t p ++ p ++ rest) = Ok (mkCfeEnvelope CFE_VERSION t 0 p).
Proof.
  intros Hp. pose proof (len_nonneg p). pose proof (len_nonneg rest).
  destruct (cfe_header_parts t p) as (l & c & Hh & Hl & Hc & Hll & Hlc).
  unfold parse_header. rewrite len_app, len_cfe_header, len_app.
  destruct (Z.ltb_spec (16 + (len p + len rest)) CFE_HEADER_LEN) as [Hlt|_]; [unfold CFE_HEADER_LEN in Hlt; lia|].
  set (data := cfe_header t p ++ p ++ rest).
  assert (data = CFE_MAGIC ++ [byte_of_Z CFE_VERSION; byte_of_Z (cfe_type_u8 t); byte_of_Z 0; byte_of_Z 0;
    byte_of_Z 0; byte_of_Z 0] ++ l ++ c ++ p ++ rest) as Hd.
  { unfold data. rewrite Hh. by rewrite <- !(assoc_L (++)). }
  assert (view 0 data data) as V0 by apply view_start. rewrite Hd in V0 at 2.
  rewrite (view_slice 0 2 _ _ _ V0) by done. apply (view_next _ 2) in V0; [|done]. simpl in V0.
  cbn [mbind res_bind]. rewrite bool_decide_eq_true_2 by done. cbn [negb].
  rewrite (view_index 2 _ _ _ V0). apply (view_cons _ 3) in V0; [|done]. cbn [mbind res_bind].
  change (byte_eqb (byte_of_Z CFE_VERSION) CFE_VERSION) with true. cbn [negb].
  rewrite (view_index 3 _ _ _ V0). apply (view_cons _ 4) in V0; [|done]. cbn [mbind res_bind].
  rewrite (byte_to_of_Z_small (cfe_type_u8 t)), type_u8_from by apply type_u8_range. cbn [ok_or mbind res_bind].
  rewrite (view_index 4 _ _ _ V0). apply (view_cons _ 5) in V0; [|done]. cbn [mbind res_bind].
  change (byte_eqb (byte_of_Z 0) 0) with true. cbn [negb].
  rewrite (view_index 5 _ _ _ V0). apply (view_cons _ 6) in V0; [|done]. cbn [mbind res_bind].
  rewrite (view_index 6 _ _ _ V0). apply (view_cons _ 7) in V0; [|done]. cbn [mbind res_bind].
  rewrite (view_index 7 _ _ _ V0). apply (view_cons _ 8) in V0; [|done]. cbn [mbind res_bind].
  change (byte_eqb (byte_of_Z 0) 0) with true. cbn [negb orb].
  rewrite (view_slice 8 12 _ _ _ V0) by lia. apply (view_next _ 12) in V0; [|lia]. cbn [mbind res_bind].
  rewrite Hl, le_val_bytes_small by (eapply payload_cap_u32; split; done).
  destruct (Z.gtb_spec (len p) (max_payload_len t)); [lia|].
  destruct (Z.ltb_spec (16 + (len p + len rest)) (CFE_HEADER_LEN + len p)) as [Hlt|_]; [unfold CFE_HEADER_LEN in Hlt; lia|].
  rewrite (view_slice 12 16 _ _ _ V0) by lia. apply (view_next _ 16) in V0; [|lia]. cbn [mbind res_bind].
  change CFE_HEADER_LEN with 16. rewrite (view_slice 16 (16 + len p) _ _ _ V0) by lia. cbn [mbind res_bind].
  rewrite Hc, le_val_bytes_small by (pose proof (crc32_u32 p) as Hcrc; unfold is_u32, u32_max in Hcrc; simpl; lia).
  by rewrite Z.eqb_refl.
Qed.

Lemma byte_eqb_of b z : byte_eqb b z = true → b = byte_of_Z z.
Proof. unfold byte_eqb. rewrite Z.eqb_eq. intros <-. by rewrite byte_of_to_Z. Qed.

(** One step of reading backwards: what was read stands in front of the view. *)
Ltac read_back V :=
  match goal with
  | |- mbind _ (index ?a ?l) = Ok _ → _ =>
      let E := fresh in let x := fresh "b" in
      destruct (@index CfeError _ a l) as [x| |] eqn:E; [|done..];
      apply (index_view _ _ _ _ V) in E as (? & -> & V'); clear V; rename V' into V
  | |- mbind _ (slice ?a ?c ?l) = Ok _ → _ =>
      let E := fresh in let x := fresh "x" in let L := fresh "L" in
      destruct (@slice CfeError _ a c l) as [x| |] eqn:E; [|done..];
      pose proof (slice_ok_len _ _ _ _ E) as L;
      apply (slice_view _ _ _ _ _ V) in E as (? & -> & V'); clear V; rename V' into V
  end; cbn [mbind res_bind].

(** What parses is a header, its payload and anything. *)
Lemma parse_header_inv data e :
  parse_header data = Ok e →
  ∃ rest, data = cfe_header (cfe_msg_type e) (cfe_payload e) ++ cfe_payload e ++ rest ∧
    cfe_version e = CFE_VERSION ∧ cfe_flags e = 0 ∧
    len (cfe_payload e) ≤ max_payload_len (cfe_msg_type e).
Proof.
  unfold parse_header.
  destruct (Z.ltb_spec (len data) CFE_HEADER_LEN); [by destruct (legacy_json_error_if_detected data)|].
  assert (∃ r, data = r ∧ view 0 data r) as (r & Hr & V) by (eexists; split; [done|apply view_start]).
  read_back V. case_bool_decide as Hm; [subst x|by destruct (legacy_json_error_if_detected data)]. cbn [negb].
  read_back V. destruct (byte_eqb b CFE_VERSION) eqn:Hv; [|done]. cbn [negb]. read_back V.
  destruct (cfe_type_from_u8 (byte_to_Z b0)) as [t|] eqn:Ht; [|done]. cbn [ok_or mbind res_bind].
  read_back V. destruct (byte_eqb b1 0) eqn:Hf; [|done]. cbn [negb]. do 3 read_back V.
  destruct (byte_eqb b2 0) eqn:H2; [|done]. destruct (byte_eqb b3 0) eqn:H3; [|done].
  destruct (byte_eqb b4 0) eqn:H4; [|done]. cbn [negb orb]. read_back V.
  destruct (Z.gtb_spec (le_val x) (max_payload_len t)) as [|Hmax]; [done|].
  destruct (Z.ltb_spec (len data) (CFE_HEADER_LEN + le_val x)); [done|].
  read_back V. change CFE_HEADER_LEN with 16. read_back V.
  destruct (Z.eqb_spec (le_val x0) (crc32 x1)) as [Hcrc|]; [|done]. cbn [negb]. intros [= <-]. simpl.
  eexists. split_and!; [|..].
  - rewrite Hr. unfold cfe_header. rewrite <- Hcrc.
    replace (len x1) with (le_val x) by lia.
    assert (length x = 4%nat) as Hx by (unfold len in *; lia).
    assert (length x0 = 4%nat) as Hx0 by (unfold len in *; lia).
    rewrite <- Hx at 1. rewrite le_bytes_val. rewrite <- Hx0 at 1. rewrite le_bytes_val.
    apply byte_eqb_of in Hv as ->, Hf as ->, H2 as ->, H3 as ->, H4 as ->.
    apply type_from_u8_inv in Ht. rewrite Ht, byte_of_to_Z. by rewrite <- !(assoc_L (++)).
  - by apply byte_eqb_of in Hv as ->.
  - by apply byte_eqb_of in Hf as ->.
  - lia.
Qed.

(** C12: [parse_header] accepts exactly the envelopes. It returns an envelope
    just when the bytes are that envelope's header, with the magic, the version,
    a known type, no flags, zero reserved bytes, the payload's length and
    checksum, then the payload, which is within the cap of its type, then
    anything; otherwise it returns an error. It never panics. *)
Theorem parse_header_accepts data :
  parse_header data ≠ Panic ∧
  ∀ e, parse_header data = Ok e ↔
    cfe_version e = CFE_VERSION ∧ cfe_flags e = 0 ∧
    len (cfe_payload e) ≤ max_payload_len (cfe_msg_type e) ∧
    ∃ rest, data = cfe_header (cfe_msg_type e) (cfe_payload e) ++ cfe_payload e ++ rest.
Proof.
  split.
  - unfold parse_header, CFE_HEADER_LEN, legacy_json_error_if_detected, guard_err.
    destruct (Z.ltb_spec (len data) 16); [by destruct (looks_like_legacy_json data)|].
    repeat no_panic_step.
    all: try match goal with |- mbind _ (ok_or ?o ?e) ≠ Panic => destruct o eqn:?; [|done] end.
    all: cbn [ok_or mbind res_bind]; repeat no_panic_step.
    all: match goal with _ : context [le_val ?x] |- _ => pose proof (le_val_range x) end; repeat no_panic_step.
  - intros e. split.
    + intros (rest & -> & ? & ? & ?)%parse_header_inv. split_and!; [done..|]. by exists rest.
    + intros (Hv & Hf & Hm & rest & ->). destruct e as [v t f p]. simpl in *. subst. by apply parse_header_written.
Qed.

Lemma encoded_envelope {T} `{!MessagePack T} `{!MessagePackLaws T} t (v : T) out rest :
  cfe_encode t v = Ok out →
  ∃ e, parse_header (out ++ rest) = Ok e ∧ cfe_msg_type e = t ∧ rmp_from_slice (cfe_payload e) = Ok v.
Proof.
  unfold cfe_encode. destruct (rmp_to_vec v) as [p| |] eqn:Hp; [|done..]. cbn [map_err mbind res_bind].
  destruct (Z.gtb_spec (len p) (max_payload_len t)) as [|Hm]; [done|]. intros Ho.
  assert (out = cfe_header t p ++ p) as -> by congruence. rewrite <- (assoc_L (++) (cfe_header t p) p rest), parse_header_written by done.
  eexists. split_and!; [done|done|]. by apply rmp_roundtrip.
Qed.
Lemma encode_decodes {T} `{!MessagePack T} `{!MessagePackLaws T} t (v : T) out rest :
  cfe_encode t v = Ok out → decode_as (out ++ rest) t = Ok v.
Proof.
  intros (e & He & Ht & Hv)%(encoded_envelope _ _ _ rest). unfold decode_as. rewrite He. cbn [mbind res_bind].
  rewrite (bool_decide_eq_true_2 _ Ht). cbn. by rewrite Hv.
Qed.

(** a value that was encoded decodes. An envelope [encode] writes is read
    back by [decode_as] as the value, whatever bytes follow it, if the type asked
    for is the one written, and is refused as another type otherwise. *)
Theorem envelope_roundtrip {T} `{!MessagePack T} `{!MessagePackLaws T} t (v : T) out rest :
  cfe_encode t v = Ok out →
  decode_as (out ++ rest) t = Ok v ∧
  ∀ t', t' ≠ t → @decode_as _ T _ (out ++ rest) t' = Err (TypeMismatch t' t).
Proof.
  intros Ho. split; [by apply encode_decodes|]. destruct (encoded_envelope t v out rest Ho) as (e & He & Ht & _).
  intros t' Hne. unfold decode_as. rewrite He. cbn [mbind res_bind]. rewrite bool_decide_eq_false_2 by congruence. cbn. by rewrite Ht.
Qed.
End laws.

(** ** Instances *)

#[global] Instance toy_crc32 : Crc32Crate := {| crc32 b := digest 3 b |}.
#[global] Instance toy_crc32_laws : Crc32Laws.
Proof.
  split. intros b. simpl. unfold digest.
  assert (∀ s, is_u32 s → is_u32 (foldl (λ acc x, (acc * 31 + byte_to_Z x + 7) `mod` 65521) s b)) as Hd.
  { induction b as [|x b IH]; intros s Hs; [done|]. simpl. apply IH.
    unfold is_u32, u32_max. pose proof (Z.mod_pos_bound (s * 31 + byte_to_Z x + 7) 65521). lia. }
  by apply Hd.
Qed.
(** Byte strings, packed as they are. *)
#[local] Instance toy_rmp : MessagePack bytes := {| rmp_to_vec b := Ok b; rmp_from_slice b := Ok b |}.
#[local] Instance toy_rmp_laws : MessagePackLaws bytes.
Proof. split; [by intros v b [= <-]|done..]. Qed.

Lemma envelope_roundtrip_witness :
  let out := cfe_header Generic [Byte.x61; Byte.x62] ++ [Byte.x61; Byte.x62] in
  decode_as (out ++ [Byte.x00]) Generic = Ok [Byte.x61; Byte.x62] ∧
  ∀ t', t' ≠ Generic → @decode_as _ bytes _ (out ++ [Byte.x00]) t' = Err (TypeMismatch t' Generic).
Proof.
  intros out. apply (envelope_roundtrip Generic [Byte.x61; Byte.x62] out [Byte.x00]).
  vm_compute. reflexivity.
Defined.

Lemma parse_header_accepts_witness :
  parse_header (cfe_header Generic [Byte.x61] ++ [Byte.x61; Byte.x62]) ≠ Panic ∧
  ∀ e, parse_header (cfe_header Generic [Byte.x61] ++ [Byte.x61; Byte.x62]) = Ok e ↔
    cfe_version e = CFE_VERSION ∧ cfe_flags e = 0 ∧
    len (cfe_payload e) ≤ max_payload_len (cfe_msg_type e) ∧
    ∃ rest, cfe_header Generic [Byte.x61] ++ [Byte.x61; Byte.x62] =
      cfe_header (cfe_msg_type e) (cfe_payload e) ++ cfe_payload e ++ rest.
Proof. apply (parse_header_accepts (cfe_header Generic [Byte.x61] ++ [Byte.x61; Byte.x62])). Defined.
