(* ===== verification/SealedBox.v ===== *)
(** * The sealed box and the decryption error

    Models the anonymous box of [src/src/crypto/sealed_sender/mod.rs]
    ([seal_in_domain], [open_in_domain] and the two wrappers) and the message
    that travels in it, [src/src/orchestration/decryption_error.rs]. Shown: a
    box opens with the secret of the key it was sealed to; a decryption error
    that was sealed is read back by its recipient, and its box has one length
    whatever it names. *)

From S2P Require Import Prelude Platform Classic Toy Crates WirePayload.

(** ** The box *)

Definition SEALED_SALT : bytes := as_bytes "ConstructSEALED-v1".
Definition BOX_EPH_LEN : Z := 32.
Definition BOX_NONCE_LEN : Z := 12.
Definition BOX_TAG_LEN : Z := 16.

Section box.
Context `{Platform} `{ClassicCrates}.

Definition derive_key (shared salt : bytes) : res CryptoError bytes :=
  expect (hkdf_sha256 salt shared [] 32).

Definition seal_in_domain (plaintext recipient_public salt : bytes) : stm World CryptoError bytes :=
  recipient_pub ← lift (as_key32 recipient_public "recipient public key");
  ephemeral ← fill_bytes 32;
  let ephemeral_pub := x25519_public ephemeral in
  let shared := x25519_dh ephemeral recipient_pub in
  key ← lift (derive_key shared salt);
  nonce ← fill_bytes BOX_NONCE_LEN;
  ct_and_tag ← lift (ok_or (chacha_encrypt key nonce plaintext [])
                           (AeadEncryptionError "sealed box seal failed"));
  mret (ephemeral_pub ++ nonce ++ ct_and_tag).

Definition seal_to_x25519_public (plaintext recipient_public : bytes) : stm World CryptoError bytes :=
  seal_in_domain plaintext recipient_public SEALED_SALT.

Definition open_in_domain (sealed_box our_secret salt : bytes) : res CryptoError bytes :=
  if len sealed_box <? BOX_EPH_LEN + BOX_NONCE_LEN + BOX_TAG_LEN
  then Err (InvalidInputError "sealed box too short") else
  eph ← slice 0 BOX_EPH_LEN sealed_box;
  ephemeral_pub ← as_key32 eph "ephemeral key";
  nonce ← slice BOX_EPH_LEN (BOX_EPH_LEN + BOX_NONCE_LEN) sealed_box;
  ct_and_tag ← slice_from (BOX_EPH_LEN + BOX_NONCE_LEN) sealed_box;
  our_priv ← as_key32 our_secret "private key";
  let shared := x25519_dh our_priv ephemeral_pub in
  key ← derive_key shared salt;
  ok_or (chacha_decrypt key nonce ct_and_tag []) (AeadDecryptionError "sealed box open failed").

Definition open_with_x25519_secret (sealed_box our_secret : bytes) : res CryptoError bytes :=
  open_in_domain sealed_box our_secret SEALED_SALT.
End box.

(** ** The error *)

Definition DOMAIN : bytes := as_bytes "ConstructDECRYPTERR-v1".
Definition DECRYPTION_ERROR_VERSION : Z := 1.
Definition RATCHET_KEY_LEN : Z := 32.
Definition MAX_MESSAGE_ID_LEN : Z := 96.
Definition PLAINTEXT_LEN : Z := 1 + 1 + RATCHET_KEY_LEN + 1 + MAX_MESSAGE_ID_LEN.

Inductive DecryptionErrorHint := HintNone | PrekeyUnavailable.
#[global] Instance hint_eq_dec : EqDecision DecryptionErrorHint.
Proof. solve_decision. Defined.

Definition hint_to_byte (h : DecryptionErrorHint) : Z :=
  match h with HintNone => 0 | PrekeyUnavailable => 1 end.

Definition hint_from_byte (b : Z) : DecryptionErrorHint :=
  if b =? 1 then PrekeyUnavailable else HintNone.

Record DecryptionError := mkDecryptionError {
  de_ratchet_key : bytes;
  de_message_id : string;
  de_hint : DecryptionErrorHint;
}.

(** The [String]s of this file's errors, by case. *)
Inductive DeError :=
  | RatchetKeyLength (got : Z)
  | MessageIdTooLong (got : Z)
  | PlaintextLength (got : Z)
  | UnknownVersion (v : Z)
  | IdLengthOutOfRange (l : Z)
  | IdNotUtf8
  | SealFailed (e : CryptoError)
  | OpenFailed (e : CryptoError).

Definition de_encode (e : DecryptionError) : res DeError bytes :=
  if negb (len (de_ratchet_key e) =? RATCHET_KEY_LEN)
  then Err (RatchetKeyLength (len (de_ratchet_key e))) else
  let id := as_bytes (de_message_id e) in
  if len id >? MAX_MESSAGE_ID_LEN then Err (MessageIdTooLong (len id)) else
  let out := [byte_of_Z DECRYPTION_ERROR_VERSION; byte_of_Z (hint_to_byte (de_hint e))]
             ++ de_ratchet_key e ++ [byte_of_Z (len id)] ++ id in
  Ok (resize (Z.to_nat PLAINTEXT_LEN) Byte.x00 out).

Definition de_decode (b : bytes) : res DeError DecryptionError :=
  if negb (len b =? PLAINTEXT_LEN) then Err (PlaintextLength (len b)) else
  version ← index 0 b;
  if negb (byte_eqb version DECRYPTION_ERROR_VERSION) then Err (UnknownVersion (byte_to_Z version)) else
  hint ← index 1 b;
  ratchet_key ← slice 2 (2 + RATCHET_KEY_LEN) b;
  id_len ← index (2 + RATCHET_KEY_LEN) b;
  if byte_to_Z id_len >? MAX_MESSAGE_ID_LEN then Err (IdLengthOutOfRange (byte_to_Z id_len)) else
  let start := 3 + RATCHET_KEY_LEN in
  id ← slice start (start + byte_to_Z id_len) b;
  message_id ← ok_or (from_utf8 id) IdNotUtf8;
  Ok (mkDecryptionError ratchet_key message_id (hint_from_byte (byte_to_Z hint))).

Section seal.
Context `{Platform} `{ClassicCrates}.

Definition de_seal (e : DecryptionError) (recipient_identity : bytes) : stm World DeError bytes :=
  plaintext ← lift (de_encode e);
  map_err_m SealFailed (seal_in_domain plaintext recipient_identity DOMAIN).

Definition de_open (sealed our_identity_secret : bytes) : res DeError DecryptionError :=
  plaintext ← map_err OpenFailed (open_in_domain sealed our_identity_secret DOMAIN);
  de_decode plaintext.
End seal.

(** ** A box opens *)

Section laws.
Context `{PL : PlatformLaws} `{CL : ClassicCratesLaws}.

Lemma derive_key_ok shared salt : ∃ k, derive_key shared salt = Ok k ∧ len k = 32.
Proof.
  unfold derive_key. destruct (hkdf_sha256_ok salt shared [] 32) as (k & -> & Hk); [lia|]. by exists k.
Qed.

Lemma fill_bytes_ok {E} n w : 0 ≤ n → ∃ w' b, @fill_bytes _ E n w = (w', Ok b) ∧ len b = n.
Proof.
  intros Hn. unfold fill_bytes. pose proof (os_rng_len n w Hn) as Hl.
  destruct (os_rng n w) as [w' b]. by exists w', b.
Qed.

(** Sealing succeeds; the box is 60 bytes longer than what it holds, and the
    secret of the key it was sealed to opens it. *)
Lemma seal_opens p sk salt w :
  len sk = 32 → len p ≤ 2 ^ 32 →
  ∃ w' b, seal_in_domain p (x25519_public sk) salt w = (w', Ok b) ∧
    len b = len p + 60 ∧ open_in_domain b sk salt = Ok p.
Proof.
  intros Hs Hp. unfold seal_in_domain, as_key32, mbind, stm_bind, lift. rewrite x25519_public_len. simpl.
  destruct (fill_bytes_ok (E := CryptoError) 32 w) as (w1 & e & -> & He); [lia|].
  destruct (derive_key_ok (x25519_dh e (x25519_public sk)) salt) as (k & Hk & _). rewrite Hk.
  destruct (fill_bytes_ok (E := CryptoError) BOX_NONCE_LEN w1) as (w2 & n & -> & Hn); [done|].
  destruct (chacha_encrypt_ok k n p [] Hp) as [c Hc]. rewrite Hc. simpl.
  eexists _, _. split; [done|]. pose proof (chacha_len _ _ _ _ _ Hc) as Hl.
  pose proof (x25519_public_len e) as Hpub. unfold BOX_NONCE_LEN in Hn.
  assert (len (x25519_public e ++ n ++ c) = len p + 60) as Hb by (rewrite !len_app; lia).
  split; [done|]. unfold open_in_domain. rewrite Hb. pose proof (len_nonneg p).
  destruct (Z.ltb_spec (len p + 60) (BOX_EPH_LEN + BOX_NONCE_LEN + BOX_TAG_LEN)) as [Hlt|_];
    [unfold BOX_EPH_LEN, BOX_NONCE_LEN, BOX_TAG_LEN in Hlt; lia|].
  assert (view 0 (x25519_public e ++ n ++ c) (x25519_public e ++ n ++ c)) as V by apply view_start.
  rewrite (view_slice 0 BOX_EPH_LEN _ _ _ V) by (unfold BOX_EPH_LEN; lia).
  apply (view_next _ BOX_EPH_LEN) in V; [|unfold BOX_EPH_LEN; lia].
  cbn [mbind res_bind]. unfold as_key32. rewrite Hpub, Hs. simpl (32 =? 32). cbn [mbind res_bind].
  rewrite (view_slice BOX_EPH_LEN (BOX_EPH_LEN + BOX_NONCE_LEN) _ _ _ V) by (unfold BOX_NONCE_LEN; lia).
  apply (view_next _ (BOX_EPH_LEN + BOX_NONCE_LEN)) in V; [|unfold BOX_NONCE_LEN; lia].
  cbn [mbind res_bind]. rewrite (view_from _ _ _ V). cbn [mbind res_bind].
  rewrite x25519_commutes, Hk. cbn [mbind res_bind]. by rewrite (chacha_roundtrip _ _ _ _ _ Hc).
Qed.

Lemma open_no_panic b sk salt : open_in_domain b sk salt ≠ Panic.
Proof.
  unfold open_in_domain, BOX_EPH_LEN, BOX_NONCE_LEN, BOX_TAG_LEN, as_key32, slice_from.
  destruct (Z.ltb_spec (len b) (32 + 12 + 16)); [done|]. repeat no_panic_step.
  match goal with |- mbind _ (derive_key ?s ?a) ≠ _ => destruct (derive_key_ok s a) as (k & -> & _) end.
  cbn [mbind res_bind]. by destruct (chacha_decrypt _ _ _ _).
Qed.
End laws.

(** ** The error arrives *)

(** What [encode] accepts: a ratchet key of 32 bytes and an id, which as a Rust
    string is UTF-8, of at most 96. *)
Definition de_valid (e : DecryptionError) : Prop :=
  len (de_ratchet_key e) = RATCHET_KEY_LEN ∧ len (as_bytes (de_message_id e)) ≤ MAX_MESSAGE_ID_LEN ∧
  utf8_valid (as_bytes (de_message_id e)) = true.

Lemma hint_from_to h : hint_from_byte (hint_to_byte h) = h.
Proof. by destruct h. Qed.

Lemma len_resize {A} n (x : A) l : len (resize n x l) = Z.of_nat n.
Proof. unfold len. by rewrite length_resize. Qed.

Lemma de_decode_encode e : de_valid e → ∃ p,
  de_encode e = Ok p ∧ len p = PLAINTEXT_LEN ∧ de_decode p = Ok e.
Proof.
  intros (Hk & Hi & Hu). unfold de_encode. rewrite (proj2 (Z.eqb_eq _ _) Hk). cbn [negb].
  destruct (Z.gtb_spec (len (as_bytes (de_message_id e))) MAX_MESSAGE_ID_LEN); [lia|].
  eexists. split; [done|]. split; [by rewrite len_resize|].
  unfold de_decode. rewrite len_resize, Z2Nat.id, Z.eqb_refl by done. cbn [negb].
  set (id := as_bytes (de_message_id e)) in *.
  rewrite resize_ge by (unfold PLAINTEXT_LEN, RATCHET_KEY_LEN, MAX_MESSAGE_ID_LEN in *;
    rewrite !length_app; simpl; unfold len in *; lia).
  rewrite <- !(assoc_L (++)). set (pad := replicate _ _). clearbody pad.
  set (b := _ ++ _). assert (view 0 b b) as V by apply view_start. unfold b in V at 2. clearbody b.
  cbn [app] in V.
  rewrite (view_index 0 _ _ _ V). apply (view_cons _ 1) in V; [|done]. cbn [mbind res_bind].
  change (byte_eqb (byte_of_Z DECRYPTION_ERROR_VERSION) DECRYPTION_ERROR_VERSION) with true. cbn [negb].
  rewrite (view_index 1 _ _ _ V). apply (view_cons _ 2) in V; [|done]. cbn [mbind res_bind].
  rewrite (view_slice 2 (2 + RATCHET_KEY_LEN) _ _ _ V) by lia.
  apply (view_next _ (2 + RATCHET_KEY_LEN)) in V; [|lia]. cbn [mbind res_bind].
  rewrite (view_index (2 + RATCHET_KEY_LEN) _ _ _ V). apply (view_cons _ (3 + RATCHET_KEY_LEN)) in V; [|lia].
  cbn [mbind res_bind]. pose proof (len_nonneg id). unfold MAX_MESSAGE_ID_LEN in *.
  rewrite !(byte_to_of_Z_small (len id)) by (unfold is_u8, u8_max; lia).
  destruct (Z.gtb_spec (len id) 96); [lia|].
  rewrite (view_slice (3 + RATCHET_KEY_LEN) _ _ _ _ V) by done. cbn [mbind res_bind].
  unfold id. rewrite from_utf8_as_bytes by done. cbn [ok_or mbind res_bind].
  rewrite byte_to_of_Z_small by by destruct (de_hint e). rewrite hint_from_to. by destruct e.
Qed.

Lemma de_decode_no_panic b : de_decode b ≠ Panic.
Proof.
  unfold de_decode, RATCHET_KEY_LEN. destruct (Z.eqb_spec (len b) PLAINTEXT_LEN) as [Hb|]; [|done]. cbn [negb].
  unfold PLAINTEXT_LEN, RATCHET_KEY_LEN, MAX_MESSAGE_ID_LEN in *. repeat no_panic_step.
  all: try (pose proof (byte_to_Z_range x2); rewrite Z.gtb_ltb, Z.ltb_ge in *; repeat no_panic_step).
  all: by destruct (from_utf8 _).
Qed.

Section claims.
Context `{PL : PlatformLaws} `{CL : ClassicCratesLaws}.

(** a decryption error reaches the device it is for. Sealing an error to an
    identity key succeeds just when its ratchet key has 32 bytes and its message
    id fits; the box is 191 bytes whatever the error names, and the secret of
    that key opens it to the same error. Opening any other bytes returns an error
    or a decryption error, it never panics. *)
Theorem decryption_error_arrives e sk w :
  len sk = 32 → utf8_valid (as_bytes (de_message_id e)) = true →
  (de_valid e ↔ ∃ w' b, de_seal e (x25519_public sk) w = (w', Ok b)) ∧
  (∀ w' b, de_seal e (x25519_public sk) w = (w', Ok b) → len b = 191 ∧ de_open b sk = Ok e) ∧
  ∀ b sk', de_open b sk' ≠ Panic.
Proof.
  intros Hs Hu.
  assert (de_valid e → ∃ w' b, de_seal e (x25519_public sk) w = (w', Ok b) ∧ len b = 191 ∧ de_open b sk = Ok e) as Hv.
  { intros (p & Hp & Hl & Hd)%de_decode_encode. unfold de_seal, de_open, mbind, stm_bind, lift, map_err_m.
    rewrite Hp. destruct (seal_opens p sk DOMAIN w Hs) as (w' & b & -> & Hb & Ho); [by rewrite Hl|].
    exists w', b. rewrite Ho. split_and!; [done|by rewrite Hb, Hl|done]. }
  assert (∀ w' b, de_seal e (x25519_public sk) w = (w', Ok b) → de_valid e) as Hn.
  { intros w' b. unfold de_seal, mbind, stm_bind, lift. destruct (de_encode e) as [p| |] eqn:He; [|done..]. intros _.
    revert He. unfold de_encode, de_valid. destruct (Z.eqb_spec (len (de_ratchet_key e)) RATCHET_KEY_LEN); [|done].
    cbn [negb]. destruct (Z.gtb_spec (len (as_bytes (de_message_id e))) MAX_MESSAGE_ID_LEN); [done|]. auto with lia. }
  split_and!.
  - split; [intros (w' & b & ? & _)%Hv; eauto|intros (w' & b & ?); eauto].
  - intros w' b Hb. destruct (Hv (Hn _ _ Hb)) as (? & ? & Hb' & ?). rewrite Hb in Hb'. by simplify_eq.
  - intros b sk'. unfold de_open. destruct (open_in_domain b sk' DOMAIN) eqn:Ho; simpl; [apply de_decode_no_panic|done|].
    by apply open_no_panic in Ho.
Qed.
End claims.

Lemma decryption_error_arrives_witness :
  let e := mkDecryptionError (replicate 32 Byte.x07) "m1" PrekeyUnavailable in
  let sk := replicate 32 Byte.x05 in
  (de_valid e ↔ ∃ w' b, de_seal e (x25519_public sk) (toy_world 3) = (w', Ok b)) ∧
  (∀ w' b, de_seal e (x25519_public sk) (toy_world 3) = (w', Ok b) → len b = 191 ∧ de_open b sk = Ok e) ∧
  ∀ b sk', de_open b sk' ≠ Panic.
Proof. intros e sk. apply (decryption_error_arrives e sk (toy_world 3)); vm_compute; reflexivity. Defined.
