(* ===== verification/Envelope.v ===== *)
(** * The session envelope

    Models [src/src/crypto/sealed_sender/envelope.rs]: the keys of the two
    directions of a session, derived from its root, and the envelope sealed
    under them, which the recipient recognises by its tag. *)

From S2P Require Import Prelude Platform Classic Toy Crates WirePayload SealedBox.

Definition ENVELOPE_INFO : bytes := as_bytes "construct-envelope-v1".
Definition ENVELOPE_NONCE_LEN : Z := 12.
Definition ENVELOPE_TAG_LEN : Z := 16.
Definition ENVELOPE_OVERHEAD : Z := ENVELOPE_NONCE_LEN + ENVELOPE_TAG_LEN + 16.

Record DirectionKeys := mkDirectionKeys { dk_env : bytes; dk_tag : bytes }.
#[global] Instance direction_keys_eq_dec : EqDecision DirectionKeys.
Proof. solve_decision. Defined.

Inductive EnvelopeKind := KindRatchet | KindDecryptionError.
#[global] Instance envelope_kind_eq_dec : EqDecision EnvelopeKind.
Proof. solve_decision. Defined.

Definition kind_u8 (k : EnvelopeKind) : Z :=
  match k with KindRatchet => 0x01 | KindDecryptionError => 0x02 end.

Definition kind_from_byte (b : Z) : option EnvelopeKind :=
  if b =? 0x01 then Some KindRatchet else if b =? 0x02 then Some KindDecryptionError else None.

Record EnvelopePair := mkEnvelopePair { ep_send : DirectionKeys; ep_recv : DirectionKeys }.
#[global] Instance envelope_pair_eq_dec : EqDecision EnvelopePair.
Proof. solve_decision. Defined.

Section envelope.
Context `{Platform} `{ClassicCrates} `{HmacCrate}.

(** [DirectionKeys::derive] *)
Definition dk_derive (sk : bytes) (sender recipient : string) : res CryptoError DirectionKeys :=
  let info := ENVELOPE_INFO ++ [Byte.x00] ++ as_bytes sender ++ [Byte.x00] ++ as_bytes recipient in
  out ← expect (hkdf_no_salt sk info 64);
  env ← slice 0 32 out;
  tag ← slice_from 32 out;
  Ok (mkDirectionKeys env tag).

Definition dk_from_bytes (b : bytes) : res CryptoError DirectionKeys :=
  if negb (len b =? 64) then Err (InvalidInputError "envelope keys must be 64 bytes") else
  env ← slice 0 32 b;
  tag ← slice_from 32 b;
  Ok (mkDirectionKeys env tag).

Definition dk_to_bytes (k : DirectionKeys) : bytes := dk_env k ++ dk_tag k.

Definition tag_mac (k : DirectionKeys) (nonce : bytes) : bytes := hmac_sha256 (dk_tag k) nonce.

Definition seal_with_nonce (k : DirectionKeys) (body nonce : bytes) : res CryptoError bytes :=
  tag ← slice 0 ENVELOPE_TAG_LEN (tag_mac k nonce);
  ct ← ok_or (chacha_encrypt (dk_env k) nonce body tag) (AeadEncryptionError "envelope seal failed");
  Ok (nonce ++ tag ++ ct).

Definition dk_seal (k : DirectionKeys) (body : bytes) : stm World CryptoError bytes :=
  nonce ← fill_bytes ENVELOPE_NONCE_LEN;
  lift (seal_with_nonce k body nonce).

Definition dk_matches (k : DirectionKeys) (envelope : bytes) : bool :=
  if len envelope <? ENVELOPE_OVERHEAD then false else
  let nonce := take 12 envelope in
  let rest := drop 12 envelope in
  verify_truncated_left (dk_tag k) nonce (take 16 rest).

Definition dk_open (k : DirectionKeys) (envelope : bytes) : res CryptoError bytes :=
  if negb (dk_matches k envelope) then Err (AeadDecryptionError "envelope tag does not match") else
  nonce ← slice 0 ENVELOPE_NONCE_LEN envelope;
  tag ← slice ENVELOPE_NONCE_LEN (ENVELOPE_NONCE_LEN + ENVELOPE_TAG_LEN) envelope;
  ct ← slice_from (ENVELOPE_NONCE_LEN + ENVELOPE_TAG_LEN) envelope;
  ok_or (chacha_decrypt (dk_env k) nonce ct tag) (AeadDecryptionError "envelope body does not open").

(** [EnvelopePair::derive] *)
Definition ep_derive (sk : bytes) (local peer : string) : res CryptoError EnvelopePair :=
  send ← dk_derive sk local peer;
  recv ← dk_derive sk peer local;
  Ok (mkEnvelopePair send recv).
End envelope.

(** ** Sealed, recognised, opened *)

(** The keys are 32 bytes each. *)
Definition dk_wf (k : DirectionKeys) : Prop := len (dk_env k) = 32 ∧ len (dk_tag k) = 32.
Definition ep_wf (p : EnvelopePair) : Prop := dk_wf (ep_send p) ∧ dk_wf (ep_recv p).

Lemma kind_from_to k : kind_from_byte (kind_u8 k) = Some k.
Proof. by destruct k. Qed.

Section laws.
Context `{PL : PlatformLaws} `{CL : ClassicCratesLaws} `{HL : HmacLaws}.

Lemma dk_derive_ok sk s r : ∃ k, dk_derive sk s r = Ok k ∧ dk_wf k.
Proof.
  unfold dk_derive, hkdf_no_salt. match goal with |- context [hkdf_sha256 ?a ?b ?c 64] =>
    destruct (hkdf_sha256_ok a b c 64) as (out & -> & Hl); [lia|] end.
  destruct (split_64 (E := CryptoError) out Hl) as (a & b & Ha & Hb & ? & ?).
  cbn [expect mbind res_bind]. rewrite Ha. cbn [mbind res_bind]. rewrite Hb. by eexists.
Qed.

(** The two ends of a session hold the same keys, crossed. *)
Lemma ep_derive_crossed sk a b : ∃ x y,
  ep_derive sk a b = Ok (mkEnvelopePair x y) ∧ ep_derive sk b a = Ok (mkEnvelopePair y x) ∧ dk_wf x ∧ dk_wf y.
Proof.
  unfold ep_derive. destruct (dk_derive_ok sk a b) as (x & -> & ?), (dk_derive_ok sk b a) as (y & -> & ?).
  by exists x, y.
Qed.

Lemma dk_bytes_roundtrip k : dk_wf k → dk_from_bytes (dk_to_bytes k) = Ok k.
Proof.
  intros [He Ht]. unfold dk_from_bytes, dk_to_bytes. rewrite len_app, He, Ht. simpl (negb _). cbv iota.
  assert (view 0 (dk_env k ++ dk_tag k) (dk_env k ++ dk_tag k)) as V by apply view_start.
  rewrite (view_slice 0 32 _ _ _ V) by lia. apply (view_next _ 32) in V; [|lia]. cbn [mbind res_bind].
  rewrite (view_from _ _ _ V). by destruct k.
Qed.

Lemma dk_seal_opens k body w :
  len body ≤ 2 ^ 32 → ∃ w' e, dk_seal k body w = (w', Ok e) ∧ len e = len body + ENVELOPE_OVERHEAD ∧
    dk_matches k e = true ∧ dk_open k e = Ok body.
Proof.
  intros Hb. unfold dk_seal, mbind, stm_bind, lift.
  destruct (fill_bytes_ok (E := CryptoError) ENVELOPE_NONCE_LEN w) as (w1 & n & -> & Hn); [done|].
  unfold seal_with_nonce, tag_mac. pose proof (hmac_sha256_len (dk_tag k) n) as Hm.
  destruct (slice_total (E := CryptoError) 0 ENVELOPE_TAG_LEN (hmac_sha256 (dk_tag k) n)) as (t & Ht & Lt);
    [done|by rewrite Hm|]. rewrite Ht. cbn [mbind res_bind].
  destruct (chacha_encrypt_ok (dk_env k) n body t Hb) as [c Hc]. rewrite Hc. cbn [ok_or mbind res_bind].
  pose proof (chacha_len _ _ _ _ _ Hc). unfold ENVELOPE_NONCE_LEN, ENVELOPE_TAG_LEN in *.
  eexists _, _. split; [done|]. pose proof (len_nonneg body).
  assert (len (n ++ t ++ c) = len body + ENVELOPE_OVERHEAD) as Hl.
  { unfold ENVELOPE_OVERHEAD, ENVELOPE_NONCE_LEN, ENVELOPE_TAG_LEN. rewrite !len_app. lia. }
  split; [done|]. assert (length n = 12%nat ∧ length t = 16%nat) as [Ln Lt'] by (unfold len in *; lia).
  assert (dk_matches k (n ++ t ++ c) = true) as Hmt.
  { unfold dk_matches. rewrite Hl, (proj2 (Z.ltb_ge _ _)) by lia.
    rewrite take_app_length', drop_app_length', take_app_length' by done.
    unfold verify_truncated_left. rewrite Lt, !andb_true_iff. split; [done|]. apply bool_decide_eq_true_2.
    revert Ht. unfold slice. case_match; [|done]. intros Ht. rewrite Lt'.
    assert (t = take (Z.to_nat (16 - 0)) (drop (Z.to_nat 0) (hmac_sha256 (dk_tag k) n))) as -> by congruence. done. }
  split; [done|]. unfold dk_open, ENVELOPE_NONCE_LEN, ENVELOPE_TAG_LEN. rewrite Hmt. cbn [negb].
  assert (view 0 (n ++ t ++ c) (n ++ t ++ c)) as V by apply view_start.
  rewrite (view_slice 0 12 _ _ _ V) by lia. apply (view_next _ 12) in V; [|lia]. cbn [mbind res_bind].
  rewrite (view_slice 12 (12 + 16) _ _ _ V) by lia. apply (view_next _ (12 + 16)) in V; [|lia]. cbn [mbind res_bind].
  rewrite (view_from _ _ _ V). cbn [mbind res_bind]. by rewrite (chacha_roundtrip _ _ _ _ _ Hc).
Qed.

Lemma dk_matches_len k e : dk_matches k e = true → ENVELOPE_OVERHEAD ≤ len e.
Proof. unfold dk_matches. by destruct (Z.ltb_spec (len e) ENVELOPE_OVERHEAD). Qed.

Lemma dk_open_no_panic k e : dk_open k e ≠ Panic.
Proof.
  unfold dk_open. destruct (dk_matches k e) eqn:Hm; [|done]. apply dk_matches_len in Hm.
  unfold ENVELOPE_OVERHEAD, ENVELOPE_NONCE_LEN, ENVELOPE_TAG_LEN, slice_from in *. repeat no_panic_step.
  by destruct (chacha_decrypt _ _ _ _).
Qed.
End laws.
