(* ===== verification/FirstFlight.v ===== *)
(** * The first-flight box

    Models [src/src/crypto/sealed_sender/first_flight.rs]: the first messages of
    a session, sealed whole under a key that mixes an X25519 agreement with the
    handshake's ML-KEM secret. The ML-KEM ciphertext moves from the wire payload
    to the front of the box, and back when it is opened. *)

From S2P Require Import Prelude Platform Classic Toy Crates WirePayload SealedBox.

Definition FF_KEY_INFO : bytes := as_bytes "construct-first-flight-v1".
Definition FF_SALT : bytes := as_bytes "ConstructSEALED-first-v1".
Definition KEM_CIPHERTEXT_LEN : Z := 1568.
Definition FF_ID_LEN : Z := 4.
Definition FF_EPH_LEN : Z := 32.
Definition FF_NONCE_LEN : Z := 12.
Definition FF_AEAD_TAG_LEN : Z := 16.
Definition FF_AD_LEN : Z := FF_ID_LEN + KEM_CIPHERTEXT_LEN + FF_EPH_LEN.
Definition FIRST_FLIGHT_OVERHEAD : Z := FF_ID_LEN + FF_EPH_LEN + FF_NONCE_LEN + FF_AEAD_TAG_LEN + 2.
Definition KYBER_PREKEY_ID_OFFSET : Z := MSG_NUM_SIZE + DH_KEY_SIZE + OTPK_ID_SIZE.
Definition KEM_LEN_OFFSET : Z := KYBER_PREKEY_ID_OFFSET + KYBER_OTPK_ID_SIZE.

(** [FirstFlightKey] wraps its 32 bytes. *)
Record FirstFlightKey := mkFirstFlightKey { ff_bytes : bytes }.
#[global] Instance ff_key_eq_dec : EqDecision FirstFlightKey.
Proof. solve_decision. Defined.

Record FiledFirstFlightKey := mkFiledFirstFlightKey {
  fk_ciphertext_hash : bytes;
  fk_key : FirstFlightKey;
  fk_handshake_at : Z;
}.
#[global] Instance filed_key_eq_dec : EqDecision FiledFirstFlightKey.
Proof. solve_decision. Defined.

Record HandshakeRef := mkHandshakeRef {
  hr_kyber_prekey_id : Z;
  hr_kem_ciphertext : bytes;
}.

Record OpenedFirstFlight := mkOpenedFirstFlight {
  of_certificate : bytes;
  of_wire_payload : bytes;
}.

Section first_flight.
Context `{Platform} `{ClassicCrates} `{Sha2Crate}.

Definition from_kem_secret (shared_secret : bytes) : res CryptoError FirstFlightKey :=
  key ← expect (hkdf_no_salt shared_secret FF_KEY_INFO 32);
  Ok (mkFirstFlightKey key).

Definition ff_from_bytes (b : bytes) : res CryptoError FirstFlightKey :=
  if len b =? 32 then Ok (mkFirstFlightKey b)
  else Err (InvalidInputError "first-flight key must be 32 bytes").

Definition ff_to_bytes (k : FirstFlightKey) : bytes := ff_bytes k.

Definition ciphertext_hash (kem_ciphertext : bytes) : bytes := sha256 kem_ciphertext.

(** The two fields of a wire header that name a handshake. *)
Definition header_id {E} (header : bytes) : res E Z :=
  b ← slice KYBER_PREKEY_ID_OFFSET (KYBER_PREKEY_ID_OFFSET + FF_ID_LEN) header; Ok (le_val b).
Definition header_kem_len {E} (header : bytes) : res E Z :=
  b ← slice KEM_LEN_OFFSET (KEM_LEN_OFFSET + 2) header; Ok (le_val b).

Definition handshake_of_wire {E} (wire_payload : bytes) : res E (option HandshakeRef) :=
  if len wire_payload <? HEADER_SIZE then Ok None else
  kyber_prekey_id ← header_id wire_payload;
  kem_len ← header_kem_len wire_payload;
  if negb (kem_len =? KEM_CIPHERTEXT_LEN) || (len wire_payload <=? HEADER_SIZE + kem_len) then Ok None else
  kem ← slice HEADER_SIZE (HEADER_SIZE + kem_len) wire_payload;
  Ok (Some (mkHandshakeRef kyber_prekey_id kem)).

Definition handshake_of_box (first_flight : bytes) : res CryptoError HandshakeRef :=
  if len first_flight <? FF_AD_LEN + FF_NONCE_LEN + FF_AEAD_TAG_LEN
  then Err (InvalidInputError "first flight too short") else
  id ← slice 0 FF_ID_LEN first_flight;
  kem ← slice FF_ID_LEN (FF_ID_LEN + KEM_CIPHERTEXT_LEN) first_flight;
  Ok (mkHandshakeRef (be_val id) kem).

Definition box_key (dh : bytes) (ff_key : FirstFlightKey) (eph kem_ciphertext : bytes)
    : res CryptoError bytes :=
  let ikm := dh ++ ff_bytes ff_key in
  let info := eph ++ ciphertext_hash kem_ciphertext in
  expect (hkdf_sha256 FF_SALT ikm info 32).

(** [u16::try_from(certificate.len())] *)
Definition cert_len_u16 (certificate : bytes) : res CryptoError Z :=
  if len certificate <=? u16_max then Ok (len certificate)
  else Err (InvalidInputError "certificate too large").

Definition ff_seal_with (ff_key : FirstFlightKey) (recipient_identity wire_payload certificate eph_seed nonce : bytes)
    : res CryptoError bytes :=
  found ← handshake_of_wire wire_payload;
  handshake ← ok_or found (InvalidInputError "not a first flight: no ML-KEM handshake");
  cert_len ← cert_len_u16 certificate;
  recipient ← as_key32 recipient_identity "recipient identity key";
  let eph := x25519_public eph_seed in
  let dh := x25519_dh eph_seed recipient in
  key ← box_key dh ff_key eph (hr_kem_ciphertext handshake);
  let out := be_bytes 4 (hr_kyber_prekey_id handshake) ++ hr_kem_ciphertext handshake ++ eph in
  header ← slice 0 HEADER_SIZE wire_payload;
  rest ← slice_from (HEADER_SIZE + KEM_CIPHERTEXT_LEN) wire_payload;
  let body := be_bytes 2 cert_len ++ certificate ++ header ++ rest in
  aad ← slice 0 FF_AD_LEN out;
  sealed ← ok_or (chacha_encrypt key nonce body aad) (AeadEncryptionError "first-flight seal failed");
  Ok (out ++ nonce ++ sealed).

Definition ff_seal (ff_key : FirstFlightKey) (recipient_identity wire_payload certificate : bytes)
    : stm World CryptoError bytes :=
  eph_seed ← fill_bytes 32;
  nonce ← fill_bytes FF_NONCE_LEN;
  lift (ff_seal_with ff_key recipient_identity wire_payload certificate eph_seed nonce).

(** The second half of [open]: the decrypted body, taken apart. *)
Definition ff_read_body (handshake : HandshakeRef) (body : bytes) : res CryptoError OpenedFirstFlight :=
  if len body <? 2 then Err (InvalidInputError "first flight: no certificate length") else
  len_bytes ← slice 0 2 body;
  let cert_len := be_val len_bytes in
  let wire_start := 2 + cert_len in
  if len body <? wire_start + HEADER_SIZE then Err (InvalidInputError "first flight: body too short") else
  header ← slice wire_start (wire_start + HEADER_SIZE) body;
  inner_id ← header_id header;
  inner_len ← header_kem_len header;
  if negb (inner_id =? hr_kyber_prekey_id handshake) || negb (inner_len =? KEM_CIPHERTEXT_LEN)
  then Err (InvalidInputError "first flight: inner header names another handshake") else
  rest ← slice_from (wire_start + HEADER_SIZE) body;
  certificate ← slice 2 wire_start body;
  Ok (mkOpenedFirstFlight certificate (header ++ hr_kem_ciphertext handshake ++ rest)).

Definition ff_open (ff_key : FirstFlightKey) (our_identity_secret first_flight : bytes)
    : res CryptoError OpenedFirstFlight :=
  handshake ← handshake_of_box first_flight;
  eph ← slice (FF_ID_LEN + KEM_CIPHERTEXT_LEN) FF_AD_LEN first_flight;
  nonce ← slice FF_AD_LEN (FF_AD_LEN + FF_NONCE_LEN) first_flight;
  ours ← as_key32 our_identity_secret "identity secret";
  eph_key ← as_key32 eph "ephemeral key";
  let dh := x25519_dh ours eph_key in
  key ← box_key dh ff_key eph (hr_kem_ciphertext handshake);
  sealed ← slice_from (FF_AD_LEN + FF_NONCE_LEN) first_flight;
  aad ← slice 0 FF_AD_LEN first_flight;
  body ← ok_or (chacha_decrypt key nonce sealed aad) (AeadDecryptionError "first flight does not open");
  ff_read_body handshake body.
End first_flight.

(** ** Sealed and opened *)

Lemma slice_app_l {E A} a b (p q : list A) : b ≤ len p → @slice E A a b (p ++ q) = slice a b p.
Proof.
  intros Hb. unfold slice. rewrite len_app. pose proof (len_nonneg q).
  destruct (Z.leb_spec 0 a), (Z.leb_spec a b), (Z.leb_spec b (len p)), (Z.leb_spec b (len p + len q)); simpl; try done; try lia.
  f_equal. rewrite drop_app_le by (unfold len in *; lia). rewrite take_app_le; [done|].
  rewrite length_drop. unfold len in *. lia.
Qed.

Lemma header_id_ok {E} hd : len hd = HEADER_SIZE → ∃ id, @header_id E hd = Ok id ∧ 0 ≤ id < 256 ^ 4.
Proof.
  intros Hl. unfold header_id. destruct (slice_total (E := E) KYBER_PREKEY_ID_OFFSET (KYBER_PREKEY_ID_OFFSET + FF_ID_LEN) hd)
    as (x & -> & Hx); [done|by rewrite Hl|]. eexists. split; [done|].
  pose proof (le_val_range x) as Hr. by rewrite Hx in Hr.
Qed.

Lemma header_kem_len_ok {E} hd : len hd = HEADER_SIZE → ∃ l, @header_kem_len E hd = Ok l ∧ 0 ≤ l < 256 ^ 2.
Proof.
  intros Hl. unfold header_kem_len. destruct (slice_total (E := E) KEM_LEN_OFFSET (KEM_LEN_OFFSET + 2) hd)
    as (x & -> & Hx); [done|by rewrite Hl|]. eexists. split; [done|].
  pose proof (le_val_range x) as Hr. by rewrite Hx in Hr.
Qed.

(** A wire payload that carries the handshake [h]: the header that names it, the
    ciphertext, and the rest. *)
Definition carries (h : HandshakeRef) (header rest wire : bytes) : Prop :=
  wire = header ++ hr_kem_ciphertext h ++ rest ∧ len header = HEADER_SIZE ∧
  len (hr_kem_ciphertext h) = KEM_CIPHERTEXT_LEN ∧
  header_id (E := CryptoError) header = Ok (hr_kyber_prekey_id h) ∧
  header_kem_len (E := CryptoError) header = Ok KEM_CIPHERTEXT_LEN.

Lemma header_app {E} hd q : len hd = HEADER_SIZE →
  @header_id E (hd ++ q) = header_id hd ∧ @header_kem_len E (hd ++ q) = header_kem_len hd.
Proof. intros Hl. unfold header_id, header_kem_len. by rewrite !slice_app_l by by rewrite Hl. Qed.

Lemma handshake_of_wire_carries wire h :
  handshake_of_wire (E := CryptoError) wire = Ok (Some h) ↔ ∃ header rest, rest ≠ [] ∧ carries h header rest wire.
Proof.
  split.
  - unfold handshake_of_wire. destruct (Z.ltb_spec (len wire) HEADER_SIZE) as [|Hl]; [done|].
    assert (∃ hd q, wire = hd ++ q ∧ len hd = HEADER_SIZE) as (hd & q & -> & Hd).
    { exists (take (Z.to_nat HEADER_SIZE) wire), (drop (Z.to_nat HEADER_SIZE) wire).
      rewrite take_drop. split; [done|]. assert (0 ≤ HEADER_SIZE) by done. unfold len in *. rewrite length_take. lia. }
    destruct (header_app (E := CryptoError) hd q Hd) as [-> ->].
    destruct (header_id_ok (E := CryptoError) hd Hd) as (id & Hid & _), (header_kem_len_ok (E := CryptoError) hd Hd) as (l & Hkl & _).
    rewrite Hid, Hkl. cbn [mbind res_bind].
    destruct (Z.eqb_spec l KEM_CIPHERTEXT_LEN) as [->|]; [|done]. cbn [negb orb].
    destruct (Z.leb_spec (len (hd ++ q)) (HEADER_SIZE + KEM_CIPHERTEXT_LEN)) as [|Hq]; [done|].
    assert (view HEADER_SIZE (hd ++ q) q) as V by by exists hd.
    destruct (slice HEADER_SIZE _ (hd ++ q)) as [kem| |] eqn:Hs; [|done..]. cbn [mbind res_bind]. intros [= <-].
    pose proof (slice_ok_len _ _ _ _ Hs). destruct (slice_view _ _ _ _ _ V Hs) as (r & -> & _).
    exists hd, r. split; [intros ->; revert Hq; rewrite !len_app, len_nil; lia|]. split_and!; simpl; [done|done|lia|done|done].
  - intros (hd & r & Hr & -> & Hl & Hk & Hid & Hkl). destruct h as [id kem]; simpl in *.
    unfold handshake_of_wire. pose proof (len_nonneg (kem ++ r)).
    rewrite len_app, (proj2 (Z.ltb_ge _ _)) by lia.
    destruct (header_app (E := CryptoError) hd (kem ++ r) Hl) as [-> ->]. rewrite Hid, Hkl. cbn [mbind res_bind].
    rewrite Z.eqb_refl. cbn [negb orb].
    assert (0 < len r) by (destruct r; [done|rewrite len_cons; pose proof (len_nonneg r); lia]).
    rewrite len_app, (proj2 (Z.leb_gt _ _)) by lia.
    assert (view HEADER_SIZE (hd ++ kem ++ r) (kem ++ r)) as V by by exists hd.
    by rewrite (view_slice _ _ _ _ _ V) by lia.
Qed.

Section laws.
Context `{PL : PlatformLaws} `{CL : ClassicCratesLaws} `{SL : Sha2Laws}.

Lemma box_key_ok dh k eph ct : ∃ key, box_key dh k eph ct = Ok key ∧ len key = 32.
Proof.
  unfold box_key. match goal with |- context [hkdf_sha256 ?a ?b ?c 32] =>
    destruct (hkdf_sha256_ok a b c 32) as (key & -> & ?); [lia|] end. by exists key.
Qed.

(** What the inside of a box is, once it is decrypted. *)
Definition ff_body (cert header rest : bytes) : bytes := be_bytes 2 (len cert) ++ cert ++ header ++ rest.
(** The bytes in front of the nonce. *)
Definition ff_front (h : HandshakeRef) (eph : bytes) : bytes :=
  be_bytes 4 (hr_kyber_prekey_id h) ++ hr_kem_ciphertext h ++ eph.

Lemma len_ff_front h eph : len (hr_kem_ciphertext h) = KEM_CIPHERTEXT_LEN → len eph = 32 →
  len (ff_front h eph) = FF_AD_LEN.
Proof. intros Hk He. unfold ff_front. rewrite !len_app, Hk, He, len_be_bytes. done. Qed.

Lemma ff_seal_with_ok k pk wire cert e n h hd rest :
  carries h hd rest wire → rest ≠ [] → len cert ≤ u16_max → len pk = 32 → len wire ≤ 2 ^ 31 →
  ∃ key c, box_key (x25519_dh e pk) k (x25519_public e) (hr_kem_ciphertext h) = Ok key ∧
    chacha_encrypt key n (ff_body cert hd rest) (ff_front h (x25519_public e)) = Some c ∧
    ff_seal_with k pk wire cert e n = Ok (ff_front h (x25519_public e) ++ n ++ c).
Proof.
  intros Hc Hr Hl Hp Hw. unfold ff_seal_with.
  rewrite (proj2 (handshake_of_wire_carries wire h)) by eauto. cbn [mbind res_bind ok_or].
  unfold cert_len_u16, as_key32. rewrite (proj2 (Z.leb_le _ _) Hl), Hp, Z.eqb_refl. cbn [mbind res_bind].
  destruct Hc as (Hwire & Hd & Hk & _). destruct (box_key_ok (x25519_dh e pk) k (x25519_public e) (hr_kem_ciphertext h)) as (key & Hkey & _).
  rewrite Hkey. cbn [mbind res_bind].
  assert (view 0 wire (hd ++ hr_kem_ciphertext h ++ rest)) as V by (rewrite Hwire; apply view_start).
  rewrite (view_slice 0 HEADER_SIZE _ _ _ V) by lia. apply (view_next _ HEADER_SIZE) in V; [|lia]. cbn [mbind res_bind].
  apply (view_next _ (HEADER_SIZE + KEM_CIPHERTEXT_LEN)) in V; [|lia]. rewrite (view_from _ _ _ V). cbn [mbind res_bind].
  fold (ff_front h (x25519_public e)). fold (ff_body cert hd rest).
  rewrite (slice_here_all FF_AD_LEN (ff_front h (x25519_public e)))
    by (symmetry; apply len_ff_front; [done|apply x25519_public_len]).
  cbn [mbind res_bind]. destruct (chacha_encrypt_ok key n (ff_body cert hd rest) (ff_front h (x25519_public e))) as [c Hc].
  { unfold ff_body. rewrite Hwire in Hw. revert Hw. unfold u16_max in Hl. rewrite !len_app, len_be_bytes. pose proof (len_nonneg (hr_kem_ciphertext h)). lia. }
  exists key, c. rewrite Hc. done.
Qed.

Lemma ff_read_body_ok h cert hd rest :
  len cert ≤ u16_max → carries h hd rest (hd ++ hr_kem_ciphertext h ++ rest) →
  ff_read_body h (ff_body cert hd rest) = Ok (mkOpenedFirstFlight cert (hd ++ hr_kem_ciphertext h ++ rest)).
Proof.
  intros Hl (_ & Hd & Hk & Hid & Hkl). unfold ff_read_body.
  set (body := ff_body cert hd rest) in *.
  assert (len body = 2 + len cert + HEADER_SIZE + len rest) as Lbody.
  { unfold body, ff_body. rewrite !len_app, len_be_bytes, Hd. lia. }
  pose proof (len_nonneg cert). pose proof (len_nonneg rest). assert (0 ≤ HEADER_SIZE) by done.
  rewrite (proj2 (Z.ltb_ge (len body) 2)) by lia.
  assert (view 0 body (be_bytes 2 (len cert) ++ cert ++ hd ++ rest)) as V by apply view_start.
  rewrite (view_slice 0 2 _ _ _ V) by by rewrite len_be_bytes. apply (view_next _ 2) in V; [|by rewrite len_be_bytes].
  cbn [mbind res_bind]. rewrite be_val_bytes_small by (unfold u16_max in Hl; simpl; lia).
  rewrite (proj2 (Z.ltb_ge (len body) _)) by lia.
  assert (@slice CryptoError _ 2 (2 + len cert) body = Ok cert) as Hcert by (apply (view_slice _ _ _ _ _ V); lia).
  apply (view_next _ (2 + len cert)) in V; [|lia].
  rewrite (view_slice (2 + len cert) _ _ _ _ V) by lia. apply (view_next _ (2 + len cert + HEADER_SIZE)) in V; [|lia].
  cbn [mbind res_bind]. rewrite Hid, Hkl. cbn [mbind res_bind]. rewrite !Z.eqb_refl. cbn [negb orb].
  rewrite (view_from _ _ _ V). cbn [mbind res_bind]. rewrite Hcert. done.
Qed.

Lemma ff_open_body k sk key h e n c cert hd rest :
  len sk = 32 → len n = FF_NONCE_LEN → len cert ≤ u16_max → carries h hd rest (hd ++ hr_kem_ciphertext h ++ rest) →
  box_key (x25519_dh sk (x25519_public e)) k (x25519_public e) (hr_kem_ciphertext h) = Ok key →
  chacha_encrypt key n (ff_body cert hd rest) (ff_front h (x25519_public e)) = Some c →
  let box := ff_front h (x25519_public e) ++ n ++ c in
  handshake_of_box box = Ok h ∧
  ff_open k sk box = Ok (mkOpenedFirstFlight cert (hd ++ hr_kem_ciphertext h ++ rest)).
Proof.
  intros Hs Hn Hl Hca Hkey Hc box. pose proof Hca as (_ & Hd & Hk & Hid & _). destruct (header_id_ok (E := CryptoError) hd Hd) as (id & Hid' & Hr).
  assert (id = hr_kyber_prekey_id h) as -> by congruence. clear Hid'.
  pose proof (x25519_public_len e) as He. pose proof (chacha_len _ _ _ _ _ Hc) as Lc.
  pose proof (len_ff_front h (x25519_public e) Hk He) as Lf.
  assert (0 ≤ len (ff_body cert hd rest)) by apply len_nonneg.
  assert (len box = FF_AD_LEN + FF_NONCE_LEN + FF_AEAD_TAG_LEN + len (ff_body cert hd rest)) as Lb.
  { unfold box. rewrite !len_app, Lf, Hn, Lc. unfold FF_AEAD_TAG_LEN. lia. }
  assert (view 0 box (be_bytes 4 (hr_kyber_prekey_id h) ++ hr_kem_ciphertext h ++ x25519_public e ++ n ++ c)) as V.
  { unfold box, ff_front. rewrite <- !(assoc_L (++)). apply view_start. }
  assert (view 0 box (ff_front h (x25519_public e) ++ n ++ c)) as VF by apply view_start.
  assert (handshake_of_box box = Ok h) as Hh.
  { unfold handshake_of_box. rewrite Lb, (proj2 (Z.ltb_ge _ _)) by lia.
    rewrite (view_slice 0 FF_ID_LEN _ _ _ V) by by rewrite len_be_bytes. cbn [mbind res_bind].
    apply (view_next _ FF_ID_LEN) in V; [|by rewrite len_be_bytes].
    rewrite (view_slice FF_ID_LEN _ _ _ _ V) by lia. cbn [mbind res_bind].
    rewrite be_val_bytes_small by done. by destruct h. }
  split; [done|]. unfold ff_open. rewrite Hh. cbn [mbind res_bind].
  apply (view_next _ FF_ID_LEN) in V; [|by rewrite len_be_bytes].
  apply (view_next _ (FF_ID_LEN + KEM_CIPHERTEXT_LEN)) in V; [|lia].
  rewrite (view_slice _ FF_AD_LEN _ _ _ V) by by rewrite He. apply (view_next _ FF_AD_LEN) in V; [|by rewrite He].
  cbn [mbind res_bind]. rewrite (view_slice FF_AD_LEN (FF_AD_LEN + FF_NONCE_LEN) _ _ _ V) by lia.
  apply (view_next _ (FF_AD_LEN + FF_NONCE_LEN)) in V; [|lia]. cbn [mbind res_bind].
  unfold as_key32. rewrite Hs, He, Z.eqb_refl. cbn [mbind res_bind]. rewrite Hkey. cbn [mbind res_bind].
  rewrite (view_from _ _ _ V). cbn [mbind res_bind]. rewrite (view_slice 0 FF_AD_LEN _ _ _ VF) by lia. cbn [mbind res_bind].
  rewrite (chacha_roundtrip _ _ _ _ _ Hc). cbn [ok_or mbind res_bind].
  by apply ff_read_body_ok.
Qed.

Lemma handshake_of_box_inv box h : handshake_of_box box = Ok h →
  FF_AD_LEN + FF_NONCE_LEN + FF_AEAD_TAG_LEN ≤ len box ∧ len (hr_kem_ciphertext h) = KEM_CIPHERTEXT_LEN.
Proof.
  unfold handshake_of_box. destruct (Z.ltb_spec (len box) (FF_AD_LEN + FF_NONCE_LEN + FF_AEAD_TAG_LEN)); [done|].
  destruct (slice 0 FF_ID_LEN box) as [id| |]; [|done..]. cbn [mbind res_bind].
  destruct (slice FF_ID_LEN _ box) as [kem| |] eqn:Hs; [|done..]. cbn [mbind res_bind]. intros [= <-]. simpl.
  apply slice_ok_len in Hs. lia.
Qed.

Lemma handshake_of_box_no_panic box : handshake_of_box box ≠ Panic.
Proof.
  unfold handshake_of_box, FF_AD_LEN, FF_NONCE_LEN, FF_AEAD_TAG_LEN, FF_ID_LEN, KEM_CIPHERTEXT_LEN.
  unfold FF_EPH_LEN. destruct (Z.ltb_spec (len box) (4 + 1568 + 32 + 12 + 16)); [done|]. repeat no_panic_step.
Qed.

(** The payload put together from an opened body carries the handshake of the box. *)
Lemma ff_read_body_inv h body :
  len (hr_kem_ciphertext h) = KEM_CIPHERTEXT_LEN →
  ff_read_body h body ≠ Panic ∧
  ∀ o, ff_read_body h body = Ok o → ∃ hd rest, carries h hd rest (of_wire_payload o).
Proof.
  intros Hk. unfold ff_read_body. destruct (Z.ltb_spec (len body) 2); [done|].
  destruct (slice_total (E := CryptoError) 0 2 body) as (lb & -> & _); [lia..|]. cbn [mbind res_bind].
  assert (0 ≤ be_val lb) by apply le_val_range. assert (0 ≤ HEADER_SIZE) by done.
  destruct (Z.ltb_spec (len body) (2 + be_val lb + HEADER_SIZE)); [done|].
  destruct (slice_total (E := CryptoError) (2 + be_val lb) (2 + be_val lb + HEADER_SIZE) body) as (hd & -> & Hd); [lia..|].
  assert (len hd = HEADER_SIZE) as Hl by lia. cbn [mbind res_bind].
  destruct (header_id_ok (E := CryptoError) hd Hl) as (id & Hid & _), (header_kem_len_ok (E := CryptoError) hd Hl) as (l & Hkl & _).
  rewrite Hid, Hkl. cbn [mbind res_bind]. destruct (Z.eqb_spec id (hr_kyber_prekey_id h)) as [->|]; [|done].
  destruct (Z.eqb_spec l KEM_CIPHERTEXT_LEN) as [->|]; [|done]. cbn [negb orb]. unfold slice_from.
  destruct (slice_total (E := CryptoError) (2 + be_val lb + HEADER_SIZE) (len body) body) as (rest & -> & _); [lia..|].
  cbn [mbind res_bind]. destruct (slice_total (E := CryptoError) 2 (2 + be_val lb) body) as (cert & -> & _); [lia..|].
  cbn [mbind res_bind]. split; [done|]. intros o [= <-]. by exists hd, rest.
Qed.

Lemma ff_open_inv k sk box :
  ff_open k sk box ≠ Panic ∧
  ∀ o, ff_open k sk box = Ok o → ∃ h hd rest, handshake_of_box box = Ok h ∧ carries h hd rest (of_wire_payload o).
Proof.
  unfold ff_open. destruct (handshake_of_box box) as [h| |] eqn:Hh; cbn [mbind res_bind];
    [|done|by apply handshake_of_box_no_panic in Hh].
  destruct (handshake_of_box_inv _ _ Hh) as [Hl Hk].
  unfold FF_AD_LEN, FF_NONCE_LEN, FF_AEAD_TAG_LEN, FF_ID_LEN, FF_EPH_LEN, KEM_CIPHERTEXT_LEN, slice_from, as_key32 in *.
  destruct (slice_total (E := CryptoError) (4 + 1568) (4 + 1568 + 32) box) as (eph & -> & Heph); [lia..|]. cbn [mbind res_bind].
  destruct (slice_total (E := CryptoError) (4 + 1568 + 32) (4 + 1568 + 32 + 12) box) as (n & -> & _); [lia..|]. cbn [mbind res_bind].
  destruct (len sk =? 32); [|done]. cbn [mbind res_bind]. destruct (len eph =? 32); [|done]. cbn [mbind res_bind].
  destruct (box_key_ok (x25519_dh sk eph) k eph (hr_kem_ciphertext h)) as (key & -> & _). cbn [mbind res_bind].
  destruct (slice_total (E := CryptoError) (4 + 1568 + 32 + 12) (len box) box) as (c & -> & _); [lia..|]. cbn [mbind res_bind].
  destruct (slice_total (E := CryptoError) 0 (4 + 1568 + 32) box) as (aad & -> & _); [lia..|]. cbn [mbind res_bind].
  destruct (chacha_decrypt key n c aad) as [body|]; [|done]. cbn [ok_or mbind res_bind].
  destruct (ff_read_body_inv h body Hk) as [Hp Ho]. split; [done|]. intros o (hd & rest & ?)%Ho. by exists h, hd, rest.
Qed.

(** C13: a first flight arrives whole. Sealing succeeds just when the wire payload
    carries an ML-KEM handshake and the certificate's length fits in 16 bits; the
    box names that handshake in front, costs 66 bytes, and opens, with the same
    first-flight key and the recipient's identity secret, to the same certificate
    and the same wire payload. Whatever box is opened, opening does not panic,
    and a payload that comes out names, in its header, the handshake of the box
    and carries its ciphertext. *)
Theorem first_flight_arrives k sk wire cert w :
  len sk = 32 → len wire ≤ 2 ^ 31 →
  ((∃ w' box, ff_seal k (x25519_public sk) wire cert w = (w', Ok box)) ↔
   (∃ h, handshake_of_wire (E := CryptoError) wire = Ok (Some h)) ∧ len cert ≤ u16_max) ∧
  (∀ w' box, ff_seal k (x25519_public sk) wire cert w = (w', Ok box) →
    ff_open k sk box = Ok (mkOpenedFirstFlight cert wire) ∧
    len box = len wire + len cert + FIRST_FLIGHT_OVERHEAD ∧
    ∃ h, handshake_of_box box = Ok h ∧ handshake_of_wire (E := CryptoError) wire = Ok (Some h)) ∧
  ∀ k' sk' box, ff_open k' sk' box ≠ Panic ∧
    ∀ o, ff_open k' sk' box = Ok o →
      ∃ h hd rest, handshake_of_box box = Ok h ∧ carries h hd rest (of_wire_payload o).
Proof.
  intros Hs Hw. split_and!; [split| |intros; apply ff_open_inv].
  - intros (w' & box & Hb). revert Hb. unfold ff_seal, mbind, stm_bind, lift.
    destruct (fill_bytes_ok (E := CryptoError) 32 w) as (w1 & e & -> & _); [lia|].
    destruct (fill_bytes_ok (E := CryptoError) FF_NONCE_LEN w1) as (w2 & n & -> & _); [done|].
    unfold ff_seal_with, cert_len_u16. destruct (handshake_of_wire wire) as [[h|]| |]; [|done..]. cbn [mbind res_bind ok_or].
    destruct (Z.leb_spec (len cert) u16_max); [|done]. eauto.
  - intros [[h Hh] Hl]. apply handshake_of_wire_carries in Hh as (hd & rest & Hr & Hc).
    unfold ff_seal, mbind, stm_bind, lift. destruct (fill_bytes_ok (E := CryptoError) 32 w) as (w1 & e & -> & _); [lia|].
    destruct (fill_bytes_ok (E := CryptoError) FF_NONCE_LEN w1) as (w2 & n & -> & _); [done|].
    destruct (ff_seal_with_ok k (x25519_public sk) wire cert e n h hd rest Hc) as (? & ? & _ & _ & ->); [done..|apply x25519_public_len|done|].
    eauto.
  - intros w' box. unfold ff_seal, mbind, stm_bind, lift. destruct (fill_bytes_ok (E := CryptoError) 32 w) as (w1 & e & -> & _); [lia|].
    destruct (fill_bytes_ok (E := CryptoError) FF_NONCE_LEN w1) as (w2 & n & -> & Hn); [done|].
    destruct (handshake_of_wire (E := CryptoError) wire) as [[h|]| |] eqn:Hh; try (unfold ff_seal_with; rewrite Hh; done).
    destruct (Z.leb_spec (len cert) u16_max) as [Hl|Hl];
      [|unfold ff_seal_with; rewrite Hh; cbn [mbind res_bind ok_or]; unfold cert_len_u16; by rewrite (proj2 (Z.leb_gt _ _) Hl)].
    destruct (proj1 (handshake_of_wire_carries wire h) Hh) as (hd & rest & Hr & Hc).
    destruct (ff_seal_with_ok k (x25519_public sk) wire cert e n h hd rest Hc) as (key & c & Hk & He & ->); [done..|apply x25519_public_len|done|].
    intros [= _ <-]. pose proof Hc as (Hwire & Hd & Hct & _). rewrite Hwire in Hc. rewrite x25519_commutes in Hk.
    destruct (ff_open_body k sk key h e n c cert hd rest Hs Hn Hl Hc Hk He) as [Hb Ho]. rewrite Hwire. split_and!; [done| |eauto].
    rewrite !len_app, (len_ff_front h _ Hct (x25519_public_len e)), Hn, (chacha_len _ _ _ _ _ He), Hd, Hct. unfold ff_body.
    rewrite !len_app, len_be_bytes, Hd. unfold FIRST_FLIGHT_OVERHEAD, FF_AD_LEN, FF_AEAD_TAG_LEN, FF_ID_LEN, FF_EPH_LEN. lia.
Qed.
End laws.

(** A wire payload with a handshake. *)
Definition demo_wire : bytes :=
  replicate 44 Byte.x01 ++ le_bytes 2 1568 ++ replicate 6 Byte.x02 ++ replicate 1568 Byte.x03 ++ [Byte.x04].

Lemma first_flight_arrives_witness :
  let k := mkFirstFlightKey (replicate 32 Byte.x09) in
  let sk := replicate 32 Byte.x05 in
  ((∃ w' box, ff_seal k (x25519_public sk) demo_wire [Byte.x06] (toy_world 3) = (w', Ok box)) ↔
   (∃ h, handshake_of_wire (E := CryptoError) demo_wire = Ok (Some h)) ∧ len [Byte.x06] ≤ u16_max) ∧
  (∀ w' box, ff_seal k (x25519_public sk) demo_wire [Byte.x06] (toy_world 3) = (w', Ok box) →
    ff_open k sk box = Ok (mkOpenedFirstFlight [Byte.x06] demo_wire) ∧
    len box = len demo_wire + len [Byte.x06] + FIRST_FLIGHT_OVERHEAD ∧
    ∃ h, handshake_of_box box = Ok h ∧ handshake_of_wire (E := CryptoError) demo_wire = Ok (Some h)) ∧
  ∀ k' sk' box, ff_open k' sk' box ≠ Panic ∧
    ∀ o, ff_open k' sk' box = Ok o →
      ∃ h hd rest, handshake_of_box box = Ok h ∧ carries h hd rest (of_wire_payload o).
Proof.
  intros k sk. apply (first_flight_arrives k sk demo_wire [Byte.x06] (toy_world 3)); vm_compute; [reflexivity|discriminate].
Defined.
