(* ===== verification/EnvelopeBook.v ===== *)
(** * The envelope book

    Models [src/src/crypto/sealed_sender/book.rs]: every envelope key pair a
    device holds, by peer device and session, and its stored form. A pair whose
    ratchet state is gone is retired, not removed: it still names the writer of
    what arrives and seals the answer, until its retention is over. *)

From stdpp Require Import finite.
From S2P Require Import Prelude Platform Classic Toy Crates WirePayload SealedBox Envelope FirstFlight.

Definition QUEUE_TTL_SECS : Z := 7 * 24 * 3600.
Definition RETIRED_RETENTION_SECS : Z := QUEUE_TTL_SECS.

Record BookEntry := mkBookEntry {
  be_device : string;
  be_session_id : string;
  be_keys : EnvelopePair;
  be_retired_at : option Z;
  be_first_flight : option FiledFirstFlightKey;
}.
#[global] Instance book_entry_eta : Eta BookEntry := λ e,
  mkBookEntry (be_device e) (be_session_id e) (be_keys e) (be_retired_at e) (be_first_flight e).
#[global] Instance book_entry_eq_dec : EqDecision BookEntry.
Proof. solve_decision. Defined.

Record OpenedEnvelope := mkOpenedEnvelope {
  oe_device : string;
  oe_session_id : string;
  oe_kind : EnvelopeKind;
  oe_body : bytes;
  oe_retired : bool;
}.

(** [EnvelopeBook]: its entries, newest first. *)
Definition EnvelopeBook : Type := list BookEntry.
Definition book_new : EnvelopeBook := [].

(** [cfe::CfeEnvelopeEntryV1] *)
Record CfeEnvelopeEntryV1 := mkCfeEnvelopeEntryV1 {
  ce_device_id : string;
  ce_session_id : string;
  ce_keys : bytes;
  ce_retired_at : option Z;
  ce_first_flight : option bytes;
}.

(** [iter().find(|e| p(e))], [iter_mut().find(..)] with a write, [retain]. *)
Fixpoint find_first {A} (p : A → bool) (l : list A) : option A :=
  match l with [] => None | x :: l => if p x then Some x else find_first p l end.
Fixpoint alter_first {A} (p : A → bool) (f : A → A) (l : list A) : list A :=
  match l with [] => [] | x :: l => if p x then f x :: l else x :: alter_first p f l end.
Definition retain {A} (p : A → bool) (l : list A) : list A := filter (λ x, p x = true) l.

Definition has_id (session_id : string) (e : BookEntry) : bool := bool_decide (be_session_id e = session_id).
Definition has_device (device : string) (e : BookEntry) : bool := bool_decide (be_device e = device).

Definition has_session (b : EnvelopeBook) (session_id : string) : bool := existsb (has_id session_id) b.

Definition register (device session_id : string) (keys : EnvelopePair) (b : EnvelopeBook) : EnvelopeBook :=
  if has_session b session_id then b else mkBookEntry device session_id keys None None :: b.

Definition set_first_flight (session_id : string) (ciphertext_hash : bytes) (key : FirstFlightKey)
    (handshake_at : Z) (b : EnvelopeBook) : EnvelopeBook :=
  alter_first (has_id session_id)
    (λ e, e <| be_first_flight := Some (mkFiledFirstFlightKey ciphertext_hash key handshake_at) |>) b.

Definition clear_first_flight (session_id : string) (b : EnvelopeBook) : EnvelopeBook :=
  alter_first (has_id session_id) (λ e, e <| be_first_flight := None |>) b.

Definition first_flight_of_session (b : EnvelopeBook) (session_id : string) : option FiledFirstFlightKey :=
  e ← find_first (has_id session_id) b; be_first_flight e.

(** [iter().find_map(..)] *)
Fixpoint first_flight_by_handshake (b : EnvelopeBook) (ciphertext_hash : bytes) : option FirstFlightKey :=
  match b with
  | [] => None
  | e :: b =>
      match be_first_flight e with
      | Some f => if decide (fk_ciphertext_hash f = ciphertext_hash) then Some (fk_key f)
                  else first_flight_by_handshake b ciphertext_hash
      | None => first_flight_by_handshake b ciphertext_hash
      end
  end.

(** [e.retired_at.get_or_insert(now)] *)
Definition retire_entry (now : Z) (e : BookEntry) : BookEntry :=
  e <| be_retired_at := Some (default now (be_retired_at e)) |>.

(** The loop of the three [retire] methods, over the entries that [p] selects. *)
Definition retire_where (p : BookEntry → bool) (now : Z) (b : EnvelopeBook) : EnvelopeBook :=
  (λ e, if p e then retire_entry now e else e) <$> b.

Definition retire_session (session_id : string) (now : Z) (b : EnvelopeBook) : EnvelopeBook :=
  retire_where (has_id session_id) now b.

Definition retire_device (device : string) (now : Z) (b : EnvelopeBook) : EnvelopeBook :=
  retire_where (has_device device) now b.

Definition retire_device_except (device : string) (held : list string) (now : Z) (b : EnvelopeBook)
    : EnvelopeBook :=
  retire_where (λ e, has_device device e && negb (bool_decide (be_session_id e ∈ held))) now b.

Definition entry_live (now : Z) (e : BookEntry) : bool :=
  match be_retired_at e with
  | None => true
  | Some at_ => sat_sub now at_ <? RETIRED_RETENTION_SECS
  end.

Definition book_prune (now : Z) (b : EnvelopeBook) : EnvelopeBook := retain (entry_live now) b.

Section book.
Context `{Platform} `{ClassicCrates} `{HmacCrate}.

Definition book_seal (b : EnvelopeBook) (session_id : string) (kind : EnvelopeKind) (payload : bytes)
    : stm World CryptoError bytes :=
  entry ← lift (ok_or (find_first (has_id session_id) b)
                      (InvalidInputError "no envelope keys for session"));
  let body := byte_of_Z (kind_u8 kind) :: payload in
  dk_seal (ep_send (be_keys entry)) body.

Definition seal_reply (b : EnvelopeBook) (session_id : string) (payload : bytes) : stm World CryptoError bytes :=
  book_seal b session_id KindDecryptionError payload.

Definition book_open (b : EnvelopeBook) (envelope : bytes) : res CryptoError (option OpenedEnvelope) :=
  match find_first (λ e, dk_matches (ep_recv (be_keys e)) envelope) b with
  | None => Ok None
  | Some entry =>
      match dk_open (ep_recv (be_keys entry)) envelope with
      | Panic => Panic
      | Err _ => Ok None
      | Ok [] => Ok None
      | Ok (kind :: rest) =>
          match kind_from_byte (byte_to_Z kind) with
          | None => Ok None
          | Some kind => Ok (Some (mkOpenedEnvelope (be_device entry) (be_session_id entry) kind rest
                                     (match be_retired_at entry with Some _ => true | None => false end)))
          end
      end
  end.

Definition entry_to_cfe (e : BookEntry) : CfeEnvelopeEntryV1 := {|
  ce_device_id := be_device e;
  ce_session_id := be_session_id e;
  ce_keys := dk_to_bytes (ep_send (be_keys e)) ++ dk_to_bytes (ep_recv (be_keys e));
  ce_retired_at := be_retired_at e;
  ce_first_flight := (λ f, fk_ciphertext_hash f ++ ff_to_bytes (fk_key f) ++ be_bytes 8 (fk_handshake_at f))
                       <$> be_first_flight e;
|}.

Definition book_to_cfe (b : EnvelopeBook) : list CfeEnvelopeEntryV1 := entry_to_cfe <$> b.

(** [.ok()?] on a slice that is in range *)
Definition first_flight_from_cfe (f : bytes) : res CryptoError (option FiledFirstFlightKey) :=
  if negb (len f =? 72) then Ok None else
  hash ← slice 0 32 f;
  kb ← slice 32 64 f;
  at_ ← slice_from 64 f;
  match ff_from_bytes kb with
  | Panic => Panic
  | Err _ => Ok None
  | Ok key => Ok (Some (mkFiledFirstFlightKey hash key (be_val at_)))
  end.

Definition entry_from_cfe (e : CfeEnvelopeEntryV1) : res CryptoError (option BookEntry) :=
  let k := ce_keys e in
  if negb (len k =? 128) then Ok None else
  sb ← slice 0 64 k;
  rb ← slice_from 64 k;
  match dk_from_bytes sb, dk_from_bytes rb with
  | Ok send, Ok recv =>
      ff ← match ce_first_flight e with Some f => first_flight_from_cfe f | None => Ok None end;
      Ok (Some (mkBookEntry (ce_device_id e) (ce_session_id e) (mkEnvelopePair send recv) (ce_retired_at e) ff))
  | Panic, _ | _, Panic => Panic
  | _, _ => Ok None
  end.

(** [iter().filter_map(..).collect()] *)
Fixpoint book_from_cfe (entries : list CfeEnvelopeEntryV1) : res CryptoError EnvelopeBook :=
  match entries with
  | [] => Ok []
  | e :: entries =>
      x ← entry_from_cfe e;
      b ← book_from_cfe entries;
      Ok (match x with Some x => x :: b | None => b end)
  end.
End book.

(** ** Lists of entries *)

Lemma find_first_Some {A} (p : A → bool) l x :
  find_first p l = Some x ↔ ∃ l1 l2, l = l1 ++ x :: l2 ∧ p x = true ∧ Forall (λ y, p y = false) l1.
Proof.
  split.
  - induction l as [|y l IH]; [done|]. simpl. destruct (p y) eqn:Hy.
    + intros [= ->]. by exists [], l.
    + intros (l1 & l2 & -> & ? & ?)%IH. exists (y :: l1), l2. split_and!; [done..|]. by constructor.
  - intros (l1 & l2 & -> & Hx & Hl). induction Hl as [|y l1 Hy _ IH]; simpl; [by rewrite Hx|by rewrite Hy].
Qed.

Lemma find_first_elem {A} (p : A → bool) l x : find_first p l = Some x → x ∈ l ∧ p x = true.
Proof. intros (l1 & l2 & -> & ? & _)%find_first_Some. set_solver. Qed.

Lemma find_first_None {A} (p : A → bool) l : find_first p l = None ↔ Forall (λ y, p y = false) l.
Proof.
  induction l as [|y l IH]; simpl; [by split|]. rewrite Forall_cons. destruct (p y); naive_solver.
Qed.

Lemma existsb_find {A} (p : A → bool) l : existsb p l = true ↔ is_Some (find_first p l).
Proof.
  induction l as [|y l IH]; simpl; [by split; [|intros []]|]. destruct (p y); simpl; [|done]. split; eauto.
Qed.

Lemma alter_first_split {A} (p : A → bool) f l :
  alter_first p f l = l ∨ ∃ l1 x l2, l = l1 ++ x :: l2 ∧ p x = true ∧ alter_first p f l = l1 ++ f x :: l2.
Proof.
  induction l as [|y l [IH|(l1 & x & l2 & -> & Hx & IH)]]; [by left|..]; simpl; destruct (p y) eqn:Hy.
  - right. by exists [], y, l.
  - left. by rewrite IH.
  - right. by exists [], y, (l1 ++ x :: l2).
  - right. exists (y :: l1), x, l2. by rewrite IH.
Qed.

(** ** The invariant of the book *)

Definition filed_wf (f : FiledFirstFlightKey) : Prop :=
  len (fk_ciphertext_hash f) = 32 ∧ len (ff_bytes (fk_key f)) = 32 ∧ is_u64 (fk_handshake_at f).

Record entry_wf (e : BookEntry) : Prop := {
  ew_keys : ep_wf (be_keys e);
  ew_filed : ∀ f, be_first_flight e = Some f → filed_wf f;
}.

Definition book_wf (b : EnvelopeBook) : Prop :=
  NoDup (be_session_id <$> b) ∧ Forall entry_wf b.

(** The operations a client makes on its book. *)
Inductive book_op :=
  | OpRegister (device session_id : string) (keys : EnvelopePair)
  | OpSetFirstFlight (session_id : string) (hash : bytes) (key : FirstFlightKey) (at_ : Z)
  | OpClearFirstFlight (session_id : string)
  | OpRetireSession (session_id : string) (now : Z)
  | OpRetireDevice (device : string) (now : Z)
  | OpRetireDeviceExcept (device : string) (held : list string) (now : Z)
  | OpPrune (now : Z).

Definition book_apply (o : book_op) : EnvelopeBook → EnvelopeBook :=
  match o with
  | OpRegister d s k => register d s k
  | OpSetFirstFlight s h k t => set_first_flight s h k t
  | OpClearFirstFlight s => clear_first_flight s
  | OpRetireSession s t => retire_session s t
  | OpRetireDevice d t => retire_device d t
  | OpRetireDeviceExcept d h t => retire_device_except d h t
  | OpPrune t => book_prune t
  end.

Definition op_wf (o : book_op) : Prop :=
  match o with
  | OpRegister _ _ k => ep_wf k
  | OpSetFirstFlight _ h k t => filed_wf (mkFiledFirstFlightKey h k t)
  | _ => True
  end.

Lemma retire_where_ids p now b : be_session_id <$> retire_where p now b = be_session_id <$> b.
Proof.
  unfold retire_where. rewrite <- list_fmap_compose. apply list_fmap_ext. intros i e _. simpl. by destruct (p e).
Qed.

Lemma alter_first_ids p f b : (∀ e, be_session_id (f e) = be_session_id e) →
  be_session_id <$> alter_first p f b = be_session_id <$> b.
Proof.
  intros Hf. destruct (alter_first_split p f b) as [->|(l1 & x & l2 & -> & _ & ->)]; [done|].
  by rewrite !fmap_app, !fmap_cons, Hf.
Qed.

Lemma alter_first_forall {A} (P : A → Prop) p f l : (∀ x, P x → P (f x)) → Forall P l → Forall P (alter_first p f l).
Proof.
  intros Hf Hl. destruct (alter_first_split p f l) as [->|(l1 & x & l2 & -> & _ & ->)]; [done|].
  rewrite Forall_app, Forall_cons in *. naive_solver.
Qed.

Lemma retire_where_wf p now b : book_wf b → book_wf (retire_where p now b).
Proof.
  intros [Hn Hf]. split; [by rewrite retire_where_ids|]. unfold retire_where. apply Forall_fmap.
  eapply Forall_impl; [done|]. intros e [Hk Hff]. simpl. by destruct (p e).
Qed.

Lemma book_apply_wf o b : op_wf o → book_wf b → book_wf (book_apply o b).
Proof.
  intros Ho [Hn Hf]. destruct o; simpl in *; try (by apply retire_where_wf).
  - unfold register. destruct (has_session b session_id) eqn:Hs; [done|]. split.
    + rewrite fmap_cons. apply NoDup_cons. split; [|done]. simpl. intros (e & -> & He)%list_elem_of_fmap.
      enough (has_session b (be_session_id e) = true) by congruence. apply existsb_exists. exists e.
      split; [by apply list_elem_of_In|]. by apply bool_decide_eq_true.
    + constructor; [|done]. by split.
  - unfold set_first_flight. split; [by rewrite alter_first_ids|]. apply alter_first_forall; [|done].
    intros e [Hk _]. split; [done|]. by intros f [= <-].
  - unfold clear_first_flight. split; [by rewrite alter_first_ids|]. apply alter_first_forall; [|done].
    intros e [Hk _]. by split.
  - unfold book_prune, retain. split; [|rewrite Forall_forall in *; intros e [_ He]%list_elem_of_filter; auto].
    assert (retain (entry_live now) b `sublist_of` b) as Hs by apply sublist_filter.
    apply (fmap_sublist be_session_id) in Hs. by eapply sublist_NoDup.
Qed.

(** ** A pair outlives its ratchet *)

(** When an operation retires the pair of a session with a device, and when the first of
    several does. *)
Definition retires (device session_id : string) (o : book_op) : option Z :=
  match o with
  | OpRetireSession s t => if decide (s = session_id) then Some t else None
  | OpRetireDevice d t => if decide (d = device) then Some t else None
  | OpRetireDeviceExcept d held t => if decide (d = device ∧ session_id ∉ held) then Some t else None
  | _ => None
  end.
Definition first_retired (device session_id : string) (ops : list book_op) : option Z :=
  head (omap (retires device session_id) ops).

Definition same_pair (e e' : BookEntry) : Prop :=
  be_device e' = be_device e ∧ be_session_id e' = be_session_id e ∧ be_keys e' = be_keys e.

Lemma elem_of_alter_first {A} (p : A → bool) f l x : x ∈ l → x ∈ alter_first p f l ∨ f x ∈ alter_first p f l.
Proof.
  intros Hx. destruct (alter_first_split p f l) as [->|(l1 & y & l2 & -> & _ & ->)]; [by left|]. set_solver.
Qed.

Lemma retire_where_keeps p now b e : e ∈ b →
  ∃ e', e' ∈ retire_where p now b ∧ same_pair e e' ∧ be_retired_at e' = be_retired_at e ∪ (if p e then Some now else None).
Proof.
  intros He. exists (if p e then retire_entry now e else e). unfold retire_where. split_and!.
  - apply list_elem_of_fmap. eauto.
  - by destruct (p e).
  - destruct (p e); [unfold retire_entry; cbn [be_retired_at]|]; by destruct (be_retired_at e).
Qed.

(** A pair stays filed, with the time it was first retired at, through every operation
    but a prune past its retention. *)
Lemma book_apply_keeps o b e :
  e ∈ b → (∀ r t, be_retired_at e = Some r → o = OpPrune t → t < r + RETIRED_RETENTION_SECS) →
  ∃ e', e' ∈ book_apply o b ∧ same_pair e e' ∧
    be_retired_at e' = be_retired_at e ∪ retires (be_device e) (be_session_id e) o.
Proof.
  intros He Hp. destruct o; cbn [book_apply retires]; rewrite ?(right_id_L None (∪)).
  - exists e. unfold register. destruct (has_session b session_id); split_and!; try done. by right.
  - unfold set_first_flight. destruct (elem_of_alter_first (has_id session_id)
      (λ e, e <| be_first_flight := Some (mkFiledFirstFlightKey hash key at_) |>) b e He); eexists; split_and!; done.
  - unfold clear_first_flight. destruct (elem_of_alter_first (has_id session_id)
      (λ e, e <| be_first_flight := None |>) b e He); eexists; split_and!; done.
  - destruct (retire_where_keeps (has_id session_id) now b e He) as (e' & ? & ? & Hr). exists e'. split_and!; [done..|]. rewrite Hr.
    clear. f_equal. unfold has_id. repeat case_decide; repeat case_bool_decide; naive_solver.
  - destruct (retire_where_keeps (has_device device) now b e He) as (e' & ? & ? & Hr). exists e'. split_and!; [done..|]. rewrite Hr.
    clear. f_equal. unfold has_device. repeat case_decide; repeat case_bool_decide; naive_solver.
  - destruct (retire_where_keeps (λ e, has_device device e && negb (bool_decide (be_session_id e ∈ held))) now b e He) as (e' & ? & ? & Hr).
    exists e'. split_and!; [done..|]. rewrite Hr. clear. f_equal. unfold has_device. case_decide; repeat case_bool_decide; cbn [andb negb]; naive_solver.
  - exists e. split; [|done]. unfold book_prune, retain. apply list_elem_of_filter. split; [|done].
    unfold entry_live. destruct (be_retired_at e) as [r|] eqn:E; [|done]. apply Z.ltb_lt.
    specialize (Hp r now eq_refl eq_refl). unfold sat_sub, RETIRED_RETENTION_SECS, QUEUE_TTL_SECS in *. lia.
Qed.

Definition book_run (ops : list book_op) (b : EnvelopeBook) : EnvelopeBook := foldl (λ b o, book_apply o b) b ops.

Lemma book_run_wf ops b : Forall op_wf ops → book_wf b → book_wf (book_run ops b).
Proof. intros Ho. revert b. induction Ho; intros b Hb; [done|]. apply IHHo. by apply book_apply_wf. Qed.

Lemma book_run_keeps ops b e :
  e ∈ b →
  (∀ r t, be_retired_at e ∪ first_retired (be_device e) (be_session_id e) ops = Some r → OpPrune t ∈ ops → t < r + RETIRED_RETENTION_SECS) →
  ∃ e', e' ∈ book_run ops b ∧ same_pair e e' ∧
    be_retired_at e' = be_retired_at e ∪ first_retired (be_device e) (be_session_id e) ops.
Proof.
  revert b e. induction ops as [|o ops IH]; intros b e He Hp; [exists e; unfold first_retired; cbn [omap list_omap head]; by rewrite (right_id_L None (∪))|].
  destruct (book_apply_keeps o b e He) as (e1 & H1 & Hs1 & Hr1).
  { intros r t Hr ->. apply Hp; [rewrite Hr; by destruct (first_retired _ _ _)|by left]. }
  assert (be_retired_at e1 ∪ first_retired (be_device e1) (be_session_id e1) ops =
          be_retired_at e ∪ first_retired (be_device e) (be_session_id e) (o :: ops)) as Heq.
  { destruct Hs1 as (Hd & Hi & _). rewrite Hr1, Hd, Hi. unfold first_retired. cbn [omap list_omap].
    by destruct (be_retired_at e), (retires _ _ o), (head (omap _ ops)). }
  destruct (IH (book_apply o b) e1 H1) as (e2 & H2 & Hs2 & Hr2).
  { intros r t Hr Ht. apply Hp; [by rewrite <- Heq|by right]. }
  exists e2. split_and!; [done| |by rewrite Hr2]. unfold same_pair in *. naive_solver congruence.
Qed.

Lemma prune_drops t b e : e ∈ book_prune t b → ∀ r, be_retired_at e = Some r → sat_sub t r < RETIRED_RETENTION_SECS.
Proof.
  unfold book_prune, retain. intros [He _]%list_elem_of_filter r Hr. revert He. unfold entry_live. rewrite Hr. apply Z.ltb_lt.
Qed.

(** ** Sealing and opening through the book *)

Section claims.
Context `{PL : PlatformLaws} `{CL : ClassicCratesLaws} `{HL : HmacLaws}.

Lemma book_open_no_panic b env : book_open b env ≠ Panic.
Proof.
  unfold book_open. destruct (find_first _ b) as [e|]; [|done].
  destruct (dk_open _ env) as [[|k r]| |] eqn:Ho; [done| |done|by apply dk_open_no_panic in Ho].
  by destruct (kind_from_byte _).
Qed.

(** An envelope sealed under the receiving keys of an entry, which no newer entry's
    tag matches. *)
Lemma book_opens_sealed keys kind payload newer e older w w' env :
  ep_recv (be_keys e) = keys → len payload < 2 ^ 32 →
  dk_seal keys (byte_of_Z (kind_u8 kind) :: payload) w = (w', Ok env) →
  Forall (λ x, dk_matches (ep_recv (be_keys x)) env = false) newer →
  book_open (newer ++ e :: older) env = Ok (Some (mkOpenedEnvelope (be_device e) (be_session_id e) kind payload
    (match be_retired_at e with Some _ => true | None => false end))).
Proof.
  intros Hk Hl Hs Hn. destruct (dk_seal_opens keys (byte_of_Z (kind_u8 kind) :: payload) w) as (w1 & env1 & Hs1 & _ & Hm & Ho).
  { rewrite len_cons. lia. }
  rewrite Hs in Hs1. assert (env1 = env) as -> by congruence. unfold book_open.
  rewrite (proj2 (find_first_Some (λ x, dk_matches (ep_recv (be_keys x)) env) _ e)) by (exists newer, older; rewrite Hk; done).
  rewrite Hk, Ho, byte_to_of_Z_small, kind_from_to by by destruct kind. done.
Qed.

(** C14: an envelope names its writer. Two devices that file the pairs of one session root,
    each from its own side, read each other: what the writer seals on the session, the
    reader's book opens as that session of that device, with the kind and the payload, and
    flags it exactly when the reader has retired the pair. It holds whatever happened to the
    reader's book since it filed the pair (more pairs, pairs retired by a reset or a deleted
    chat, pruning), provided that no prune comes seven days or more after the pair was first
    retired: a pair never retired is never pruned. The envelope is one that the 128-bit tag
    of no other pair of the reader's matches. The writer's own pair may be retired: sealing
    does not ask. *)
Theorem envelope_names_writer root (me peer session : string) x y b c ce ops kind payload w w' env :
  ep_derive root me peer = Ok x → ep_derive root peer me = Ok y →
  book_wf b → has_session b session = false → Forall op_wf ops →
  (∀ r t, first_retired peer session ops = Some r → OpPrune t ∈ ops → t < r + RETIRED_RETENTION_SECS) →
  find_first (has_id session) c = Some ce → be_keys ce = y →
  len payload < 2 ^ 32 → book_seal c session kind payload w = (w', Ok env) →
  let mine := book_run ops (register peer session x b) in
  Forall (λ e, be_session_id e ≠ session → dk_matches (ep_recv (be_keys e)) env = false) mine →
  book_wf mine ∧
  book_open mine env = Ok (Some (mkOpenedEnvelope peer session kind payload
    (match first_retired peer session ops with Some _ => true | None => false end))).
Proof.
  intros Hx Hy Hb Hs Ho Hp Hc Hce Hl Henv mine Hm.
  destruct (ep_derive_crossed root me peer) as (kx & ky & Hx' & Hy' & Wx & Wy).
  assert (x = mkEnvelopePair kx ky) as -> by congruence. assert (y = mkEnvelopePair ky kx) as -> by congruence.
  assert (register peer session (mkEnvelopePair kx ky) b = mkBookEntry peer session (mkEnvelopePair kx ky) None None :: b) as Hreg.
  { unfold register. by rewrite Hs. }
  assert (book_wf mine) as Hw.
  { apply book_run_wf; [done|]. by apply (book_apply_wf (OpRegister peer session (mkEnvelopePair kx ky))). }
  split; [done|].
  destruct (book_run_keeps ops (register peer session (mkEnvelopePair kx ky) b) (mkBookEntry peer session (mkEnvelopePair kx ky) None None))
    as (e & He & (Hd & Hid & Hk) & Hr); [rewrite Hreg; by left|cbn [be_device be_session_id be_retired_at]; by rewrite (left_id_L None (∪))|]. cbn [be_device be_session_id be_keys be_retired_at] in Hd, Hid, Hk, Hr.
  rewrite (left_id_L None (∪)) in Hr.
  fold mine in He. apply list_elem_of_split in He as (newer & older & He). clearbody mine. subst mine.
  rewrite <- Hr. clear Hr Hp. rewrite <- Hd, <- Hid. apply (book_opens_sealed ky kind payload newer e older w w' env); [by rewrite Hk|done| |].
  - revert Henv. unfold book_seal, mbind, stm_bind, lift. rewrite Hc. cbn [ok_or]. rewrite Hce. exact id.
  - apply Forall_app in Hm as [Hm _]. destruct Hw as [Hn _]. rewrite fmap_app, NoDup_app in Hn. destruct Hn as (_ & Hn & _).
    rewrite Forall_forall in *. intros z Hz. apply Hm; [done|]. intros Hzs. apply (Hn (be_session_id z)); [by apply list_elem_of_fmap_2|].
    rewrite fmap_cons. apply elem_of_cons. left. congruence.
Qed.

(** ** The stored book *)

Lemma first_flight_cfe_roundtrip f : filed_wf f →
  first_flight_from_cfe (fk_ciphertext_hash f ++ ff_to_bytes (fk_key f) ++ be_bytes 8 (fk_handshake_at f)) = Ok (Some f).
Proof.
  intros (Hh & Hk & Ha). unfold first_flight_from_cfe, ff_to_bytes.
  set (l := _ ++ _). assert (view 0 l l) as V by apply view_start. unfold l in V at 2.
  assert (len l = 72) as -> by (unfold l; rewrite !len_app, len_be_bytes, Hh, Hk; done). cbn [Z.eqb Pos.eqb negb].
  rewrite (view_slice 0 32 _ _ _ V) by lia. apply (view_next _ 32) in V; [|lia]. cbn [mbind res_bind].
  rewrite (view_slice 32 64 _ _ _ V) by lia. apply (view_next _ 64) in V; [|lia]. cbn [mbind res_bind].
  rewrite (view_from _ _ _ V). cbn [mbind res_bind]. unfold ff_from_bytes. rewrite Hk. cbn [Z.eqb Pos.eqb].
  rewrite be_val_bytes_small by (unfold is_u64, u64_max in Ha; simpl; lia). by destruct f as [? [?] ?].
Qed.

Lemma entry_cfe_roundtrip e : entry_wf e → entry_from_cfe (entry_to_cfe e) = Ok (Some e).
Proof.
  intros [[Hs Hr] Hf]. unfold entry_from_cfe. cbn [ce_keys entry_to_cfe].
  assert (∀ k, dk_wf k → len (dk_to_bytes k) = 64) as Hl by (intros k [??]; unfold dk_to_bytes; rewrite len_app; lia).
  set (l := _ ++ _). assert (view 0 l l) as V by apply view_start. unfold l in V at 2.
  assert (len l = 128) as -> by (unfold l; rewrite len_app, !Hl; done). cbn [Z.eqb Pos.eqb negb].
  rewrite (view_slice 0 64 _ _ _ V) by (rewrite Hl; done). apply (view_next _ 64) in V; [|rewrite Hl; done]. cbn [mbind res_bind].
  rewrite (view_from _ _ _ V). cbn [mbind res_bind]. rewrite !dk_bytes_roundtrip by done.
  destruct e as [d s [ks kr] t [f|]]; cbn [entry_to_cfe ce_first_flight fmap option_fmap option_map be_first_flight].
  - rewrite first_flight_cfe_roundtrip by by apply Hf. done.
  - done.
Qed.

Lemma book_cfe_roundtrip b : book_wf b → book_from_cfe (book_to_cfe b) = Ok b.
Proof.
  intros [_ Hf]. induction Hf as [|e b He _ IH]; [done|]. unfold book_to_cfe in *. rewrite fmap_cons. cbn [book_from_cfe].
  rewrite entry_cfe_roundtrip by done. cbn [mbind res_bind]. by rewrite IH.
Qed.
End claims.

Lemma envelope_names_writer_witness :
  let root := replicate 32 Byte.x21 in
  let x := match ep_derive root "me" "peer" with Ok x => x | _ => mkEnvelopePair (mkDirectionKeys [] []) (mkDirectionKeys [] []) end in
  let y := match ep_derive root "peer" "me" with Ok y => y | _ => mkEnvelopePair (mkDirectionKeys [] []) (mkDirectionKeys [] []) end in
  let ops := [OpRetireDevice "peer" 100; OpPrune 200; OpRegister "peer" "s2" y] in
  let ce := mkBookEntry "me" "s1" y (Some 50) None in
  let c := [ce] in
  let mine := book_run ops (register "peer" "s1" x []) in
  let env := match (book_seal c "s1" KindRatchet [Byte.x61] (toy_world 3)).2 with Ok env => env | _ => [] end in
  book_wf mine ∧ book_open mine env = Ok (Some (mkOpenedEnvelope "peer" "s1" KindRatchet [Byte.x61] true)).
Proof.
  intros root x y ops ce c mine env.
  apply (envelope_names_writer root "me" "peer" "s1" x y [] c ce ops KindRatchet [Byte.x61] (toy_world 3)
           (book_seal c "s1" KindRatchet [Byte.x61] (toy_world 3)).1 env).
  - vm_compute. reflexivity.
  - vm_compute. reflexivity.
  - split; [apply NoDup_nil_2|constructor].
  - reflexivity.
  - repeat constructor; vm_compute; reflexivity.
  - intros r t [= <-] Ho. repeat (apply elem_of_cons in Ho as [Ho|Ho]); [done|injection Ho as ->; vm_compute; reflexivity|done|by apply not_elem_of_nil in Ho].
  - reflexivity.
  - reflexivity.
  - vm_compute. reflexivity.
  - vm_compute. reflexivity.
  - refine (bool_decide_unpack _ _). vm_compute. exact I.
Defined.
