(* ===== verification/SessionMachine.v ===== *)
(** * The phase of a session

    Models [src/src/orchestration/session_machine.rs]: the lock on an open in
    flight, one per device, with its time-out. The machine reads the injected
    [Clock]; each reading of [now_ms] is an argument of the call that makes it,
    so that nothing is assumed of how a clock moves. *)

From stdpp Require Import gmap strings.
From S2P Require Import Prelude.

Definition OPENING_TTL_MS : Z := 30000.

Inductive Phase := PhAbsent | PhOpening (since_ms : Z).
#[global] Instance phase_eq_dec : EqDecision Phase.
Proof. solve_decision. Defined.

Inductive Event := WantToOpen | OpenFinished | OpenFailed | Forget.
Inductive Effect := EffOpen | EffWaitForOpen | EffNothing.
#[global] Instance effect_eq_dec : EqDecision Effect.
Proof. solve_decision. Defined.

(** [phases: HashMap<String, Phase>] *)
Abbreviation SessionMachine := (gmap string Phase).

Definition machine_new : SessionMachine := ∅.

(** The guard of [phase] and of [prune_expired]. *)
Definition phase_live (now : Z) (p : Phase) : bool :=
  match p with
  | PhOpening since_ms => sat_sub now since_ms <? OPENING_TTL_MS
  | PhAbsent => false
  end.

Definition phase (m : SessionMachine) (now : Z) (device_id : string) : Phase :=
  match m !! device_id with
  | Some (PhOpening since_ms) =>
      if phase_live now (PhOpening since_ms) then PhOpening since_ms else PhAbsent
  | _ => PhAbsent
  end.

(** [handle] reads the clock, and [phase] inside it reads it again. *)
Definition handle (m : SessionMachine) (now now' : Z) (device_id : string) (event : Event)
    : SessionMachine * Effect :=
  match event with
  | WantToOpen =>
      match phase m now' device_id with
      | PhOpening _ => (m, EffWaitForOpen)
      | PhAbsent => (<[device_id := PhOpening now]> m, EffOpen)
      end
  | OpenFinished | OpenFailed | Forget => (delete device_id m, EffNothing)
  end.

(** [phases.keys().filter(..)], every [phase] of the walk at its own reading. *)
Definition opening_device_ids (m : SessionMachine) (now : string → Z) : list string :=
  filter (λ id, phase m (now id) id ≠ PhAbsent) (map_to_list m).*1.

Definition restore_opening (now : Z) (device_ids : list string) : SessionMachine :=
  foldl (λ m id, <[id := PhOpening now]> m) ∅ device_ids.

Definition machine_prune_expired (m : SessionMachine) (now : Z) : SessionMachine :=
  filter (λ kv, phase_live now kv.2 = true) m.

(** ** Runs *)

Inductive call :=
  | CallHandle (now now' : Z) (device_id : string) (event : Event)
  | CallPrune (now : Z)
  | CallRestore (now : Z) (device_ids : list string).

Definition call_step (m : SessionMachine) (c : call) : SessionMachine :=
  match c with
  | CallHandle now now' d e => (handle m now now' d e).1
  | CallPrune now => machine_prune_expired m now
  | CallRestore now ids => restore_opening now ids
  end.
Definition run_calls (m : SessionMachine) (cs : list call) : SessionMachine := foldl call_step m cs.

(** A call that may end the opening of [d]: its outcome, its deletion, a restart. *)
Definition ends (d : string) (c : call) : bool :=
  match c with
  | CallHandle _ _ d' WantToOpen => false
  | CallHandle _ _ d' _ => bool_decide (d' = d)
  | CallPrune _ => false
  | CallRestore _ _ => true
  end.

(** A reading of the clock that the machine judged a time-out by. *)
Definition reads (c : call) : Z :=
  match c with CallHandle _ now' _ _ => now' | CallPrune now => now | CallRestore now _ => now end.

(** The opening that was granted to [d] at [t] is the one held. *)
Definition holds (t : Z) (d : string) (m : SessionMachine) : Prop := m !! d = Some (PhOpening t).

Lemma phase_live_before now t : phase_live now (PhOpening t) = true ↔ now < t + OPENING_TTL_MS.
Proof. unfold phase_live, sat_sub, OPENING_TTL_MS. rewrite Z.ltb_lt. lia. Qed.

Lemma phase_held t d m now : holds t d m →
  phase m now d = if now <? t + OPENING_TTL_MS then PhOpening t else PhAbsent.
Proof.
  intros Hh. unfold phase. rewrite Hh. destruct (Z.ltb_spec now (t + OPENING_TTL_MS)).
  - by rewrite (proj2 (phase_live_before now t)).
  - destruct (phase_live now (PhOpening t)) eqn:E; [apply phase_live_before in E; lia|done].
Qed.

Lemma call_step_holds t d m c :
  holds t d m → ends d c = false → reads c < t + OPENING_TTL_MS → holds t d (call_step m c).
Proof.
  intros Hh He Hr. destruct c as [now now' d' e|now|now ids]; simpl in *; [|..|done].
  - assert (e ≠ WantToOpen → d' ≠ d) by (destruct e; simpl in He; try done; by apply bool_decide_eq_false in He).
    destruct e; simpl; try (unfold holds; rewrite lookup_delete_ne by naive_solver; done).
    destruct (decide (d' = d)) as [->|Hne].
    + rewrite (phase_held t d m now' Hh), (proj2 (Z.ltb_lt _ _) Hr). done.
    + destruct (phase m now' d'); [|done]. unfold holds. simpl. by rewrite lookup_insert_ne.
  - unfold holds, machine_prune_expired. apply map_lookup_filter_Some. split; [done|]. by apply phase_live_before.
Qed.

Lemma run_calls_holds t d cs m :
  holds t d m → Forall (λ c, ends d c = false ∧ reads c < t + OPENING_TTL_MS) cs → holds t d (run_calls m cs).
Proof. intros Hh Hc. revert m Hh. induction Hc as [|c cs [He Hr] _ IH]; intros m Hh; [done|]. apply IH. by apply call_step_holds. Qed.

(** One open in flight per device, and none for ever. After the machine has
    granted an open to a device at [t], and until the open ends or the machine is
    restored, every further request for that device waits, whatever happens to
    other devices, as long as no reading of the clock has reached [t] + 30 s. And
    a request whose reading has reached it is granted. *)
Theorem one_open_in_flight m t t' d m1 cs now now' :
  handle m t t' d WantToOpen = (m1, EffOpen) →
  Forall (λ c, ends d c = false ∧ reads c < t + OPENING_TTL_MS) cs →
  let '(m2, eff) := handle (run_calls m1 cs) now now' d WantToOpen in
  (now' < t + OPENING_TTL_MS → eff = EffWaitForOpen ∧ m2 = run_calls m1 cs) ∧
  (t + OPENING_TTL_MS ≤ now' → eff = EffOpen ∧ holds now d m2).
Proof.
  intros Hg Hc. assert (holds t d m1) as Hh.
  { revert Hg. simpl. destruct (phase m t' d); [|done]. intros [= <-]. unfold holds. by rewrite lookup_insert_eq. }
  apply (run_calls_holds t d cs) in Hh; [|done]. simpl. rewrite (phase_held t d _ now' Hh).
  destruct (Z.ltb_spec now' (t + OPENING_TTL_MS)); split; intros; try lia; [done|].
  split; [done|]. unfold holds. by rewrite lookup_insert_eq.
Qed.

Lemma one_open_in_flight_witness :
  let m1 := (handle machine_new 1000 1000 "bob" WantToOpen).1 in
  let cs := [CallHandle 1500 1500 "carol" WantToOpen; CallPrune 2000; CallHandle 2500 2500 "carol" OpenFailed] in
  let '(m2, eff) := handle (run_calls m1 cs) 3000 3000 "bob" WantToOpen in
  (3000 < 1000 + OPENING_TTL_MS → eff = EffWaitForOpen ∧ m2 = run_calls m1 cs) ∧
  (1000 + OPENING_TTL_MS ≤ 3000 → eff = EffOpen ∧ holds 3000 "bob" m2).
Proof.
  intros m1 cs. apply (one_open_in_flight machine_new 1000 1000 "bob" m1 cs 3000 3000).
  - reflexivity.
  - repeat constructor.
Defined.

(** ** Across a restart *)

Lemma restore_opening_lookup now ids d :
  restore_opening now ids !! d = if decide (d ∈ ids) then Some (PhOpening now) else None.
Proof.
  unfold restore_opening. assert (∀ m : SessionMachine, foldl (λ m id, <[id := PhOpening now]> m) m ids !! d =
    if decide (d ∈ ids) then Some (PhOpening now) else m !! d) as Hm; [|by rewrite Hm, lookup_empty].
  induction ids as [|i ids IH]; intros m; [case_decide; [set_solver|done]|]. cbn [foldl]. rewrite IH.
  destruct (decide (d ∈ ids)); [by rewrite decide_True by set_solver|].
  destruct (decide (d = i)) as [->|]; [by rewrite lookup_insert_eq, decide_True by set_solver|].
  by rewrite lookup_insert_ne, decide_False by set_solver.
Qed.

Lemma opening_device_ids_spec m now d : d ∈ opening_device_ids m now ↔ phase m (now d) d ≠ PhAbsent.
Proof.
  unfold opening_device_ids. rewrite list_elem_of_filter. split; [by intros []|]. intros Hp. split; [done|].
  apply list_elem_of_fmap. unfold phase in Hp. destruct (m !! d) as [p|] eqn:Hd; [|done].
  exists (d, p). split; [done|]. by apply elem_of_map_to_list.
Qed.

(** The devices mid-open survive a restart, dated to it. *)
Lemma restored_openings m now t d :
  holds t d (restore_opening t (opening_device_ids m now)) ↔ phase m (now d) d ≠ PhAbsent.
Proof.
  unfold holds. rewrite restore_opening_lookup, <- opening_device_ids_spec. by case_decide.
Qed.
