(* ===== verification/SendPlan.v ===== *)
(** * Plans: who gets a copy, when to open

    Models [src/src/orchestration/send_plan.rs], [initiation_plan.rs] and
    [receiving_init_plan.rs]: which devices an outgoing message is encrypted for,
    whether to open a session now, and whether a message can open one. *)

From stdpp Require Import strings sorting.
From S2P Require Import Prelude.

Inductive DeliveryAudience := Recipient | OwnReplica.
#[global] Instance audience_eq_dec : EqDecision DeliveryAudience.
Proof. solve_decision. Defined.

Record DeliveryTarget := mkDeliveryTarget { dt_device_id : string; dt_audience : DeliveryAudience }.
#[global] Instance target_eq_dec : EqDecision DeliveryTarget.
Proof. solve_decision. Defined.

(** The closure [push], on the two vectors it writes: [out] and [seen]. *)
Definition push (audience : DeliveryAudience) (st : list DeliveryTarget * list string) (id : string)
    : list DeliveryTarget * list string :=
  let '(out, seen) := st in
  if bool_decide (id = EmptyString) || existsb (λ s, bool_decide (s = id)) seen then (out, seen)
  else (out ++ [mkDeliveryTarget id audience], seen ++ [id]).

Definition plan_send (recipient_device_ids own_device_ids : list string) (our_device_id : string)
    (recipient_is_self : bool) : list DeliveryTarget :=
  let st := ([], []) in
  let st := if negb recipient_is_self then foldl (push Recipient) st recipient_device_ids else st in
  let st := if negb (bool_decide (our_device_id = EmptyString))
            then foldl (λ st id, if bool_decide (id = our_device_id) then st else push OwnReplica st id)
                   st own_device_ids
            else st in
  st.1.

(** ** Opening *)

Inductive InitiationDecision := Initiate | JoinInFlight | YieldToPeer | Wait.
#[global] Instance initiation_eq_dec : EqDecision InitiationDecision.
Proof. solve_decision. Defined.

Definition as_wire (d : InitiationDecision) : string :=
  match d with
  | Initiate => "Initiate"
  | JoinInFlight => "JoinInFlight"
  | YieldToPeer => "YieldToPeer"
  | Wait => "Wait"
  end.

Record InitiationContext := mkInitiationContext {
  our_init_in_flight : bool;
  peer_init_in_flight : bool;
  have_outbound_work : bool;
}.

Definition plan_initiation (ctx : InitiationContext) : InitiationDecision :=
  if our_init_in_flight ctx then JoinInFlight else
  if peer_init_in_flight ctx then YieldToPeer else
  if have_outbound_work ctx then Initiate else
  Wait.

Record ReceivingInitCarrier := mkReceivingInitCarrier {
  ric_message_number : Z;
  ric_one_time_prekey_id : Z;
  ric_kem_ciphertext_bytes : Z;
  ric_pq_message_epoch : Z;
}.

Inductive ReceivingInitKind := Handshake | MidRatchet.

Definition receiving_init_kind (carrier : ReceivingInitCarrier) : ReceivingInitKind :=
  if ric_kem_ciphertext_bytes carrier >? 0 then Handshake else MidRatchet.

(** ** The plan *)

(** The ids of [ids] that are kept: not empty, not seen before, in order. *)
Fixpoint fresh_ids (seen ids : list string) : list string :=
  match ids with
  | [] => []
  | id :: ids =>
      if decide (id = EmptyString ∨ id ∈ seen) then fresh_ids seen ids
      else id :: fresh_ids (seen ++ [id]) ids
  end.

Lemma push_spec a out seen id :
  push a (out, seen) id =
  if decide (id = EmptyString ∨ id ∈ seen) then (out, seen) else (out ++ [mkDeliveryTarget id a], seen ++ [id]).
Proof.
  unfold push. assert (existsb (λ s, bool_decide (s = id)) seen = bool_decide (id ∈ seen)) as ->.
  { destruct (bool_decide_reflect (id ∈ seen)) as [H|H].
    - apply existsb_exists. exists id. split; [by apply list_elem_of_In|by apply bool_decide_eq_true].
    - apply not_true_is_false. intros (x & Hx & Heq)%existsb_exists. apply bool_decide_eq_true in Heq as ->.
      by apply list_elem_of_In in Hx. }
  destruct (decide _) as [[->|H]|H].
  - done.
  - by rewrite (bool_decide_eq_true_2 (id ∈ seen)), orb_true_r.
  - by rewrite !bool_decide_eq_false_2 by tauto.
Qed.

Lemma fold_push a ids out seen :
  foldl (push a) (out, seen) ids =
  (out ++ ((λ id, mkDeliveryTarget id a) <$> fresh_ids seen ids), seen ++ fresh_ids seen ids).
Proof.
  revert out seen. induction ids as [|id ids IH]; intros out seen; cbn [foldl fresh_ids]; [by rewrite !app_nil_r|].
  rewrite push_spec. destruct (decide _); [apply IH|]. rewrite IH, <- !(assoc_L (++)). done.
Qed.

Lemma fold_push_own our ids st :
  foldl (λ st id, if bool_decide (id = our) then st else push OwnReplica st id) st ids =
  foldl (push OwnReplica) st (filter (λ id, id ≠ our) ids).
Proof.
  revert st. induction ids as [|id ids IH]; intros st; [done|]. cbn [foldl]. rewrite filter_cons.
  destruct (decide (id ≠ our)); [rewrite bool_decide_eq_false_2 by done|rewrite bool_decide_eq_true_2 by (by apply dec_stable)];
    apply IH.
Qed.

Lemma elem_of_fresh_ids seen ids id : id ∈ fresh_ids seen ids ↔ id ∈ ids ∧ id ≠ EmptyString ∧ id ∉ seen.
Proof.
  revert seen. induction ids as [|i ids IH]; intros seen; cbn [fresh_ids]; [by rewrite elem_of_nil; naive_solver|].
  destruct (decide (i = EmptyString ∨ i ∈ seen)) as [H|H]; rewrite ?elem_of_cons, IH.
  - naive_solver.
  - rewrite elem_of_app, list_elem_of_singleton. destruct (decide (id = i)); naive_solver.
Qed.

Lemma fresh_ids_sublist seen ids : fresh_ids seen ids `sublist_of` ids.
Proof.
  revert seen. induction ids as [|i ids IH]; intros seen; simpl; [done|].
  destruct (decide _); [by apply sublist_cons|by apply sublist_skip].
Qed.

Lemma fresh_ids_NoDup seen ids : NoDup (fresh_ids seen ids).
Proof.
  revert seen. induction ids as [|i ids IH]; intros seen; simpl; [apply NoDup_nil_2|].
  destruct (decide _); [done|]. apply NoDup_cons. split; [|done]. rewrite elem_of_fresh_ids. set_solver.
Qed.

(** The plan, in closed form. *)
Definition recipients_of (recipients : list string) (is_self : bool) : list string :=
  if is_self then [] else fresh_ids [] recipients.
Definition replicas_of (recipients own : list string) (our : string) (is_self : bool) : list string :=
  if decide (our = EmptyString) then [] else
  fresh_ids (recipients_of recipients is_self) (filter (λ id, id ≠ our) own).

Lemma plan_send_spec recipients own our is_self :
  plan_send recipients own our is_self =
  ((λ id, mkDeliveryTarget id Recipient) <$> recipients_of recipients is_self) ++
  ((λ id, mkDeliveryTarget id OwnReplica) <$> replicas_of recipients own our is_self).
Proof.
  unfold plan_send, replicas_of, recipients_of.
  destruct is_self; cbn [negb]; [|rewrite fold_push];
    (destruct (decide (our = EmptyString)); [rewrite bool_decide_eq_true_2 by done|rewrite bool_decide_eq_false_2 by done]);
    cbn [negb]; rewrite ?fold_push_own, ?fold_push; cbn [fst]; by rewrite ?app_nil_r.
Qed.

(** every device that should get a copy gets exactly one. A device is planned
    as a recipient just when it is named among the recipient's devices and the
    message is not to ourselves; as a replica just when it is another of our own
    devices, we know which one we are, and it is not a recipient already. No id
    is empty or planned twice; recipients come first, and both groups keep the
    caller's order. *)
Theorem plan_send_complete recipients own our is_self :
  let plan := plan_send recipients own our is_self in
  (∀ d, mkDeliveryTarget d Recipient ∈ plan ↔ is_self = false ∧ d ∈ recipients ∧ d ≠ EmptyString) ∧
  (∀ d, mkDeliveryTarget d OwnReplica ∈ plan ↔
     our ≠ EmptyString ∧ d ∈ own ∧ d ≠ our ∧ d ≠ EmptyString ∧ ¬ (is_self = false ∧ d ∈ recipients)) ∧
  NoDup (dt_device_id <$> plan) ∧
  ∃ rs os, plan = ((λ d, mkDeliveryTarget d Recipient) <$> rs) ++ ((λ d, mkDeliveryTarget d OwnReplica) <$> os) ∧
    rs `sublist_of` recipients ∧ os `sublist_of` own.
Proof.
  intros plan. unfold plan. rewrite plan_send_spec.
  assert (∀ d, d ∈ recipients_of recipients is_self ↔ is_self = false ∧ d ∈ recipients ∧ d ≠ EmptyString) as Hr.
  { intros d. unfold recipients_of. destruct is_self; [set_solver|]. rewrite elem_of_fresh_ids. set_solver. }
  assert (∀ d, d ∈ replicas_of recipients own our is_self ↔
     our ≠ EmptyString ∧ d ∈ own ∧ d ≠ our ∧ d ≠ EmptyString ∧ ¬ (is_self = false ∧ d ∈ recipients)) as Ho.
  { intros d. unfold replicas_of. destruct (decide (our = EmptyString)); [set_solver|].
    rewrite elem_of_fresh_ids, list_elem_of_filter, Hr. naive_solver. }
  split_and!.
  - intros d. rewrite elem_of_app, !list_elem_of_fmap. rewrite <- Hr. naive_solver.
  - intros d. rewrite elem_of_app, !list_elem_of_fmap. rewrite <- Ho. naive_solver.
  - rewrite fmap_app, <- !list_fmap_compose. simpl. unfold compose. simpl. rewrite !list_fmap_id.
    apply NoDup_app. split_and!.
    + unfold recipients_of. destruct is_self; [apply NoDup_nil_2|apply fresh_ids_NoDup].
    + intros d Hd Hd'. apply Hr in Hd. apply Ho in Hd'. naive_solver.
    + unfold replicas_of. destruct (decide _); [apply NoDup_nil_2|apply fresh_ids_NoDup].
  - eexists _, _. split; [done|]. unfold recipients_of, replicas_of. split.
    + destruct is_self; [apply sublist_nil_l|apply fresh_ids_sublist].
    + destruct (decide _); [apply sublist_nil_l|]. etrans; [apply fresh_ids_sublist|apply sublist_filter].
Qed.
