(* ===== verification/KyberPrekeys.v ===== *)
(** * ML-KEM-1024 and the Kyber prekeys

    Models the ML-KEM-1024 half of [src/src/crypto/pq_x3dh.rs] over the crate
    [ml_kem], and [src/src/crypto/kyber_prekeys.rs]: the signed prekey with its
    two-phase rotation and retention, the one-time pool, and the stored form.
    Shown: ids are never handed out twice, also across a restart, and a prekey a
    bundle was served with still opens the last first flight that can name it. *)

From stdpp Require Import gmap sorting.
From S2P Require Import Prelude Platform Wp Classic Toy Crates RatchetStorage RatchetStorageProps EnvelopeBook.

(** ** ML-KEM-1024 *)

Definition MLKEM1024_PK_SIZE : Z := 1568.
Definition MLKEM1024_CT_SIZE : Z := 1568.
Definition MLKEM_SEED_SIZE : Z := 64.

Class MlKem1024Crate `{Platform} := {
  (** [DecapsulationKey::generate_from_rng]: its seed, if it has one, and its
      encapsulation key *)
  kem1024_generate : World → World * (option bytes * bytes);
  (** [DecapsulationKey::from_seed(seed).encapsulation_key()] *)
  kem1024_public : bytes → bytes;
  (** [EncapsulationKey::new] *)
  kem1024_ek_valid : bytes → bool;
  (** ciphertext and shared secret *)
  kem1024_encapsulate : bytes → World → World * (bytes * bytes);
  (** [from_seed(seed).decapsulate_slice(ct)] *)
  kem1024_decapsulate : bytes → bytes → option bytes;
}.

(** FIPS 203: sizes, a generated key has its seed, decapsulation inverts
    encapsulation and rejects implicitly. *)
Class MlKem1024Laws `{MlKem1024Crate} : Prop := {
  kem1024_generate_seed : ∀ w, ∃ seed, (kem1024_generate w).2 = (Some seed, kem1024_public seed) ∧
    len seed = MLKEM_SEED_SIZE;
  kem1024_public_len : ∀ seed, len (kem1024_public seed) = MLKEM1024_PK_SIZE;
  kem1024_public_valid : ∀ seed, kem1024_ek_valid (kem1024_public seed) = true;
  kem1024_ct_len : ∀ ek w, len (kem1024_encapsulate ek w).2.1 = MLKEM1024_CT_SIZE;
  kem1024_correct : ∀ seed w,
    kem1024_decapsulate seed (kem1024_encapsulate (kem1024_public seed) w).2.1 =
      Some (kem1024_encapsulate (kem1024_public seed) w).2.2;
  kem1024_total : ∀ seed ct, len ct = MLKEM1024_CT_SIZE → is_Some (kem1024_decapsulate seed ct);
}.

Section kem1024.
Context `{MlKem1024Crate}.

Definition mlkem1024_generate : stm World string (bytes * bytes) := λ w,
  let '(w, (seed, public)) := kem1024_generate w in
  (w, seed ← ok_or seed "ML-KEM-1024 key generated without a seed"; Ok (seed, public)).

(** [mlkem1024_key_from_seed]: the key is its seed. *)
Definition mlkem1024_key_from_seed (seed : bytes) : res string bytes :=
  if negb (len seed =? MLKEM_SEED_SIZE) then Err "Invalid ML-KEM seed size"%string else Ok seed.

Definition mlkem1024_public_from_seed (seed : bytes) : res string bytes :=
  key ← mlkem1024_key_from_seed seed; Ok (kem1024_public key).

Definition mlkem1024_encapsulate (pk_bytes : bytes) : stm World string MLKEMEncapsulation :=
  if negb (len pk_bytes =? MLKEM1024_PK_SIZE) then throw "Invalid ML-KEM-1024 public key size"%string else
  if negb (kem1024_ek_valid pk_bytes) then throw "Invalid ML-KEM-1024 public key"%string else λ w,
  let '(w, (ct, ss)) := kem1024_encapsulate pk_bytes w in
  (w, Ok (mkMLKEMEncapsulation ct ss)).

Definition mlkem1024_decapsulate (seed ct_bytes : bytes) : res string bytes :=
  if negb (len ct_bytes =? MLKEM1024_CT_SIZE) then Err "Invalid ML-KEM-1024 ciphertext size"%string else
  key ← mlkem1024_key_from_seed seed;
  ok_or (kem1024_decapsulate key ct_bytes) "ML-KEM-1024 decapsulation failed"%string.
End kem1024.

(** ** The store *)

Definition KYBER_OTPK_ID_START : Z := 1000000.
(** [keys::MAX_UNANSWERED_HANDSHAKE_AGE_SECS] *)
Definition MAX_UNANSWERED_HANDSHAKE_AGE_SECS : Z := 7 * 24 * 3600.

Record KyberPrekey := mkKyberPrekey { kp_key_id : Z; kp_created_at : Z; kp_seed : bytes }.
#[global] Instance kyber_prekey_eq_dec : EqDecision KyberPrekey.
Proof. solve_decision. Defined.

Record RetiredSpk := mkRetiredSpk { rs_prekey : KyberPrekey; rs_retired_at : Z }.

Record KyberPrekeyStore := mkKyberPrekeyStore {
  ks_spk : option KyberPrekey;
  ks_pending_spk : option KyberPrekey;
  ks_retired_spks : list RetiredSpk;
  ks_otpks : gmap Z KyberPrekey;
  ks_next_spk_id : Z;
  ks_next_otpk_id : Z;
}.
#[global] Instance kyber_store_eta : Eta KyberPrekeyStore := λ s,
  mkKyberPrekeyStore (ks_spk s) (ks_pending_spk s) (ks_retired_spks s) (ks_otpks s) (ks_next_spk_id s) (ks_next_otpk_id s).

Definition kyber_default : KyberPrekeyStore :=
  mkKyberPrekeyStore None None [] ∅ 1 KYBER_OTPK_ID_START.

(** The CFE records. *)
Record CfeKyberPrekeyV1 := mkCfeKyberPrekeyV1 { ck_key_id : Z; ck_created_at : Z; ck_seed : bytes }.
Record CfeRetiredKyberSpkV1 := mkCfeRetiredKyberSpkV1 { cr_prekey : CfeKyberPrekeyV1; cr_retired_at : Z }.
Record CfeKyberPrekeysV1 := mkCfeKyberPrekeysV1 {
  cks_spk : option CfeKyberPrekeyV1;
  cks_pending_spk : option CfeKyberPrekeyV1;
  cks_retired_spks : list CfeRetiredKyberSpkV1;
  cks_otpks : list CfeKyberPrekeyV1;
  cks_next_spk_id : Z;
  cks_next_otpk_id : Z;
}.

Section store.
Context `{MlKem1024Crate}.
#[local] Abbreviation store_method A := (method KyberPrekeyStore string A).

Definition kp_generate (key_id created_at : Z) : stm World string KyberPrekey :=
  '(seed, _) ← mlkem1024_generate; mret (mkKyberPrekey key_id created_at seed).

Definition kp_public_key (k : KyberPrekey) : res string bytes := mlkem1024_public_from_seed (kp_seed k).

Definition begin_spk_rotation (now : Z) : store_method KyberPrekey :=
  s ← self;
  match ks_pending_spk s with
  | Some pending => mret pending
  | None =>
      if ks_next_spk_id s >=? KYBER_OTPK_ID_START then throw "Kyber SPK id range exhausted"%string else
      prekey ← on_world (kp_generate (ks_next_spk_id s) now);
      update (λ s, s <| ks_next_spk_id := ks_next_spk_id s + 1 |> <| ks_pending_spk := Some prekey |>);;
      mret prekey
  end.

Definition prune_retired (now : Z) (s : KyberPrekeyStore) : KyberPrekeyStore :=
  s <| ks_retired_spks := retain (λ r, sat_sub now (rs_retired_at r) <? SPK_RETENTION_AFTER_ROTATION_SECS)
                            (ks_retired_spks s) |>.

Definition commit_spk_rotation (now : Z) (s : KyberPrekeyStore) : KyberPrekeyStore * bool :=
  match ks_pending_spk s with
  | None => (s, false)
  | Some pending =>
      let previous := ks_spk s in
      let s := s <| ks_pending_spk := None |> <| ks_spk := Some pending |> in
      let s := match previous with
               | Some previous => s <| ks_retired_spks := ks_retired_spks s ++ [mkRetiredSpk previous now] |>
               | None => s
               end in
      (prune_retired now s, true)
  end.

Definition rollback_spk_rotation (s : KyberPrekeyStore) : KyberPrekeyStore := s <| ks_pending_spk := None |>.

(** One round of the loop of [generate_otpks]. *)
Definition generate_otpk (now : Z) : store_method KyberPrekey :=
  s ← self;
  let key_id := ks_next_otpk_id s in
  next ← lift (ok_or (checked_add32 key_id 1) "Kyber OTPK id range exhausted"%string);
  prekey ← on_world (kp_generate key_id now);
  update (λ s, s <| ks_next_otpk_id := next |> <| ks_otpks := <[key_id := prekey]> (ks_otpks s) |>);;
  mret prekey.

Fixpoint generate_otpks (count : nat) (now : Z) : store_method (list KyberPrekey) :=
  match count with
  | O => mret []
  | S count => k ← generate_otpk now; ks ← generate_otpks count now; mret (k :: ks)
  end.

Definition prune_otpks_below (min_keep_id : Z) (s : KyberPrekeyStore) : KyberPrekeyStore * Z :=
  let s' := s <| ks_otpks := filter (λ kv, min_keep_id ≤ kv.1) (ks_otpks s) |> in
  (s', Z.of_nat (size (ks_otpks s)) - Z.of_nat (size (ks_otpks s'))).

Definition remove_otpk (key_id : Z) (s : KyberPrekeyStore) : KyberPrekeyStore * option KyberPrekey :=
  (s <| ks_otpks := delete key_id (ks_otpks s) |>, ks_otpks s !! key_id).

(** [spk.iter().chain(pending.iter()).chain(retired..)] *)
Definition spk_chain (s : KyberPrekeyStore) : list KyberPrekey :=
  option_list (ks_spk s) ++ option_list (ks_pending_spk s) ++ (rs_prekey <$> ks_retired_spks s).

Definition kyber_find (s : KyberPrekeyStore) (key_id : Z) : option KyberPrekey :=
  if key_id >=? KYBER_OTPK_ID_START then ks_otpks s !! key_id
  else find_first (λ k, kp_key_id k =? key_id) (spk_chain s).

Definition kp_to_cfe (k : KyberPrekey) : CfeKyberPrekeyV1 :=
  mkCfeKyberPrekeyV1 (kp_key_id k) (kp_created_at k) (kp_seed k).
Definition kp_from_cfe (r : CfeKyberPrekeyV1) : option KyberPrekey :=
  if len (ck_seed r) =? MLKEM_SEED_SIZE
  then Some (mkKyberPrekey (ck_key_id r) (ck_created_at r) (ck_seed r)) else None.

(** [BTreeMap::values]: in the order of the keys. *)
Definition otpk_le (a b : Z * KyberPrekey) : Prop := a.1 ≤ b.1.
#[global] Instance otpk_le_dec a b : Decision (otpk_le a b) := Z_le_dec _ _.
Definition otpk_values (m : gmap Z KyberPrekey) : list KyberPrekey := (merge_sort otpk_le (map_to_list m)).*2.

Definition kyber_to_cfe (s : KyberPrekeyStore) : CfeKyberPrekeysV1 := {|
  cks_spk := kp_to_cfe <$> ks_spk s;
  cks_pending_spk := kp_to_cfe <$> ks_pending_spk s;
  cks_retired_spks := (λ r, mkCfeRetiredKyberSpkV1 (kp_to_cfe (rs_prekey r)) (rs_retired_at r)) <$> ks_retired_spks s;
  cks_otpks := kp_to_cfe <$> otpk_values (ks_otpks s);
  cks_next_spk_id := ks_next_spk_id s;
  cks_next_otpk_id := ks_next_otpk_id s;
|}.

(** [iter().max()] *)
Definition max_id (l : list Z) : option Z :=
  match l with [] => None | x :: l => Some (foldl Z.max x l) end.

(** [id + 1] on a [u32] panics when it overflows. *)
Definition kyber_from_cfe (r : CfeKyberPrekeysV1) (now : Z) : res string KyberPrekeyStore :=
  let store := {|
    ks_spk := cks_spk r ≫= kp_from_cfe;
    ks_pending_spk := cks_pending_spk r ≫= kp_from_cfe;
    ks_retired_spks := omap (λ x, (λ k, mkRetiredSpk k (cr_retired_at x)) <$> kp_from_cfe (cr_prekey x)) (cks_retired_spks r);
    ks_otpks := collect_map ((λ k, (kp_key_id k, k)) <$> omap kp_from_cfe (cks_otpks r));
    ks_next_spk_id := Z.max (cks_next_spk_id r) 1;
    ks_next_otpk_id := Z.max (cks_next_otpk_id r) KYBER_OTPK_ID_START;
  |} in
  next_spk ← match max_id (kp_key_id <$> spk_chain store) with
             | Some id => id1 ← expect (checked_add32 id 1); Ok (Z.max (ks_next_spk_id store) id1)
             | None => Ok (ks_next_spk_id store)
             end;
  let next_otpk := match max_id (map_to_list (ks_otpks store)).*1 with
                   | Some id => Z.max (ks_next_otpk_id store) (sat_add32 id 1)
                   | None => ks_next_otpk_id store
                   end in
  Ok (prune_retired now (store <| ks_next_spk_id := next_spk |> <| ks_next_otpk_id := next_otpk |>)).
End store.

(** ** The invariant *)

Definition kp_wf (lo hi : Z) (k : KyberPrekey) : Prop := lo ≤ kp_key_id k < hi ∧ len (kp_seed k) = MLKEM_SEED_SIZE.

Record kyber_wf (s : KyberPrekeyStore) : Prop := {
  kw_spk_range : 1 ≤ ks_next_spk_id s ≤ KYBER_OTPK_ID_START;
  kw_otpk_range : KYBER_OTPK_ID_START ≤ ks_next_otpk_id s ≤ u32_max;
  kw_chain : Forall (kp_wf 1 (ks_next_spk_id s)) (spk_chain s);
  kw_chain_ids : NoDup (kp_key_id <$> spk_chain s);
  kw_otpks : ∀ i k, ks_otpks s !! i = Some k → kp_key_id k = i ∧ kp_wf KYBER_OTPK_ID_START (ks_next_otpk_id s) k;
}.

Lemma kyber_default_wf : kyber_wf kyber_default.
Proof. split; [done|done|constructor|constructor|]. intros i k. cbn. by rewrite lookup_empty. Qed.

Lemma sublist_forall {A} (P : A → Prop) l k : l `sublist_of` k → Forall P k → Forall P l.
Proof. induction 1; intros Hk; [done|..]; apply Forall_cons in Hk as [? ?]; auto. Qed.

Lemma spk_chain_sub s s' :
  spk_chain s' `sublist_of` spk_chain s → ks_otpks s' = ks_otpks s →
  ks_next_spk_id s' = ks_next_spk_id s → ks_next_otpk_id s' = ks_next_otpk_id s → kyber_wf s → kyber_wf s'.
Proof.
  intros Hs Ho Hn Hn' [H1 H2 H3 H4 H5]. split; rewrite ?Hn, ?Hn', ?Ho; try done.
  - by eapply sublist_forall.
  - apply (fmap_sublist kp_key_id) in Hs. by eapply sublist_NoDup.
Qed.

Lemma prune_retired_chain now s : spk_chain (prune_retired now s) `sublist_of` spk_chain s.
Proof.
  unfold spk_chain, prune_retired. simpl. repeat apply sublist_app; try done. apply fmap_sublist, sublist_filter.
Qed.

Lemma prune_retired_wf now s : kyber_wf s → kyber_wf (prune_retired now s).
Proof. apply spk_chain_sub; try done. apply prune_retired_chain. Qed.

Lemma rollback_wf s : kyber_wf s → kyber_wf (rollback_spk_rotation s).
Proof.
  apply spk_chain_sub; try done. unfold spk_chain, rollback_spk_rotation. simpl.
  apply sublist_app; [done|]. by apply sublist_inserts_l.
Qed.

(** Committing moves keys within the chain. *)
Lemma commit_chain now s s' b : commit_spk_rotation now s = (s', b) →
  ∃ l, spk_chain s' `sublist_of` l ∧ l ≡ₚ spk_chain s ∧ ks_otpks s' = ks_otpks s ∧
    ks_next_spk_id s' = ks_next_spk_id s ∧ ks_next_otpk_id s' = ks_next_otpk_id s.
Proof.
  unfold commit_spk_rotation. destruct (ks_pending_spk s) as [p|] eqn:Hp; [|intros [= <- <-]; by exists (spk_chain s)].
  destruct (ks_spk s) as [c|] eqn:Hc; intros [= <- <-].
  - exists (p :: (rs_prekey <$> ks_retired_spks s) ++ [c]). split_and!; try done.
    + etrans; [apply prune_retired_chain|]. unfold spk_chain. simpl. by rewrite fmap_app.
    + unfold spk_chain. rewrite Hp, Hc. simpl. solve_Permutation.
  - exists (p :: (rs_prekey <$> ks_retired_spks s)). split_and!; try done.
    + etrans; [apply prune_retired_chain|]. unfold spk_chain. done.
    + unfold spk_chain. rewrite Hp, Hc. done.
Qed.

Lemma commit_wf now s s' b : commit_spk_rotation now s = (s', b) → kyber_wf s → kyber_wf s'.
Proof.
  intros (l & Hl & Hp & Ho & Hn & Hn')%commit_chain [H1 H2 H3 H4 H5]. split; rewrite ?Ho, ?Hn, ?Hn'; try done.
  - eapply sublist_forall; [done|]. by rewrite Hp.
  - apply (fmap_sublist kp_key_id) in Hl. rewrite <- Hp in H4. by eapply sublist_NoDup.
Qed.

(** ** Stored and loaded *)

Lemma kp_cfe_roundtrip lo hi k : kp_wf lo hi k → kp_from_cfe (kp_to_cfe k) = Some k.
Proof. intros [_ Hs]. unfold kp_from_cfe, kp_to_cfe. cbn [ck_seed]. rewrite Hs, Z.eqb_refl. by destruct k. Qed.

Lemma omap_all {A B} (f : A → option B) (g : B → A) (l : list B) : (∀ x, x ∈ l → f (g x) = Some x) → omap f (g <$> l) = l.
Proof.
  induction l as [|x l IH]; intros Hf; [done|]. rewrite fmap_cons. cbn [omap list_omap].
  rewrite Hf by set_solver. f_equal. apply IH. set_solver.
Qed.

Lemma otpk_values_elem m k : k ∈ otpk_values m ↔ ∃ i, m !! i = Some k.
Proof.
  unfold otpk_values. rewrite list_elem_of_fmap. setoid_rewrite merge_sort_Permutation. split.
  - intros ([i x] & -> & H%elem_of_map_to_list). eauto.
  - intros [i H]. exists (i, k). split; [done|]. by apply elem_of_map_to_list.
Qed.

Lemma otpks_collect s : kyber_wf s →
  collect_map ((λ k, (kp_key_id k, k)) <$> otpk_values (ks_otpks s)) = ks_otpks s.
Proof.
  intros Hw. assert (NoDup ((λ k, (kp_key_id k, k)) <$> otpk_values (ks_otpks s)).*1) as Hn.
  { rewrite <- list_fmap_compose. unfold otpk_values. rewrite merge_sort_Permutation, <- list_fmap_compose.
    rewrite (list_fmap_ext _ fst); [apply NoDup_fst_map_to_list|].
    intros n [i k] Hi. apply list_elem_of_lookup_2, elem_of_map_to_list in Hi. by destruct (kw_otpks s Hw _ _ Hi). }
  apply map_eq. intros i. apply option_eq. intros k. rewrite collect_map_lookup, list_elem_of_fmap by done. split.
  - intros (x & [= -> ->] & (j & Hj)%otpk_values_elem). by destruct (kw_otpks s Hw _ _ Hj) as [-> _].
  - intros Hi. destruct (kw_otpks s Hw _ _ Hi) as [<- _]. exists k. split; [done|]. apply otpk_values_elem. eauto.
Qed.

Lemma max_id_below l n : Forall (λ x, x < n) l → ∀ x, max_id l = Some x → x < n.
Proof.
  destruct l as [|y l]; [done|]. intros [Hy Hl]%Forall_cons x [= <-].
  revert y Hy. induction Hl as [|z l Hz _ IH]; intros y Hy; [done|]. cbn [foldl]. apply IH. lia.
Qed.

Lemma max_id_least l n : Forall (λ x, n ≤ x) l → ∀ x, max_id l = Some x → n ≤ x.
Proof.
  destruct l as [|y l]; [done|]. intros [Hy Hl]%Forall_cons x [= <-].
  revert y Hy. induction Hl as [|z l Hz _ IH]; intros y Hy; [done|]. cbn [foldl]. apply IH. lia.
Qed.

Lemma kyber_reload s now : kyber_wf s → kyber_from_cfe (kyber_to_cfe s) now = Ok (prune_retired now s).
Proof.
  intros Hw. pose proof Hw as [Hr Ho Hc Hn Hk]. unfold spk_chain in Hc. rewrite !Forall_app in Hc. destruct Hc as (Hc1 & Hc2 & Hc3).
  assert (∀ o, Forall (kp_wf 1 (ks_next_spk_id s)) (option_list o) → (kp_to_cfe <$> o) ≫= kp_from_cfe = o) as Hopt.
  { intros [k|]; [|done]. intros [Hf _]%Forall_cons. by eapply kp_cfe_roundtrip. }
  unfold kyber_from_cfe. set (store := mkKyberPrekeyStore _ _ _ _ _ _).
  assert (store = s) as ->.
  { unfold store. cbn [kyber_to_cfe cks_spk cks_pending_spk cks_retired_spks cks_otpks cks_next_spk_id cks_next_otpk_id].
    rewrite !Hopt by done. rewrite (omap_all (λ x, (λ k, mkRetiredSpk k (cr_retired_at x)) <$> kp_from_cfe (cr_prekey x))).
    2:{ intros r Hr'. simpl. rewrite Forall_fmap, Forall_forall in Hc3. rewrite (kp_cfe_roundtrip _ _ _ (Hc3 _ Hr')). by destruct r. }
    rewrite (omap_all kp_from_cfe). 2:{ intros k [i Hi]%otpk_values_elem. eapply kp_cfe_roundtrip. by eapply Hk. }
    rewrite otpks_collect by done. rewrite !Z.max_l by lia. by destruct s. }
  assert (Forall (λ x, x < ks_next_spk_id s) (kp_key_id <$> spk_chain s)) as Hm.
  { apply Forall_fmap. eapply Forall_impl; [apply Hw|]. intros k [Hki _]. simpl. lia. }
  assert (Forall (λ x, 1 ≤ x) (kp_key_id <$> spk_chain s)) as Hl.
  { apply Forall_fmap. eapply Forall_impl; [apply Hw|]. intros k [Hki _]. simpl. lia. }
  assert (Forall (λ x, x < ks_next_otpk_id s) (map_to_list (ks_otpks s)).*1) as Hmo.
  { apply Forall_fmap, Forall_forall. intros [i k] Hi%elem_of_map_to_list. destruct (Hk _ _ Hi) as [<- [Hki _]]. simpl. lia. }
  destruct (max_id (kp_key_id <$> spk_chain s)) as [id|] eqn:Hid.
  - apply (max_id_below _ _ Hm) in Hid as Hlt. apply (max_id_least _ _ Hl) in Hid. unfold checked_add32.
    destruct (Z.leb_spec (id + 1) u32_max); [|unfold u32_max, KYBER_OTPK_ID_START in *; lia]. cbn [expect mbind res_bind].
    rewrite Z.max_l by lia. destruct (max_id (map_to_list (ks_otpks s)).*1) as [io|] eqn:Hio.
    + apply (max_id_below _ _ Hmo) in Hio. unfold sat_add32. rewrite Z.max_l by lia. by destruct s.
    + by destruct s.
  - cbn [mbind res_bind]. destruct (max_id (map_to_list (ks_otpks s)).*1) as [io|] eqn:Hio.
    + apply (max_id_below _ _ Hmo) in Hio. unfold sat_add32. rewrite Z.max_l by lia. by destruct s.
    + by destruct s.
Qed.

(** ** Operations *)

Inductive kyber_op :=
  | KBegin (now : Z)
  | KCommit (now : Z)
  | KRollback
  | KPrune (now : Z)
  | KGenerate (count : nat) (now : Z)
  | KPruneBelow (id : Z)
  | KRemove (id : Z)
  | KReload (now : Z).

Section ops.
Context `{MlKem1024Crate}.

(** One operation; its result is the ids it hands out for the first time. *)
Definition kyber_exec (o : kyber_op) : method KyberPrekeyStore string (list Z) :=
  match o with
  | KBegin now =>
      s ← self;
      k ← begin_spk_rotation now;
      mret (match ks_pending_spk s with Some _ => [] | None => [kp_key_id k] end)
  | KCommit now => update (λ s, (commit_spk_rotation now s).1);; mret []
  | KRollback => update rollback_spk_rotation;; mret []
  | KPrune now => update (prune_retired now);; mret []
  | KGenerate count now => ks ← generate_otpks count now; mret (kp_key_id <$> ks)
  | KPruneBelow id => update (λ s, (prune_otpks_below id s).1);; mret []
  | KRemove id => update (λ s, (remove_otpk id s).1);; mret []
  | KReload now =>
      s ← self;
      s' ← lift (kyber_from_cfe (kyber_to_cfe s) now);
      update (λ _, s');; mret []
  end.

(** A run: a failing operation ends in an error and the next one goes on. *)
Fixpoint kyber_run (ops : list kyber_op) (sw : KyberPrekeyStore * World) : KyberPrekeyStore * World * list Z :=
  match ops with
  | [] => (sw, [])
  | o :: ops =>
      let '(sw, r) := kyber_exec o sw in
      let '(sw, ids) := kyber_run ops sw in
      (sw, match r with Ok new => new ++ ids | _ => ids end)
  end.
End ops.

(** What one operation may do to the counters, and which ids it hands out. *)
Record advances (s s' : KyberPrekeyStore) (ids : list Z) : Prop := {
  ad_wf : kyber_wf s';
  ad_spk : ks_next_spk_id s ≤ ks_next_spk_id s';
  ad_otpk : ks_next_otpk_id s ≤ ks_next_otpk_id s';
  ad_nodup : NoDup ids;
  ad_ids : Forall (λ id, ks_next_spk_id s ≤ id < ks_next_spk_id s' ∨ ks_next_otpk_id s ≤ id < ks_next_otpk_id s') ids;
}.

Lemma advances_still s s' : kyber_wf s' → ks_next_spk_id s' = ks_next_spk_id s → ks_next_otpk_id s' = ks_next_otpk_id s →
  advances s s' [].
Proof. intros Hw H1 H2. split; [done|lia|lia|constructor|constructor]. Qed.

Lemma advances_trans s s' s'' ids ids' :
  kyber_wf s → advances s s' ids → advances s' s'' ids' → advances s s'' (ids ++ ids').
Proof.
  intros W [W1 H1 H2 H3 H4] [W2 J1 J2 J3 J4]. pose proof W1 as [R1 R2 _ _ _]. pose proof W as [Q1 Q2 _ _ _]. pose proof W2 as [P1 P2 _ _ _].
  split; [done|lia|lia| |].
  - apply NoDup_app. split_and!; [done| |done]. rewrite Forall_forall in H4, J4. intros x Hx Hx'.
    specialize (H4 _ Hx). specialize (J4 _ Hx'). lia.
  - apply Forall_app. split; eapply Forall_impl; try done; intros id; simpl; lia.
Qed.

(** A key that is current, or was rotated out at [r] or later. *)
Definition served_since (r : Z) (k : KyberPrekey) (s : KyberPrekeyStore) : Prop :=
  ks_spk s = Some k ∨ ∃ t, mkRetiredSpk k t ∈ ks_retired_spks s ∧ r ≤ t.

Definition op_time (o : kyber_op) : option Z :=
  match o with KBegin t | KCommit t | KPrune t | KGenerate _ t | KReload t => Some t | _ => None end.

Section laws.
Context `{ML : MlKem1024Laws}.

Lemma wp_kp_generate ϕ id now w Q (R : string → World → Prop) :
  (∀ w' seed, len seed = MLKEM_SEED_SIZE → Q (mkKyberPrekey id now seed) w') → wp ϕ (kp_generate id now) w Q R.
Proof.
  intros HQ. unfold kp_generate, mlkem1024_generate, wp, mbind, stm_bind.
  destruct (kem1024_generate_seed w) as (seed & Hs & Hl). destruct (kem1024_generate w) as [w' p]. simpl in Hs. subst p.
  simpl. by apply HQ.
Qed.

Lemma wp_generate_otpk s w now : kyber_wf s →
  wp False (generate_otpk now) (s, w)
    (λ k sw, advances s sw.1 [kp_key_id k] ∧ ks_spk sw.1 = ks_spk s ∧ ks_retired_spks sw.1 = ks_retired_spks s)
    (λ _ sw, sw.1 = s).
Proof.
  intros Hw. pose proof Hw as [H1 H2 H3 H4 H5]. unfold generate_otpk. wp_steps.
  apply wp_lift_cases; [|done|by intros ?%ok_or_no_panic]. intros next Hn%ok_or_ok. unfold checked_add32 in Hn.
  destruct (Z.leb_spec (ks_next_otpk_id s + 1) u32_max); [|done]. injection Hn as <-.
  wp_steps. apply wp_kp_generate. intros w' seed Hs. wp_steps. split; [|done]. split; simpl; try lia.
  - split; simpl; try done; [lia|]. intros i k. destruct (decide (i = ks_next_otpk_id s)) as [->|Hne].
    + rewrite lookup_insert_eq. intros [= <-]. split; [done|]. split; [simpl; lia|done].
    + rewrite lookup_insert_ne by done. intros [Hk [Hr Hl]]%H5. split; [done|]. split; [lia|done].
  - apply NoDup_singleton.
  - constructor; [|constructor]. lia.
Qed.

Lemma wp_generate_otpks n now s w : kyber_wf s →
  wp False (generate_otpks n now) (s, w)
    (λ ks sw, advances s sw.1 (kp_key_id <$> ks) ∧ ks_spk sw.1 = ks_spk s ∧ ks_retired_spks sw.1 = ks_retired_spks s)
    (λ _ sw, advances s sw.1 [] ∧ ks_spk sw.1 = ks_spk s ∧ ks_retired_spks sw.1 = ks_retired_spks s).
Proof.
  revert s w. induction n as [|n IH]; intros s w Hw; cbn [generate_otpks]; [by wp_steps; split; [apply advances_still|]|].
  wp_step. eapply wp_mono; [by apply wp_generate_otpk| |].
  - intros k [s1 w1] (Ha & Hs & Hr). simpl in *. wp_step. eapply wp_mono; [apply IH; apply Ha| |].
    + intros ks [s2 w2] (Ha2 & Hs2 & Hr2). simpl in *. wp_step. simpl. split; [|split; congruence].
      by apply (advances_trans s s1 s2 [kp_key_id k]).
    + intros e [s2 w2] ([A1 A2 A3 _ _] & Hs2 & Hr2). simpl in *. destruct Ha as [B1 B2 B3 _ _].
      split; [|split; congruence]. split; [done|lia|lia|constructor|constructor].
  - intros e [s1 w1] ->. by split; [apply advances_still|].
Qed.

Lemma wp_begin s w now : kyber_wf s →
  wp False (begin_spk_rotation now) (s, w)
    (λ k sw, advances s sw.1 (match ks_pending_spk s with Some _ => [] | None => [kp_key_id k] end) ∧
       ks_spk sw.1 = ks_spk s ∧ ks_retired_spks sw.1 = ks_retired_spks s)
    (λ _ sw, sw.1 = s).
Proof.
  intros Hw. pose proof Hw as [H1 H2 H3 H4 H5]. unfold begin_spk_rotation. wp_step. wp_step.
  destruct (ks_pending_spk s) as [p|] eqn:Hp; [wp_step; by split; [apply advances_still|]|].
  wp_step; [by wp_step|]. rewrite Z.geb_leb, Z.leb_gt in Heqb. wp_steps. apply wp_kp_generate. intros w' seed Hs. wp_steps.
  split; [|done]. split; simpl; try lia.
  - unfold spk_chain in *. rewrite Hp in *. simpl in *. split; simpl; try done; [lia| |].
    + unfold spk_chain. simpl. rewrite !Forall_app in *. destruct H3 as [F1 F2]. assert (∀ l, Forall (kp_wf 1 (ks_next_spk_id s)) l → Forall (kp_wf 1 (ks_next_spk_id s + 1)) l) as Hf.
      { intros l Hf. eapply Forall_impl; [exact Hf|]. intros k [Hk Hl]. split; [lia|done]. }
      split; [by apply Hf|]. constructor; [split; [simpl; lia|done]|by apply Hf].
    + assert (ks_next_spk_id s ∉ kp_key_id <$> (option_list (ks_spk s) ++ (rs_prekey <$> ks_retired_spks s))) as Hnew.
      { intros (k & Hk & Hin)%list_elem_of_fmap. rewrite Forall_forall in H3. specialize (H3 _ Hin) as [Hlt _]. lia. }
      unfold spk_chain. simpl. rewrite fmap_app in *. rewrite fmap_cons.
      rewrite <- Permutation_middle. apply NoDup_cons. by split.
  - apply NoDup_singleton.
  - constructor; [|constructor]. simpl. lia.
Qed.

Lemma elem_of_unexpired now r l t : r ∈ l → t ≤ rs_retired_at r → now < t + SPK_RETENTION_AFTER_ROTATION_SECS →
  r ∈ retain (λ r, sat_sub now (rs_retired_at r) <? SPK_RETENTION_AFTER_ROTATION_SECS) l.
Proof.
  intros Hr Ht Hn. apply list_elem_of_filter. split; [|done]. apply Z.ltb_lt.
  unfold sat_sub, SPK_RETENTION_AFTER_ROTATION_SECS in *. lia.
Qed.

Lemma commit_served r k now s : r ≤ now < r + SPK_RETENTION_AFTER_ROTATION_SECS →
  served_since r k s → served_since r k (commit_spk_rotation now s).1.
Proof.
  intros Hn Hs. unfold commit_spk_rotation. destruct (ks_pending_spk s) as [p|]; [|done]. right.
  destruct Hs as [Hk|(t & Hin & Ht)].
  - rewrite Hk. exists now. split; [|lia]. apply (elem_of_unexpired _ _ _ now); simpl; [set_solver|lia|].
    unfold SPK_RETENTION_AFTER_ROTATION_SECS. lia.
  - exists t. split; [|done]. apply (elem_of_unexpired _ _ _ r); simpl; [destruct (ks_spk s); set_solver|lia|lia].
Qed.

Lemma prune_served r k now s : now < r + SPK_RETENTION_AFTER_ROTATION_SECS →
  served_since r k s → served_since r k (prune_retired now s).
Proof.
  intros Hn [Hk|(t & Hin & Ht)]; [by left|]. right. exists t. split; [|done]. by apply (elem_of_unexpired _ _ _ r).
Qed.

(** Operations read the clock between [r] and the end of the retention. *)
Definition within (r : Z) (o : kyber_op) : Prop :=
  match op_time o with Some t => r ≤ t < r + SPK_RETENTION_AFTER_ROTATION_SECS | None => True end.
#[global] Instance within_dec r o : Decision (within r o).
Proof. unfold within. destruct (op_time o); apply _. Defined.

Lemma served_same r k s s' : ks_spk s' = ks_spk s → ks_retired_spks s' = ks_retired_spks s →
  served_since r k s → served_since r k s'.
Proof. unfold served_since. by intros -> ->. Qed.

Definition step_ok (o : kyber_op) (s : KyberPrekeyStore) (ids : list Z) (sw : KyberPrekeyStore * World) : Prop :=
  advances s sw.1 ids ∧ ∀ r k, within r o → served_since r k s → served_since r k sw.1.

Lemma wp_kyber_exec o s w : kyber_wf s → wp False (kyber_exec o) (s, w) (step_ok o s) (λ _, step_ok o s []).
Proof.
  intros Hw. destruct o as [now|now| |now|n now|id|id|now]; unfold kyber_exec; wp_steps.
  - eapply wp_mono; [by apply wp_begin| |].
    + intros k [s' w'] (Ha & H1 & H2). wp_steps. split; [done|]. intros r k' _. by apply served_same.
    + intros e [s' w'] H1. simpl in H1. subst s'. split; [by apply advances_still|done].
  - split; [|intros r k; apply commit_served]. simpl. destruct (commit_spk_rotation now s) as [s' b] eqn:Hc. simpl.
    pose proof (commit_chain _ _ _ _ Hc) as (l & _ & _ & _ & H1 & H2). apply advances_still; [by eapply commit_wf|done|done].
  - split; [by apply advances_still; [apply rollback_wf|..]|]. intros r k _. by apply served_same.
  - split; [by apply advances_still; [apply prune_retired_wf|..]|]. intros r k [_ Ht]. by apply prune_served.
  - eapply wp_mono; [by apply wp_generate_otpks| |].
    + intros ks [s' w'] (Ha & H1 & H2). wp_steps. split; [done|]. intros r k' _. by apply served_same.
    + intros e [s' w'] (Ha & H1 & H2). split; [done|]. intros r k' _. by apply served_same.
  - split; [|intros r k _; by apply served_same]. apply advances_still; [|done|done].
    destruct Hw as [H1 H2 H3 H4 H5]. split; try done. simpl. intros i k [Hk _]%map_lookup_filter_Some. by apply H5.
  - split; [|intros r k _; by apply served_same]. apply advances_still; [|done|done].
    destruct Hw as [H1 H2 H3 H4 H5]. split; try done. simpl. intros i k [_ Hk]%lookup_delete_Some. by apply H5.
  - rewrite kyber_reload by done. apply wp_lift. wp_steps.
    split; [by apply advances_still; [apply prune_retired_wf|..]|]. intros r k [_ Ht]. by apply prune_served.
Qed.

Lemma kyber_run_ok ops s w : kyber_wf s →
  let '(s', w', ids) := kyber_run ops (s, w) in
  advances s s' ids ∧ ∀ r k, Forall (within r) ops → served_since r k s → served_since r k s'.
Proof.
  revert s w. induction ops as [|o ops IH]; intros s w Hw; cbn [kyber_run]; [by split; [apply advances_still|]|].
  pose proof (wp_kyber_exec o s w Hw) as Ho. unfold wp in Ho.
  destruct (kyber_exec o (s, w)) as [[s1 w1] r]. assert (∃ new, step_ok o s new (s1, w1) ∧ match r with Ok l => l = new | _ => new = [] end)
    as (new & [Ha Hserve] & Hnew) by (destruct r; naive_solver). simpl in Ha, Hserve.
  specialize (IH s1 w1 (ad_wf _ _ _ Ha)). destruct (kyber_run ops (s1, w1)) as [[s2 w2] ids]. destruct IH as [IHa IHs].
  split.
  - replace (match r with Ok new => new ++ ids | _ => ids end) with (new ++ ids) by (destruct r; by subst).
    by eapply advances_trans.
  - intros r' k [Hr Hrs]%Forall_cons Hs. auto.
Qed.

(** ** Finding a prekey *)

Definition held (k : KyberPrekey) (s : KyberPrekeyStore) : Prop :=
  k ∈ spk_chain s ∨ ∃ i, ks_otpks s !! i = Some k.

Lemma find_first_unique (l : list KyberPrekey) k : NoDup (kp_key_id <$> l) → k ∈ l →
  find_first (λ k', kp_key_id k' =? kp_key_id k) l = Some k.
Proof.
  induction l as [|x l IH]; [by intros _ ?%elem_of_nil|]. rewrite fmap_cons, NoDup_cons. intros [Hx Hn] Hin.
  cbn [find_first]. destruct (Z.eqb_spec (kp_key_id x) (kp_key_id k)) as [He|He].
  - apply elem_of_cons in Hin as [->|Hin]; [done|]. destruct Hx. rewrite He. by apply list_elem_of_fmap_2.
  - apply elem_of_cons in Hin as [->|Hin]; [done|]. auto.
Qed.

Lemma held_found s k : kyber_wf s → held k s → kyber_find s (kp_key_id k) = Some k.
Proof.
  intros [H1 H2 H3 H4 H5] [Hk|[i Hi]]; unfold kyber_find.
  - rewrite Forall_forall in H3. destruct (H3 _ Hk) as [Hr _]. rewrite Z.geb_leb, (proj2 (Z.leb_gt _ _)) by lia.
    by apply find_first_unique.
  - destruct (H5 _ _ Hi) as [<- [Hr _]]. rewrite Z.geb_leb, (proj2 (Z.leb_le _ _)) by lia. done.
Qed.

(** C16: Over any sequence of operations on the Kyber prekeys of a new account,
    rotations begun, committed or abandoned, batches of one-time prekeys, pruning,
    removal and restarts from the stored record, at any clock readings, no prekey id
    is handed out twice, and a lookup by the id of a prekey the store holds finds
    that prekey and not another. *)
Theorem kyber_ids_fresh ops w :
  let '(s, _, ids) := kyber_run ops (kyber_default, w) in
  NoDup ids ∧ ∀ k, held k s → kyber_find s (kp_key_id k) = Some k.
Proof.
  pose proof (kyber_run_ok ops kyber_default w kyber_default_wf) as Hr.
  destruct (kyber_run ops (kyber_default, w)) as [[s w'] ids]. destruct Hr as [[Hw _ _ Hn _] _].
  split; [done|]. intros k. by apply held_found.
Qed.

Lemma mlkem1024_correct seed pk w w' enc : len seed = MLKEM_SEED_SIZE →
  mlkem1024_public_from_seed seed = Ok pk → mlkem1024_encapsulate pk w = (w', Ok enc) →
  mlkem1024_decapsulate seed (mlkem_ciphertext enc) = Ok (mlkem_shared_secret enc).
Proof.
  intros Hl. unfold mlkem1024_public_from_seed, mlkem1024_key_from_seed, mlkem1024_encapsulate, mlkem1024_decapsulate.
  rewrite Hl. simpl. intros Hpk. assert (pk = kem1024_public seed) as -> by congruence.
  rewrite kem1024_public_len, kem1024_public_valid. simpl.
  pose proof (kem1024_ct_len (kem1024_public seed) w) as Hct. pose proof (kem1024_correct seed w) as Hd.
  destruct (kem1024_encapsulate (kem1024_public seed) w) as [w2 [ct ss]]. simpl in *. intros [= <- <-]. simpl.
  rewrite Hct. unfold mlkem1024_key_from_seed. rewrite Hl. simpl. by rewrite Hd.
Qed.

(** C17: A Kyber signed prekey that was the current one at [t], after any history,
    opens every first flight that can name it: an initiator stops writing on a
    handshake [MAX_UNANSWERED_HANDSHAKE_AGE_SECS] after the bundle was served and a
    message waits at most [QUEUE_TTL_SECS] in the queue, and through any operations
    with readings in that span the key is found by its id and its decapsulation
    yields the secret that was encapsulated to it. *)
Theorem kyber_prekey_outlives_flights before after w s w1 ids k t :
  kyber_run before (kyber_default, w) = (s, w1, ids) → ks_spk s = Some k →
  Forall (λ o, ∀ now, op_time o = Some now → t ≤ now < t + MAX_UNANSWERED_HANDSHAKE_AGE_SECS + QUEUE_TTL_SECS) after →
  let s' := (kyber_run after (s, w1)).1.1 in
  kyber_find s' (kp_key_id k) = Some k ∧
  ∀ pk v v' enc, kp_public_key k = Ok pk → mlkem1024_encapsulate pk v = (v', Ok enc) →
    mlkem1024_decapsulate (kp_seed k) (mlkem_ciphertext enc) = Ok (mlkem_shared_secret enc).
Proof.
  intros Hb Hk Ht s'. pose proof (kyber_run_ok before kyber_default w kyber_default_wf) as Hr. rewrite Hb in Hr.
  destruct Hr as [[Hw _ _ _ _] _]. pose proof (kyber_run_ok after s w1 Hw) as Ha. subst s'.
  destruct (kyber_run after (s, w1)) as [[s2 w2] ids2]. destruct Ha as [[Hw2 _ _ _ _] Hs]. simpl. split.
  - apply held_found; [done|]. left. unfold spk_chain. destruct (Hs t k) as [H1|(r & H1 & _)].
    + eapply Forall_impl; [exact Ht|]. intros o Ho. unfold within. simpl in Ho. destruct (op_time o) as [n|]; [|done].
      specialize (Ho n eq_refl). unfold MAX_UNANSWERED_HANDSHAKE_AGE_SECS, QUEUE_TTL_SECS, SPK_RETENTION_AFTER_ROTATION_SECS in *. lia.
    + by left.
    + rewrite H1. set_solver.
    + rewrite !elem_of_app. right; right. by apply (list_elem_of_fmap_2 rs_prekey) in H1.
  - intros pk v v' enc Hpk He. eapply mlkem1024_correct; [|exact Hpk|exact He].
    destruct Hw as [_ _ Hc _ _]. unfold spk_chain in Hc. rewrite Hk in Hc. simpl in Hc. apply Forall_cons in Hc as [[_ Hl] _]. done.
Qed.
End laws.

(** ** A concrete ML-KEM-1024 *)

Definition toy_public1024 (seed : bytes) : bytes := replicate 1568 (default inhabitant (head seed)).
#[global] Instance toy_mlkem1024 : MlKem1024Crate := {|
  kem1024_generate (w : @World toy_platform) :=
    let seed := replicate 64 (byte_of_Z w) in (w + 1, (Some seed, toy_public1024 seed));
  kem1024_public := toy_public1024;
  kem1024_ek_valid _ := true;
  kem1024_encapsulate ek (w : @World toy_platform) :=
    let ct := replicate 1568 (byte_of_Z w) in (w + 1, (ct, toy_secret ek ct));
  kem1024_decapsulate seed ct := Some (toy_secret (toy_public1024 seed) ct);
|}.

#[global] Instance toy_mlkem1024_laws : MlKem1024Laws.
Proof.
  split; try done. intros w. by eexists.
Qed.

Definition demo_kyber_before : list kyber_op := [KBegin 100; KCommit 110; KGenerate 2 120].
Definition demo_kyber_after : list kyber_op :=
  [KBegin 200; KReload 300; KCommit 400; KRemove 1000000; KPrune (200 + 14 * 86400 - 1); KReload (200 + 14 * 86400 - 1)].

Lemma kyber_ids_fresh_witness :
  let '(s, _, ids) := kyber_run (demo_kyber_before ++ demo_kyber_after) (kyber_default, toy_world 7) in
  NoDup ids ∧ ∀ k, held k s → kyber_find s (kp_key_id k) = Some k.
Proof. apply (kyber_ids_fresh (demo_kyber_before ++ demo_kyber_after) (toy_world 7)). Defined.

Lemma kyber_prekey_outlives_flights_witness :
  let s := (kyber_run demo_kyber_before (kyber_default, toy_world 7)).1.1 in
  let s' := (kyber_run demo_kyber_after (kyber_run demo_kyber_before (kyber_default, toy_world 7)).1).1.1 in
  ∃ k, ks_spk s = Some k ∧ ks_spk s' ≠ Some k ∧ kyber_find s' (kp_key_id k) = Some k.
Proof.
  intros s s'. destruct (ks_spk s) as [k|] eqn:Hk; [|by vm_compute in Hk]. exists k. split; [done|]. split.
  - intros Hs. rewrite <- Hk in Hs. by vm_compute in Hs.
  - destruct (kyber_run demo_kyber_before (kyber_default, toy_world 7)) as [[s0 w0] ids] eqn:Hrun.
    apply (kyber_prekey_outlives_flights demo_kyber_before demo_kyber_after (toy_world 7) s0 w0 ids k 200 Hrun Hk).
    repeat first [apply Forall_cons_2; [by intros ? [= <-]|]|apply Forall_nil_2].
Defined.
