(* ===== verification/X3dh.v ===== *)
(** * The handshake

    Models [src/src/crypto/handshake/x3dh.rs] and the types of
    [src/src/crypto/handshake/mod.rs]: the bundles, the checks an initiator
    makes of one, the three or four Diffie-Hellman outputs on each side, and the
    root key with or without the ML-KEM secret. Shown: the two sides derive the
    same root key, and an initiator accepts a bundle that its owner signed.
    Log lines are left out; an error keeps its case, not its text. *)

From S2P Require Import Prelude SuiteId Platform Wp Classic Toy Crates Ratchet.

Record PqxdhInput := mkPqxdhInput {
  pq_shared_secret : bytes;
  pq_kyber_public : bytes;
  pq_kem_ciphertext : bytes;
  pq_initiator_kem_identity : bytes;
}.

Record X3DHPublicKeyBundle := mkX3DHPublicKeyBundle {
  pb_identity_public : bytes;
  pb_signed_prekey_public : bytes;
  pb_signature : bytes;
  pb_verifying_key : bytes;
  pb_suite_id : SuiteID;
  pb_one_time_prekey_public : option bytes;
  pb_one_time_prekey_id : option Z;
  pb_spk_uploaded_at : Z;
  pb_spk_rotation_epoch : Z;
  pb_kyber_spk_uploaded_at : Z;
  pb_kyber_spk_rotation_epoch : Z;
}.
#[global] Instance public_key_bundle_eta : Eta X3DHPublicKeyBundle := λ b,
  mkX3DHPublicKeyBundle (pb_identity_public b) (pb_signed_prekey_public b) (pb_signature b) (pb_verifying_key b)
    (pb_suite_id b) (pb_one_time_prekey_public b) (pb_one_time_prekey_id b) (pb_spk_uploaded_at b)
    (pb_spk_rotation_epoch b) (pb_kyber_spk_uploaded_at b) (pb_kyber_spk_rotation_epoch b).

Record X3DHRegistrationBundle := mkX3DHRegistrationBundle {
  rb_identity_public : bytes;
  rb_signed_prekey_public : bytes;
  rb_signature : bytes;
  rb_verifying_key : bytes;
  rb_suite_id : SuiteID;
}.

Inductive X3dhError :=
  | X3KeyGeneration (e : CryptoError)
  | X3Signing (e : CryptoError)
  | X3IdentitySize (got : Z)
  | X3SignedPrekeySize (got : Z)
  | X3VerifyingKeySize (got : Z)
  | X3SignatureSize (got : Z)
  | X3InvalidSignature (e : CryptoError)
  | X3Dh (n : Z) (e : CryptoError)
  | X3OneTimePrekeySize (got : Z)
  | X3Hkdf (e : CryptoError).

Definition X3DH_ROOT_INFO_CLASSIC : bytes := as_bytes "Construct-X3DH-RootKey-v1".
Definition X3DH_ROOT_INFO_PQXDH : bytes := as_bytes "Construct-PQXDH-RootKey-v3".

(** [keys::build_prologue] *)
Definition build_prologue (suite_id : SuiteID) : bytes :=
  as_bytes "KonstruktX3DH-v1" ++ be_bytes 2 (as_u16 suite_id).
#[global] Opaque build_prologue.

Section x3dh.
Context `{CryptoProvider} `{Sha2Crate}.

Definition derive_root_key (combined_dh : bytes) (pq : option PqxdhInput) : res X3dhError bytes :=
  let salt := replicate 32 Byte.xff in
  let '(ikm, info) :=
    match pq with
    | None => (combined_dh, X3DH_ROOT_INFO_CLASSIC)
    | Some pq => (combined_dh ++ pq_shared_secret pq,
                  X3DH_ROOT_INFO_PQXDH ++ sha256 (pq_kyber_public pq) ++ sha256 (pq_kem_ciphertext pq)
                  ++ sha256 (pq_initiator_kem_identity pq))
    end in
  map_err X3Hkdf (hkdf_derive_key salt ikm info 32).

Definition generate_registration_bundle : stm World X3dhError X3DHRegistrationBundle :=
  '(_, identity_public) ← map_err_m X3KeyGeneration generate_kem_keys;
  '(_, signed_prekey_public) ← map_err_m X3KeyGeneration generate_kem_keys;
  '(signing_key, verifying_key) ← map_err_m X3KeyGeneration generate_signature_keys;
  let suite_id := from_u16_unchecked provider_suite_id in
  let message_to_sign := build_prologue suite_id ++ kem_public_ref signed_prekey_public in
  signature ← lift (map_err X3Signing (sign signing_key message_to_sign));
  mret (mkX3DHRegistrationBundle (kem_public_ref identity_public) (kem_public_ref signed_prekey_public)
          signature (signature_public_ref verifying_key) suite_id).

(** The size checks and the signature check of [perform_as_initiator]. *)
Definition check_bundle (b : X3DHPublicKeyBundle) : res X3dhError unit :=
  if negb (len (pb_identity_public b) =? 32) then Err (X3IdentitySize (len (pb_identity_public b))) else
  if negb (len (pb_signed_prekey_public b) =? 32) then Err (X3SignedPrekeySize (len (pb_signed_prekey_public b))) else
  if negb (len (pb_verifying_key b) =? 32) then Err (X3VerifyingKeySize (len (pb_verifying_key b))) else
  if negb (len (pb_signature b) =? 64) then Err (X3SignatureSize (len (pb_signature b))) else
  let message := build_prologue (pb_suite_id b) ++ kem_public_ref (kem_public_key_from_bytes (pb_signed_prekey_public b)) in
  map_err X3InvalidSignature
    (verify (signature_public_key_from_bytes (pb_verifying_key b)) message (pb_signature b)).

Definition perform_as_initiator (local_identity : KemPrivateKey) (b : X3DHPublicKeyBundle)
    (pq : option PqxdhInput) : stm World X3dhError (bytes * InitiatorState) :=
  '(ephemeral_private, _) ← map_err_m X3KeyGeneration generate_kem_keys;
  lift (check_bundle b);;
  let remote_identity := kem_public_ref (kem_public_key_from_bytes (pb_identity_public b)) in
  let remote_spk := kem_public_ref (kem_public_key_from_bytes (pb_signed_prekey_public b)) in
  dh1 ← lift (map_err (X3Dh 1) (kem_decapsulate local_identity remote_spk));
  dh2 ← lift (map_err (X3Dh 2) (kem_decapsulate ephemeral_private remote_identity));
  dh3 ← lift (map_err (X3Dh 3) (kem_decapsulate ephemeral_private remote_spk));
  dh4 ← match pb_one_time_prekey_public b with
        | Some otpk =>
            if negb (len otpk =? 32) then throw (X3OneTimePrekeySize (len otpk)) else
            lift (map_err (X3Dh 4)
              (kem_decapsulate ephemeral_private (kem_public_ref (kem_public_key_from_bytes otpk))))
        | None => mret []
        end;
  root_key ← lift (derive_root_key (dh1 ++ dh2 ++ dh3 ++ dh4) pq);
  mret (root_key, mkInitiatorState ephemeral_private).

Definition perform_as_responder (local_identity local_signed_prekey : KemPrivateKey)
    (remote_identity remote_ephemeral : KemPublicKey) (local_one_time_prekey : option KemPrivateKey)
    (pq : option PqxdhInput) : res X3dhError bytes :=
  dh1 ← map_err (X3Dh 1) (kem_decapsulate local_signed_prekey (kem_public_ref remote_identity));
  dh2 ← map_err (X3Dh 2) (kem_decapsulate local_identity (kem_public_ref remote_ephemeral));
  dh3 ← map_err (X3Dh 3) (kem_decapsulate local_signed_prekey (kem_public_ref remote_ephemeral));
  dh4 ← match local_one_time_prekey with
        | Some otpk => map_err (X3Dh 4) (kem_decapsulate otpk (kem_public_ref remote_ephemeral))
        | None => Ok []
        end;
  derive_root_key (dh1 ++ dh2 ++ dh3 ++ dh4) pq.
End x3dh.

(** ** Signatures *)

(** What the handshake relies on of a provider's signatures. *)
Class SignatureLaws `{CryptoProvider} : Prop := {
  signature_public_from_ref : ∀ k, signature_public_key_from_bytes (signature_public_ref k) = k;
  signature_private_from_ref : ∀ k, signature_private_key_from_bytes (signature_private_ref k) = k;
  generate_signature_keys_ok : ∀ w, ∃ w' sk vk,
    generate_signature_keys w = (w', Ok (sk, vk)) ∧ from_signature_private_to_public sk = Ok vk;
  signature_public_len : ∀ sk vk, from_signature_private_to_public sk = Ok vk → len (signature_public_ref vk) = 32;
  sign_verifies : ∀ sk vk m, from_signature_private_to_public sk = Ok vk →
    ∃ s, sign sk m = Ok s ∧ len s = 64 ∧ verify vk m s = Ok tt;
}.

(** [ed25519_dalek]: what it signs, it verifies. *)
Class Ed25519Laws `{ClassicCrates} : Prop := {
  ed25519_public_len : ∀ sk, len (ed25519_public sk) = 32;
  ed25519_public_valid : ∀ sk, ed25519_key_valid (ed25519_public sk) = true;
  ed25519_sign_len : ∀ sk m, len (ed25519_sign sk m) = 64;
  ed25519_sign_verifies : ∀ sk m, ed25519_verify (ed25519_public sk) m (ed25519_sign sk m) = true;
}.

#[global] Instance classic_signature_laws `{PL : PlatformLaws} `{EL : Ed25519Laws} : SignatureLaws.
Proof.
  split; try done.
  - intros w. unfold generate_signature_keys. simpl. unfold classic_generate_signature_keys.
    pose proof (os_rng_len 32 w) as Hr. destruct (os_rng 32 w) as [w' sk]. eexists _, _, _. split; [done|].
    unfold from_signature_private_to_public. simpl. unfold classic_signature_private_to_public, try_array.
    simpl in Hr. by rewrite Hr.
  - intros sk vk. simpl. unfold classic_signature_private_to_public, try_array. case_match; [|done].
    intros [= <-]. apply ed25519_public_len.
  - intros sk vk m. simpl. unfold classic_signature_private_to_public, classic_sign, classic_verify, try_array.
    destruct (len sk =? 32); [|done]. intros [= <-]. eexists. split; [done|]. split; [apply ed25519_sign_len|].
    simpl. rewrite ed25519_public_len, ed25519_sign_len. simpl. by rewrite ed25519_public_valid, ed25519_sign_verifies.
Qed.

#[global] Instance toy_ed25519_laws : Ed25519Laws.
Proof.
  split.
  - intros sk. unfold len. simpl. by rewrite pad32_len.
  - done.
  - intros sk m. unfold len. cbn [ed25519_sign toy_crates]. rewrite take_ge; rewrite length_app, pad32_len, toy_stream_len; done.
  - intros sk m. cbn [ed25519_verify ed25519_sign ed25519_public toy_crates]. by apply bool_decide_eq_true_2.
Qed.

(** ** Agreement *)

(** A key and its public half. *)
Abbreviation pair_of sk pk := (from_private_key_to_public_key sk = Ok pk).

(** The keys behind a bundle: identity, signed prekey, and the one-time prekey
    the server handed out with it, if any. *)
Record bundle_of `{CryptoProvider} (b : X3DHPublicKeyBundle) (identity spk : KemPrivateKey)
    (otpk : option KemPrivateKey) : Prop := {
  bo_identity : ∃ pk, pair_of identity pk ∧ pb_identity_public b = kem_public_ref pk;
  bo_spk : ∃ pk, pair_of spk pk ∧ pb_signed_prekey_public b = kem_public_ref pk;
  bo_otpk : match otpk with
            | Some k => ∃ pk, pair_of k pk ∧ pb_one_time_prekey_public b = Some (kem_public_ref pk)
            | None => pb_one_time_prekey_public b = None
            end;
}.

(** The bundle carries its owner's signature. *)
Definition signed_bundle `{CryptoProvider} (b : X3DHPublicKeyBundle) : Prop :=
  ∃ sk vk, from_signature_private_to_public sk = Ok vk ∧ pb_verifying_key b = signature_public_ref vk ∧
    sign sk (build_prologue (pb_suite_id b) ++ pb_signed_prekey_public b) = Ok (pb_signature b).

Section agreement.
Context `{CryptoProvider} `{Sha2Crate} `{!ProviderLaws}.

Lemma derive_root_key_ok combined pq : ∃ root, derive_root_key combined pq = Ok root ∧ len root = 32.
Proof.
  unfold derive_root_key. destruct pq as [pq|];
    match goal with |- context [hkdf_derive_key ?a ?b ?c 32] => destruct (hkdf_ok a b c 32) as (out & -> & Hl); [lia|] end;
    by exists out.
Qed.

Lemma kem_public_bytes pk : kem_public_ref (kem_public_key_from_bytes (kem_public_ref pk)) = kem_public_ref pk.
Proof. by rewrite kem_public_from_ref. Qed.

Lemma dh_agree (f : CryptoError → X3dhError) a pa b pb : pair_of a pa → pair_of b pb → ∃ z,
  map_err f (kem_decapsulate a (kem_public_ref pb)) = Ok z ∧ map_err f (kem_decapsulate b (kem_public_ref pa)) = Ok z.
Proof.
  intros Ha Hb. rewrite <- (dh_commutes a pa b pb Ha Hb). destruct (dh_defined a pa b pb Ha Hb) as [z ->]. by exists z.
Qed.

(** An initiator that gets past the bundle's checks has the responder's root. *)
Lemma initiator_agrees ia pa b ib spk otpk pq w :
  pair_of ia pa → bundle_of b ib spk otpk → check_bundle b = Ok tt →
  ∃ w' root ek epk, perform_as_initiator ia b pq w = (w', Ok (root, mkInitiatorState ek)) ∧ pair_of ek epk ∧
    len root = 32 ∧ perform_as_responder ib spk pa epk otpk pq = Ok root.
Proof.
  intros Ha [(pi & Hi & Ei) (ps & Hs & Es) Ho] Hc.
  destruct (generate_kem_keys_ok w) as (w1 & ek & epk & Hg & He).
  cut (∃ root, perform_as_initiator ia b pq w = (w1, Ok (root, mkInitiatorState ek)) ∧ len root = 32 ∧
    perform_as_responder ib spk pa epk otpk pq = Ok root).
  { intros (root & Hr & Hl & Hp). by exists w1, root, ek, epk. }
  unfold perform_as_initiator, perform_as_responder, map_err_m, mbind, stm_bind, lift. rewrite Hg. cbn [map_err].
  rewrite Hc, Ei, Es, !kem_public_bytes.
  destruct (dh_agree (X3Dh 1) ia pa spk ps Ha Hs) as (z1 & -> & ->).
  destruct (dh_agree (X3Dh 2) ek epk ib pi He Hi) as (z2 & -> & ->).
  destruct (dh_agree (X3Dh 3) ek epk spk ps He Hs) as (z3 & -> & ->).
  cbn [res_bind]. destruct otpk as [ok|].
  - destruct Ho as (po & Hp & ->). rewrite (kem_public_len _ _ Hp). cbn [negb Z.eqb Pos.eqb]. rewrite kem_public_bytes.
    destruct (dh_agree (X3Dh 4) ek epk ok po He Hp) as (z4 & -> & ->). cbn [res_bind].
    destruct (derive_root_key_ok (z1 ++ z2 ++ z3 ++ z4) pq) as (root & -> & Hl). by exists root.
  - rewrite Ho. cbn [res_bind mret stm_ret].
    destruct (derive_root_key_ok (z1 ++ z2 ++ z3 ++ []) pq) as (root & -> & Hl). by exists root.
Qed.

Lemma signed_bundle_checks `{!SignatureLaws} b ib spk otpk : bundle_of b ib spk otpk → signed_bundle b → check_bundle b = Ok tt.
Proof.
  intros [(pi & Hi & Ei) (ps & Hs & Es) _] (sk & vk & Hv & Ev & Hsig). unfold check_bundle.
  destruct (sign_verifies sk vk (build_prologue (pb_suite_id b) ++ pb_signed_prekey_public b) Hv) as (s & Hs' & Hl & Hver).
  assert (s = pb_signature b) as -> by congruence.
  rewrite Hl, Ev, (signature_public_len _ _ Hv), Ei, (kem_public_len _ _ Hi). rewrite Es in *. rewrite (kem_public_len _ _ Hs).
  cbn [negb Z.eqb Pos.eqb]. rewrite kem_public_bytes, signature_public_from_ref. by rewrite Hver.
Qed.
End agreement.
