(* ===== verification/KeyManager.v ===== *)
(** * The key manager

    Models [KeyManager] of [src/src/crypto/keys.rs] and the key record of
    [src/src/crypto/client_api.rs] ([to_private_keys_cfe],
    [from_private_keys_cfe]): the identity and signing keys, the signed prekey
    with its rotation and retention, the one-time prekeys, and what a restart
    restores of them. Of the hybrid signature key this file has the stored
    bytes and the KEM identity derived from them; its creation is in [PqPrekeyPlan].
    Shown: one-time ids are never handed out twice, a restart loses no key that is
    still due, and a signed prekey stays usable for the retention window. *)

From stdpp Require Import gmap sorting.
From S2P Require Import Prelude SuiteId Platform Wp Classic Toy Crates Ratchet RatchetStorage RatchetStorageProps RatchetDemo RatchetClean X3dh EnvelopeBook KyberPrekeys.

Definition KEM_IDENTITY_SEED_INFO : bytes := as_bytes "Construct-KEM-identity-v1".
Definition ED25519_SECRET_KEY_SIZE : Z := 32.
Definition ML_DSA_65_SECRET_KEY_SIZE : Z := 32.
Definition ML_DSA_65_PUBLIC_KEY_SIZE : Z := 1952.
Definition HYBRID_SIG_SECRET_KEY_SIZE : Z :=
  ED25519_SECRET_KEY_SIZE + ML_DSA_65_SECRET_KEY_SIZE + ML_DSA_65_PUBLIC_KEY_SIZE.

(** [u32::wrapping_add] *)
Definition wrapping_add32 (a b : Z) : Z := (a + b) `mod` 2 ^ 32.

Record PrekeyStore `{CryptoProvider} := mkPrekeyStore {
  ps_key_pair : KemPrivateKey * KemPublicKey;
  ps_signature : bytes;
  ps_created_at : Z;
  ps_key_id : Z;
  ps_retired_at : option Z;
}.

Record KeyManager `{CryptoProvider} := mkKeyManager {
  identity_key : option (KemPrivateKey * KemPublicKey);
  signing_key : option (SignaturePrivateKey * SignaturePublicKey);
  current_signed_prekey : option PrekeyStore;
  old_prekeys : gmap Z PrekeyStore;
  one_time_prekeys : gmap Z (KemPrivateKey * KemPublicKey);
  next_prekey_id : Z;
  next_otpk_id : Z;
  hybrid_sig_priv : option bytes;
  kyber_prekeys : KyberPrekeyStore;
}.
#[global] Instance prekey_store_eta `{CryptoProvider} : Eta PrekeyStore := λ p,
  mkPrekeyStore _ _ (ps_key_pair p) (ps_signature p) (ps_created_at p) (ps_key_id p) (ps_retired_at p).
#[global] Instance key_manager_eta `{CryptoProvider} : Eta KeyManager := λ k,
  mkKeyManager _ _ (identity_key k) (signing_key k) (current_signed_prekey k) (old_prekeys k) (one_time_prekeys k)
    (next_prekey_id k) (next_otpk_id k) (hybrid_sig_priv k) (kyber_prekeys k).

(** The CFE records. *)
Record CfeOldSpkV1 := mkCfeOldSpkV1 {
  os_spk_priv : bytes; os_spk_sig : bytes; os_spk_id : Z; os_created_at : Z; os_retired_at : option Z }.
Record CfePrivateKeysV1 := mkCfePrivateKeysV1 {
  cpk_suite_id : Z;
  cpk_ik_priv : bytes; cpk_sk_priv : bytes; cpk_spk_priv : bytes; cpk_spk_sig : bytes;
  cpk_spk_id : Z;
  cpk_ik_pub : bytes; cpk_vk_pub : bytes; cpk_spk_pub : bytes;
  cpk_old_spks : list CfeOldSpkV1;
  cpk_hybrid_sig_priv : option bytes;
}.
Record CfeOtpkRecordV1 := mkCfeOtpkRecordV1 { or_id : Z; or_priv_key : bytes; or_pub_key : bytes }.
Record CfeOtpkBundleV1 := mkCfeOtpkBundleV1 { ob_records : list CfeOtpkRecordV1; ob_next_id : Z }.

(** The message of [ConstructError::Crypto(CryptoError::Other(..))]. *)
Definition other (m : string) : ConstructError := Crypto (OtherCryptoError m).

Section keys.
Context `{MlKem1024Crate} `{!CryptoProvider}.
#[local] Abbreviation km_method A := (method KeyManager ConstructError A).

Definition km_new : KeyManager :=
  mkKeyManager _ _ None None None ∅ ∅ 1 1000000 None kyber_default.

Definition identity_public_key (km : KeyManager) : res ConstructError KemPublicKey :=
  ok_or (snd <$> identity_key km) (other "Identity key not initialized").
Definition identity_secret_key (km : KeyManager) : res ConstructError KemPrivateKey :=
  ok_or (fst <$> identity_key km) (other "Identity key not initialized").
Definition verifying_key (km : KeyManager) : res ConstructError SignaturePublicKey :=
  ok_or (snd <$> signing_key km) (other "Signing key not initialized").
Definition signing_secret_key (km : KeyManager) : res ConstructError SignaturePrivateKey :=
  ok_or (fst <$> signing_key km) (other "Signing key not initialized").
Definition signed_prekey (km : KeyManager) : res ConstructError PrekeyStore :=
  ok_or (current_signed_prekey km) (other "No signed prekey available").
Definition current_signed_prekey_id (km : KeyManager) : option Z := ps_key_id <$> current_signed_prekey km.

(** [utils::time::current_timestamp] *)
Definition current_timestamp {S E} : method S E Z := t ← now; mret (as_i64 t).

Definition prekey_live (now max_age : Z) (p : PrekeyStore) : bool :=
  i64_sub now (default (ps_created_at p) (ps_retired_at p)) <? max_age.

Definition cleanup_old_prekeys (max_age_seconds : Z) : km_method unit :=
  now ← current_timestamp;
  update (λ km, km <| old_prekeys := filter (λ kv, prekey_live now max_age_seconds kv.2 = true) (old_prekeys km) |>).

(** The current prekey, retired into the history. *)
Definition retire_current_prekey (retired_at : Z) (km : KeyManager) : KeyManager :=
  match current_signed_prekey km with
  | Some old =>
      let old := old <| ps_retired_at := Some retired_at |> in
      km <| current_signed_prekey := None |> <| old_prekeys := <[ps_key_id old := old]> (old_prekeys km) |>
  | None => km
  end.

Definition rotate_signed_prekey : km_method unit :=
  km ← self;
  signing ← lift (signing_secret_key km);
  key_pair ← map_err_m Crypto (on_world generate_kem_keys);
  let suite_id := from_u16_unchecked provider_suite_id in
  let message_to_sign := build_prologue suite_id ++ kem_public_ref key_pair.2 in
  signature ← lift (map_err Crypto (sign signing message_to_sign));
  let key_id := next_prekey_id km in
  update (λ km, km <| next_prekey_id := sat_add32 key_id 1 |>);;
  created_at ← current_timestamp;
  (if bool_decide (is_Some (current_signed_prekey km))
   then retired_at ← current_timestamp; update (retire_current_prekey retired_at) else mret tt);;
  update (λ km, km <| current_signed_prekey := Some (mkPrekeyStore _ _ key_pair signature created_at key_id None) |>);;
  cleanup_old_prekeys (prekey_cleanup_period_secs global).

Definition initialize : km_method unit :=
  ik ← map_err_m Crypto (on_world generate_kem_keys);
  update (λ km, km <| identity_key := Some ik |>);;
  sk ← map_err_m Crypto (on_world generate_signature_keys);
  update (λ km, km <| signing_key := Some sk |>);;
  rotate_signed_prekey.

Definition initialize_from_keys (identity_secret_bytes signing_secret_bytes prekey_secret_bytes prekey_signature : bytes)
    : km_method unit :=
  let identity_secret := kem_private_key_from_bytes identity_secret_bytes in
  identity_public ← lift (map_err Crypto (from_private_key_to_public_key identity_secret));
  let signing_secret := signature_private_key_from_bytes signing_secret_bytes in
  signing_public ← lift (map_err Crypto (from_signature_private_to_public signing_secret));
  let prekey_secret := kem_private_key_from_bytes prekey_secret_bytes in
  prekey_public ← lift (map_err Crypto (from_private_key_to_public_key prekey_secret));
  update (λ km, km <| identity_key := Some (identity_secret, identity_public) |>
    <| signing_key := Some (signing_secret, signing_public) |>
    <| current_signed_prekey := Some (mkPrekeyStore _ _ (prekey_secret, prekey_public) prekey_signature 0 1 None) |>).

Definition set_hybrid_signature_private (priv_bytes : bytes) : km_method unit :=
  if negb (len priv_bytes =? HYBRID_SIG_SECRET_KEY_SIZE)
  then throw (Crypto (InvalidInputError "hybrid sig priv size")) else
  update (λ km, km <| hybrid_sig_priv := Some priv_bytes |>).

Definition initialize_from_keys_with_id_and_hybrid (identity signing prekey signature : bytes) (spk_id : Z)
    (hybrid : option bytes) : km_method unit :=
  initialize_from_keys identity signing prekey signature;;
  update (λ km, km <| current_signed_prekey := (λ p, p <| ps_key_id := spk_id |>) <$> current_signed_prekey km |>);;
  km ← self;
  (if spk_id >=? next_prekey_id km then update (λ km, km <| next_prekey_id := sat_add32 spk_id 1 |>) else mret tt);;
  match hybrid with Some h => set_hybrid_signature_private h | None => mret tt end.

Definition get_prekey (km : KeyManager) (key_id : Z) : option PrekeyStore :=
  match current_signed_prekey km with
  | Some current => if ps_key_id current =? key_id then Some current else old_prekeys km !! key_id
  | None => old_prekeys km !! key_id
  end.

Definition export_registration_bundle (km : KeyManager) : res ConstructError X3DHPublicKeyBundle :=
  identity ← identity_public_key km;
  vk ← verifying_key km;
  prekey ← signed_prekey km;
  Ok (mkX3DHPublicKeyBundle (kem_public_ref identity) (kem_public_ref (ps_key_pair prekey).2) (ps_signature prekey)
        (signature_public_ref vk) (from_u16_unchecked provider_suite_id) None None 0 0 0 0).

Definition export_device_registration_bundle (km : KeyManager) : res ConstructError X3DHRegistrationBundle :=
  identity ← identity_public_key km;
  vk ← verifying_key km;
  prekey ← signed_prekey km;
  Ok (mkX3DHRegistrationBundle (kem_public_ref identity) (kem_public_ref (ps_key_pair prekey).2) (ps_signature prekey)
        (signature_public_ref vk) (from_u16_unchecked provider_suite_id)).

(** The KEM identity: derived from the ML-DSA seed of the hybrid key. *)
Definition kem_identity_seed (km : KeyManager) : res ConstructError bytes :=
  hybrid ← ok_or (hybrid_sig_priv km) (other "KEM identity: no hybrid signature key to derive it from");
  mldsa_seed ← match slice (E := ConstructError) ED25519_SECRET_KEY_SIZE (ED25519_SECRET_KEY_SIZE + ML_DSA_65_SECRET_KEY_SIZE) hybrid with
               | Ok b => Ok b
               | _ => Err (other "KEM identity: hybrid signature key too short")
               end;
  map_err Crypto (hkdf_derive_key [] mldsa_seed KEM_IDENTITY_SEED_INFO MLKEM_SEED_SIZE).
Definition kem_identity_public (km : KeyManager) : res ConstructError bytes :=
  seed ← kem_identity_seed km; map_err other (mlkem1024_public_from_seed seed).
Definition kem_identity_decapsulate (km : KeyManager) (ciphertext : bytes) : res ConstructError bytes :=
  seed ← kem_identity_seed km; map_err other (mlkem1024_decapsulate seed ciphertext).

Definition decapsulate_with_kyber_prekey (km : KeyManager) (key_id : Z) (ciphertext : bytes) : res ConstructError bytes :=
  prekey ← ok_or (if key_id =? 0 then ks_spk (kyber_prekeys km) else kyber_find (kyber_prekeys km) key_id)
                 (other "Kyber prekey not held");
  map_err other (mlkem1024_decapsulate (kp_seed prekey) ciphertext).

Definition add_old_prekey (spk_priv_bytes spk_sig : bytes) (key_id created_at : Z) (retired_at : option Z) : km_method unit :=
  let max_age := prekey_cleanup_period_secs global in
  now ← current_timestamp;
  let retired_at := default now retired_at in
  if i64_sub now retired_at >=? max_age then mret tt else
  let secret := kem_private_key_from_bytes spk_priv_bytes in
  public ← lift (map_err Crypto (from_private_key_to_public_key secret));
  update (λ km, km <| old_prekeys :=
    <[key_id := mkPrekeyStore _ _ (secret, public) spk_sig created_at key_id (Some retired_at)]> (old_prekeys km) |>);;
  km ← self;
  if key_id >=? next_prekey_id km then update (λ km, km <| next_prekey_id := sat_add32 key_id 1 |>) else mret tt.

(** ** One-time prekeys *)

(** One round of the loop of [generate_one_time_prekeys]. *)
Definition generate_one_time_prekey : km_method (Z * bytes) :=
  '(private_key, public_key) ← map_err_m Crypto (on_world generate_kem_keys);
  km ← self;
  let key_id := next_otpk_id km in
  update (λ km, km <| next_otpk_id := wrapping_add32 (next_otpk_id km) 1 |>
                   <| one_time_prekeys := <[key_id := (private_key, public_key)]> (one_time_prekeys km) |>);;
  mret (key_id, kem_public_ref public_key).

Fixpoint generate_one_time_prekeys (count : nat) : km_method (list (Z * bytes)) :=
  match count with
  | O => mret []
  | S count => k ← generate_one_time_prekey; ks ← generate_one_time_prekeys count; mret (k :: ks)
  end.

Definition peek_one_time_prekey (km : KeyManager) (key_id : Z) : option KemPrivateKey :=
  fst <$> one_time_prekeys km !! key_id.
Definition consume_one_time_prekey (key_id : Z) (km : KeyManager) : KeyManager * option KemPrivateKey :=
  (km <| one_time_prekeys := delete key_id (one_time_prekeys km) |>, peek_one_time_prekey km key_id).
Definition set_next_otpk_id (next_id : Z) (km : KeyManager) : KeyManager :=
  if next_id >? next_otpk_id km then km <| next_otpk_id := next_id |> else km.
Definition prune_one_time_prekeys_below (min_keep_id : Z) (km : KeyManager) : KeyManager * Z :=
  let km' := km <| one_time_prekeys := filter (λ kv, min_keep_id ≤ kv.1) (one_time_prekeys km) |> in
  (km', Z.of_nat (size (one_time_prekeys km)) - Z.of_nat (size (one_time_prekeys km'))).

Definition export_one_time_prekeys (km : KeyManager) : list (Z * bytes * bytes) :=
  (λ kv, (kv.1, kem_private_ref kv.2.1, kem_public_ref kv.2.2)) <$> map_to_list (one_time_prekeys km).

Fixpoint import_one_time_prekeys (keys : list (Z * bytes * bytes)) : km_method unit :=
  match keys with
  | [] => mret tt
  | (key_id, priv_bytes, pub_bytes) :: keys =>
      let priv_key := kem_private_key_from_bytes priv_bytes in
      derived ← attempt (lift (from_private_key_to_public_key priv_key));
      match derived with
      | Ok derived_pub =>
          if decide (kem_public_ref derived_pub = pub_bytes) then
            update (λ km, km <| one_time_prekeys :=
              <[key_id := (priv_key, kem_public_key_from_bytes pub_bytes)]> (one_time_prekeys km) |>
              <| next_otpk_id := if key_id >=? next_otpk_id km then wrapping_add32 key_id 1 else next_otpk_id km |>)
          else mret tt
      | _ => mret tt
      end;;
      import_one_time_prekeys keys
  end.

(** The payloads of [export_otpks_cfe] and [import_otpks_cfe]. *)
Definition export_otpks (km : KeyManager) : CfeOtpkBundleV1 :=
  mkCfeOtpkBundleV1 ((λ '(id, p, q), mkCfeOtpkRecordV1 id p q) <$> export_one_time_prekeys km) (next_otpk_id km).
Definition import_otpks (bundle : CfeOtpkBundleV1) : km_method unit :=
  import_one_time_prekeys ((λ r, (or_id r, or_priv_key r, or_pub_key r)) <$> ob_records bundle);;
  update (set_next_otpk_id (ob_next_id bundle)).

(** [old.sort_by_key(Reverse(key_id))] *)
Definition newer_first (p q : PrekeyStore) : Prop := ps_key_id q ≤ ps_key_id p.
#[global] Instance newer_first_dec p q : Decision (newer_first p q) := Z_le_dec _ _.
Definition all_prekey_private_keys (km : KeyManager) : list KemPrivateKey :=
  option_list ((λ p, (ps_key_pair p).1) <$> current_signed_prekey km) ++
  ((λ p, (ps_key_pair p).1) <$> merge_sort newer_first (map_to_list (old_prekeys km)).*2).

(** ** The key record *)

Definition older_first (p q : CfeOldSpkV1) : Prop := os_spk_id p ≤ os_spk_id q.
#[global] Instance older_first_dec p q : Decision (older_first p q) := Z_le_dec _ _.

Definition old_to_cfe (p : PrekeyStore) : CfeOldSpkV1 :=
  mkCfeOldSpkV1 (kem_private_ref (ps_key_pair p).1) (ps_signature p) (ps_key_id p) (ps_created_at p) (ps_retired_at p).

Definition to_private_keys_cfe (km : KeyManager) : res ConstructError CfePrivateKeysV1 :=
  identity_secret ← identity_secret_key km;
  signing_secret ← signing_secret_key km;
  prekey ← signed_prekey km;
  ik_pub ← map_err Crypto (from_private_key_to_public_key identity_secret);
  vk_pub ← map_err Crypto (from_signature_private_to_public signing_secret);
  spk_pub ← map_err Crypto (from_private_key_to_public_key (ps_key_pair prekey).1);
  Ok {|
    cpk_suite_id := 1;
    cpk_ik_priv := kem_private_ref identity_secret;
    cpk_sk_priv := signature_private_ref signing_secret;
    cpk_spk_priv := kem_private_ref (ps_key_pair prekey).1;
    cpk_spk_sig := ps_signature prekey;
    cpk_spk_id := default 0 (current_signed_prekey_id km);
    cpk_ik_pub := kem_public_ref ik_pub;
    cpk_vk_pub := signature_public_ref vk_pub;
    cpk_spk_pub := kem_public_ref spk_pub;
    cpk_old_spks := merge_sort older_first (old_to_cfe <$> (map_to_list (old_prekeys km)).*2);
    cpk_hybrid_sig_priv := hybrid_sig_priv km;
  |}.

Fixpoint add_old_prekeys (l : list CfeOldSpkV1) : km_method unit :=
  match l with
  | [] => mret tt
  | e :: l => add_old_prekey (os_spk_priv e) (os_spk_sig e) (os_spk_id e) (os_created_at e) (os_retired_at e);;
              add_old_prekeys l
  end.

(** The key manager of [from_private_keys_cfe]. *)
Definition km_from_private_keys_cfe (keys : CfePrivateKeysV1) : stm World ConstructError KeyManager := λ w,
  let '((km, w), r) :=
    (initialize_from_keys_with_id_and_hybrid (cpk_ik_priv keys) (cpk_sk_priv keys) (cpk_spk_priv keys) (cpk_spk_sig keys)
       (cpk_spk_id keys) (cpk_hybrid_sig_priv keys);;
     add_old_prekeys (cpk_old_spks keys)) (km_new, w) in
  (w, r ≫= λ _, Ok km).

(** [import_kyber_prekeys] *)
Definition import_kyber_prekeys (record : CfeKyberPrekeysV1) : km_method unit :=
  now ← now;
  ks ← lift (map_err other (kyber_from_cfe record now));
  update (λ km, km <| kyber_prekeys := ks |>).

(** A restart: the three records a device keeps of its keys, written and read
    back into a new key manager. *)
Definition restart : km_method unit :=
  km ← self;
  record ← lift (to_private_keys_cfe km);
  km' ← on_world (km_from_private_keys_cfe record);
  update (λ _, km');;
  import_otpks (export_otpks km);;
  import_kyber_prekeys (kyber_to_cfe (kyber_prekeys km)).
End keys.

(** ** The invariant *)

Section invariant.
Context `{MlKem1024Crate} `{!CryptoProvider}.

Record prekey_ok (ssk : SignaturePrivateKey) (p : PrekeyStore) : Prop := {
  po_pair : pair_of (ps_key_pair p).1 (ps_key_pair p).2;
  po_signature : sign ssk (build_prologue (from_u16_unchecked provider_suite_id) ++ kem_public_ref (ps_key_pair p).2)
    = Ok (ps_signature p);
}.

Record long_term := mkLongTerm {
  lt_ik : KemPrivateKey; lt_ip : KemPublicKey; lt_ssk : SignaturePrivateKey; lt_svk : SignaturePublicKey }.

(** An initialised key manager with the long-term keys [lt] and the current
    signed prekey [p]. *)
Record km_ok (lt : long_term) (p : PrekeyStore) (km : KeyManager) : Prop := {
  ko_identity : identity_key km = Some (lt_ik lt, lt_ip lt) ∧ pair_of (lt_ik lt) (lt_ip lt);
  ko_signing : signing_key km = Some (lt_ssk lt, lt_svk lt) ∧ from_signature_private_to_public (lt_ssk lt) = Ok (lt_svk lt);
  ko_current : current_signed_prekey km = Some p;
  ko_prekey : prekey_ok (lt_ssk lt) p ∧ ps_retired_at p = None;
  ko_next : next_prekey_id km = ps_key_id p + 1 ∧ 1 ≤ ps_key_id p < u32_max;
  ko_old : ∀ i q, old_prekeys km !! i = Some q →
    ps_key_id q = i ∧ 1 ≤ i < ps_key_id p ∧ prekey_ok (lt_ssk lt) q ∧ ∃ t, ps_retired_at q = Some t ∧ t < 2 ^ 63;
  ko_otpks : ∀ i k, one_time_prekeys km !! i = Some k → pair_of k.1 k.2 ∧ 1000000 ≤ i < next_otpk_id km;
  ko_next_otpk : 1000000 ≤ next_otpk_id km ≤ u32_max;
  ko_hybrid : ∀ h, hybrid_sig_priv km = Some h → len h = HYBRID_SIG_SECRET_KEY_SIZE;
  ko_kyber : kyber_wf (kyber_prekeys km);
}.

(** A private key that is the current prekey's, or was rotated out at [r] or
    later. *)
Definition serves (r : Z) (k : KemPrivateKey) (km : KeyManager) : Prop :=
  (∃ p, current_signed_prekey km = Some p ∧ (ps_key_pair p).1 = k) ∨
  (∃ i q t, old_prekeys km !! i = Some q ∧ (ps_key_pair q).1 = k ∧ ps_retired_at q = Some t ∧ r ≤ t).

(** The world moves on with every use the key manager makes of it. *)
Inductive world_step : World → World → Prop :=
  | ws_clock w : world_step w (clock w).1
  | ws_keys w : world_step w (generate_kem_keys w).1.
#[local] Abbreviation passes := (rtc world_step).

(** The clock is read at [u] on the way from [w] to [w']. *)
Definition read_between (w u w' : World) : Prop := passes w u ∧ passes (clock u).1 w'.

(** Every reading of the clock from [w] to [w'] falls in the retention window
    from [r]. *)
Definition in_window (r : Z) (w w' : World) : Prop :=
  0 ≤ r ∧ r + SPK_RETENTION_AFTER_ROTATION_SECS ≤ 2 ^ 63 ∧
  ∀ u, read_between w u w' → r ≤ (clock u).2 < r + SPK_RETENTION_AFTER_ROTATION_SECS.

Lemma read_between_mono w0 w u w' w1 : passes w0 w → passes w' w1 → read_between w u w' → read_between w0 u w1.
Proof. intros Ha Hb [Hc Hd]. split; by etrans. Qed.

Lemma in_window_mono r w0 w w' w1 : passes w0 w → passes w' w1 → in_window r w0 w1 → in_window r w w'.
Proof. intros Ha Hb (? & ? & Hr). split_and!; [done..|]. intros u Hu. by apply Hr, (read_between_mono w0 w u w' w1). Qed.

Lemma read_here w u u' t w' : passes w u → clock u = (u', t) → passes u' w' → read_between w u w'.
Proof. intros Ha Hc Hb. split; [done|]. by rewrite Hc. Qed.

Lemma passes_clock w w' t : clock w = (w', t) → passes w w'.
Proof. intros Hc. apply rtc_once. replace w' with (clock w).1 by by rewrite Hc. constructor. Qed.

Lemma as_i64_small z : 0 ≤ z < 2 ^ 63 → as_i64 z = z.
Proof. intros Hz. unfold as_i64. rewrite Z.mod_small by lia. lia. Qed.

Lemma as_i64_bound z : as_i64 z < 2 ^ 63.
Proof. unfold as_i64. pose proof (Z.mod_pos_bound (z + 2 ^ 63) (2 ^ 64)). lia. Qed.

Lemma window_reading r w u w' : in_window r w w' → read_between w u w' →
  as_i64 (clock u).2 = (clock u).2 ∧ r ≤ (clock u).2 < r + SPK_RETENTION_AFTER_ROTATION_SECS.
Proof. intros (Ha & Hb & Hc) Hu. specialize (Hc u Hu). split; [|done]. apply as_i64_small. lia. Qed.

Lemma cleanup_period : prekey_cleanup_period_secs global = SPK_RETENTION_AFTER_ROTATION_SECS.
Proof. by vm_compute. Qed.

Lemma window_live r w u w' q t : in_window r w w' → read_between w u w' → ps_retired_at q = Some t → r ≤ t < 2 ^ 63 →
  prekey_live (as_i64 (clock u).2) (prekey_cleanup_period_secs global) q = true.
Proof.
  intros Hr Hu Hq Ht. destruct (window_reading r w u w' Hr Hu) as [He Hc]. destruct Hr as (Ha & Hb & _).
  unfold prekey_live. rewrite Hq, cleanup_period. apply Z.ltb_lt. simpl.
  replace t with (as_i64 t) by (apply as_i64_small; lia). rewrite i64_sub_small by lia. lia.
Qed.

(** ** Rotation *)

(** What a rotation makes of the key manager, for the clock's three readings. *)
Definition rotated (kp : KemPrivateKey * KemPublicKey) (sig : bytes) (t1 t2 t3 : Z) (km : KeyManager) : KeyManager :=
  let km1 := retire_current_prekey t2 (km <| next_prekey_id := sat_add32 (next_prekey_id km) 1 |>) in
  let km2 := km1 <| current_signed_prekey := Some (mkPrekeyStore _ _ kp sig t1 (next_prekey_id km) None) |> in
  km2 <| old_prekeys := filter (λ kv, prekey_live t3 (prekey_cleanup_period_secs global) kv.2 = true) (old_prekeys km2) |>.

Context `{!ProviderLaws} `{!SignatureLaws}.

Lemma wp_generate_pair {S} (s : S) w Q (R : ConstructError → S * World → Prop) :
  (∀ w' sk pk, passes w w' → pair_of sk pk → Q (sk, pk) (s, w')) → wp False (map_err_m Crypto (on_world generate_kem_keys)) (s, w) Q R.
Proof.
  intros HQ. apply wp_map_err_m, wp_on_world. unfold wp. pose proof (ws_keys w) as Hs.
  destruct (generate_kem_keys_ok w) as (w' & sk & pk & Hg & Hp). rewrite Hg in Hs |- *. apply HQ; [by apply rtc_once|done].
Qed.

(** [passes] along a chain of hypotheses. *)
Ltac chain := first [reflexivity | eassumption | etransitivity; [eassumption|chain]].
(** [wp_steps] with the worlds of the readings kept apart. *)
Ltac wp_ticks := repeat first [apply wp_now; let w := fresh "w" in let Hc := fresh "Hc" in intros w Hc | wp_step].

Lemma rotate_rotates km ssk svk w :
  signing_key km = Some (ssk, svk) → from_signature_private_to_public ssk = Ok svk →
  wp False rotate_signed_prekey (km, w)
    (λ _ sw, ∃ kp sig w1 w2 w3, prekey_ok ssk (mkPrekeyStore _ _ kp sig 0 0 None) ∧
      passes w sw.2 ∧ read_between w w2 sw.2 ∧ read_between w w3 sw.2 ∧
      sw.1 = rotated kp sig (as_i64 (clock w1).2) (as_i64 (clock w2).2) (as_i64 (clock w3).2) km)
    (λ _ _, False).
Proof.
  intros Hs Hv. unfold rotate_signed_prekey, signing_secret_key. wp_step. wp_step. wp_step. rewrite Hs. apply wp_lift. simpl.
  wp_step. apply wp_generate_pair. intros w1 sk pk Hw1 Hp. simpl.
  destruct (sign_verifies ssk svk (build_prologue (from_u16_unchecked provider_suite_id) ++ kem_public_ref pk) Hv)
    as (sig & Hsig & _ & _).
  wp_step. apply wp_lift. rewrite Hsig. unfold current_timestamp, cleanup_old_prekeys, current_timestamp.
  destruct (current_signed_prekey km) as [p|] eqn:Hc; cbn [map_err bool_decide decide]; simpl; wp_ticks; exists (sk, pk), sig.
  - exists w1, w0, w2. pose proof (passes_clock _ _ _ Hc0). pose proof (passes_clock _ _ _ Hc1). pose proof (passes_clock _ _ _ Hc2).
    split_and!; [by split|cbn [snd]; chain|eapply read_here; [|done|]; cbn [snd]; chain..|].
    unfold rotated, retire_current_prekey. simpl. by rewrite Hc.
  - exists w1, w1, w0. pose proof (passes_clock _ _ _ Hc0). pose proof (passes_clock _ _ _ Hc1).
    split_and!; [by split|cbn [snd]; chain|eapply read_here; [|done|]; cbn [snd]; chain..|].
    unfold rotated, retire_current_prekey. simpl. by rewrite Hc.
Qed.

Lemma rotated_ok lt p km kp sig t1 t2 t3 :
  km_ok lt p km → next_prekey_id km < u32_max → t2 < 2 ^ 63 →
  prekey_ok (lt_ssk lt) (mkPrekeyStore _ _ kp sig 0 0 None) →
  km_ok lt (mkPrekeyStore _ _ kp sig t1 (next_prekey_id km) None) (rotated kp sig t1 t2 t3 km).
Proof.
  intros [Hi Hs Hc [Hp _] [Hn Hr] Ho Hot Hno Hh Hk] Hlt Ht2 [P1 P2]. unfold rotated, retire_current_prekey. cbn. rewrite Hc.
  split; cbn; try done.
  - unfold sat_add32. lia.
  - intros i q [Hq _]%map_lookup_filter_Some. simpl in Hq. destruct (decide (i = ps_key_id p)) as [->|Hne].
    + rewrite lookup_insert_eq in Hq. injection Hq as <-. cbn. split_and!; [done|lia|lia|by destruct Hp|by eexists].
    + rewrite lookup_insert_ne in Hq by done. destruct (Ho _ _ Hq) as (? & ? & ? & ?). split_and!; [done|lia|lia|done|done].
Qed.

Lemma rotated_serves lt p r k km kp sig t1 w w2 w3 w' :
  km_ok lt p km → in_window r w w' → read_between w w2 w' → read_between w w3 w' →
  serves r k km → serves r k (rotated kp sig t1 (as_i64 (clock w2).2) (as_i64 (clock w3).2) km).
Proof.
  intros [_ _ Hc _ _ Ho _ _ _ _] Hr Hu2 Hu3 Hs. right. unfold rotated, retire_current_prekey. cbn. rewrite Hc. cbn.
  destruct (window_reading r w w2 w' Hr Hu2) as [He Hw]. pose proof Hr as (_ & Hmax & _). destruct Hs as [(p' & Hp & Hk)|(i & q & t & Hq & Hk & Ht & Hrt)].
  - assert (p' = p) as -> by congruence. exists (ps_key_id p). eexists _, _. split.
    + apply map_lookup_filter_Some. split; [apply lookup_insert_eq|]. cbn. eapply (window_live r); [done|done|reflexivity|]. lia.
    + split; [done|]. split; [done|]. lia.
  - exists i, q, t. split; [|done]. apply map_lookup_filter_Some. split.
    + rewrite lookup_insert_ne; [done|]. destruct (Ho _ _ Hq) as (_ & ? & _). lia.
    + cbn. eapply (window_live r); [done..|]. split; [done|]. destruct (Ho _ _ Hq) as (_ & _ & _ & t' & ? & ?). congruence.
Qed.

(** ** Restart *)

Definition insert_prekey (m : gmap Z PrekeyStore) (q : PrekeyStore) : gmap Z PrekeyStore := <[ps_key_id q := q]> m.

(** The old prekeys are read back, but for those that have expired. *)
Lemma wp_add_old_prekeys lt p l km w :
  Forall (λ q, 1 ≤ ps_key_id q < ps_key_id p ∧ prekey_ok (lt_ssk lt) q ∧ ∃ t, ps_retired_at q = Some t ∧ t < 2 ^ 63) l →
  next_prekey_id km = ps_key_id p + 1 →
  wp False (add_old_prekeys (old_to_cfe <$> l)) (km, w)
    (λ _ sw, ∃ kept, kept `sublist_of` l ∧
      (∀ r q t, in_window r w sw.2 → q ∈ l → ps_retired_at q = Some t → r ≤ t → q ∈ kept) ∧ passes w sw.2 ∧
      sw.1 = km <| old_prekeys := foldl insert_prekey (old_prekeys km) kept |>)
    (λ _ _, False).
Proof.
  revert km w. induction l as [|q l IH]; intros km w Hl Hn; cbn [fmap list_fmap add_old_prekeys].
  { wp_step. exists []. split_and!; [done|by intros ???? ?%elem_of_nil|done|by destruct km]. }
  apply Forall_cons in Hl as [(Hq & [Hpair Hsig] & t & Ht & Htm) Hl].
  wp_step. unfold add_old_prekey, current_timestamp. wp_ticks; cbn [old_to_cfe os_spk_priv os_spk_sig os_spk_id os_created_at os_retired_at] in *;
    pose proof (passes_clock _ _ _ Hc) as Hp0.
  - eapply wp_mono; [by apply IH| |done]. intros _ [km' w'] (kept & Hk & Hw & Hp & ->). cbn [snd] in *. exists kept.
    split_and!; [by constructor| |chain|done].
    intros r q' t' Hr [->|Hin]%elem_of_cons Ht' Hrt; [|eapply Hw; [by eapply in_window_mono|done..]]. exfalso.
    pose proof (window_live r w w w' q t' Hr (read_here w w _ _ w' ltac:(done) Hc Hp) Ht') as Hlive. unfold prekey_live in Hlive. rewrite Ht in *. simpl in *.
    assert (t' = t) as -> by congruence. rewrite Z.geb_leb, Z.leb_le in Heqb.
    specialize (Hlive (conj Hrt Htm)). apply Z.ltb_lt in Hlive. lia.
  - rewrite kem_private_from_ref. apply wp_lift. rewrite Hpair. cbn [map_err]. wp_steps; cbn in *.
    { rewrite Z.geb_leb, Z.leb_le in *. lia. }
    eapply wp_mono; [by apply IH| |done]. intros _ [km' w'] (kept & Hk & Hw & Hp & ->). cbn [snd] in *. exists (q :: kept).
    split_and!; [by constructor| |chain|].
    + intros r q' t' Hr [->|Hin]%elem_of_cons Ht' Hrt; apply elem_of_cons; [by left|right].
      eapply Hw; [by eapply in_window_mono|done..].
    + rewrite Ht. cbn. unfold insert_prekey at 3. do 3 f_equal. destruct q as [[sk pk] sig c i ra]. simpl in *. by subst.
Qed.

Definition old_list (km : KeyManager) : list PrekeyStore := (map_to_list (old_prekeys km)).*2.

Lemma old_list_elem lt p km q : km_ok lt p km → q ∈ old_list km ↔ old_prekeys km !! ps_key_id q = Some q.
Proof.
  intros Hk. unfold old_list. rewrite list_elem_of_fmap. split.
  - intros ([i x] & -> & Hi%elem_of_map_to_list). simpl. by destruct (ko_old _ _ _ Hk _ _ Hi) as (-> & _).
  - intros Hq. exists (ps_key_id q, q). split; [done|]. by apply elem_of_map_to_list.
Qed.

Lemma old_list_ids lt p km : km_ok lt p km → NoDup (ps_key_id <$> old_list km).
Proof.
  intros Hk. unfold old_list. rewrite <- list_fmap_compose. rewrite (list_fmap_ext _ fst); [apply NoDup_fst_map_to_list|].
  intros n [i q] Hi. apply list_elem_of_lookup_2, elem_of_map_to_list in Hi. by destruct (ko_old _ _ _ Hk _ _ Hi).
Qed.

Lemma insert_prekeys_lookup l q : NoDup (ps_key_id <$> l) → ∀ i,
  foldl insert_prekey ∅ l !! i = Some q ↔ q ∈ l ∧ ps_key_id q = i.
Proof.
  intros Hn i. unfold insert_prekey. rewrite (foldl_collect ps_key_id (λ q, q)). change (foldl _ ∅ ?x) with (collect_map x).
  rewrite collect_map_lookup by (rewrite <- list_fmap_compose; exact Hn). rewrite list_elem_of_fmap. split.
  - by intros (x & [= -> ->] & ?).
  - intros [Hq <-]. by exists q.
Qed.

(** What the key record of [km] is read back as. *)
Record reread (w w' : World) (km km' : KeyManager) : Prop := {
  rr_passes : passes w w';
  rr_identity : identity_key km' = identity_key km;
  rr_signing : signing_key km' = signing_key km;
  rr_current : current_signed_prekey km' = (λ p, p <| ps_created_at := 0 |>) <$> current_signed_prekey km;
  rr_next : next_prekey_id km' = next_prekey_id km;
  rr_old : old_prekeys km' ⊆ old_prekeys km;
  rr_kept : ∀ r i q t, in_window r w w' → old_prekeys km !! i = Some q → ps_retired_at q = Some t → r ≤ t →
    old_prekeys km' !! i = Some q;
  rr_hybrid : hybrid_sig_priv km' = hybrid_sig_priv km;
}.

Lemma wp_new_object {S E} (m : method S E unit) (s : S) w (Q : S → World → Prop) (R : E → World → Prop) :
  wp False m (s, w) (λ _ sw, Q sw.1 sw.2) (λ e sw, R e sw.2) →
  wp False (λ w, let '((s', w'), r) := m (s, w) in (w', r ≫= λ _, Ok s')) w Q R.
Proof. unfold wp. by destruct (m (s, w)) as [[s' w'] [?|?|]]. Qed.

Lemma wp_set_hybrid km w h Q (R : ConstructError → KeyManager * World → Prop) : len h = HYBRID_SIG_SECRET_KEY_SIZE →
  Q tt (km <| hybrid_sig_priv := Some h |>, w) → wp False (set_hybrid_signature_private h) (km, w) Q R.
Proof. intros Hh HQ. unfold set_hybrid_signature_private. rewrite Hh. simpl. by wp_steps. Qed.

Lemma record_reread lt p km w rec : km_ok lt p km → to_private_keys_cfe km = Ok rec →
  wp False (km_from_private_keys_cfe rec) w
    (λ km' w', reread w w' km km' ∧ one_time_prekeys km' = ∅ ∧ next_otpk_id km' = 1000000)
    (λ _ _, False).
Proof.
  intros Hk. pose proof Hk as [[Hi Hip] [Hs Hsp] Hc [[Hpp Hps] Hpr] [Hn Hr] Ho _ _ Hh _].
  unfold to_private_keys_cfe, identity_secret_key, signing_secret_key, signed_prekey, current_signed_prekey_id.
  rewrite Hi, Hs, Hc. simpl. rewrite Hip, Hsp, Hpp. simpl. intros [= <-].
  set (l := merge_sort older_first _).
  assert (∃ l', l = old_to_cfe <$> l' ∧ l' ≡ₚ old_list km) as (l' & El & Hl').
  { destruct (Permutation_map_inv old_to_cfe (l1 := l) (old_list km)) as (l' & -> & Hp); [apply merge_sort_Permutation|].
    exists l'. split; [done|]. by symmetry. }
  unfold km_from_private_keys_cfe. cbn [cpk_ik_priv cpk_sk_priv cpk_spk_priv cpk_spk_sig cpk_spk_id cpk_hybrid_sig_priv cpk_old_spks].
  apply wp_new_object. unfold initialize_from_keys_with_id_and_hybrid, initialize_from_keys.
  rewrite !kem_private_from_ref, signature_private_from_ref. wp_steps.
  apply wp_lift. rewrite Hip. cbn [map_err]. wp_steps. apply wp_lift. rewrite Hsp. cbn [map_err]. wp_steps.
  apply wp_lift. rewrite Hpp. cbn [map_err]. do 5 wp_step. simpl.
  rewrite Z.geb_leb, (proj2 (Z.leb_le _ _)) by (simpl; lia).
  wp_step. wp_step. simpl.
  set (km1 := mkKeyManager _ _ _ _ _ _ _ _ _ _ _).
  assert (∀ h, wp False (add_old_prekeys l) (km1 <| hybrid_sig_priv := h |>, w)
    (λ _ sw, (h = hybrid_sig_priv km → reread w sw.2 km sw.1) ∧ one_time_prekeys sw.1 = ∅ ∧ next_otpk_id sw.1 = 1000000) (λ _ _, False)) as Hadd.
  { intros h. rewrite El. eapply wp_mono; [apply (wp_add_old_prekeys lt p)| |done].
    - apply Forall_forall. intros q Hq. rewrite Hl', old_list_elem in Hq by done. destruct (Ho _ _ Hq) as (_ & ? & ? & ?). done.
    - simpl. unfold sat_add32. lia.
    - intros _ [km2 w2] (kept & Hsub & Hkeep & Hpw & ->). split; [|done]. intros ->.
      assert (NoDup (ps_key_id <$> kept)) as Hnd.
      { eapply sublist_NoDup; [|apply fmap_sublist, Hsub]. rewrite Hl'. by eapply old_list_ids. }
      split; simpl; try done.
      + rewrite Hc. clear -Hpr. destruct p as [[? ?] ? ? ? ?]. simpl in *. by subst.
      + unfold sat_add32. lia.
      + apply map_subseteq_spec. intros i q [Hq <-]%(insert_prekeys_lookup _ _ Hnd).
        rewrite <- old_list_elem, <- Hl' by done. by eapply elem_of_sublist.
      + intros r i q t Hrw Hq Ht Hrt. destruct (Ho _ _ Hq) as (<- & _). apply (insert_prekeys_lookup _ _ Hnd).
        split; [|done]. eapply Hkeep; [done| |done..]. by rewrite Hl', old_list_elem. }
  destruct (hybrid_sig_priv km) as [h|] eqn:Eh.
  - apply wp_set_hybrid; [by apply Hh|]. eapply wp_mono; [apply (Hadd (Some h))| |done]. naive_solver.
  - wp_step. eapply wp_mono; [apply (Hadd None)| |done]. naive_solver.
Qed.

(** The exported one-time prekeys, read into [km]. *)
Definition otpk_entry (kv : Z * (KemPrivateKey * KemPublicKey)) : Z * bytes * bytes :=
  (kv.1, kem_private_ref kv.2.1, kem_public_ref kv.2.2).

Lemma wp_import_otpks l top km w :
  Forall (λ kv, pair_of kv.2.1 kv.2.2 ∧ 0 ≤ kv.1 < top) l → top ≤ u32_max → 0 ≤ next_otpk_id km ≤ top →
  wp False (import_one_time_prekeys (otpk_entry <$> l)) (km, w)
    (λ _ sw, ∃ n, next_otpk_id km ≤ n ≤ top ∧ sw.2 = w ∧
      sw.1 = km <| one_time_prekeys := foldl (λ m kv, <[kv.1 := kv.2]> m) (one_time_prekeys km) l |> <| next_otpk_id := n |>)
    (λ _ _, False).
Proof.
  intros Hl Ht. revert km w. induction Hl as [|[i [sk pk]] l [Hp Hi] _ IH]; intros km w Hn; cbn [fmap list_fmap import_one_time_prekeys].
  { wp_step. exists (next_otpk_id km). split; [lia|]. split; [done|]. by destruct km. }
  simpl in Hp, Hi. cbn [otpk_entry fst snd]. wp_steps. rewrite kem_private_from_ref. apply wp_lift. rewrite Hp.
  wp_step. rewrite decide_True by done. wp_step. rewrite kem_public_from_ref.
  assert (∃ n, (if i >=? next_otpk_id km then wrapping_add32 i 1 else next_otpk_id km) = n ∧ next_otpk_id km ≤ n ≤ top) as (n & En & Hnn).
  { eexists. split; [done|]. rewrite Z.geb_leb. unfold wrapping_add32, u32_max in *. destruct (Z.leb_spec (next_otpk_id km) i); [|lia].
    rewrite Z.mod_small by lia. lia. }
  rewrite En. eapply wp_mono; [apply IH; simpl; lia| |done]. intros _ [km' w'] (n' & Hn' & Hw' & ->). exists n'. simpl in *. split; [lia|done].
Qed.

Lemma otpks_reread lt p km : km_ok lt p km → ∀ km1 w, one_time_prekeys km1 = ∅ → next_otpk_id km1 = 1000000 →
  wp False (import_otpks (export_otpks km)) (km1, w)
    (λ _ sw, sw.2 = w ∧ sw.1 = km1 <| one_time_prekeys := one_time_prekeys km |> <| next_otpk_id := next_otpk_id km |>) (λ _ _, False).
Proof.
  intros [_ _ _ _ _ _ Ho Hn _ _] km1 w He H1m. unfold import_otpks, export_otpks. cbn [ob_records ob_next_id]. wp_step.
  replace ((λ r, (or_id r, or_priv_key r, or_pub_key r)) <$> ((λ '(id, p, q), mkCfeOtpkRecordV1 id p q) <$> export_one_time_prekeys km))
    with (otpk_entry <$> map_to_list (one_time_prekeys km)).
  2:{ unfold export_one_time_prekeys. rewrite <- !list_fmap_compose. apply list_fmap_ext. by intros ? [? [? ?]]. }
  eapply wp_mono; [apply (wp_import_otpks _ (next_otpk_id km))| |done].
  - apply Forall_forall. intros [i k] Hi%elem_of_map_to_list. destruct (Ho _ _ Hi) as [? ?]. simpl. split; [done|lia].
  - lia.
  - lia.
  - intros _ [km' w'] (n & Hnn & Hw' & Hkm). simpl in Hkm, Hw'. subst km' w'. wp_step. split; [done|]. cbn. unfold set_next_otpk_id. cbn. rewrite He.
    change (foldl _ ∅ ?x) with (collect_map x). rewrite (collect_map_entries (one_time_prekeys km) (one_time_prekeys km) snd).
    + destruct (Z.gtb_spec (next_otpk_id km) n); [done|]. by replace n with (next_otpk_id km) by lia.
    + rewrite <- (list_fmap_id (map_to_list (one_time_prekeys km))) at 1. apply Permutation_map_ext. by intros [].
    + intros k v. split; [by eexists|]. by intros (? & ? & ->).
Qed.

Lemma wp_import_kyber km w : kyber_wf (kyber_prekeys km) → ∀ km1,
  wp False (import_kyber_prekeys (kyber_to_cfe (kyber_prekeys km))) (km1, w)
    (λ _ sw, passes w sw.2 ∧ ∃ t, sw.1 = km1 <| kyber_prekeys := prune_retired t (kyber_prekeys km) |>) (λ _ _, False).
Proof.
  intros Hk km1. unfold import_kyber_prekeys. wp_ticks. apply wp_lift. rewrite kyber_reload by done. cbn [map_err]. wp_steps.
  split; [by eapply passes_clock|by eexists].
Qed.

(** A restart restores everything but what has expired. *)
Record restarted (w w' : World) (km km' : KeyManager) : Prop := {
  rs_reread : reread w w' km km';
  rs_otpks : one_time_prekeys km' = one_time_prekeys km;
  rs_next_otpk : next_otpk_id km' = next_otpk_id km;
  rs_kyber : ∃ t, kyber_prekeys km' = prune_retired t (kyber_prekeys km);
}.

Lemma wp_restart lt p km w : km_ok lt p km → wp False restart (km, w) (λ _ sw, restarted w sw.2 km sw.1) (λ _ _, False).
Proof.
  intros Hk. unfold restart. wp_step. wp_step. wp_step. apply wp_lift.
  destruct (to_private_keys_cfe km) as [rec|e|] eqn:Hrec.
  2,3: exfalso; destruct Hk as [[Hi Hip] [Hs Hsp] Hc [[Hpp Hps] Hpr] _ _ _ _ _ _]; revert Hrec;
       unfold to_private_keys_cfe, identity_secret_key, signing_secret_key, signed_prekey; rewrite Hi, Hs, Hc; simpl;
       rewrite Hip, Hsp; simpl; rewrite Hpp; done.
  wp_step. apply wp_on_world. eapply wp_mono; [by eapply record_reread| |done].
  intros km1 w1 ([R0 R1 R2 R3 R4 R5 R6 R7] & He & H1m). wp_steps. eapply wp_mono; [by eapply otpks_reread| |done].
  intros _ [km2 w2] [Hw2 Hkm2]. simpl in Hw2, Hkm2. subst km2 w2. eapply wp_mono; [apply wp_import_kyber, Hk| |done].
  intros _ [km3 w3] [Hw3 [t Hkm3]]. simpl in Hw3, Hkm3. subst km3. split; [|done|done|by eexists].
  split; try done; simpl; [chain|]. intros. eapply R6; [by eapply in_window_mono|done..].
Qed.

Lemma restarted_ok lt p w w' km km' : km_ok lt p km → restarted w w' km km' → km_ok lt (p <| ps_created_at := 0 |>) km'.
Proof.
  intros [Hi Hs Hc [[Hpp Hps] Hpr] [Hn Hr] Ho Hot Hno Hh Hk] [[_ R1 R2 R3 R4 R5 R6 R7] E1 E2 [t E3]].
  split; rewrite ?R1, ?R2, ?R4, ?R7, ?E1, ?E2, ?E3; try done.
  - rewrite R3, Hc. done.
  - intros i q Hq. apply (lookup_weaken _ _ _ _ Hq) in R5. by apply Ho.
  - by apply prune_retired_wf.
Qed.

Lemma restarted_serves r k w w' km km' : in_window r w w' → restarted w w' km km' → serves r k km → serves r k km'.
Proof.
  intros Hr [[_ _ _ R3 _ _ R6 _] _ _ _] [(p & Hp & Hk)|(i & q & t & Hq & Hk & Ht & Hrt)].
  - left. rewrite R3, Hp. by eexists.
  - right. exists i, q, t. split; [by eapply R6|done].
Qed.

(** ** Operations *)

Inductive km_op := KmRotate | KmGenerate (count : nat) | KmConsume (id : Z) | KmPrune (min_keep : Z) | KmRestart.

(** One operation; its result is the one-time prekeys handed out for upload. *)
Definition km_exec (o : km_op) : method KeyManager ConstructError (list (Z * bytes)) :=
  match o with
  | KmRotate => rotate_signed_prekey;; mret []
  | KmGenerate count => generate_one_time_prekeys count
  | KmConsume id => update (λ km, (consume_one_time_prekey id km).1);; mret []
  | KmPrune min_keep => update (λ km, (prune_one_time_prekeys_below min_keep km).1);; mret []
  | KmRestart => restart;; mret []
  end.

Fixpoint km_run (ops : list km_op) : method KeyManager ConstructError (list (Z * bytes)) :=
  match ops with
  | [] => mret []
  | o :: ops => new ← km_exec o; rest ← km_run ops; mret (new ++ rest)
  end.

(** How many ids of each counter the operations use up. *)
Definition rotations (o : km_op) : Z := match o with KmRotate => 1 | _ => 0 end.
Definition generated (o : km_op) : Z := match o with KmGenerate n => Z.of_nat n | _ => 0 end.
Definition total (f : km_op → Z) (ops : list km_op) : Z := foldr (λ o n, f o + n) 0 ops.

Definition drops (o : km_op) (id : Z) : Prop :=
  match o with KmConsume i => i = id | KmPrune n => id < n | _ => False end.
#[global] Instance drops_dec o id : Decision (drops o id).
Proof. destruct o; simpl; apply _. Defined.

(** The private half of the public key handed out under [id] is there. *)
Definition holds (km : KeyManager) (id : Z) (pub : bytes) : Prop :=
  ∃ sk pk, peek_one_time_prekey km id = Some sk ∧ pair_of sk pk ∧ kem_public_ref pk = pub.

(** The private half of the current signed prekey. *)
Definition current_private (km : KeyManager) : option KemPrivateKey := (λ p, (ps_key_pair p).1) <$> current_signed_prekey km.

(** What operations [ops], which hand out [ids], do to the key manager [km] from
    the world [w] on. *)
Record km_steps lt (ops : list km_op) w km (ids : list (Z * bytes)) (sw : KeyManager * World) : Prop := {
  ks_passes : passes w sw.2;
  ks_ok : ∃ p, km_ok lt p sw.1 ∧ next_prekey_id sw.1 ≤ next_prekey_id km + total rotations ops;
  ks_otpk : next_otpk_id km ≤ next_otpk_id sw.1 ≤ next_otpk_id km + total generated ops;
  ks_ids : NoDup ids.*1 ∧ Forall (λ id, next_otpk_id km ≤ id < next_otpk_id sw.1) ids.*1;
  ks_held : ∀ id pub, holds km id pub ∨ (id, pub) ∈ ids → Forall (λ o, ¬ drops o id) ops → holds sw.1 id pub;
  ks_serves : ∀ r k, in_window r w sw.2 → serves r k km → serves r k sw.1;
  ks_current : total rotations ops = 0 → current_private sw.1 = current_private km;
}.

Lemma km_steps_nil lt p w km : km_ok lt p km → km_steps lt [] w km [] (km, w).
Proof.
  intros Hk. split; simpl; try done.
  - exists p. split; [done|lia].
  - lia.
  - split; [constructor|constructor].
  - by intros id pub [?|?%elem_of_nil] _.
Qed.

Lemma total_nonneg (f : km_op → Z) ops : (∀ o, 0 ≤ f o) → 0 ≤ total f ops.
Proof. intros Hf. induction ops as [|o ops IH]; simpl; [lia|]. specialize (Hf o). lia. Qed.
Lemma rotations_nonneg o : 0 ≤ rotations o.
Proof. destruct o; simpl; lia. Qed.
Lemma generated_nonneg o : 0 ≤ generated o.
Proof. destruct o; simpl; lia. Qed.

Lemma km_steps_app lt o ops w km km1 w1 sw ids ids' :
  km_steps lt [o] w km ids (km1, w1) → km_steps lt ops w1 km1 ids' sw → km_steps lt (o :: ops) w km (ids ++ ids') sw.
Proof.
  intros [W1 (p1 & O1 & N1) G1 [D1 F1] L1 S1 C1] [W2 (p2 & O2 & N2) G2 [D2 F2] L2 S2 C2]. simpl in *.
  pose proof (rotations_nonneg o). pose proof (total_nonneg rotations ops rotations_nonneg). split; simpl.
  - chain.
  - exists p2. split; [done|lia].
  - lia.
  - rewrite fmap_app, Forall_app. split_and!.
    + apply NoDup_app. split_and!; [done| |done]. rewrite Forall_forall in F1, F2. intros i Hi Hi'.
      specialize (F1 _ Hi). specialize (F2 _ Hi'). lia.
    + eapply Forall_impl; [exact F1|]. simpl. lia.
    + eapply Forall_impl; [exact F2|]. simpl. lia.
  - intros id pub Hh [Ho Hops]%Forall_cons. rewrite elem_of_app in Hh. apply L2; [|done].
    destruct Hh as [Hh|[Hh|Hh]]; [left; apply L1; auto..|by right].
  - intros r k Hr Hs. apply S2; [by eapply in_window_mono|]. apply S1; [by eapply in_window_mono|done].
  - intros Hz. rewrite C2 by lia. apply C1. lia.
Qed.

(** An operation that leaves the one-time prekeys alone. *)
Lemma km_steps_other lt o w w' km km' p : km_ok lt p km' → passes w w' →
  next_prekey_id km' ≤ next_prekey_id km + rotations o → one_time_prekeys km' = one_time_prekeys km →
  next_otpk_id km' = next_otpk_id km → 0 ≤ generated o → (∀ r k, in_window r w w' → serves r k km → serves r k km') →
  (rotations o = 0 → current_private km' = current_private km) → km_steps lt [o] w km [] (km', w').
Proof.
  intros Hk Hw Hn Eo En Hg Hs Hc. split; simpl; try done.
  - exists p. split; [done|lia].
  - lia.
  - split; constructor.
  - intros id pub [Hh|?%elem_of_nil] _; [|done]. unfold holds, peek_one_time_prekey in *. by rewrite Eo.
  - intros Hz. apply Hc. lia.
Qed.

(** An operation that only removes one-time prekeys. *)
Lemma km_steps_drop lt o w km p (P : Z * (KemPrivateKey * KemPublicKey) → Prop) `{!∀ x, Decision (P x)} :
  km_ok lt p km → rotations o = 0 → generated o = 0 → (∀ id k, ¬ drops o id → P (id, k)) →
  km_steps lt [o] w km [] (km <| one_time_prekeys := filter P (one_time_prekeys km) |>, w).
Proof.
  intros Hk Hr Hg HP. split; simpl; try done; try lia.
  - exists p. split; [|lia]. destruct Hk. split; try done. simpl. intros i k [Hi _]%map_lookup_filter_Some. eauto.
  - split; constructor.
  - intros id pub [(sk & pk & Hp & ? & ?)|?%elem_of_nil] [Hd _]%Forall_cons; [|done]. exists sk, pk. split; [|done].
    unfold peek_one_time_prekey in *. simpl. rewrite fmap_Some in *. destruct Hp as (k & Hk' & ->). exists k. split; [|done].
    apply map_lookup_filter_Some. split; [done|]. by apply HP.
Qed.

Lemma wp_generate_one lt p km w : km_ok lt p km → next_otpk_id km < u32_max →
  wp False generate_one_time_prekey (km, w) (λ k sw, km_steps lt [KmGenerate 1] w km [k] sw) (λ _ _, False).
Proof.
  intros Hk Hlt. unfold generate_one_time_prekey. wp_step. apply wp_generate_pair. intros w1 sk pk Hw1 Hp. wp_steps.
  pose proof (ko_next_otpk _ _ _ Hk) as Hno. assert (wrapping_add32 (next_otpk_id km) 1 = next_otpk_id km + 1) as ->.
  { unfold wrapping_add32, u32_max in *. rewrite Z.mod_small; lia. }
  split; simpl; try done; try lia.
  - exists p. split; [|lia]. destruct Hk as [Hi Hs Hc Hpk Hn Ho Hot Hno' Hh Hky]. split; try done; simpl; [|lia]. intros i k.
    destruct (decide (i = next_otpk_id km)) as [->|Hne].
    + rewrite lookup_insert_eq. intros [= <-]. split; [done|lia].
    + rewrite lookup_insert_ne by done. intros [? ?]%Hot. split; [done|lia].
  - split; [apply NoDup_singleton|]. constructor; [lia|constructor].
  - intros id pub Hh _. unfold holds, peek_one_time_prekey in *. simpl. destruct Hh as [(sk' & pk' & Hpk & Hpp & Hr)|Hin].
    + exists sk', pk'. split; [|done]. rewrite lookup_insert_ne; [done|]. intros Heq. apply fmap_Some in Hpk as (k & Hk' & _).
      apply (ko_otpks _ _ _ Hk) in Hk' as [_ ?]. lia.
    + apply list_elem_of_singleton in Hin as [= -> ->]. exists sk, pk. by rewrite lookup_insert_eq.
Qed.

Lemma km_steps_generate lt a b w km km1 w1 sw ids ids' :
  km_steps lt [KmGenerate a] w km ids (km1, w1) → km_steps lt [KmGenerate b] w1 km1 ids' sw →
  km_steps lt [KmGenerate (a + b)] w km (ids ++ ids') sw.
Proof.
  intros Ha Hb. destruct (km_steps_app lt _ _ _ _ _ _ _ _ _ Ha Hb) as [Hw Hs Ho Hi Hh Hv Hc]. simpl in *. split; simpl; try done.
  - lia.
  - intros id pub Hd _. apply Hh; [done|]. repeat constructor; auto.
Qed.

Lemma wp_generate lt p n km w : km_ok lt p km → next_otpk_id km + Z.of_nat n ≤ u32_max →
  wp False (generate_one_time_prekeys n) (km, w) (λ ks sw, km_steps lt [KmGenerate n] w km ks sw) (λ _ _, False).
Proof.
  revert p km w. induction n as [|n IH]; intros p km w Hk Hb; cbn [generate_one_time_prekeys].
  { wp_step. eapply km_steps_other; try done; simpl; lia. }
  wp_step. eapply wp_mono; [eapply wp_generate_one; [done|lia]| |done]. intros k [km1 w1] Hs1. simpl in Hs1.
  pose proof Hs1 as [_ (p1 & Hk1 & _) Ho1 _ _ _ _]. simpl in Ho1. wp_step. eapply wp_mono; [eapply IH; [done|lia]| |done].
  intros ks [km2 w2] Hs2. wp_step. simpl in *. by apply (km_steps_generate lt 1 n w km km1 w1 (km2, w2) [k] ks).
Qed.

Lemma wp_km_exec lt p o km w : km_ok lt p km → next_prekey_id km + rotations o ≤ u32_max → next_otpk_id km + generated o ≤ u32_max →
  wp False (km_exec o) (km, w) (λ ks sw, km_steps lt [o] w km ks sw) (λ _ _, False).
Proof.
  intros Hk Hr Hg. destruct o as [|n|id|m|]; simpl in Hr, Hg; cbn [km_exec].
  - wp_step. destruct (ko_signing _ _ _ Hk) as [Hs Hv]. eapply wp_mono; [by eapply rotate_rotates| |done].
    intros _ [km' w'] (kp & sig & w1 & w2 & w3 & Hp & Hw & Hu2 & Hu3 & Hkm). simpl in Hkm, Hw, Hu2, Hu3. subst km'. wp_step.
    pose proof (rotated_ok lt p km kp sig (as_i64 (clock w1).2) (as_i64 (clock w2).2) (as_i64 (clock w3).2) Hk ltac:(lia) (as_i64_bound _) Hp) as Hk'.
    eapply km_steps_other; [exact Hk'|..]; cbn [rotations generated]; try done.
    + rewrite (proj1 (ko_next _ _ _ Hk')). simpl. lia.
    + unfold rotated, retire_current_prekey. simpl. by destruct (current_signed_prekey km).
    + unfold rotated, retire_current_prekey. simpl. by destruct (current_signed_prekey km).
    + intros r k Hr' Hse. by eapply rotated_serves.
  - by eapply wp_generate.
  - wp_steps. cbn [fst consume_one_time_prekey].
    replace (delete id (one_time_prekeys km)) with (filter (λ kv, kv.1 ≠ id) (one_time_prekeys km)).
    + by eapply km_steps_drop.
    + apply map_eq. intros i. apply option_eq. intros k. rewrite map_lookup_filter_Some, lookup_delete_Some. simpl. naive_solver.
  - wp_steps. cbn [fst prune_one_time_prekeys_below]. eapply km_steps_drop; try done. simpl. lia.
  - wp_step. eapply wp_mono; [by eapply wp_restart| |done]. intros _ [km' w'] Hrs. wp_step. cbn [fst snd] in *.
    pose proof (restarted_ok _ _ _ _ _ _ Hk Hrs) as Hk'. eapply km_steps_other; [exact Hk'|..]; cbn [rotations generated]; try done.
    + apply (rr_passes _ _ _ _ (rs_reread _ _ _ _ Hrs)).
    + rewrite (rr_next _ _ _ _ (rs_reread _ _ _ _ Hrs)). lia.
    + apply Hrs.
    + apply Hrs.
    + intros r k Hr' Hse. by eapply restarted_serves.
    + intros _. unfold current_private. rewrite (rr_current _ _ _ _ (rs_reread _ _ _ _ Hrs)). by destruct (current_signed_prekey km).
Qed.

Lemma total_app (f : km_op → Z) l ops : total f (l ++ ops) = total f l + total f ops.
Proof. induction l as [|o l IH]; simpl; [done|]. rewrite IH. lia. Qed.

Lemma wp_km_run lt p ops km w : km_ok lt p km →
  next_prekey_id km + total rotations ops ≤ u32_max → next_otpk_id km + total generated ops ≤ u32_max →
  wp False (km_run ops) (km, w) (λ ids sw, km_steps lt ops w km ids sw) (λ _ _, False).
Proof.
  revert p km w. induction ops as [|o ops IH]; intros p km w Hk Hr Hg; cbn [km_run]; [wp_step; by eapply km_steps_nil|].
  simpl in Hr, Hg. pose proof (total_nonneg rotations ops rotations_nonneg). pose proof (total_nonneg generated ops generated_nonneg).
  wp_step. eapply wp_mono; [eapply wp_km_exec; [done|lia|lia]| |done]. intros ids [km1 w1] Hs1. simpl in Hs1.
  pose proof Hs1 as [_ (p1 & Hk1 & Hn1) Ho1 _ _ _ _]. simpl in Hn1, Ho1.
  wp_step. eapply wp_mono; [eapply IH; [done|lia|lia]| |done]. intros ids' [km2 w2] Hs2. wp_step. by eapply km_steps_app.
Qed.

(** A new account. *)
Lemma wp_initialize w :
  wp False initialize (km_new, w)
    (λ _ sw, ∃ lt p, km_ok lt p sw.1 ∧ next_prekey_id sw.1 = 2 ∧ next_otpk_id sw.1 = 1000000) (λ _ _, False).
Proof.
  unfold initialize. wp_step. apply wp_generate_pair. intros w1 ik ip _ Hp. wp_steps. unfold wp at 1.
  destruct (generate_signature_keys_ok w1) as (w2 & ssk & svk & -> & Hv). simpl. wp_steps.
  eapply wp_mono; [by eapply rotate_rotates| |done]. intros _ [km w3] (kp & sig & a & b & c & Hpk & _ & _ & _ & Hkm). simpl in Hkm. subst km.
  exists (mkLongTerm ik ip ssk svk), (mkPrekeyStore _ _ kp sig (as_i64 (clock a).2) 1 None). cbn. split; [|done].
  split; simpl; try done.
  - split; [by split; apply Hpk|done].
  - apply kyber_default_wf.
Qed.

(** An account with these keys, after any operations since it was made. *)
Definition account (before : list km_op) (km : KeyManager) (w : World) : Prop :=
  ∃ w0 w1 km0 ids, initialize (km_new, w0) = ((km0, w1), Ok tt) ∧ km_run before (km0, w1) = ((km, w), Ok ids) ∧
    2 + total rotations before ≤ u32_max ∧ 1000000 + total generated before ≤ u32_max.

Lemma account_ok before km w : account before km w → ∃ lt p, km_ok lt p km ∧
  next_prekey_id km ≤ 2 + total rotations before ∧ next_otpk_id km ≤ 1000000 + total generated before.
Proof.
  intros (w0 & w1 & km0 & ids & Hi & Hr & Hb1 & Hb2). pose proof (wp_initialize w0) as Hw. unfold wp in Hw. rewrite Hi in Hw.
  destruct Hw as (lt & p & Hk & Hn & Ho). simpl in Hk, Hn, Ho. pose proof (wp_km_run lt p before km0 w1 Hk ltac:(lia) ltac:(lia)) as Hw. unfold wp in Hw.
  rewrite Hr in Hw. destruct Hw as [_ (p' & Hk' & Hn') Ho' _ _ _ _]. simpl in *. exists lt, p'. split; [done|lia].
Qed.

Lemma account_runs before w0 :
  let x := initialize (km_new, w0) in let y := km_run before x.1 in
  x.2 = Ok tt → is_ok y.2 = true → 2 + total rotations before ≤ u32_max → 1000000 + total generated before ≤ u32_max →
  account before y.1.1 y.1.2.
Proof.
  intros x y Hx Hy Hr Hg. exists w0, x.1.2, x.1.1. unfold y in *. clear y. fold x. destruct x as [[km1 w1] r]. simpl in *. subst r.
  destruct (km_run before (km1, w1)) as [[km2 w2] [ids| |]]; [|done..]. by exists ids.
Qed.

(** C18: One-time prekeys, over any sequence of operations of an account, rotations,
    generation, use, pruning and restarts from the stored records, while the counters
    stay within 32 bits: every operation succeeds; no id is handed out twice and
    none is 0, which stands for no prekey; and the private half of a public key that
    was handed out is there until it is used or pruned. *)
Theorem one_time_prekeys_kept before km w ops :
  account before km w → 2 + total rotations (before ++ ops) ≤ u32_max →
  1000000 + total generated (before ++ ops) ≤ u32_max →
  ∃ km' w' ids, km_run ops (km, w) = ((km', w'), Ok ids) ∧ NoDup ids.*1 ∧ Forall (λ id, id ≠ 0) ids.*1 ∧
    ∀ id pub, holds km id pub ∨ (id, pub) ∈ ids → Forall (λ o, ¬ drops o id) ops → holds km' id pub.
Proof.
  intros (lt & p & Hk & Hn & Ho)%account_ok Hr Hg.
  rewrite total_app in Hr, Hg. pose proof (wp_km_run lt p ops km w Hk ltac:(lia) ltac:(lia)) as Hw. unfold wp in Hw.
  destruct (km_run ops (km, w)) as [[km' w'] [ids|e|]]; [|done..]. destruct Hw as [_ _ _ [Hd Hi] Hh _ _].
  exists km', w', ids. split_and!; [done..| |done]. pose proof (ko_next_otpk _ _ _ Hk).
  eapply Forall_impl; [exact Hi|]. simpl. lia.
Qed.

Lemma serves_candidate r k km : serves r k km → k ∈ all_prekey_private_keys km.
Proof.
  intros [(p & Hp & <-)|(i & q & t & Hq & <- & _)]; unfold all_prekey_private_keys; apply elem_of_app.
  - left. rewrite Hp. set_solver.
  - right. apply (list_elem_of_fmap_2 (λ p, (ps_key_pair p).1)). rewrite merge_sort_Permutation.
    apply list_elem_of_fmap. exists (i, q). split; [done|]. by apply elem_of_map_to_list.
Qed.

(** The bundle of an account is signed, and names the keys it holds. *)
Lemma km_bundle lt p km : km_ok lt p km → ∃ b, export_registration_bundle km = Ok b ∧
  bundle_of b (lt_ik lt) (ps_key_pair p).1 None ∧ signed_bundle b.
Proof.
  intros [[Hi Hip] [Hs Hsp] Hc [[Hpp Hps] _] _ _ _ _ _ _].
  unfold export_registration_bundle, identity_public_key, verifying_key, signed_prekey. rewrite Hi, Hs, Hc.
  eexists. split; [done|]. split; [split; eauto|]. exists (lt_ssk lt), (lt_svk lt). done.
Qed.

(** C19: A signed prekey served in a bundle outlives the first flights that name it.
    The bundle an account exports, after any history, is signed and carries the public half of its current
    prekey. Through any operations without a rotation, however long they take, and
    through any further operations from then on, rotations and restarts included, that
    read the clock only within [SPK_RETENTION_AFTER_ROTATION_SECS] (14 days) of some time [r], every
    operation succeeds and the private half stays among the keys a responder tries: a
    key that is rotated out at any age keeps its full window. The counters stay
    within 32 bits. *)
Theorem signed_prekey_outlives_flights before km w quiet ops :
  account before km w → Forall (λ o, o ≠ KmRotate) quiet →
  2 + total rotations (before ++ quiet ++ ops) ≤ u32_max → 1000000 + total generated (before ++ quiet ++ ops) ≤ u32_max →
  ∃ b identity spk km1 w1 ids1 km' w' ids, export_registration_bundle km = Ok b ∧ bundle_of b identity spk None ∧ signed_bundle b ∧
    km_run quiet (km, w) = ((km1, w1), Ok ids1) ∧ km_run ops (km1, w1) = ((km', w'), Ok ids) ∧ identity_secret_key km' = Ok identity ∧
    (∀ r, in_window r w1 w' → spk ∈ all_prekey_private_keys km').
Proof.
  intros (lt & p & Hk & Hn & Ho)%account_ok Hq Hrt Hg. rewrite !total_app in Hrt, Hg.
  pose proof (total_nonneg rotations ops rotations_nonneg). pose proof (total_nonneg generated ops generated_nonneg).
  pose proof (total_nonneg rotations quiet rotations_nonneg). pose proof (total_nonneg generated quiet generated_nonneg).
  pose proof (wp_km_run lt p quiet km w Hk ltac:(lia) ltac:(lia)) as Hw. unfold wp in Hw.
  destruct (km_run quiet (km, w)) as [[km1 w1] [ids1|e|]]; [|done..]. destruct Hw as [_ (p1 & Hk1 & Hn1) Ho1 _ _ _ Hc1].
  cbn [fst snd] in *. pose proof (wp_km_run lt p1 ops km1 w1 Hk1 ltac:(lia) ltac:(lia)) as Hw. unfold wp in Hw.
  destruct (km_run ops (km1, w1)) as [[km' w'] [ids|e|]] eqn:Hops; [|done..]. destruct Hw as [_ (p' & Hk' & _) _ _ _ Hs _].
  cbn [fst snd] in *. destruct (km_bundle lt p km Hk) as (b & Hb & Hbo & Hsg).
  exists b, (lt_ik lt), (ps_key_pair p).1, km1, w1, ids1, km', w', ids. split_and!; try done.
  - unfold identity_secret_key. by rewrite (proj1 (ko_identity _ _ _ Hk')).
  - intros r Hr. apply (serves_candidate r), Hs; [done|]. left. exists p1. split; [apply Hk1|].
    assert (total rotations quiet = 0) as Hz by (clear -Hq; induction Hq as [|[] ?]; simpl; [done|congruence|lia..]).
    specialize (Hc1 Hz). unfold current_private in Hc1. rewrite (ko_current _ _ _ Hk), (ko_current _ _ _ Hk1) in Hc1. by injection Hc1.
Qed.
End invariant.

(** ** An account that evaluates *)

Definition demo_km_before : list km_op := [KmGenerate 2; KmRotate].
Definition demo_km_after : list km_op := [KmRotate; KmRestart; KmConsume 1000000; KmGenerate 1; KmRestart].
Definition demo_account := km_run demo_km_before (initialize (km_new, toy_world 40)).1.

Lemma demo_account_ok : account demo_km_before demo_account.1.1 demo_account.1.2.
Proof. apply account_runs; vm_compute; first [reflexivity|discriminate]. Qed.

Lemma one_time_prekeys_kept_witness :
  ∃ km' w' ids, km_run demo_km_after demo_account.1 = ((km', w'), Ok ids) ∧ NoDup ids.*1 ∧ Forall (λ id, id ≠ 0) ids.*1 ∧
    ∀ id pub, holds demo_account.1.1 id pub ∨ (id, pub) ∈ ids → Forall (λ o, ¬ drops o id) demo_km_after → holds km' id pub.
Proof.
  destruct demo_account.1 as [km w] eqn:Hd. pose proof demo_account_ok as Ha. rewrite Hd in Ha.
  apply (one_time_prekeys_kept demo_km_before _ _ demo_km_after Ha); vm_compute; discriminate.
Defined.

Definition demo_km_quiet : list km_op := [KmGenerate 1; KmRestart].

Lemma demo_window (w w' : World) : in_window 0 w w'.
Proof.
  split_and!; [done|by vm_compute|]. intros u _. simpl. pose proof (Z.mod_pos_bound u (2 ^ 19)).
  unfold SPK_RETENTION_AFTER_ROTATION_SECS. lia.
Qed.

Lemma signed_prekey_outlives_flights_witness :
  ∃ b identity spk km1 w1 ids1 km' w' ids, export_registration_bundle demo_account.1.1 = Ok b ∧ bundle_of b identity spk None ∧
    signed_bundle b ∧ km_run demo_km_quiet demo_account.1 = ((km1, w1), Ok ids1) ∧
    km_run demo_km_after (km1, w1) = ((km', w'), Ok ids) ∧ identity_secret_key km' = Ok identity ∧ spk ∈ all_prekey_private_keys km'.
Proof.
  destruct demo_account.1 as [km w] eqn:Hd. pose proof demo_account_ok as Ha. rewrite Hd in Ha.
  destruct (signed_prekey_outlives_flights demo_km_before km w demo_km_quiet demo_km_after Ha)
    as (b & identity & spk & km1 & w1 & ids1 & km' & w' & ids & ? & ? & ? & ? & ? & ? & Hs); [by repeat constructor|vm_compute; discriminate..|].
  exists b, identity, spk, km1, w1, ids1, km', w', ids. split_and!; try done. exact (Hs 0 (demo_window w1 w')).
Defined.
