(* ===== verification/Client.v ===== *)
(** * Sessions and the client

    Models [Session] of [src/src/crypto/session_api.rs] and [Client] of
    [src/src/crypto/client_api.rs] with [src/src/device_id.rs]: the key manager,
    a session per contact, the one-time prekey an opened session will name, and the
    envelope book. Shown: a session that one client opens from the other's bundle
    is the session the other builds from its first messages.
    A restored or imported session comes as a ratchet session; the detours through
    JSON that read the fields of a message or a bundle are left out. *)

From stdpp Require Import gmap strings.
From S2P Require Import Prelude SuiteId Platform Wp Classic Toy Crates WirePayload RatchetTypes Ratchet RatchetDemo RatchetConversation X3dh SealedBox Envelope EnvelopeBook KyberPrekeys KeyManager.

(** ** Device ids *)

Section device_id.
Context `{Sha2Crate} `{HexCrate}.

Definition derive_device_id_bytes (identity_public_key : bytes) : bytes := take 16 (sha256 identity_public_key).
Definition derive_device_id (identity_public_key : bytes) : string := hex_encode (derive_device_id_bytes identity_public_key).
End device_id.

Definition at_sign : Ascii.ascii := Ascii.ascii_of_N 64.

(** [s.split('@')] *)
Fixpoint split_at_sign (s : string) : list string :=
  match s with
  | EmptyString => [EmptyString]
  | String c s =>
      match split_at_sign s with
      | [] => [String c EmptyString]
      | p :: ps => if Ascii.eqb c at_sign then EmptyString :: p :: ps else String c p :: ps
      end
  end.

Definition format_federated_id (device_id server_hostname : string) : string :=
  (device_id ++ String at_sign EmptyString ++ server_hostname)%string.

Definition parse_federated_id (federated_id : string) : option (string * string) :=
  match split_at_sign federated_id with [a; b] => Some (a, b) | _ => None end.

(** The contact's device id: what stands before an at sign. *)
Definition expected_device_id (contact_id : string) : string :=
  match split_at_sign contact_id with p :: _ => p | [] => contact_id end.

(** ** Sessions *)

Definition SPK_MAX_AGE_SECS : Z := 30 * 24 * 3600.

Inductive ClientError :=
  | CeNoLocalUser
  | CeSessionExists (contact_id : string)
  | CeNoSession (contact_id : string)
  | CeStaleBundle (uploaded_at age : Z)
  | CeStaleKyberBundle (uploaded_at age : Z)
  | CeKeys (e : ConstructError)
  | CeHandshake (e : X3dhError)
  | CeRatchet (e : DrError)
  | CeInvalidSignature
  | CeDeviceMismatch (expected got : string)
  | CeOtpkMissing (id : Z)
  | CeNoPrekeys
  | CeNoneTried
  | CeAllFailed (tried : Z) (last : ClientError).

Section client.
Context `{MlKemCrate} `{!HexCrate} `{!CryptoProvider}.
Context `{!MlKem1024Crate} `{!Sha2Crate} `{!ClassicCrates} `{!HmacCrate}.

Record Session := mkSession {
  se_contact_id : string;
  se_messaging : DoubleRatchetSession;
  se_envelope_keys : option EnvelopePair;
}.
#[global] Instance session_eta : Eta Session := λ s, mkSession (se_contact_id s) (se_messaging s) (se_envelope_keys s).

Definition se_session_id (s : Session) : string := session_id (se_messaging s).

Definition negotiated_initiator_suite : SuiteID := PQ_RATCHET.

(** [EnvelopePair::derive] does not fail. *)
Definition derive_envelope_keys (root : bytes) (local peer : string) : res ClientError EnvelopePair :=
  map_err (λ e, CeKeys (Crypto e)) (ep_derive root local peer).

Definition init_as_initiator (local_identity : KemPrivateKey) (remote_bundle : X3DHPublicKeyBundle)
    (remote_identity : KemPublicKey) (contact_id local_user_id : string) (pq : option PqxdhInput)
    : stm World ClientError Session :=
  '(root_key, initiator_state) ← map_err_m CeHandshake (perform_as_initiator local_identity remote_bundle pq);
  keys ← lift (derive_envelope_keys root_key local_user_id contact_id);
  messaging ← map_err_m CeRatchet (new_initiator_session root_key initiator_state remote_identity contact_id
                                     local_user_id negotiated_initiator_suite);
  mret (mkSession contact_id messaging (Some keys)).

Definition init_as_responder (local_identity local_signed_prekey : KemPrivateKey)
    (remote_identity remote_ephemeral : KemPublicKey) (first_message : EncryptedRatchetMessage)
    (contact_id local_user_id : string) (local_one_time_prekey : option KemPrivateKey) (pq : option PqxdhInput)
    : stm World ClientError (Session * bytes) :=
  root_key ← lift (map_err CeHandshake (perform_as_responder local_identity local_signed_prekey remote_identity
                                          remote_ephemeral local_one_time_prekey pq));
  keys ← lift (derive_envelope_keys root_key local_user_id contact_id);
  '(messaging, plaintext) ← map_err_m CeRatchet (new_responder_session root_key local_identity first_message contact_id
                                                   local_user_id);
  mret (mkSession contact_id messaging (Some keys), plaintext).

Definition from_messaging_session (contact_id : string) (messaging : DoubleRatchetSession) : Session :=
  mkSession contact_id messaging None.

(** ** The client *)

Record Client := mkClient {
  cl_key_manager : KeyManager;
  cl_sessions : gmap string Session;
  cl_pending_otpk_ids : gmap string Z;
  cl_local_user_id : string;
  cl_envelopes : EnvelopeBook;
}.
#[global] Instance client_eta : Eta Client := λ c,
  mkClient (cl_key_manager c) (cl_sessions c) (cl_pending_otpk_ids c) (cl_local_user_id c) (cl_envelopes c).

#[local] Abbreviation cl_method A := (method Client ClientError A).

(** A method of the key manager, called on the client's. *)
Definition on_keys {A} (m : method KeyManager ConstructError A) : cl_method A := λ cw,
  let '((km, w), r) := m (cl_key_manager cw.1, cw.2) in
  ((cw.1 <| cl_key_manager := km |>, w), map_err CeKeys r).

(** A method of a ratchet session, called on the contact's. *)
Definition on_session {A} (contact_id : string) (s : Session) (m : method DoubleRatchetSession DrError A) : cl_method A := λ cw,
  let '((dr, w), r) := m (se_messaging s, cw.2) in
  ((cw.1 <| cl_sessions := <[contact_id := s <| se_messaging := dr |>]> (cl_sessions cw.1) |>, w), map_err CeRatchet r).

Definition client_of (km : KeyManager) : Client := mkClient km ∅ ∅ EmptyString [].

(** [Client::new] *)
Definition client_new : stm World ClientError Client := λ w,
  let '((c, w), r) := on_keys initialize (client_of km_new, w) in (w, r ≫= λ _, Ok c).

(** [Client::from_private_keys_cfe] *)
Definition client_from_private_keys_cfe (keys : CfePrivateKeysV1) : stm World ClientError Client :=
  km ← map_err_m CeKeys (km_from_private_keys_cfe keys); mret (client_of km).

Definition ensure_local_user_id_set : cl_method unit :=
  c ← self; if bool_decide (cl_local_user_id c = EmptyString) then throw CeNoLocalUser else mret tt.

Definition set_local_user_id (user_id : string) (c : Client) : Client := c <| cl_local_user_id := user_id |>.

Definition has_session_with (c : Client) (contact_id : string) : bool := bool_decide (is_Some (cl_sessions c !! contact_id)).
Definition get_session_id (c : Client) (contact_id : string) : option string := se_session_id <$> cl_sessions c !! contact_id.

Definition validate_bundle_freshness (b : X3DHPublicKeyBundle) : cl_method unit :=
  if pb_spk_uploaded_at b =? 0 then mret tt else
  now ← now;
  let age := sat_sub now (pb_spk_uploaded_at b) in
  if age >? SPK_MAX_AGE_SECS then throw (CeStaleBundle (pb_spk_uploaded_at b) age) else
  let kyber_age := sat_sub now (pb_kyber_spk_uploaded_at b) in
  if (pb_kyber_spk_uploaded_at b >? 0) && (kyber_age >? SPK_MAX_AGE_SECS)
  then throw (CeStaleKyberBundle (pb_kyber_spk_uploaded_at b) kyber_age) else mret tt.

Definition check_freshness (allow_stale : bool) (b : X3DHPublicKeyBundle) : cl_method unit :=
  if allow_stale then mret tt else validate_bundle_freshness b.

(** The session's envelope keys are filed in the book, and it takes its place in
    the map. *)
Definition file_session (contact_id : string) (s : Session) (c : Client) : Client :=
  let c := match se_envelope_keys s with
           | Some keys => c <| cl_envelopes := register contact_id (se_session_id s) keys (cl_envelopes c) |>
           | None => c
           end in
  c <| cl_sessions := <[contact_id := s <| se_envelope_keys := None |>]> (cl_sessions c) |>.

Definition init_session_with_pq (contact_id : string) (remote_bundle : X3DHPublicKeyBundle)
    (remote_identity : KemPublicKey) (one_time_prekey_id : Z) (allow_stale : bool) (pq : option PqxdhInput) : cl_method string :=
  ensure_local_user_id_set;;
  c ← self;
  if has_session_with c contact_id then throw (CeSessionExists contact_id) else
  check_freshness allow_stale remote_bundle;;
  local_identity ← lift (map_err CeKeys (identity_secret_key (cl_key_manager c)));
  session ← on_world (init_as_initiator local_identity remote_bundle remote_identity contact_id (cl_local_user_id c) pq);
  update (file_session contact_id session);;
  (if one_time_prekey_id =? 0 then mret tt
   else update (λ c, c <| cl_pending_otpk_ids := <[contact_id := one_time_prekey_id]> (cl_pending_otpk_ids c) |>));;
  mret (se_session_id session).

Definition init_session (contact_id : string) (b : X3DHPublicKeyBundle) (remote_identity : KemPublicKey) (otpk_id : Z) : cl_method string :=
  init_session_with_pq contact_id b remote_identity otpk_id false None.
Definition init_session_allowing_stale (contact_id : string) (b : X3DHPublicKeyBundle) (remote_identity : KemPublicKey) (otpk_id : Z) : cl_method string :=
  init_session_with_pq contact_id b remote_identity otpk_id true None.

(** The loop over the candidate prekeys; [tried] of them in all. *)
Fixpoint try_prekeys (tried : Z) (local_identity : KemPrivateKey) (prekeys : list KemPrivateKey)
    (remote_identity remote_ephemeral : KemPublicKey) (first_message : EncryptedRatchetMessage) (contact_id : string)
    (one_time_prekey_id : Z) (otpk : option KemPrivateKey) (pq : option PqxdhInput) (last_err : ClientError)
    : cl_method (string * bytes) :=
  match prekeys with
  | [] => throw (CeAllFailed tried last_err)
  | prekey :: prekeys =>
      c ← self;
      r ← attempt (on_world (init_as_responder local_identity prekey remote_identity remote_ephemeral first_message
                               contact_id (cl_local_user_id c) otpk pq));
      match r with
      | Ok (session, plaintext) =>
          update (file_session contact_id session);;
          (if one_time_prekey_id =? 0 then mret tt
           else update (λ c, c <| cl_key_manager := (consume_one_time_prekey one_time_prekey_id (cl_key_manager c)).1 |>));;
          mret (se_session_id session, plaintext)
      | Err e => try_prekeys tried local_identity prekeys remote_identity remote_ephemeral first_message contact_id
                   one_time_prekey_id otpk pq e
      | Panic => lift Panic
      end
  end.

Definition init_receiving_session_with_ephemeral (contact_id : string) (remote_identity remote_ephemeral : KemPublicKey)
    (first_message : EncryptedRatchetMessage) (one_time_prekey_id : Z) (pq : option PqxdhInput) : cl_method (string * bytes) :=
  ensure_local_user_id_set;;
  update (λ c, c <| cl_sessions := delete contact_id (cl_sessions c) |>);;
  c ← self;
  let km := cl_key_manager c in
  otpk ← if one_time_prekey_id =? 0 then mret None else
         match peek_one_time_prekey km one_time_prekey_id with
         | Some k => mret (Some k)
         | None => throw (CeOtpkMissing one_time_prekey_id)
         end;
  local_identity ← lift (map_err CeKeys (identity_secret_key km));
  let candidate_prekeys := all_prekey_private_keys km in
  match candidate_prekeys with
  | [] => throw CeNoPrekeys
  | _ => try_prekeys (Z.of_nat (length candidate_prekeys)) local_identity candidate_prekeys remote_identity remote_ephemeral
           first_message contact_id one_time_prekey_id otpk pq CeNoneTried
  end.

Definition init_receiving_session (contact_id : string) (b : X3DHRegistrationBundle) (first_message : EncryptedRatchetMessage)
    : cl_method (string * bytes) :=
  ensure_local_user_id_set;;
  c ← self;
  if has_session_with c contact_id then throw (CeSessionExists contact_id) else
  let remote_ephemeral := kem_public_key_from_bytes (em_dh_public_key first_message) in
  let message_to_verify := build_prologue (rb_suite_id b) ++ rb_signed_prekey_public b in
  lift (map_err (λ _, CeInvalidSignature)
          (verify (signature_public_key_from_bytes (rb_verifying_key b)) message_to_verify (rb_signature b)));;
  let derived := derive_device_id (rb_identity_public b) in
  let expected := expected_device_id contact_id in
  if negb (bool_decide (derived = expected)) then throw (CeDeviceMismatch expected derived) else
  init_receiving_session_with_ephemeral contact_id (kem_public_key_from_bytes (rb_identity_public b)) remote_ephemeral
    first_message 0 None.

Definition encrypt_message (contact_id : string) (plaintext : bytes) : cl_method EncryptedRatchetMessage :=
  ensure_local_user_id_set;;
  c ← self;
  s ← lift (ok_or (cl_sessions c !! contact_id) (CeNoSession contact_id));
  on_session contact_id s (encrypt plaintext).

Definition decrypt_message_with_identity_secret (contact_id : string) (message : EncryptedRatchetMessage) (secret : option bytes)
    : cl_method bytes :=
  ensure_local_user_id_set;;
  c ← self;
  s ← lift (ok_or (cl_sessions c !! contact_id) (CeNoSession contact_id));
  on_session contact_id s (decrypt_with_identity_secret message secret).

(** [Client::decrypt_message] *)
Definition client_decrypt (contact_id : string) (message : EncryptedRatchetMessage) : cl_method bytes :=
  ensure_local_user_id_set;;
  c ← self;
  s ← lift (ok_or (cl_sessions c !! contact_id) (CeNoSession contact_id));
  on_session contact_id s (decrypt message).

Definition remove_session (contact_id : string) : cl_method bool :=
  c ← self;
  match cl_sessions c !! contact_id with
  | None => mret false
  | Some s =>
      update (λ c, c <| cl_sessions := delete contact_id (cl_sessions c) |>);;
      now ← now;
      update (λ c, c <| cl_envelopes := retire_session (se_session_id s) now (cl_envelopes c) |>);;
      mret true
  end.

Definition take_session (contact_id : string) (c : Client) : Client * option Session :=
  (c <| cl_sessions := delete contact_id (cl_sessions c) |>, cl_sessions c !! contact_id).
Definition put_back_session (contact_id : string) (s : Session) (c : Client) : Client :=
  c <| cl_sessions := <[contact_id := s]> (cl_sessions c) |>.
Definition import_session (contact_id : string) (messaging : DoubleRatchetSession) (c : Client) : Client * string :=
  (c <| cl_sessions := <[contact_id := from_messaging_session contact_id messaging]> (cl_sessions c) |>, session_id messaging).

Definition rotate_prekey : cl_method unit := on_keys rotate_signed_prekey.

Definition take_pending_otpk_id (contact_id : string) (c : Client) : Client * Z :=
  (c <| cl_pending_otpk_ids := delete contact_id (cl_pending_otpk_ids c) |>, default 0 (cl_pending_otpk_ids c !! contact_id)).
End client.

(** ** The two clients meet *)

Section meet.
Context `{MlKemCrate} `{!HexCrate} `{!CryptoProvider} `{!MlKemLaws} `{!HexLaws} `{!ProviderLaws} `{!SignatureLaws}.
Context `{!MlKem1024Crate} `{!Sha2Crate} `{!ClassicCrates} `{!ClassicCratesLaws} `{!HmacCrate}.

#[local] Abbreviation own_key s := (kem_public_ref (dh_ratchet_public s)).

(** The initiator, as it starts with or without the identity proof. *)
Definition start_opening (sec : option bytes) (A : DoubleRatchetSession) : DoubleRatchetSession :=
  match sec with Some _ => expect_identity_answer A | None => A end.

(** The handshake between the keys of a bundle and the initiator's. *)
Definition agreed (h : handshake) (ia : KemPrivateKey) (pa : KemPublicKey) (spk : KemPrivateKey)
    (otpk : option KemPrivateKey) (pq : option PqxdhInput) : Prop :=
  ∃ epk, pair_of (is_ephemeral_private (hs_state h)) epk ∧
    perform_as_responder (hs_identity h) spk pa epk otpk pq = Ok (hs_root h).

Lemma initiator_opens ia pa bundle ib ip spk otpk pq alice bob w :
  pair_of ia pa → bundle_of bundle ib spk otpk → signed_bundle bundle → pair_of ib ip →
  ∃ w' h A keys, init_as_initiator ia bundle ip bob alice pq w = (w', Ok (mkSession bob A (Some keys))) ∧
    hs_alice h = alice ∧ hs_bob h = bob ∧ hs_identity h = ib ∧ hs_remote h = ip ∧ agreed h ia pa spk otpk pq ∧
    (∀ sec, opening h sec (start_opening sec A) ∅) ∧ ep_derive (hs_root h) alice bob = Ok keys ∧
    derive_shared_session_id (hs_root h) alice bob = Ok (session_id A).
Proof.
  intros Ha Hb Hs Hi. pose proof (signed_bundle_checks bundle ib spk otpk Hb Hs) as Hc.
  destruct (initiator_agrees ia pa bundle ib spk otpk pq w Ha Hb Hc) as (w1 & root & ek & epk & Hp & He & _ & Hr).
  destruct (ep_derive_crossed root alice bob) as (x & y & Hk & _).
  pose proof (new_initiator_total root (mkInitiatorState ek) epk ib ip bob alice PQ_RATCHET w1 He Hi) as Ht.
  pose proof (new_initiator_opens root (mkInitiatorState ek) ip bob alice PQ_RATCHET w1) as Ho. unfold wp in Ht, Ho.
  destruct (new_initiator_session root (mkInitiatorState ek) ip bob alice PQ_RATCHET w1) as [w2 [A| |]] eqn:HA; [|done..].
  exists w2, (mkHandshake root (mkInitiatorState ek) ib ip alice bob PQ_RATCHET), A, (mkEnvelopePair x y). split.
  - unfold init_as_initiator, map_err_m, mbind, stm_bind, lift, derive_envelope_keys, negotiated_initiator_suite.
    rewrite Hp. cbn [map_err]. rewrite Hk. cbn [map_err]. by rewrite HA.
  - destruct Ho as (sid & z & rk & ck & pk & t1 & t2 & [Hsid _] & _ & _ & EA).
    split_and!; try done; [by exists epk| |by rewrite EA].
    intros sec. by eapply (opening_new _ sec w1 w2 A).
Qed.

Lemma responder_opens t0 h sec A out i m p ia pa spk otpk pq w :
  (∀ w, t0 ≤ (clock w).2 < t0 + max_skipped_message_age_seconds global) →
  opening h sec A out → out !! i = Some (m, p) → em_message_number m < max_skipped_messages global →
  (∀ w' B, responds h m w = (w', Ok B) → own_key B ∉ ({[own_key A; kem_public_ref (hs_remote h)]} : gset bytes)) →
  agreed h ia pa spk otpk pq →
  ∃ w' B keys, init_as_responder (hs_identity h) spk pa (kem_public_key_from_bytes (em_dh_public_key m)) m (hs_alice h)
      (hs_bob h) otpk pq w = (w', Ok (mkSession (hs_alice h) B (Some keys), p)) ∧
    ep_derive (hs_root h) (hs_bob h) (hs_alice h) = Ok keys ∧
    derive_shared_session_id (hs_root h) (hs_alice h) (hs_bob h) = Ok (session_id B).
Proof.
  intros Hr Ho Hi Hn Hf (epk & He & Hp). destruct (opening_ephemeral t0 h sec A out i m p Hr Ho Hi) as (pk & Hpk & Hdh).
  assert (pk = epk) as -> by congruence.
  destruct (first_message_session t0 h sec A out i m p w Hr Ho Hi Hn Hf) as (B & w' & HB & Hsid).
  destruct (ep_derive_crossed (hs_root h) (hs_bob h) (hs_alice h)) as (x & y & Hk & _).
  exists w', B, (mkEnvelopePair x y). split_and!; [|done|done].
  unfold init_as_responder, map_err_m, mbind, stm_bind, lift, derive_envelope_keys.
  rewrite Hdh, kem_public_from_ref, Hp. cbn [map_err]. rewrite Hk. cbn [map_err]. by rewrite HB.
Qed.

(** The responder's first ratchet key is the key pair it generates. *)
Lemma responds_key h m w w' B : responds h m w = (w', Ok B) →
  ∃ w1 sk, generate_kem_keys w = (w1, Ok (sk, dh_ratchet_public B)).
Proof.
  unfold responds, responder_base, mbind, stm_bind, lift. destruct (responder_keys _ _ _ _ _) as [[[sid rk] ck]| |]; [|done..].
  unfold map_err_m. destruct (generate_kem_keys_ok w) as (w1 & sk & pk & -> & _). cbn [map_err].
  destruct (responder_sending _ _ _ _) as [[[rk2 ck2] suite]| |]; [|done..]. unfold read_clock.
  destruct (clock w1) as [w2 t]. destruct (clock w2) as [w3 t']. intros HB. exists w1, sk. by injection HB as _ <-.
Qed.

(** The world after attempts with prekeys that do not open the message. *)
Fixpoint skip_prekeys ik (pre : list KemPrivateKey) ri re m contact local otpk pq (w : World) : option World :=
  match pre with
  | [] => Some w
  | k :: pre =>
      match init_as_responder ik k ri re m contact local otpk pq w with
      | (w', Err _) => skip_prekeys ik pre ri re m contact local otpk pq w'
      | _ => None
      end
  end.

(** They change nothing else. *)
Lemma try_prekeys_skip n ik pre post ri re m contact oid otpk pq err b w w' :
  skip_prekeys ik pre ri re m contact (cl_local_user_id b) otpk pq w = Some w' →
  ∃ err', try_prekeys n ik (pre ++ post) ri re m contact oid otpk pq err (b, w)
    = try_prekeys n ik post ri re m contact oid otpk pq err' (b, w').
Proof.
  revert err w. induction pre as [|k pre IH]; intros err w; cbn [skip_prekeys]; [intros [= <-]; by eexists|].
  destruct (init_as_responder _ _ _ _ _ _ _ _ _ w) as [w1 [?|e|]] eqn:He; [done| |done]. intros Hs.
  destruct (IH e w1 Hs) as (err' & Ht). exists err'. rewrite <- Ht.
  cbn [app try_prekeys]. unfold mbind at 1, stm_bind at 1, self. cbn [fst].
  unfold mbind at 1, stm_bind at 1, attempt, on_world. cbn [fst snd]. by rewrite He.
Qed.

(** The one-time prekey a message names is the one of the bundle, and is held. *)
Definition names_otpk (km : KeyManager) (otpk_id : Z) (otpk : option KemPrivateKey) : Prop :=
  match otpk with
  | Some k => otpk_id ≠ 0 ∧ peek_one_time_prekey km otpk_id = Some k
  | None => otpk_id = 0
  end.

Lemma wp_client_receives ik b w w1 contact ri re m otpk_id otpk pq pre spk post s p (good : EnvelopePair → Prop) :
  cl_local_user_id b ≠ EmptyString → identity_secret_key (cl_key_manager b) = Ok ik →
  all_prekey_private_keys (cl_key_manager b) = pre ++ spk :: post → names_otpk (cl_key_manager b) otpk_id otpk →
  skip_prekeys ik pre ri re m contact (cl_local_user_id b) otpk pq w = Some w1 →
  (∃ w' B keys, init_as_responder ik spk ri re m contact (cl_local_user_id b) otpk pq w1
     = (w', Ok (mkSession contact B (Some keys), p)) ∧ session_id B = s ∧ good keys) →
  wp False (init_receiving_session_with_ephemeral contact ri re m otpk_id pq) (b, w)
    (λ r sw, r = (s, p) ∧ get_session_id sw.1 contact = Some s ∧
      (∃ keys, good keys ∧ cl_envelopes sw.1 = register contact s keys (cl_envelopes b)) ∧
      (otpk_id ≠ 0 → peek_one_time_prekey (cl_key_manager sw.1) otpk_id = None))
    (λ _ _, False).
Proof.
  intros Hu Hik Hc Hot Hpre (w3 & B & keys & HB & Hs & Hk). unfold init_receiving_session_with_ephemeral, ensure_local_user_id_set.
  wp_step. wp_step. wp_step. cbv beta. rewrite bool_decide_eq_false_2 by done. do 6 wp_step.
  set (b0 := b <| cl_sessions := delete contact (cl_sessions b) |>) in *.
  assert (∀ Q, Q otpk (b0, w) → wp False (if otpk_id =? 0 then mret None else
    match peek_one_time_prekey (cl_key_manager b0) otpk_id with
    | Some k => mret (Some k) | None => throw (CeOtpkMissing otpk_id) end) (b0, w) Q (λ _ _, False)) as Hotpk.
  { intros Q HQ. unfold names_otpk in Hot. destruct otpk as [k|].
    - destruct Hot as [Hne Hp]. rewrite (proj2 (Z.eqb_neq _ _)) by done. change (cl_key_manager b0) with (cl_key_manager b).
      rewrite Hp. by wp_step.
    - subst otpk_id. by wp_step. }
  apply Hotpk. clear Hotpk. wp_step. apply wp_lift. change (cl_key_manager b0) with (cl_key_manager b). rewrite Hik. cbn [map_err].
  rewrite Hc. set (n := Z.of_nat _).
  destruct (try_prekeys_skip n ik pre (spk :: post) ri re m contact otpk_id otpk pq CeNoneTried b0 w w1 Hpre) as (err & Hskip).
  assert (∀ Q R, wp False (try_prekeys n ik (spk :: post) ri re m contact otpk_id otpk pq err) (b0, w1) Q R →
    wp False (match pre ++ spk :: post with [] => throw CeNoPrekeys | _ => try_prekeys n ik (pre ++ spk :: post) ri re m contact
      otpk_id otpk pq CeNoneTried end) (b0, w) Q R) as Hgo.
  { intros Q R HQ. destruct (pre ++ spk :: post) as [|k l] eqn:E; [by destruct pre|]. unfold wp in *. by rewrite Hskip. }
  apply Hgo. clear Hgo Hskip. cbn [try_prekeys]. do 5 wp_step. change (cl_local_user_id b0) with (cl_local_user_id b).
  unfold wp at 1. rewrite HB. wp_step. wp_step. wp_step.
  set (b1 := file_session contact _ b0).
  assert (get_session_id b1 contact = Some s ∧ cl_envelopes b1 = register contact s keys (cl_envelopes b)) as [Hb1 Hb2].
  { unfold b1, file_session, get_session_id, se_session_id. cbn. rewrite lookup_insert_eq. cbn. by rewrite Hs. }
  destruct (Z.eqb_spec otpk_id 0); wp_steps; unfold se_session_id; cbn [se_messaging]; rewrite Hs.
  - split_and!; [done|done|by exists keys|done].
  - split_and!; [done|done|by exists keys|]. intros _. unfold peek_one_time_prekey. cbn. by rewrite lookup_delete_eq.
Qed.

Lemma find_registered contact sid keys b : has_session b sid = false →
  find_first (has_id sid) (register contact sid keys b) = Some (mkBookEntry contact sid keys None None).
Proof. intros Hb. unfold register. rewrite Hb. cbn [find_first]. unfold has_id at 1. by rewrite bool_decide_eq_true_2. Qed.

Lemma freshness_same allow_stale bundle a w :
  (check_freshness allow_stale bundle (a, w)).2 = Ok tt → ∃ w1, check_freshness allow_stale bundle (a, w) = ((a, w1), Ok tt).
Proof.
  intros Hok. enough (∃ w1, (check_freshness allow_stale bundle (a, w)).1 = (a, w1)) as [w1 Hw].
  { exists w1. rewrite <- Hw, <- Hok. by destruct (check_freshness _ _ _). }
  clear Hok. unfold check_freshness, validate_bundle_freshness. destruct allow_stale; [by eexists|].
  destruct (_ =? 0); [by eexists|]. unfold mbind, stm_bind, now. cbn [fst snd]. destruct (clock w) as [w1 t].
  repeat case_match; by eexists.
Qed.

Lemma wp_client_opens a w contact bundle ip otpk_id allow_stale pq ia (s : Session) keys w2 :
  cl_local_user_id a ≠ EmptyString → has_session_with a contact = false → identity_secret_key (cl_key_manager a) = Ok ia →
  (∃ w1, check_freshness allow_stale bundle (a, w) = ((a, w1), Ok tt) ∧
    init_as_initiator ia bundle ip contact (cl_local_user_id a) pq w1 = (w2, Ok s)) → se_envelope_keys s = Some keys →
  wp False (init_session_with_pq contact bundle ip otpk_id allow_stale pq) (a, w)
    (λ sid sw, sid = se_session_id s ∧ cl_sessions sw.1 !! contact = Some (s <| se_envelope_keys := None |>) ∧
      cl_envelopes sw.1 = register contact (se_session_id s) keys (cl_envelopes a) ∧
      (otpk_id ≠ 0 → cl_pending_otpk_ids sw.1 !! contact = Some otpk_id))
    (λ _ _, False).
Proof.
  intros Hu Hs Hi (w1 & Hf & Hinit) Hk. unfold init_session_with_pq, ensure_local_user_id_set.
  wp_step. wp_step. wp_step. cbv beta. rewrite bool_decide_eq_false_2 by done. do 3 wp_step. cbv beta.
  rewrite Hs. wp_step. unfold wp at 1. rewrite Hf. wp_step. apply wp_lift. rewrite Hi. cbn [map_err].
  wp_step. wp_step. unfold wp at 1. rewrite Hinit. wp_step. wp_step. wp_step.
  assert (cl_sessions (file_session contact s a) !! contact = Some (s <| se_envelope_keys := None |>) ∧
    cl_envelopes (file_session contact s a) = register contact (se_session_id s) keys (cl_envelopes a)) as [E1 E2].
  { unfold file_session. rewrite Hk. cbn. by rewrite lookup_insert_eq. }
  destruct (Z.eqb_spec otpk_id 0); wp_steps; split_and!; try done. intros _. cbn. by rewrite lookup_insert_eq.
Qed.

Lemma try_prekeys_err n ik l ri re m contact oid otpk pq err b w :
  wp True (try_prekeys n ik l ri re m contact oid otpk pq err) (b, w) (λ _ _, True) (λ _ sw, sw.1 = b).
Proof.
  revert err w. induction l as [|k l IH]; intros err w; cbn [try_prekeys]; [by wp_step|].
  do 5 wp_step. unfold wp at 1. destruct (init_as_responder _ _ _ _ _ _ _ _ _ w) as [w1 [[s p]|e|]]; [| |done].
  - wp_steps; done.
  - apply IH.
Qed.

(** C21: A first message that does not open costs nothing but the session it was
    to replace: whatever the error of the receiving call, the client's keys - the
    one-time prekey the message named among them - its envelope book, its pending
    prekey ids and its sessions with other contacts are as they were. *)
Theorem receiving_failure_keeps_keys contact ri re m otpk_id pq b w b' w' e :
  init_receiving_session_with_ephemeral contact ri re m otpk_id pq (b, w) = ((b', w'), Err e) →
  cl_key_manager b' = cl_key_manager b ∧ cl_envelopes b' = cl_envelopes b ∧ cl_pending_otpk_ids b' = cl_pending_otpk_ids b ∧
  ∀ c, c ≠ contact → cl_sessions b' !! c = cl_sessions b !! c.
Proof.
  intros He. enough (b' = b ∨ b' = b <| cl_sessions := delete contact (cl_sessions b) |>) as [->| ->]; [done| |].
  { split_and!; try done. intros c Hc. cbn. by rewrite lookup_delete_ne. }
  enough (wp True (init_receiving_session_with_ephemeral contact ri re m otpk_id pq) (b, w) (λ _ _, True)
    (λ _ sw, sw.1 = b ∨ sw.1 = b <| cl_sessions := delete contact (cl_sessions b) |>)) as Hw.
  { unfold wp in Hw. by rewrite He in Hw. }
  unfold init_receiving_session_with_ephemeral, ensure_local_user_id_set. wp_steps; try (left; done).
  all: try (right; done).
  all: apply wp_lift_cases; [|by right|done]; intros ik _.
  all: destruct (all_prekey_private_keys _) as [|? ?]; [wp_step; by right|].
  all: eapply wp_mono; [apply try_prekeys_err|done|]; intros; by right.
Qed.

(** C20: Two clients meet. Alice's client opens a session from a bundle that Bob
    signed, with or without a one-time prekey and the ML-KEM secret; the bundle is
    fresh or she asked to overlook its age. The call succeeds. Whichever of her
    messages Bob's client is given first, after any number that were lost, he
    builds the session from it and reads it, if fewer than [max_skipped_messages]
    were sent before it, his device still holds the prekeys the bundle named, no
    signed prekey tried before the right one opens it by accident, and the ratchet
    key he generates is neither hers nor his identity key; every clock reading lies
    in one interval of [max_skipped_message_age_seconds]. The one-time prekey is gone,
    both have the same session id, and, where neither book had a pair of that id, the
    books hold the same envelope keys, crossed. *)
Theorem clients_meet t0 a wa alice bob ia pa bundle ib ip spk otpk otpk_id allow_stale pq :
  (∀ w, t0 ≤ (clock w).2 < t0 + max_skipped_message_age_seconds global) →
  cl_local_user_id a = alice → alice ≠ EmptyString → has_session_with a bob = false → bob ≠ EmptyString →
  identity_key (cl_key_manager a) = Some (ia, pa) → pair_of ia pa →
  bundle_of bundle ib spk otpk → signed_bundle bundle → pair_of ib ip →
  (check_freshness allow_stale bundle (a, wa)).2 = Ok tt →
  ∃ a' wa' sid h A, init_session_with_pq bob bundle ip otpk_id allow_stale pq (a, wa) = ((a', wa'), Ok sid) ∧
    cl_sessions a' !! bob = Some (mkSession bob A None) ∧ (∀ sec, opening h sec (start_opening sec A) ∅) ∧
    ∀ sec A' out i m p b wb pre post w1,
      opening h sec A' out → out !! i = Some (m, p) → em_message_number m < max_skipped_messages global →
      cl_local_user_id b = bob → identity_key (cl_key_manager b) = Some (ib, ip) →
      all_prekey_private_keys (cl_key_manager b) = pre ++ spk :: post → names_otpk (cl_key_manager b) otpk_id otpk →
      skip_prekeys ib pre pa (kem_public_key_from_bytes (em_dh_public_key m)) m alice bob otpk pq wb = Some w1 →
      (∀ w' sk pk, generate_kem_keys w1 = (w', Ok (sk, pk)) → kem_public_ref pk ≠ own_key A' ∧ pk ≠ ip) →
      ∃ b' wb', init_receiving_session_with_ephemeral alice pa (kem_public_key_from_bytes (em_dh_public_key m)) m otpk_id pq (b, wb)
          = ((b', wb'), Ok (sid, p)) ∧ get_session_id b' alice = Some sid ∧
        (otpk_id ≠ 0 → peek_one_time_prekey (cl_key_manager b') otpk_id = None) ∧
        (has_session (cl_envelopes a) sid = false → has_session (cl_envelopes b) sid = false → ∃ x y,
           find_first (has_id sid) (cl_envelopes a') = Some (mkBookEntry bob sid (mkEnvelopePair x y) None None) ∧
           find_first (has_id sid) (cl_envelopes b') = Some (mkBookEntry alice sid (mkEnvelopePair y x) None None)).
Proof.
  intros Hr Hua Halice Hsa Hbob Hia Hpa Hb Hsig Hib [w1 Hf]%freshness_same.
  destruct (initiator_opens ia pa bundle ib ip spk otpk pq alice bob w1 Hpa Hb Hsig Hib)
    as (w2 & h & A & keys & Hinit & Ea & Eb & Ei & Er & Hag & Hop & Hk & Hsid).
  pose proof (wp_client_opens a wa bob bundle ip otpk_id allow_stale pq ia (mkSession bob A (Some keys)) keys w2) as Hw.
  rewrite Hua in Hw. specialize (Hw Halice Hsa). unfold identity_secret_key in Hw. rewrite Hia in Hw.
  specialize (Hw eq_refl (ex_intro _ w1 (conj Hf Hinit)) eq_refl). unfold wp in Hw.
  destruct (init_session_with_pq bob bundle ip otpk_id allow_stale pq (a, wa)) as [[a' wa'] [sid| |]]; [|done..].
  destruct Hw as (-> & Hs' & Hbk & _). unfold se_session_id in *. cbn [se_messaging fst] in *.
  eexists a', wa', _, h, A. split_and!; [done|done|done|]. intros sec A' out i m p b wb pre post w3 Ho Hi Hn Hub Hkb Hpre Hot Hfail Hfr.
  assert (∃ w' B keys', init_as_responder ib spk pa (kem_public_key_from_bytes (em_dh_public_key m)) m alice bob otpk pq w3
    = (w', Ok (mkSession alice B (Some keys'), p)) ∧ session_id B = session_id A ∧ ep_derive (hs_root h) bob alice = Ok keys') as Hgood.
  { assert (∀ w' B, responds h m w3 = (w', Ok B) → own_key B ∉ ({[own_key A'; kem_public_ref (hs_remote h)]} : gset bytes)) as Hfr'.
    { intros w' B (w4 & sk & Hg)%responds_key. destruct (Hfr _ _ _ Hg) as [Hne1 Hne2]. rewrite Er, not_elem_of_union, !not_elem_of_singleton.
      split; [done|]. intros Heq. apply Hne2. rewrite <- (kem_public_from_ref ip), <- Heq. by rewrite kem_public_from_ref. }
    destruct (responder_opens t0 h sec A' out i m p ia pa spk otpk pq w3 Hr Ho Hi Hn Hfr' Hag)
      as (w' & B & keys' & HB & Hk' & Hsid'). rewrite Ea, Eb, Ei in *. exists w', B, keys'. split_and!; [done|congruence|done]. }
  pose proof (wp_client_receives ib b wb w3 alice pa (kem_public_key_from_bytes (em_dh_public_key m)) m otpk_id otpk pq pre spk post
    (session_id A) p (λ keys', ep_derive (hs_root h) bob alice = Ok keys')) as Hw. rewrite Hub in Hw. unfold identity_secret_key in Hw.
  rewrite Hkb in Hw. specialize (Hw Hbob eq_refl Hpre Hot Hfail Hgood). unfold wp in Hw.
  destruct (init_receiving_session_with_ephemeral _ _ _ _ _ _ _) as [[b' wb'] [r| |]]; [|done..].
  destruct Hw as (-> & Hg & (keys' & Hk' & Hbb) & Hpk). exists b', wb'. split_and!; try done. cbn [fst] in *. intros Hna Hnb.
  destruct (ep_derive_crossed (hs_root h) alice bob) as (x & y & Hx & Hy & _). exists x, y.
  assert (keys = mkEnvelopePair x y) as -> by congruence. assert (keys' = mkEnvelopePair y x) as -> by congruence.
  rewrite Hbk, Hbb. split; by apply find_registered.
Qed.
End meet.

Lemma opening_sends `{MlKemCrate} `{!HexCrate} `{!CryptoProvider} h sec A A0 A' w w' m p :
  opening h sec A0 ∅ → A = A0 → current_pq_epoch A < u32_max → encrypt p (A, w) = ((A', w'), Ok m) →
  opening h sec A' {[0%nat := (m, p)]}.
Proof. intros Ho -> He Hm. eapply (opening_acts h sec A0 ∅ _ _ ∅); [exact Ho|by eapply act_send]. Qed.

(** ** Two clients that evaluate *)

#[global] Instance client_inhabited : Inhabited Client := populate (client_of km_new).
Definition demo_client (z : Z) (name : string) : Client := set_local_user_id name (result (client_new (toy_world z)).2).

Definition demo_a : Client := demo_client 60 "alice".
(** Bob, with a one-time prekey, before and after a rotation. *)
Definition demo_b0 := on_keys (generate_one_time_prekeys 1) (demo_client 90 "bob", toy_world 120).
Definition demo_b1 := rotate_prekey demo_b0.1.
Definition demo_pair (c : Client) : bytes * bytes := default ([], []) (identity_key (cl_key_manager c)).
Definition demo_spk (c : Client) : bytes := (default [] (head (all_prekey_private_keys (cl_key_manager c)))).
Definition demo_bundle : X3DHPublicKeyBundle :=
  match export_registration_bundle (cl_key_manager demo_b0.1.1) with
  | Ok b => b <| pb_one_time_prekey_public := snd <$> one_time_prekeys (cl_key_manager demo_b0.1.1) !! 1000000 |>
  | _ => mkX3DHPublicKeyBundle [] [] [] [] CLASSIC None None 0 0 0 0
  end.
Definition demo_otpk : option bytes := peek_one_time_prekey (cl_key_manager demo_b0.1.1) 1000000.

Definition demo_open := init_session_with_pq "bob" demo_bundle (demo_pair demo_b0.1.1).2 1000000 false None (demo_a, toy_world 150).
Definition demo_first := encrypt_message "bob" demo_hello demo_open.1.
Lemma demo_clients_run : is_ok demo_b1.2 && is_ok demo_open.2 && is_ok demo_first.2 = true.
Proof. vm_compute. reflexivity. Qed.

Definition demo_m : EncryptedRatchetMessage := result demo_first.2.
#[local] Abbreviation demo_re := (kem_public_key_from_bytes (em_dh_public_key demo_m)).
#[local] Abbreviation demo_skip :=
  (skip_prekeys (demo_pair demo_b0.1.1).1 [demo_spk demo_b1.1.1] (demo_pair demo_a).2 demo_re demo_m "alice" "bob" demo_otpk None (toy_world 200)).
Lemma demo_skip_ok : is_Some demo_skip ∧ all_prekey_private_keys (cl_key_manager demo_b1.1.1) = [demo_spk demo_b1.1.1; demo_spk demo_b0.1.1].
Proof. split; [|vm_compute; reflexivity]. refine (bool_decide_unpack _ _). vm_compute. exact I. Qed.

Lemma demo_bundle_of : bundle_of demo_bundle (demo_pair demo_b0.1.1).1 (demo_spk demo_b0.1.1) demo_otpk.
Proof.
  split.
  - exists (demo_pair demo_b0.1.1).2. split; vm_compute; reflexivity.
  - exists (pad32 (demo_spk demo_b0.1.1)). split; vm_compute; reflexivity.
  - replace demo_otpk with (Some (default [] demo_otpk)) by (vm_compute; reflexivity).
    exists (pad32 (default [] demo_otpk)). split; vm_compute; reflexivity.
Qed.

Lemma demo_bundle_signed : signed_bundle demo_bundle.
Proof.
  exists (default ([], []) (signing_key (cl_key_manager demo_b0.1.1))).1, (default ([], []) (signing_key (cl_key_manager demo_b0.1.1))).2.
  split; [|split]; vm_compute; reflexivity.
Qed.

Definition demo_A : DoubleRatchetSession := default inhabitant (se_messaging <$> cl_sessions demo_open.1.1 !! "bob").
#[local] Abbreviation demo_A1 := (encrypt demo_hello (demo_A, demo_open.1.2)).
Lemma demo_A1_ok : is_ok demo_A1.2 = true ∧ result demo_A1.2 = demo_m ∧ current_pq_epoch demo_A < u32_max ∧
  em_message_number demo_m < max_skipped_messages global.
Proof. split_and!; vm_compute; reflexivity. Qed.

Lemma session_after {X Y} (r : (Client * X) * Y) a' wa' sid c A (d : DoubleRatchetSession) :
  r = ((a', wa'), sid) → cl_sessions a' !! c = Some (mkSession c A None) → default d (se_messaging <$> cl_sessions r.1.1 !! c) = A.
Proof. intros ->. cbn [fst]. intros ->. reflexivity. Qed.

Lemma ok_run {S W E A} `{Inhabited A} (x : (S * W) * res E A) (m : A) :
  is_ok x.2 = true → result x.2 = m → x = ((x.1.1, x.1.2), Ok m).
Proof. destruct x as [[s w] [a| |]]; [|done..]. by intros _ <-. Qed.

Lemma demo_first_sent : demo_A1 = ((demo_A1.1.1, demo_A1.1.2), Ok demo_m).
Proof. destruct demo_A1_ok as (Hok & Hm & _). exact (ok_run demo_A1 demo_m Hok Hm). Qed.

Lemma demo_alice_ok : cl_local_user_id demo_a = "alice"%string ∧ has_session_with demo_a "bob" = false ∧
  identity_key (cl_key_manager demo_a) = Some ((demo_pair demo_a).1, (demo_pair demo_a).2) ∧ pair_of (demo_pair demo_a).1 (demo_pair demo_a).2 ∧
  pair_of (demo_pair demo_b0.1.1).1 (demo_pair demo_b0.1.1).2 ∧
  (check_freshness false demo_bundle (demo_a, toy_world 150)).2 = Ok tt.
Proof. split_and!; vm_compute; reflexivity. Qed.

Lemma demo_bob_ok : cl_local_user_id demo_b1.1.1 = "bob"%string ∧
  identity_key (cl_key_manager demo_b1.1.1) = Some ((demo_pair demo_b0.1.1).1, (demo_pair demo_b0.1.1).2) ∧
  peek_one_time_prekey (cl_key_manager demo_b1.1.1) 1000000 = demo_otpk ∧ demo_otpk = Some (default [] demo_otpk).
Proof. split_and!; vm_compute; reflexivity. Qed.

Lemma demo_bob_names : names_otpk (cl_key_manager demo_b1.1.1) 1000000 demo_otpk.
Proof. destruct demo_bob_ok as (_ & _ & Hp & Ho). unfold names_otpk. rewrite Hp. destruct demo_otpk; [by split|discriminate Ho]. Qed.

(** The key pair Bob generates is new. *)
Lemma demo_key_fresh w1 w' (sk pk : bytes) : demo_skip = Some w1 → generate_kem_keys w1 = (w', Ok (sk, pk)) →
  kem_public_ref pk ≠ kem_public_ref (dh_ratchet_public demo_A1.1.1) ∧ pk ≠ (demo_pair demo_b0.1.1).2.
Proof.
  intros Hw Hg. assert (bool_decide (demo_skip = None) || match generate_kem_keys (default (toy_world 0) demo_skip) with
    | (_, Ok (_, pk)) => bool_decide (kem_public_ref pk ≠ kem_public_ref (dh_ratchet_public demo_A1.1.1) ∧ pk ≠ (demo_pair demo_b0.1.1).2)
    | _ => true end = true) as Hc by (vm_compute; reflexivity).
  rewrite Hw in Hc. change (default (toy_world 0) (Some w1)) with w1 in Hc. rewrite Hg in Hc. by apply bool_decide_eq_true_1 in Hc.
Qed.

Lemma clients_meet_witness :
  ∃ sid b' wb', demo_open.2 = Ok sid ∧
    init_receiving_session_with_ephemeral "alice" (demo_pair demo_a).2 demo_re demo_m 1000000 None (demo_b1.1.1, toy_world 200)
      = ((b', wb'), Ok (sid, demo_hello)) ∧ peek_one_time_prekey (cl_key_manager b') 1000000 = None.
Proof.
  destruct demo_alice_ok as (H1 & H2 & H3 & H4 & H5 & H6). destruct demo_bob_ok as (B1 & B2 & _).
  destruct (clients_meet 0 demo_a (toy_world 150) "alice" "bob" (demo_pair demo_a).1 (demo_pair demo_a).2 demo_bundle
    (demo_pair demo_b0.1.1).1 (demo_pair demo_b0.1.1).2 (demo_spk demo_b0.1.1) demo_otpk 1000000 false None demo_clock
    H1 ltac:(discriminate) H2 ltac:(discriminate) H3 H4 demo_bundle_of demo_bundle_signed H5 H6)
    as (a' & wa' & sid & h & A & Hrun & HA & Hop & Hmeet).
  assert (demo_A = A) as EA by exact (session_after demo_open a' wa' (Ok sid) "bob" A inhabitant Hrun HA).
  destruct demo_A1_ok as (Hok & Hm & Hep & Hn). destruct demo_skip_ok as [[w1 Hw1] Hpre].
  destruct (Hmeet None demo_A1.1.1 {[0%nat := (demo_m, demo_hello)]} 0%nat demo_m demo_hello demo_b1.1.1 (toy_world 200)
    [demo_spk demo_b1.1.1] [] w1) as (b' & wb' & Hr & Hg & Hpk & _).
  - exact (opening_sends h None demo_A A demo_A1.1.1 demo_open.1.2 demo_A1.1.2 demo_m demo_hello (Hop None) EA Hep demo_first_sent).
  - apply lookup_singleton_eq.
  - exact Hn.
  - exact B1.
  - exact B2.
  - exact Hpre.
  - exact demo_bob_names.
  - exact Hw1.
  - intros w' sk pk. exact (demo_key_fresh w1 w' sk pk Hw1).
  - exists sid, b', wb'. split; [exact (f_equal snd Hrun)|]. split; [exact Hr|apply Hpk; discriminate].
Defined.

(** Alice's first message under another identity key does not open; the prekey it
    names is still there. *)
#[local] Abbreviation demo_misfiled := (init_receiving_session_with_ephemeral "alice" (kem_public_key_from_bytes (demo_pair demo_b1.1.1).2) demo_re demo_m
  1000000 None (demo_b1.1.1, toy_world 200)).
Lemma receiving_failure_keeps_keys_witness :
  ∃ e, demo_misfiled.2 = Err e ∧ cl_key_manager demo_misfiled.1.1 = cl_key_manager demo_b1.1.1.
Proof.
  destruct demo_misfiled as [[b' w'] [x|e|]] eqn:Hrun;
    [exfalso; apply (f_equal (λ r, is_ok r.2)) in Hrun; vm_compute in Hrun; discriminate| |
     exfalso; apply (f_equal (λ r, match r.2 with Err _ => true | _ => false end)) in Hrun; vm_compute in Hrun; discriminate].
  exists e. split; [reflexivity|].
  exact (proj1 (receiving_failure_keeps_keys _ _ _ _ _ _ _ _ _ _ _ Hrun)).
Defined.
