(* ===== verification/HybridSuite.v ===== *)
(** * Hybrid signatures

    Models the signatures of [src/src/crypto/suites/hybrid.rs]: Ed25519 and
    ML-DSA-65 side by side, over the crates [ed25519_dalek] and [ml_dsa]. Shown: a
    signature verifies exactly when both halves do, and what a key pair signs its
    public half verifies. The suite's KEM, AEAD and KDFs are those of [Classic]. *)

From S2P Require Import Prelude SuiteId Platform Classic Toy Crates X3dh EnvelopeBook KyberPrekeys KeyManager.

(** [ml_dsa], for ML-DSA-65. *)
Class MlDsaCrate := {
  (** [SigningKey::from_seed(seed).verifying_key().encode()] *)
  mldsa_public : bytes → bytes;
  (** [SigningKey::from_seed(seed).try_sign(message)], encoded *)
  mldsa_try_sign : bytes → bytes → option bytes;
  (** [Signature::decode]: is it the encoding of one? *)
  mldsa_signature_valid : bytes → bool;
  mldsa_verify : bytes → bytes → bytes → bool;
}.
Class MlDsaLaws `{MlDsaCrate} : Prop := {
  mldsa_public_len : ∀ seed, len (mldsa_public seed) = 1952;
  mldsa_sign_len : ∀ seed m s, mldsa_try_sign seed m = Some s → len s = 3309;
  mldsa_sign_verifies : ∀ seed m s, mldsa_try_sign seed m = Some s →
    mldsa_signature_valid s = true ∧ mldsa_verify (mldsa_public seed) m s = true;
  (** only a context longer than 255 bytes is refused, and this one is empty *)
  mldsa_sign_total : ∀ seed m, is_Some (mldsa_try_sign seed m);
}.

Definition ML_DSA_65_SIGNATURE_SIZE : Z := 3309.
Definition ED25519_PUBLIC_KEY_SIZE : Z := 32.
Definition ED25519_SIGNATURE_SIZE : Z := 64.
Definition HYBRID_SIG_PUBLIC_KEY_SIZE : Z := ED25519_PUBLIC_KEY_SIZE + ML_DSA_65_PUBLIC_KEY_SIZE.
Definition HYBRID_SIGNATURE_SIZE : Z := ED25519_SIGNATURE_SIZE + ML_DSA_65_SIGNATURE_SIZE.

Record HybridKeyParts := mkHybridKeyParts { hk_ed25519_seed : bytes; hk_mldsa_seed : bytes; hk_mldsa_pk : bytes }.

Definition split_hybrid_private_key (hybrid_sk : bytes) : res CryptoError HybridKeyParts :=
  if negb (len hybrid_sk =? HYBRID_SIG_SECRET_KEY_SIZE) then Err (InvalidInputError "Hybrid private key size mismatch") else
  ed25519_seed ← slice 0 ED25519_SECRET_KEY_SIZE hybrid_sk;
  mldsa_seed ← slice ED25519_SECRET_KEY_SIZE (ED25519_SECRET_KEY_SIZE + ML_DSA_65_SECRET_KEY_SIZE) hybrid_sk;
  mldsa_pk ← slice_from (ED25519_SECRET_KEY_SIZE + ML_DSA_65_SECRET_KEY_SIZE) hybrid_sk;
  Ok (mkHybridKeyParts ed25519_seed mldsa_seed mldsa_pk).

Definition split_hybrid_public_key (hybrid_pk : bytes) : res CryptoError (bytes * bytes) :=
  if negb (len hybrid_pk =? HYBRID_SIG_PUBLIC_KEY_SIZE) then Err (InvalidInputError "Hybrid public key size mismatch") else
  ed25519_pk ← slice 0 ED25519_PUBLIC_KEY_SIZE hybrid_pk;
  mldsa_pk ← slice_from ED25519_PUBLIC_KEY_SIZE hybrid_pk;
  Ok (ed25519_pk, mldsa_pk).

Definition split_hybrid_signature (hybrid_sig : bytes) : res CryptoError (bytes * bytes) :=
  if negb (len hybrid_sig =? HYBRID_SIGNATURE_SIZE) then Err (InvalidInputError "Hybrid signature size mismatch") else
  ed25519_sig ← slice 0 ED25519_SIGNATURE_SIZE hybrid_sig;
  mldsa_sig ← slice_from ED25519_SIGNATURE_SIZE hybrid_sig;
  Ok (ed25519_sig, mldsa_sig).

Section hybrid.
Context `{ClassicCrates} `{!MlDsaCrate}.

Definition hybrid_signature_keypair_from_seeds (ed25519_seed mldsa_seed : bytes) : bytes * bytes :=
  let mldsa_pk := mldsa_public mldsa_seed in
  (ed25519_seed ++ mldsa_seed ++ mldsa_pk, ed25519_public ed25519_seed ++ mldsa_pk).

Definition hybrid_generate_signature_keys `{Platform} : stm World CryptoError (bytes * bytes) :=
  seeds ← fill_bytes (ED25519_SECRET_KEY_SIZE + ML_DSA_65_SECRET_KEY_SIZE);
  ed25519_seed ← lift (slice 0 ED25519_SECRET_KEY_SIZE seeds);
  mldsa_seed ← lift (slice_from ED25519_SECRET_KEY_SIZE seeds);
  mret (hybrid_signature_keypair_from_seeds ed25519_seed mldsa_seed).

Definition hybrid_private_to_public (private_key : bytes) : res CryptoError bytes :=
  parts ← split_hybrid_private_key private_key;
  Ok (ed25519_public (hk_ed25519_seed parts) ++ hk_mldsa_pk parts).

Definition hybrid_sign (private_key message : bytes) : res CryptoError bytes :=
  if negb (len private_key =? HYBRID_SIG_SECRET_KEY_SIZE) then Err (InvalidInputError "Hybrid private key size mismatch") else
  parts ← split_hybrid_private_key private_key;
  mldsa_sig ← ok_or (mldsa_try_sign (hk_mldsa_seed parts) message) (SigningError "ML-DSA-65 signing failed");
  Ok (ed25519_sign (hk_ed25519_seed parts) message ++ mldsa_sig).

Definition hybrid_verify (public_key message signature : bytes) : res CryptoError unit :=
  '(ed25519_pk, mldsa_pk) ← split_hybrid_public_key public_key;
  '(ed25519_sig, mldsa_sig) ← split_hybrid_signature signature;
  if negb (ed25519_key_valid ed25519_pk) then Err (InvalidInputError "Invalid Ed25519 verifying key") else
  if negb (ed25519_verify ed25519_pk message ed25519_sig)
  then Err (SignatureVerificationError "Ed25519 verification failed") else
  if negb (mldsa_signature_valid mldsa_sig) then Err (InvalidInputError "Invalid ML-DSA-65 signature encoding") else
  if negb (mldsa_verify mldsa_pk message mldsa_sig)
  then Err (SignatureVerificationError "ML-DSA-65 verification failed") else Ok tt.

Lemma split_public_app epk mpk : len epk = 32 → len mpk = 1952 → split_hybrid_public_key (epk ++ mpk) = Ok (epk, mpk).
Proof.
  intros He Hm. unfold split_hybrid_public_key. rewrite len_app, He, Hm. change (negb _) with false. cbv match.
  by rewrite slice_here, (slice_from_app _ epk) by done.
Qed.
Lemma split_signature_app es ms : len es = 64 → len ms = 3309 → split_hybrid_signature (es ++ ms) = Ok (es, ms).
Proof.
  intros He Hm. unfold split_hybrid_signature. rewrite len_app, He, Hm. change (negb _) with false. cbv match.
  by rewrite slice_here, (slice_from_app _ es) by done.
Qed.

Lemma split_public_other pk : len pk ≠ 32 + 1952 → split_hybrid_public_key pk = Err (InvalidInputError "Hybrid public key size mismatch").
Proof. intros Hp. unfold split_hybrid_public_key. by destruct (Z.eqb_spec (len pk) HYBRID_SIG_PUBLIC_KEY_SIZE). Qed.
Lemma split_signature_other s : len s ≠ 64 + 3309 → split_hybrid_signature s = Err (InvalidInputError "Hybrid signature size mismatch").
Proof. intros Hp. unfold split_hybrid_signature. by destruct (Z.eqb_spec (len s) HYBRID_SIGNATURE_SIZE). Qed.

(** Both halves, and the two sizes. *)
Lemma hybrid_verify_halves pk m s :
  hybrid_verify pk m s = Ok tt ↔
  ∃ epk mpk esig msig, pk = epk ++ mpk ∧ s = esig ++ msig ∧ len epk = 32 ∧ len mpk = 1952 ∧ len esig = 64 ∧ len msig = 3309 ∧
    ed25519_key_valid epk = true ∧ ed25519_verify epk m esig = true ∧ mldsa_signature_valid msig = true ∧ mldsa_verify mpk m msig = true.
Proof.
  split.
  - intros Hv. destruct (decide (len pk = 32 + 1952)) as [Hp|Hp];
      [|exfalso; revert Hv; unfold hybrid_verify; by rewrite split_public_other].
    destruct (cut_at 32 1952 pk) as (epk & mpk & -> & He & Hm); [done..|]. revert Hv. unfold hybrid_verify.
    rewrite split_public_app by done. cbn [mbind res_bind]. destruct (decide (len s = 64 + 3309)) as [Hs|Hs];
      [|by rewrite split_signature_other].
    destruct (cut_at 64 3309 s) as (es & ms & -> & Hes & Hms); [done..|]. rewrite split_signature_app by done. cbn [mbind res_bind].
    intros Hv. exists epk, mpk, es, ms. split_and!; try done; revert Hv; repeat (case_match; [done|]); by rewrite ?negb_false_iff in *.
  - intros (epk & mpk & es & ms & -> & -> & He & Hm & Hes & Hms & Hk & Hve & Hsv & Hvm). unfold hybrid_verify.
    rewrite split_public_app, split_signature_app by done. cbn [mbind res_bind]. by rewrite Hk, Hve, Hsv, Hvm.
Qed.
Lemma hybrid_verify_no_panic pk m s : hybrid_verify pk m s ≠ Panic.
Proof.
  unfold hybrid_verify. destruct (decide (len pk = 32 + 1952)) as [Hp|Hp];
    [|by rewrite split_public_other].
  destruct (cut_at 32 1952 pk) as (epk & mpk & -> & He & Hm); [done..|]. rewrite split_public_app by done. cbn [mbind res_bind].
  destruct (decide (len s = 64 + 3309)) as [Hs|Hs]; [|by rewrite split_signature_other].
  destruct (cut_at 64 3309 s) as (es & ms & -> & Hes & Hms); [done..|]. rewrite split_signature_app by done. cbn [mbind res_bind].
  by repeat case_match.
Qed.

Context `{!Ed25519Laws} `{!MlDsaLaws}.

(** A generated private key, taken apart. *)
Lemma split_keypair es ms : len es = 32 → len ms = 32 → ∀ {B} (f : HybridKeyParts → res CryptoError B),
  (split_hybrid_private_key (hybrid_signature_keypair_from_seeds es ms).1 ≫= f) = f (mkHybridKeyParts es ms (mldsa_public ms)).
Proof.
  intros He Hm B f. unfold hybrid_signature_keypair_from_seeds, split_hybrid_private_key. cbn [fst].
  rewrite !len_app, He, Hm, mldsa_public_len. change (negb _) with false. cbv match.
  by rewrite slice_here, (slice_mid _ _ es ms), app_assoc, (slice_from_app _ (es ++ ms)) by (rewrite ?len_app, ?He, ?Hm; done).
Qed.
Lemma keypair_len es ms : len es = 32 → len ms = 32 →
  len (hybrid_signature_keypair_from_seeds es ms).1 = HYBRID_SIG_SECRET_KEY_SIZE.
Proof. intros He Hm. unfold hybrid_signature_keypair_from_seeds. cbn [fst]. by rewrite !len_app, He, Hm, mldsa_public_len. Qed.
Lemma keypair_public es ms : len es = 32 → len ms = 32 →
  hybrid_private_to_public (hybrid_signature_keypair_from_seeds es ms).1 = Ok (hybrid_signature_keypair_from_seeds es ms).2.
Proof. intros He Hm. unfold hybrid_private_to_public. by rewrite split_keypair. Qed.

(** What a key pair signs, its public half verifies. *)
Lemma hybrid_sign_verifies es ms m : len es = 32 → len ms = 32 →
  ∃ s, hybrid_sign (hybrid_signature_keypair_from_seeds es ms).1 m = Ok s ∧
    len s = HYBRID_SIGNATURE_SIZE ∧ hybrid_verify (hybrid_signature_keypair_from_seeds es ms).2 m s = Ok tt.
Proof.
  intros He Hm. unfold hybrid_sign. rewrite keypair_len by done. change (negb _) with false. cbv match. rewrite split_keypair by done.
  cbn [hk_ed25519_seed hk_mldsa_seed]. destruct (mldsa_sign_total ms m) as [sig Hs]. rewrite Hs. cbn [ok_or mbind res_bind].
  pose proof (mldsa_sign_len _ _ _ Hs) as Hl. destruct (mldsa_sign_verifies _ _ _ Hs) as [Hv1 Hv2].
  eexists. split; [done|]. split; [by rewrite len_app, ed25519_sign_len, Hl|]. apply hybrid_verify_halves.
  exists (ed25519_public es), (mldsa_public ms), (ed25519_sign es m), sig.
  split_and!; auto using ed25519_public_len, mldsa_public_len, ed25519_sign_len, ed25519_public_valid, ed25519_sign_verifies.
Qed.
End hybrid.

(** ** A concrete ML-DSA *)

#[global] Instance toy_mldsa : MlDsaCrate := {|
  mldsa_public seed := toy_stream 1952 (digest 17 seed);
  mldsa_try_sign seed m := Some (toy_stream 3309 (digest (digest 19 (toy_stream 1952 (digest 17 seed))) m));
  mldsa_signature_valid _ := true;
  mldsa_verify pk m s := bool_decide (s = toy_stream 3309 (digest (digest 19 pk) m));
|}.
#[global] Instance toy_mldsa_laws : MlDsaLaws.
Proof.
  split; cbn [mldsa_public mldsa_try_sign mldsa_signature_valid mldsa_verify toy_mldsa].
  - intros seed. unfold len. by rewrite toy_stream_len.
  - intros seed m s Hs%(inj Some). rewrite <- Hs. unfold len. by rewrite toy_stream_len.
  - intros seed m s Hs%(inj Some). split; [done|]. apply bool_decide_eq_true_2. by rewrite <- Hs.
  - by eexists.
Qed.
