(* ===== verification/ServerTrust.v ===== *)
(** * Server keys

    Models the bytes of a server signature, [src/server-trust/src/lib.rs], and the
    ring of server keys a client accepts, [src/src/crypto/server_trust.rs]: a root
    signs delegations, a delegated key signs certificates and tree heads. Shown: what
    the ring accepts, and that the signed bytes of two statements never coincide. *)

From stdpp Require Import strings.
From S2P Require Import Prelude SuiteId Platform Classic Toy Crates X3dh EnvelopeBook KyberPrekeys KeyManager HybridSuite.

(** ** Formats *)

Definition HYBRID_PUBLIC_KEY_LEN : Z := 32 + 1952.
Definition HYBRID_SIGNATURE_LEN : Z := 64 + 3309.
Definition DELEGATION_VERSION : Z := 1.
Definition KID_LEN : Z := 16.
Definition DELEGATION_LEN : Z := 1 + 1 + 8 + 8 + HYBRID_PUBLIC_KEY_LEN + HYBRID_SIGNATURE_LEN.
Definition SENDER_CERT_MAX_LIFETIME_SECS : Z := 86400.
Definition MAX_DELIVERY_AGE_SECS : Z := 7 * 86400.

(** An [i64], and the bytes of one: [to_be_bytes] is two's complement. *)
Definition is_i64 (z : Z) : Prop := - 2 ^ 63 ≤ z < 2 ^ 63.
Definition i64_from_be_bytes (b : bytes) : Z := let v := be_val b in if v <? 2 ^ 63 then v else v - 2 ^ 64.
(** [a.saturating_add(b)], [a.saturating_sub(b)] on [i64] *)
Definition sat_i64 (z : Z) : Z := Z.max (- 2 ^ 63) (Z.min (2 ^ 63 - 1) z).

Inductive Purpose := SenderCert | KtHead | StickerManifest.
#[global] Instance purpose_eq_dec : EqDecision Purpose.
Proof. solve_decision. Defined.

Definition purpose_u8 (p : Purpose) : Z := match p with SenderCert => 1 | KtHead => 2 | StickerManifest => 3 end.
Definition purpose_from_byte (b : byte) : option Purpose :=
  find_first (λ p, purpose_u8 p =? byte_to_Z b) [SenderCert; KtHead; StickerManifest].

Definition label (p : Purpose) : bytes :=
  as_bytes match p with
           | SenderCert => "konstruct/v1/sender-cert"
           | KtHead => "konstruct/v1/kt-head"
           | StickerManifest => "konstruct/v1/sticker-manifest"
           end.

Definition grace_secs (p : Purpose) : option Z :=
  match p with
  | SenderCert => Some (SENDER_CERT_MAX_LIFETIME_SECS + MAX_DELIVERY_AGE_SECS)
  | KtHead => Some 0
  | StickerManifest => None
  end.

(** [Malformed], the only error of the formats. *)
Inductive FormatError := FormatMalformed.

Definition DELEGATION_LABEL : bytes := as_bytes "konstruct/v1/delegation".
Definition KID_LABEL : bytes := as_bytes "konstruct/v1/kid".

Definition kid_of `{Sha2Crate} (public_key : bytes) : bytes := take 16 (sha256 (KID_LABEL ++ public_key)).

Record Delegation := mkDelegation {
  dg_purpose : Purpose;
  dg_not_before : Z;
  dg_not_after : Z;
  dg_public_key : bytes;
  dg_root_signature : bytes;
}.

Definition delegation_signable (p : Purpose) (not_before not_after : Z) (public_key : bytes) : bytes :=
  DELEGATION_LABEL ++ [byte_of_Z DELEGATION_VERSION; byte_of_Z (purpose_u8 p)] ++ be_bytes 8 not_before ++ be_bytes 8 not_after ++ public_key.
Definition signable (d : Delegation) : bytes :=
  delegation_signable (dg_purpose d) (dg_not_before d) (dg_not_after d) (dg_public_key d).

Definition delegation_encode (d : Delegation) : bytes :=
  [byte_of_Z DELEGATION_VERSION; byte_of_Z (purpose_u8 (dg_purpose d))] ++ be_bytes 8 (dg_not_before d) ++ be_bytes 8 (dg_not_after d)
    ++ dg_public_key d ++ dg_root_signature d.

Definition delegation_decode (b : bytes) : res FormatError Delegation :=
  if negb (len b =? DELEGATION_LEN) then Err FormatMalformed else
  version ← index 0 b;
  if negb (byte_to_Z version =? DELEGATION_VERSION) then Err FormatMalformed else
  purpose ← index 1 b;
  purpose ← ok_or (purpose_from_byte purpose) FormatMalformed;
  not_before ← slice 2 10 b;
  not_after ← slice 10 18 b;
  let sig_at := 18 + HYBRID_PUBLIC_KEY_LEN in
  public_key ← slice 18 sig_at b;
  root_signature ← slice_from sig_at b;
  let d := mkDelegation purpose (i64_from_be_bytes not_before) (i64_from_be_bytes not_after) public_key root_signature in
  if dg_not_before d >=? dg_not_after d then Err FormatMalformed else Ok d.

Definition server_signable (p : Purpose) (kid body : bytes) : bytes := label p ++ kid ++ body.

Definition put_lp (field : bytes) : res FormatError bytes :=
  if len field >? u16_max then Err FormatMalformed else Ok (be_bytes 2 (len field) ++ field).

Definition sender_cert_body (user_id domain : string) (identity_key : bytes) (device_id : string) (issued_at expires_at : Z)
    : res FormatError bytes :=
  user ← put_lp (as_bytes user_id);
  dom ← put_lp (as_bytes domain);
  key ← put_lp identity_key;
  device ← put_lp (as_bytes device_id);
  Ok (user ++ dom ++ key ++ device ++ be_bytes 8 issued_at ++ be_bytes 8 expires_at).

(** The payload of the Ed25519 signature of a certificate
    ([src/src/crypto/sealed_sender/mod.rs]). *)
Definition build_cert_sign_payload (user_id domain : string) (identity_key : bytes) (device_id : string) (issued_at expires_at : Z) : bytes :=
  as_bytes user_id ++ as_bytes domain ++ identity_key ++ as_bytes device_id ++ be_bytes 8 issued_at ++ be_bytes 8 expires_at.

Definition kt_head_body (tree_size : Z) (root_hash : bytes) : bytes := be_bytes 8 tree_size ++ root_hash.

Definition sticker_manifest_body (canonical : bytes) : res FormatError bytes :=
  if len canonical >? u32_max then Err FormatMalformed else Ok (be_bytes 4 (len canonical) ++ canonical).

(** ** The ring *)

(** No root is pinned in this build. *)
Definition PINNED_ROOTS : list string := [].
Definition HYBRID_REQUIRED : bool := false.

Inductive TrustError :=
  | TeMalformed | TeNoRoot | TeNotRooted | TeUnknownKey | TeWrongPurpose | TeOutsideWindow | TeExpired | TeBadSignature.

Record ServerKeyRing := mkRing { rg_roots : list bytes; rg_keys : list Delegation }.

Definition ring_new (roots : list bytes) : ServerKeyRing := mkRing roots [].
Definition ring_pinned `{HexCrate} : ServerKeyRing := ring_new (omap hex_decode PINNED_ROOTS).
Definition has_roots (r : ServerKeyRing) : bool := match rg_roots r with [] => false | _ => true end.

Section ring.
Context `{ClassicCrates} `{!MlDsaCrate} `{!Sha2Crate}.

(** [HybridSuiteProvider::verify(..).is_ok()]; it does not panic. *)
Definition hybrid_verifies (public_key message signature : bytes) : bool :=
  match hybrid_verify public_key message signature with Ok _ => true | _ => false end.

Definition kid (d : Delegation) : bytes := kid_of (dg_public_key d).

Definition issue_delegation (root_private_key : bytes) (p : Purpose) (not_before not_after : Z) (public_key : bytes)
    : res TrustError Delegation :=
  if negb (len public_key =? HYBRID_SIG_PUBLIC_KEY_SIZE) || (not_before >=? not_after) then Err TeMalformed else
  root_signature ← map_err (λ _, TeMalformed) (hybrid_sign root_private_key (delegation_signable p not_before not_after public_key));
  Ok (mkDelegation p not_before not_after public_key root_signature).

Definition verify_rooted (d : Delegation) (roots : list bytes) : res TrustError unit :=
  match roots with
  | [] => Err TeNoRoot
  | _ => if existsb (λ root, hybrid_verifies root (signable d) (dg_root_signature d)) roots then Ok tt else Err TeNotRooted
  end.

Definition sign_as_server (p : Purpose) (private_key public_key body : bytes) : res TrustError bytes :=
  map_err (λ _, TeMalformed) (hybrid_sign private_key (server_signable p (kid_of public_key) body)).

(** The delegation is already among the keys: same key, purpose and window. *)
Definition same_grant (d k : Delegation) : bool :=
  bool_decide (kid k = kid d) && bool_decide (dg_purpose k = dg_purpose d) &&
  (dg_not_before k =? dg_not_before d) && (dg_not_after k =? dg_not_after d).

Definition admit_delegation (encoded : bytes) (r : ServerKeyRing) : ServerKeyRing * res TrustError bytes :=
  match map_err (λ _, TeMalformed) (delegation_decode encoded) with
  | Ok d =>
      match verify_rooted d (rg_roots r) with
      | Ok _ => (if existsb (same_grant d) (rg_keys r) then r else mkRing (rg_roots r) (rg_keys r ++ [d]), Ok (kid d))
      | Err e => (r, Err e)
      | Panic => (r, Panic)
      end
  | Err e => (r, Err e)
  | Panic => (r, Panic)
  end.

Definition window_holds (signed_at : Z) (d : Delegation) : bool := (signed_at >=? dg_not_before d) && (signed_at <=? dg_not_after d).

(** [.max()] *)
Definition max_of (l : list Z) : option Z := match l with [] => None | x :: l => Some (foldl Z.max x l) end.

Definition ring_verify (r : ServerKeyRing) (p : Purpose) (k body signature : bytes) (signed_at now : Z) : res TrustError unit :=
  let named := retain (λ d, bool_decide (kid d = k)) (rg_keys r) in
  match named with
  | [] => Err TeUnknownKey
  | _ =>
      let for_purpose := retain (λ d, bool_decide (dg_purpose d = p)) named in
      match for_purpose with
      | [] => Err TeWrongPurpose
      | key :: _ =>
          _ ← map_err (λ _, TeBadSignature) (hybrid_verify (dg_public_key key) (server_signable p k body) signature);
          match max_of (dg_not_after <$> retain (window_holds signed_at) for_purpose) with
          | None => Err TeOutsideWindow
          | Some not_after =>
              match grace_secs p with
              | Some grace => if now >? sat_i64 (not_after + grace) then Err TeExpired else Ok tt
              | None => Ok tt
              end
          end
      end
  end.
End ring.

Lemma ring_verify_no_panic `{ClassicCrates} `{!MlDsaCrate} `{!Sha2Crate} r p k body sig signed_at now :
  ring_verify r p k body sig signed_at now ≠ Panic.
Proof.
  unfold ring_verify. case_match; [done|]. case_match; [done|]. destruct (hybrid_verify _ _ _) eqn:Hv; cbn; [|done|by apply hybrid_verify_no_panic in Hv].
  by repeat case_match.
Qed.

(** ** What the ring accepts *)

Section accepts.
Context `{ClassicCrates} `{!MlDsaCrate} `{!Sha2Crate}.

(** A root signed the delegation. *)
Definition rooted (roots : list bytes) (d : Delegation) : Prop :=
  ∃ root, root ∈ roots ∧ hybrid_verify root (signable d) (dg_root_signature d) = Ok tt.

(** A ring that was shown [blobs]; those it refuses leave it as it was. *)
Definition ring_after (roots : list bytes) (blobs : list bytes) : ServerKeyRing :=
  foldl (λ r b, (admit_delegation b r).1) (ring_new roots) blobs.
Definition granted (roots blobs : list bytes) (d : Delegation) : Prop :=
  ∃ blob, blob ∈ blobs ∧ delegation_decode blob = Ok d ∧ rooted roots d.

Lemma verify_rooted_iff d roots : verify_rooted d roots = Ok tt ↔ rooted roots d.
Proof.
  unfold verify_rooted, rooted, hybrid_verifies. split.
  - destruct roots as [|r0 roots]; [done|]. destruct (existsb _ _) eqn:He; [|done]. intros _.
    apply existsb_exists in He as (root & Hin & Hv). exists root. split; [by apply list_elem_of_In|]. by destruct (hybrid_verify _ _ _) as [[]| |].
  - intros (root & Hin & Hv). destruct roots as [|r0 roots]; [by apply elem_of_nil in Hin|].
    destruct (existsb _ _) eqn:He; [done|]. apply not_true_iff_false in He. exfalso. apply He, existsb_exists.
    exists root. split; [by apply list_elem_of_In|]. by rewrite Hv.
Qed.
Lemma same_grant_iff d k : same_grant d k = true ↔
  kid k = kid d ∧ dg_purpose k = dg_purpose d ∧ dg_not_before k = dg_not_before d ∧ dg_not_after k = dg_not_after d.
Proof. unfold same_grant. rewrite !andb_true_iff, !bool_decide_eq_true, !Z.eqb_eq. tauto. Qed.

Lemma admit_cases b r :
  rg_roots (admit_delegation b r).1 = rg_roots r ∧
  ((admit_delegation b r).1 = r ∧ (∀ d, delegation_decode b = Ok d → rooted (rg_roots r) d → existsb (same_grant d) (rg_keys r) = true) ∨
   ∃ d, delegation_decode b = Ok d ∧ rooted (rg_roots r) d ∧ rg_keys (admit_delegation b r).1 = rg_keys r ++ [d]).
Proof.
  unfold admit_delegation. destruct (delegation_decode b) as [d| |] eqn:Hd; cbn [map_err]; [|by split; [|left; split]..].
  destruct (verify_rooted d (rg_roots r)) as [[]| |] eqn:Hv.
  - destruct (existsb (same_grant d) (rg_keys r)) eqn:He; cbn; (split; [done|]).
    + left. split; [done|]. intros d' Hd' _. by injection Hd' as <-.
    + right. exists d. split_and!; [done|by apply verify_rooted_iff|done].
  - split; [done|]. left. split; [done|]. intros d' Hd' Hr. injection Hd' as <-. apply verify_rooted_iff in Hr. congruence.
  - split; [done|]. left. split; [done|]. intros d' Hd' Hr. injection Hd' as <-. apply verify_rooted_iff in Hr. congruence.
Qed.

(** The keys of a ring are the delegations a root signed, one per grant. *)
Lemma ring_keys roots blobs :
  rg_roots (ring_after roots blobs) = roots ∧
  (∀ d, d ∈ rg_keys (ring_after roots blobs) → granted roots blobs d) ∧
  (∀ d, granted roots blobs d → existsb (same_grant d) (rg_keys (ring_after roots blobs)) = true).
Proof.
  induction blobs as [|b blobs IH] using rev_ind.
  { split_and!; [done|by intros d ?%elem_of_nil|]. intros d (b & Hb & _). by apply elem_of_nil in Hb. }
  destruct IH as (Hr & Hk & Hg). unfold ring_after in *. rewrite foldl_app. cbn [foldl].
  set (r := foldl _ _ blobs) in *. destruct (admit_cases b r) as [Hr' Hc]. rewrite Hr in *.
  assert (∀ d, granted roots blobs d → granted roots (blobs ++ [b]) d) as Hmore.
  { intros d (b' & Hb' & Hd). exists b'. split; [|done]. apply elem_of_app. by left. }
  split_and!; [congruence|..].
  - intros d Hd. destruct Hc as [[Hc _]|(d' & Hdec & Hroot & Hkeys)]; [rewrite Hc in Hd; auto|].
    rewrite Hkeys in Hd. apply elem_of_app in Hd as [Hd| ->%list_elem_of_singleton]; [auto|].
    exists b. split; [apply elem_of_app; right; by apply list_elem_of_singleton|done].
  - intros d (b' & Hb' & Hdec & Hroot). apply elem_of_app in Hb' as [Hb'| ->%list_elem_of_singleton].
    + assert (existsb (same_grant d) (rg_keys r) = true) as He by (apply Hg; by exists b').
      destruct Hc as [[-> _]|(d' & _ & _ & ->)]; [done|]. by rewrite existsb_app, He.
    + destruct Hc as [[-> Hc]|(d' & Hdec' & _ & ->)]; [by apply Hc|]. assert (d' = d) as -> by congruence.
      rewrite existsb_app. cbn. rewrite (proj2 (same_grant_iff d d)) by done. by rewrite orb_true_r.
Qed.

Lemma max_of_spec l m : max_of l = Some m → m ∈ l ∧ ∀ x, x ∈ l → x ≤ m.
Proof.
  destruct l as [|y l]; [done|]. cbn. intros Hm%(inj Some). revert y m Hm.
  induction l as [|z l IH]; intros y m Hm; cbn in Hm; [subst; split; set_solver by lia|].
  destruct (IH _ _ Hm) as [Hin Hle]. split; [|].
  - apply elem_of_cons in Hin as [->|Hin]; [|set_solver]. destruct (Z.max_spec y z) as [[_ ->]|[_ ->]]; set_solver.
  - intros x Hx. assert (Z.max y z ≤ m) by (apply Hle; set_solver). apply elem_of_cons in Hx as [->|Hx]; [lia|].
    apply elem_of_cons in Hx as [->|Hx]; [lia|]. apply Hle. set_solver.
Qed.
Lemma max_of_none l : max_of l = None → l = [].
Proof. by destruct l. Qed.
Lemma elem_retain {A} (f : A → bool) l x : x ∈ retain f l ↔ f x = true ∧ x ∈ l.
Proof. unfold retain. by rewrite list_elem_of_filter. Qed.

(** The conditions under which [d] lets a signature pass. *)
Definition vouches (d : Delegation) (p : Purpose) (k body signature : bytes) (signed_at now : Z) : Prop :=
  dg_purpose d = p ∧ kid d = k ∧ hybrid_verify (dg_public_key d) (server_signable p k body) signature = Ok tt ∧
  dg_not_before d ≤ signed_at ≤ dg_not_after d ∧ ∀ g, grace_secs p = Some g → now ≤ sat_i64 (dg_not_after d + g).

(** Which server signatures a client accepts. Of whatever delegations a ring was
    shown, in any order and with any forgeries among them, a signature passes exactly
    when one that a pinned root signed names this key for this purpose, the key made
    the signature over these bytes, the date is inside that delegation's window, and
    the clock is within the purpose's grace of its end. No other delegation, and no
    renewal, makes it fail. Two keys of one key id, which is half of a SHA-256, are
    excluded. *)
Lemma ring_verify_iff roots blobs p k body signature signed_at now :
  (∀ d d', granted roots blobs d → granted roots blobs d' → kid d = kid d' → dg_public_key d = dg_public_key d') →
  ring_verify (ring_after roots blobs) p k body signature signed_at now = Ok tt ↔
  ∃ d, granted roots blobs d ∧ vouches d p k body signature signed_at now.
Proof.
  intros Huniq. destruct (ring_keys roots blobs) as (_ & Hk & Hg). set (r := ring_after roots blobs) in *.
  unfold ring_verify. set (named := retain _ (rg_keys r)). set (fp := retain _ named).
  assert (∀ d, d ∈ fp ↔ dg_purpose d = p ∧ kid d = k ∧ d ∈ rg_keys r) as Hfp.
  { intros d. unfold fp, named. rewrite !elem_retain, !bool_decide_eq_true. tauto. }
  clearbody fp. split.
  - destruct named as [|n0 named']; [done|]. destruct fp as [|key fp']; [done|].
    destruct (hybrid_verify _ _ _) as [[]| |] eqn:Hv; cbn [map_err mbind res_bind]; [|done..].
    destruct (max_of _) as [na|] eqn:Hm; [|done]. apply max_of_spec in Hm as [Hin _].
    apply list_elem_of_fmap in Hin as (d & -> & Hd). apply elem_retain in Hd as [Hwin Hd]. intros Hgr.
    destruct (proj1 (Hfp key)) as (_ & Hkk & Hkey); [left|]. apply Hfp in Hd as (Hp & Hkid & Hd).
    exists d. split; [by apply Hk|]. unfold window_holds in Hwin. apply andb_true_iff in Hwin as [? ?].
    split; [done|]. split; [done|]. split; [|split; [lia|]].
    + by rewrite (Huniq d key (Hk d Hd) (Hk key Hkey) (eq_trans Hkid (eq_sym Hkk))).
    + intros g Hgs. rewrite Hgs in Hgr. destruct (Z.gtb_spec now (sat_i64 (dg_not_after d + g))); [done|lia].
  - intros (d & Hd & Hp & Hkid & Hv & Hwin & Hgr). pose proof (Hg d Hd) as He. apply existsb_exists in He as (d' & Hin & Hsame).
    apply same_grant_iff in Hsame as (Hk' & Hp' & Hnb & Hna). apply list_elem_of_In in Hin.
    assert (d' ∈ fp) as Hd' by (apply Hfp; split_and!; [congruence|congruence|done]).
    assert (d' ∈ named) as Hn by (unfold named; apply elem_retain; rewrite bool_decide_eq_true; split; [congruence|done]).
    clearbody named. destruct named as [|n0 named']; [by apply elem_of_nil in Hn|].
    destruct fp as [|key fp']; [by apply elem_of_nil in Hd'|]. destruct (proj1 (Hfp key)) as (_ & Hkk & Hkey); [left|].
    rewrite (Huniq key d (Hk key Hkey) Hd (eq_trans Hkk (eq_sym Hkid))), Hv. cbn [map_err mbind res_bind].
    assert (d' ∈ retain (window_holds signed_at) (key :: fp')) as Hw.
    { apply elem_retain. split; [|done]. unfold window_holds. rewrite Hnb, Hna. lia. }
    destruct (max_of _) as [na|] eqn:Hm.
    2: { apply max_of_none, fmap_nil_inv in Hm. rewrite Hm in Hw. by apply elem_of_nil in Hw. }
    apply max_of_spec in Hm as [_ Hle]. specialize (Hle (dg_not_after d')). destruct (grace_secs p) as [g|] eqn:Hgs; [|done].
    specialize (Hgr g eq_refl). assert (dg_not_after d' ≤ na) by (apply Hle, list_elem_of_fmap; eauto).
    destruct (Z.gtb_spec now (sat_i64 (na + g))); [|done]. unfold sat_i64 in *. lia.
Qed.

(** A lapsed key: the signature and its date have passed. *)
Lemma ring_verify_expired roots blobs p k body signature signed_at now :
  (∀ d d', granted roots blobs d → granted roots blobs d' → kid d = kid d' → dg_public_key d = dg_public_key d') →
  ring_verify (ring_after roots blobs) p k body signature signed_at now = Err TeExpired →
  ∃ d, granted roots blobs d ∧ dg_purpose d = p ∧ kid d = k ∧
    hybrid_verify (dg_public_key d) (server_signable p k body) signature = Ok tt ∧ dg_not_before d ≤ signed_at ≤ dg_not_after d.
Proof.
  intros Huniq. destruct (ring_keys roots blobs) as (_ & Hk & _). set (r := ring_after roots blobs) in *.
  unfold ring_verify. set (named := retain _ (rg_keys r)). set (fp := retain _ named).
  assert (∀ d, d ∈ fp → dg_purpose d = p ∧ kid d = k ∧ d ∈ rg_keys r) as Hfp.
  { intros d. unfold fp, named. rewrite !elem_retain, !bool_decide_eq_true. tauto. }
  clearbody fp. destruct named as [|n0 named']; [done|]. destruct fp as [|key fp']; [done|].
  destruct (hybrid_verify _ _ _) as [[]| |] eqn:Hv; cbn [map_err mbind res_bind]; [|done..].
  destruct (max_of _) as [na|] eqn:Hm; [|done]. apply max_of_spec in Hm as [Hin _]. intros _.
  apply list_elem_of_fmap in Hin as (d & -> & Hd). apply elem_retain in Hd as [Hwin Hd].
  destruct (Hfp key) as (_ & Hkk & Hkey); [left|]. destruct (Hfp d Hd) as (Hp & Hkid & Hdr).
  exists d. unfold window_holds in Hwin. apply andb_true_iff in Hwin as [? ?]. split_and!; [by apply Hk|done|done| |lia|lia].
  by rewrite (Huniq d key (Hk d Hdr) (Hk key Hkey) (eq_trans Hkid (eq_sym Hkk))).
Qed.

End accepts.

(** ** The bytes *)

Lemma i64_roundtrip z : is_i64 z → i64_from_be_bytes (be_bytes 8 z) = z.
Proof.
  intros Hz. unfold i64_from_be_bytes. unfold be_val, be_bytes. rewrite reverse_involutive, le_val_bytes. change (256 ^ Z.of_nat 8) with (2 ^ 64).
  unfold is_i64 in Hz. destruct (decide (0 ≤ z)) as [Hp|Hn].
  - rewrite Z.mod_small by lia. destruct (Z.ltb_spec z (2 ^ 63)); lia.
  - assert (z `mod` 2 ^ 64 = z + 2 ^ 64) as ->.
    { symmetry. apply (Z.mod_unique_pos _ _ (-1)); lia. }
    destruct (Z.ltb_spec (z + 2 ^ 64) (2 ^ 63)); lia.
Qed.
Lemma i64_bytes_inj z z' : is_i64 z → is_i64 z' → be_bytes 8 z = be_bytes 8 z' → z = z'.
Proof. intros Hz Hz' He. by rewrite <- (i64_roundtrip z), He, i64_roundtrip. Qed.
Lemma purpose_byte p : purpose_from_byte (byte_of_Z (purpose_u8 p)) = Some p.
Proof. by destruct p. Qed.

Definition wf_delegation (d : Delegation) : Prop :=
  is_i64 (dg_not_before d) ∧ is_i64 (dg_not_after d) ∧ dg_not_before d < dg_not_after d ∧
  len (dg_public_key d) = HYBRID_PUBLIC_KEY_LEN ∧ len (dg_root_signature d) = HYBRID_SIGNATURE_LEN.

Lemma delegation_roundtrip d : wf_delegation d → delegation_decode (delegation_encode d) = Ok d.
Proof.
  intros (Hb & Ha & Hlt & Hk & Hs). destruct d as [p nb na pk sig]. unfold delegation_decode, delegation_encode.
  cbn [dg_purpose dg_not_before dg_not_after dg_public_key dg_root_signature] in *.
  assert (∀ l : bytes, len l = 2 → len (l ++ be_bytes 8 nb ++ be_bytes 8 na ++ pk ++ sig) = DELEGATION_LEN) as Hlen.
  { intros l Hl. by rewrite !len_app, !len_be_bytes, Hl, Hk, Hs. }
  rewrite Hlen by done. rewrite Z.eqb_refl. cbn [negb].
  set (v := byte_of_Z DELEGATION_VERSION). set (q := byte_of_Z (purpose_u8 p)).
  assert (∀ r, @index FormatError _ 0 ([v; q] ++ r) = Ok v) as -> by done. cbn [mbind res_bind].
  change (negb (byte_to_Z v =? DELEGATION_VERSION)) with false. cbv match.
  assert (∀ r, @index FormatError _ 1 ([v; q] ++ r) = Ok q) as -> by done. cbn [mbind res_bind].
  unfold q. rewrite purpose_byte. cbn [ok_or mbind res_bind]. fold q.
  rewrite (slice_mid 2 10 [v; q]) by (rewrite ?len_be_bytes; done). cbn [mbind res_bind].
  rewrite (app_assoc [v; q]), (slice_mid 10 18 ([v; q] ++ be_bytes 8 nb)) by (rewrite ?len_app, ?len_be_bytes; done). cbn [mbind res_bind].
  rewrite (app_assoc _ (be_bytes 8 na)), (slice_mid 18 _ (([v; q] ++ be_bytes 8 nb) ++ be_bytes 8 na)) by (rewrite ?len_app, ?len_be_bytes, ?Hk; done).
  cbn [mbind res_bind]. rewrite (app_assoc _ pk), slice_from_app by (rewrite ?len_app, ?len_be_bytes, ?Hk; done). cbn [mbind res_bind].
  rewrite !i64_roundtrip by done. destruct (Z.geb_spec nb na); [lia|done].
Qed.

Lemma be_bytes_same_len n z z' : length (be_bytes n z) = length (be_bytes n z').
Proof. apply Nat2Z.inj. change (len (be_bytes n z) = len (be_bytes n z')). by rewrite !len_be_bytes. Qed.
Lemma put_lp_inj a b x y ra rb : put_lp a = Ok x → put_lp b = Ok y → x ++ ra = y ++ rb → a = b ∧ ra = rb.
Proof.
  unfold put_lp. destruct (Z.gtb_spec (len a) u16_max) as [|Ha]; [done|]. destruct (Z.gtb_spec (len b) u16_max) as [|Hb]; [done|].
  intros Hx Hy. injection Hx as <-. injection Hy as <-. rewrite <- !app_assoc. intros He.
  apply app_inj_1 in He as [Hl He]; [|by apply be_bytes_same_len].
  pose proof (len_nonneg a). pose proof (len_nonneg b). unfold u16_max in *.
  apply be_bytes_inj in Hl; [|change (256 ^ Z.of_nat 2) with 65536; lia..]. apply app_inj_1 in He; [done|]. unfold len in Hl. lia.
Qed.

(** C36: No two statements are signed by the same bytes. What a server key signs
    determines the purpose, the key id and the body, and is never what a root signs for
    a delegation; the body of a certificate determines every field of it. The payload of
    the Ed25519 signature, which has neither label nor lengths, does not: two different
    certificates have the same one. *)
Theorem signed_bytes_unambiguous :
  (∀ p p' k k' b b', len k = KID_LEN → len k' = KID_LEN → server_signable p k b = server_signable p' k' b' → p = p' ∧ k = k' ∧ b = b') ∧
  (∀ p k b q nb na pk, server_signable p k b ≠ delegation_signable q nb na pk) ∧
  (∀ u u' d d' k k' v v' i i' e e' b, is_i64 i → is_i64 i' → is_i64 e → is_i64 e' →
     sender_cert_body u d k v i e = Ok b → sender_cert_body u' d' k' v' i' e' = Ok b →
     u = u' ∧ d = d' ∧ k = k' ∧ v = v' ∧ i = i' ∧ e = e') ∧
  (∃ u u' d d', (u, d) ≠ (u', d') ∧ ∀ k v i e, build_cert_sign_payload u d k v i e = build_cert_sign_payload u' d' k v i e).
Proof.
  split_and!; [..|by exists "ab"%string, "a"%string, "c"%string, "bc"%string].
  - intros p p' k k' b b' Hk Hk' He. unfold server_signable in He. assert (p = p') as <- by (destruct p, p'; try done; discriminate He).
    apply app_inv_head in He. apply app_inj_1 in He as [-> ->]; [done|]. unfold len in *. lia.
  - intros p k b q nb na pk He. destruct p; discriminate He.
  - intros u u' d d' k k' v v' i i' e e' b Hi Hi' He He' Hb Hb'. unfold sender_cert_body in *.
    destruct (put_lp (as_bytes u)) as [xu| |] eqn:Hu; [|done..]. destruct (put_lp (as_bytes u')) as [xu'| |] eqn:Hu'; [|done..].
    destruct (put_lp (as_bytes d)) as [xd| |] eqn:Hd; [|done..]. destruct (put_lp (as_bytes d')) as [xd'| |] eqn:Hd'; [|done..].
    destruct (put_lp k) as [xk| |] eqn:Hk; [|done..]. destruct (put_lp k') as [xk'| |] eqn:Hk'; [|done..].
    destruct (put_lp (as_bytes v)) as [xv| |] eqn:Hv; [|done..]. destruct (put_lp (as_bytes v')) as [xv'| |] eqn:Hv'; [|done..].
    cbn [mbind res_bind] in *. injection Hb as <-. injection Hb' as Hb'.
    destruct (put_lp_inj _ _ _ _ _ _ Hu' Hu Hb') as [E1%(inj as_bytes) Hb1]. destruct (put_lp_inj _ _ _ _ _ _ Hd' Hd Hb1) as [E2%(inj as_bytes) Hb2].
    destruct (put_lp_inj _ _ _ _ _ _ Hk' Hk Hb2) as [E3 Hb3]. destruct (put_lp_inj _ _ _ _ _ _ Hv' Hv Hb3) as [E4%(inj as_bytes) Hb4].
    apply app_inj_1 in Hb4 as [E5 E6]; [|by apply be_bytes_same_len].
    apply i64_bytes_inj in E5, E6; [|done..]. by subst.
Qed.
