(* ===== verification/KeyTransparency.v ===== *)
(** * Key transparency

    Models [src/src/crypto/key_transparency.rs]: the Merkle tree of RFC 6962 over the
    keys of a server's devices, the check of an inclusion proof, and the verdict on a
    proof with the signed tree head it is relative to. The tree hash and the prover,
    which the source has as the reference for its tests, are the specification here.
    Shown: a key with a verified proof is in the log the head commits to, or the proof
    and the log contain a collision of SHA-256, which is computed; and every key of a
    log has a proof that verifies. *)

From stdpp Require Import strings.
From S2P Require Import Prelude SuiteId Platform Classic Toy Crates X3dh EnvelopeBook KyberPrekeys KeyManager HybridSuite ServerTrust.

Definition MAX_PROOF_DEPTH : Z := 64.
Definition LEAF_IDENTITY : Z := 0.
Definition LEAF_HYBRID : Z := 2.

(** [n.leading_zeros()] of a 64-bit [usize]. *)
Definition leading_zeros (n : Z) : Z := if n =? 0 then 64 else 63 - Z.log2 n.
Definition split (n : Z) : Z := if n <? 2 then 0 else Z.shiftl 1 (64 - 1 - leading_zeros (n - 1)).

Section tree.
Context `{Sha2Crate}.

Definition node_input (left right : bytes) : bytes := [Byte.x01] ++ left ++ right.
Definition node_hash (left right : bytes) : bytes := sha256 (node_input left right).

(** The two subtrees of a tree with two leaves or more. *)
Definition left_leaves (leaves : list bytes) : list bytes := take (Z.to_nat (split (len leaves))) leaves.
Definition right_leaves (leaves : list bytes) : list bytes := drop (Z.to_nat (split (len leaves))) leaves.

(** The depth of the recursion is below the number of leaves. *)
Fixpoint tree_hash (depth : nat) (leaves : list bytes) : bytes :=
  match leaves, depth with
  | [], _ => sha256 []
  | [leaf], _ => leaf
  | _, O => []
  | _, S depth => node_hash (tree_hash depth (left_leaves leaves)) (tree_hash depth (right_leaves leaves))
  end.
Definition merkle_tree_hash (leaves : list bytes) : bytes := tree_hash (length leaves) leaves.

(** [inclusion_reconstruct] takes the proof from its end; here it is given reversed. *)
Fixpoint reconstruct_from_root (leaf : bytes) (rev_proof : list bytes) (index size : Z) : option bytes :=
  match rev_proof with
  | [] => if (size =? 1) && (index =? 0) then Some leaf else None
  | sibling :: inner =>
      if size <? 2 then None else
      let k := split size in
      if index <? k
      then left ← reconstruct_from_root leaf inner index k; Some (node_hash left sibling)
      else right ← reconstruct_from_root leaf inner (index - k) (size - k); Some (node_hash sibling right)
  end.
Definition inclusion_reconstruct (leaf : bytes) (proof : list bytes) (index size : Z) : option bytes :=
  reconstruct_from_root leaf (reverse proof) index size.

Definition verify_inclusion_inner (leaf_hash : bytes) (proof : list bytes) (leaf_index tree_size : Z) (root_hash : bytes) : bool :=
  if (tree_size =? 0) || (leaf_index >=? tree_size) || (len proof >? MAX_PROOF_DEPTH) then false else
  bool_decide (inclusion_reconstruct leaf_hash proof leaf_index tree_size = Some root_hash).

Fixpoint prove_inclusion (depth : nat) (leaves : list bytes) (index : Z) : list bytes :=
  match leaves, depth with
  | [_], _ => []
  | _, O => []
  | _, S depth =>
      let k := split (len leaves) in
      if index <? k then prove_inclusion depth (left_leaves leaves) index ++ [merkle_tree_hash (right_leaves leaves)]
      else prove_inclusion depth (right_leaves leaves) (index - k) ++ [merkle_tree_hash (left_leaves leaves)]
  end.
Definition generate_inclusion_proof_inner (leaves : list bytes) (index : Z) : list bytes := prove_inclusion (length leaves) leaves index.

Definition leaf_hash (domain : Z) (device_id : string) (key : bytes) : bytes := sha256 ([byte_of_Z domain] ++ as_bytes device_id ++ key).
End tree.

Definition tree_head_signable (tree_size : Z) (root : bytes) : bytes := as_bytes "ConstructKT-v1" ++ be_bytes 8 tree_size ++ root.

Record KtInclusionProof := mkKtInclusionProof {
  kp_leaf_index : Z;
  kp_tree_size : Z;
  kp_root_hash : bytes;
  kp_proof_hashes : list bytes;
  kp_tree_head_signature : bytes;
}.
Record KtSignedTreeHead := mkKtSignedTreeHead {
  kh_tree_size : Z;
  kh_root_hash : bytes;
  kh_kid : bytes;
  kh_signature : bytes;
}.
Inductive KtVerdict := Verified | Unavailable | MalformedProof | InclusionProofInvalid | SignatureInvalid.

(** [ServerTrust] of [src/src/crypto/sealed_sender/mod.rs] *)
Record ServerTrust := mkServerTrust { st_legacy_keys : list bytes; st_ring : ServerKeyRing }.

Section verdict.
Context `{ClassicCrates} `{!MlDsaCrate} `{!Sha2Crate}.

(** One Ed25519 key over a message: 32 bytes, a point, and the signature. *)
Definition legacy_verifies (message signature key : bytes) : bool :=
  (len key =? 32) && ed25519_key_valid key && ed25519_verify key message signature.

(** [ring.verify] does not panic ([ring_verify_no_panic]). *)
Definition delegated_head_verdict (trust : ServerTrust) (proof : KtInclusionProof) (head : KtSignedTreeHead) (now_secs : Z) : KtVerdict :=
  if negb (kh_tree_size head =? kp_tree_size proof) || negb (bool_decide (kh_root_hash head = kp_root_hash proof))
  then InclusionProofInvalid else
  if negb (len (kh_kid head) =? KID_LEN) then MalformedProof else
  match ring_verify (st_ring trust) KtHead (kh_kid head) (kt_head_body (kh_tree_size head) (kp_root_hash proof)) (kh_signature head) now_secs now_secs with
  | Ok _ => Verified
  | Err TeUnknownKey => Unavailable
  | _ => SignatureInvalid
  end.

Definition legacy_head_verdict (trust : ServerTrust) (proof : KtInclusionProof) : KtVerdict :=
  match st_legacy_keys trust with
  | [] => Unavailable
  | keys =>
      if negb (len (kp_tree_head_signature proof) =? 64) then SignatureInvalid else
      if existsb (legacy_verifies (tree_head_signable (kp_tree_size proof) (kp_root_hash proof)) (kp_tree_head_signature proof)) keys
      then Verified else SignatureInvalid
  end.

Definition verify_proof (domain : Z) (device_id : string) (key : bytes) (proof : KtInclusionProof) (head : option KtSignedTreeHead)
    (trust : ServerTrust) (now_secs : Z) : KtVerdict :=
  if negb (len (kp_root_hash proof) =? 32) then MalformedProof else
  if negb (forallb (λ h, len h =? 32) (kp_proof_hashes proof)) then MalformedProof else
  if (kp_tree_size proof =? 0) || (kp_leaf_index proof >=? kp_tree_size proof) then MalformedProof else
  if negb (verify_inclusion_inner (leaf_hash domain device_id key) (kp_proof_hashes proof) (kp_leaf_index proof) (kp_tree_size proof) (kp_root_hash proof))
  then InclusionProofInvalid else
  if has_roots (st_ring trust) then
    match head with
    | Some head => delegated_head_verdict trust proof head now_secs
    | None => if HYBRID_REQUIRED then SignatureInvalid else legacy_head_verdict trust proof
    end
  else legacy_head_verdict trust proof.
End verdict.

(** ** The tree *)

Lemma split_pow n : 2 ≤ n ≤ u64_max → split n = 2 ^ Z.log2 (n - 1).
Proof.
  intros Hn. unfold split, leading_zeros. destruct (Z.ltb_spec n 2); [lia|]. destruct (Z.eqb_spec (n - 1) 0); [lia|].
  pose proof (Z.log2_nonneg (n - 1)). rewrite Z.shiftl_mul_pow2 by (assert (Z.log2 (n - 1) < 64) by (apply Z.log2_lt_pow2; unfold u64_max in *; lia); lia).
  rewrite Z.mul_1_l. f_equal. lia.
Qed.
(** The larger power of two below [n]: both sides have leaves, and the left one at least half. *)
Lemma split_bounds n : 2 ≤ n ≤ u64_max → 1 ≤ split n < n ∧ n ≤ 2 * split n.
Proof.
  intros Hn. rewrite split_pow by done. pose proof (Z.log2_spec (n - 1)) as [H1 H2]; [lia|]. pose proof (Z.log2_nonneg (n - 1)).
  rewrite Z.pow_succ_r in H2 by done. pose proof (Z.pow_pos_nonneg 2 (Z.log2 (n - 1))). lia.
Qed.

(** A list of two or more, by its halves. *)
Lemma halves (l : list bytes) : 2 ≤ len l ≤ u64_max →
  l = left_leaves l ++ right_leaves l ∧ len (left_leaves l) = split (len l) ∧ len (right_leaves l) = len l - split (len l) ∧
  (length (left_leaves l) < length l)%nat ∧ (length (right_leaves l) < length l)%nat.
Proof.
  intros Hl. destruct (split_bounds (len l) Hl) as [Hs _]. unfold left_leaves, right_leaves. rewrite take_drop. split; [done|].
  unfold len in *. rewrite !length_take, !length_drop. lia.
Qed.

Section proofs.
Context `{Sha2Crate}.

Lemma tree_hash_enough l d d' : len l ≤ u64_max → (length l ≤ d)%nat → (length l ≤ d')%nat → tree_hash d l = tree_hash d' l.
Proof.
  revert l d'. induction d as [|d IH]; intros l d' Hu Hd Hd'.
  { destruct l; [by destruct d'|cbn in Hd; lia]. }
  destruct l as [|x [|y l]]; [by destruct d'..|]. destruct d' as [|d']; [cbn in Hd'; lia|].
  destruct (halves (x :: y :: l)) as (_ & H1 & H2 & H3 & H4); [rewrite !len_cons in *; pose proof (len_nonneg l); lia|].
  cbn [tree_hash]. destruct (split_bounds (len (x :: y :: l))) as [? _]; [rewrite !len_cons in *; pose proof (len_nonneg l); lia|].
  f_equal; apply IH; lia.
Qed.
Lemma merkle_node l : 2 ≤ len l ≤ u64_max → merkle_tree_hash l = node_hash (merkle_tree_hash (left_leaves l)) (merkle_tree_hash (right_leaves l)).
Proof.
  intros Hl. destruct (halves l Hl) as (_ & H1 & H2 & H3 & H4). destruct (split_bounds (len l) Hl) as [? _].
  unfold merkle_tree_hash at 1. destruct l as [|x [|y l]]; [rewrite ?len_cons, len_nil in Hl; lia..|].
  change (tree_hash _ _) with (node_hash (tree_hash (S (length l)) (left_leaves (x :: y :: l))) (tree_hash (S (length l)) (right_leaves (x :: y :: l)))).
  f_equal; unfold merkle_tree_hash; apply tree_hash_enough; cbn [length] in *; lia.
Qed.

(** ** A proof that verifies *)

(** Where the hashes on the way of the proof first differ from those of the tree,
    coming from the root: the two inputs of SHA-256 there. *)
Fixpoint clash (leaf : bytes) (rev_proof : list bytes) (index : Z) (leaves : list bytes) : option (bytes * bytes) :=
  match rev_proof with
  | [] => None
  | sibling :: inner =>
      let k := split (len leaves) in
      let node := node_input (merkle_tree_hash (left_leaves leaves)) (merkle_tree_hash (right_leaves leaves)) in
      if index <? k then
        left ← reconstruct_from_root leaf inner index k;
        if decide (node_input left sibling = node) then clash leaf inner index (left_leaves leaves) else Some (node_input left sibling, node)
      else
        right ← reconstruct_from_root leaf inner (index - k) (len leaves - k);
        if decide (node_input sibling right = node) then clash leaf inner (index - k) (right_leaves leaves) else Some (node_input sibling right, node)
  end.
Definition collides (c : option (bytes * bytes)) : Prop := ∃ a b, c = Some (a, b) ∧ a ≠ b ∧ sha256 a = sha256 b.

Context `{!Sha2Laws}.
#[local] Abbreviation hashes l := (Forall (λ h, len h = 32) l).

Lemma tree_hash_len l : hashes l → len l ≤ u64_max → len (merkle_tree_hash l) = 32.
Proof.
  intros Hl Hu. destruct l as [|x [|y l]]; [apply sha256_len|by inversion Hl|].
  rewrite merkle_node by (rewrite !len_cons in *; pose proof (len_nonneg l); lia). apply sha256_len.
Qed.
Lemma reconstruct_len leaf rp i n h : len leaf = 32 → reconstruct_from_root leaf rp i n = Some h → len h = 32.
Proof.
  intros Hl. destruct rp as [|s rp]; cbn.
  - case_match; [|done]. intros Hh%(inj Some). by rewrite <- Hh.
  - case_match; [done|]. case_match; (destruct (reconstruct_from_root _ _ _ _); [|done]); cbn; intros Hh%(inj Some); rewrite <- Hh; apply sha256_len.
Qed.
Lemma node_input_inj l r l' r' : len l = 32 → len l' = 32 → node_input l r = node_input l' r' → l = l' ∧ r = r'.
Proof. intros H1 H2 He. apply app_inv_head in He. apply app_inj_1 in He; [done|]. unfold len in *. lia. Qed.
Lemma hashes_halves l : hashes l → hashes (left_leaves l) ∧ hashes (right_leaves l).
Proof. intros Hl. split; [by apply Forall_take|by apply Forall_drop]. Qed.

(** The verifier's node equals the tree's, or the two inputs collide. *)
Lemma node_agrees l r l' r' : len l = 32 → len l' = 32 → node_hash l r = node_hash l' r' →
  (l = l' ∧ r = r') ∨ (node_input l r ≠ node_input l' r' ∧ sha256 (node_input l r) = sha256 (node_input l' r')).
Proof. intros H1 H2 He. destruct (decide (node_input l r = node_input l' r')); [left; by apply node_input_inj|by right]. Qed.

Lemma inclusion_sound leaf rp i l : hashes l → len leaf = 32 → len l ≤ u64_max → 0 ≤ i < len l →
  reconstruct_from_root leaf rp i (len l) = Some (merkle_tree_hash l) → l !! Z.to_nat i = Some leaf ∨ collides (clash leaf rp i l).
Proof.
  intros Hh Hlf. revert i l Hh. induction rp as [|s rp IH]; intros i l Hh Hu Hi Hr; cbn in Hr.
  { destruct (Z.eqb_spec (len l) 1) as [H1|]; [|done]. destruct (Z.eqb_spec i 0) as [->|]; [|done]. cbn in Hr. apply (inj Some) in Hr.
    destruct l as [|x [|y l]]; [done|left; cbn; by rewrite Hr|]. rewrite !len_cons in H1. pose proof (len_nonneg l). lia. }
  destruct (Z.ltb_spec (len l) 2) as [|H2]; [done|]. destruct (halves l) as (Hl & Hll & Hlr & _); [done|]. destruct (split_bounds (len l)) as [Hs _]; [done|].
  destruct (hashes_halves l Hh) as [HL HR]. rewrite (merkle_node l) in Hr by done. pose proof (tree_hash_len _ HL ltac:(lia)) as Hl32. pose proof (tree_hash_len _ HR ltac:(lia)) as Hr32.
  cbn [clash]. destruct (Z.ltb_spec i (split (len l))) as [Hik|Hik].
  - destruct (reconstruct_from_root leaf rp i (split (len l))) as [left|] eqn:Hrec; [|done]. cbn in Hr |- *. apply (inj Some) in Hr.
    pose proof (reconstruct_len _ _ _ _ _ Hlf Hrec) as Hlen. destruct (node_agrees _ _ _ _ Hlen Hl32 Hr) as [[E1 E2]|[Hne Hsha]].
    + subst. rewrite decide_True by done. destruct (IH i (left_leaves l) HL) as [Hf|Hc]; [lia|lia|by rewrite Hll| |by right].
      left. rewrite Hl, lookup_app_l; [done|]. unfold len in *. lia.
    + right. rewrite decide_False by done. eexists _, _. by split.
  - destruct (reconstruct_from_root leaf rp _ _) as [right|] eqn:Hrec; [|done]. cbn in Hr |- *. apply (inj Some) in Hr.
    pose proof (reconstruct_len _ _ _ _ _ Hlf Hrec) as Hlen.
    destruct (decide (node_input s right = node_input (merkle_tree_hash (left_leaves l)) (merkle_tree_hash (right_leaves l)))) as [He|Hne].
    + assert (right = merkle_tree_hash (right_leaves l)) as ->.
      { apply app_inv_head in He. apply app_inj_2 in He as [_ He]; [done|]. unfold len in *. lia. }
      rewrite decide_True by exact He. destruct (IH (i - split (len l)) (right_leaves l) HR) as [Hf|Hc]; [lia|lia|by rewrite Hlr| |by right].
      left. rewrite Hl, lookup_app_r by (unfold len in *; lia). rewrite <- Hf. f_equal. unfold len in *. lia.
    + right. rewrite decide_False by exact Hne. eexists _, _. by split.
Qed.

(** ** The proof of a key in the log *)

Lemma prove_step d l i : 2 ≤ len l → prove_inclusion (S d) l i =
  (if i <? split (len l) then prove_inclusion d (left_leaves l) i ++ [merkle_tree_hash (right_leaves l)]
   else prove_inclusion d (right_leaves l) (i - split (len l)) ++ [merkle_tree_hash (left_leaves l)]).
Proof. intros Hl. destruct l as [|x [|y l]]; [rewrite ?len_cons, len_nil in Hl; lia..|done]. Qed.

Lemma inclusion_complete d l i leaf : (length l ≤ d)%nat → len l ≤ u64_max → 0 ≤ i → l !! Z.to_nat i = Some leaf →
  reconstruct_from_root leaf (reverse (prove_inclusion d l i)) i (len l) = Some (merkle_tree_hash l).
Proof.
  revert l i. induction d as [|d IH]; intros l i Hd Hu Hi Hl; [by destruct l; [|cbn in Hd; lia]|].
  pose proof (lookup_lt_Some _ _ _ Hl) as Hlt. destruct (decide (2 ≤ len l)) as [H2|H2].
  2: { destruct l as [|x [|y l]]; [done| |rewrite !len_cons in H2; pose proof (len_nonneg l); lia].
       assert (i = 0) as -> by (cbn in Hlt; lia). cbn in Hl. apply (inj Some) in Hl. rewrite Hl. done. }
  destruct (halves l) as (Hsplit & Hll & Hlr & Hdl & Hdr); [done|]. destruct (split_bounds (len l)) as [Hs _]; [done|].
  rewrite prove_step by done. rewrite (merkle_node l) by done. destruct (Z.ltb_spec i (split (len l))) as [Hik|Hik];
    rewrite reverse_app; cbn [reverse rev_append app reconstruct_from_root]; change (reverse [?x]) with [x]; cbn [app reconstruct_from_root];
    destruct (Z.ltb_spec (len l) 2); try lia.
  - rewrite (proj2 (Z.ltb_lt _ _) Hik). rewrite <- Hll at 1. rewrite IH; [done|lia|lia|lia|].
    rewrite Hsplit, lookup_app_l in Hl; [done|]. unfold len in *. lia.
  - rewrite (proj2 (Z.ltb_ge _ _) Hik). rewrite <- Hlr at 1. rewrite IH; [done|lia|lia|lia|].
    rewrite Hsplit, lookup_app_r in Hl by (unfold len in *; lia). rewrite <- Hl. f_equal. unfold len in *. lia.
Qed.

Lemma proof_hashes d l i : hashes l → 1 ≤ len l ≤ u64_max → hashes (prove_inclusion d l i).
Proof.
  revert l i. induction d as [|d IH]; intros l i Hh Hu; [by destruct l as [|x [|]]|]. destruct (decide (2 ≤ len l)) as [H2|H2].
  2: { destruct l as [|x [|y l]]; [rewrite len_nil in Hu; lia|done|rewrite !len_cons in H2; pose proof (len_nonneg l); lia]. }
  destruct (halves l) as (_ & Hll & Hlr & _); [lia|]. destruct (split_bounds (len l)) as [Hs _]; [lia|]. destruct (hashes_halves l Hh) as [HL HR].
  rewrite prove_step by done. destruct (_ <? _); apply Forall_app; (split; [apply IH; [done|lia]|]); apply Forall_singleton, tree_hash_len; done || lia.
Qed.

Lemma proof_depth d l i : (length l ≤ d)%nat → 1 ≤ len l ≤ u64_max → len (prove_inclusion d l i) ≤ Z.log2_up (len l).
Proof.
  revert l i. induction d as [|d IH]; intros l i Hd Hl; [destruct l; [rewrite len_nil in Hl; lia|cbn in Hd; lia]|].
  destruct (decide (2 ≤ len l)) as [H2|H2].
  2: { destruct l as [|x [|y l]]; [rewrite len_nil in Hl; lia| |rewrite !len_cons in H2; pose proof (len_nonneg l); lia]. apply Z.log2_up_nonneg. }
  destruct (halves l) as (_ & Hll & Hlr & Hdl & Hdr); [lia|]. destruct (split_bounds (len l)) as [Hs Hhalf]; [lia|].
  assert (Z.log2_up (split (len l)) + 1 = Z.log2_up (len l)) as Hlog.
  { rewrite split_pow by lia. rewrite Z.log2_up_pow2 by apply Z.log2_nonneg. rewrite (Z.log2_up_eqn (len l)) by lia. unfold Z.pred. f_equal. }
  rewrite prove_step by done. destruct (_ <? _); rewrite len_app; change (len [_]) with 1.
  - pose proof (IH (left_leaves l) i ltac:(lia) ltac:(lia)) as Hd'. rewrite Hll in Hd'. lia.
  - pose proof (IH (right_leaves l) (i - split (len l)) ltac:(lia) ltac:(lia)) as Hd'. assert (Z.log2_up (len (right_leaves l)) ≤ Z.log2_up (split (len l))) by (apply Z.log2_up_le_mono; lia). lia.
Qed.
End proofs.

(** ** The verdict *)

Section verdicts.
Context `{ClassicCrates} `{!MlDsaCrate} `{!Sha2Crate} `{!Sha2Laws}.

(** The head of the proof is signed: by a delegated key, when roots are pinned and the
    head comes with such a signature, and otherwise by one of the Ed25519 keys. *)
Definition head_signed (trust : ServerTrust) (proof : KtInclusionProof) (head : option KtSignedTreeHead) (now : Z) : Prop :=
  match (if has_roots (st_ring trust) then head else None) with
  | Some h => kh_tree_size h = kp_tree_size proof ∧ kh_root_hash h = kp_root_hash proof ∧ len (kh_kid h) = KID_LEN ∧
      ring_verify (st_ring trust) KtHead (kh_kid h) (kt_head_body (kp_tree_size proof) (kp_root_hash proof)) (kh_signature h) now now = Ok tt
  | None => len (kp_tree_head_signature proof) = 64 ∧ ∃ key, key ∈ st_legacy_keys trust ∧
      legacy_verifies (tree_head_signable (kp_tree_size proof) (kp_root_hash proof)) (kp_tree_head_signature proof) key = true
  end.

Lemma legacy_verdict trust proof : legacy_head_verdict trust proof = Verified ↔
  len (kp_tree_head_signature proof) = 64 ∧ ∃ key, key ∈ st_legacy_keys trust ∧
    legacy_verifies (tree_head_signable (kp_tree_size proof) (kp_root_hash proof)) (kp_tree_head_signature proof) key = true.
Proof.
  unfold legacy_head_verdict. split.
  - destruct (st_legacy_keys trust) as [|k0 ks]; [done|]. destruct (Z.eqb_spec (len (kp_tree_head_signature proof)) 64); cbn [negb]; [|done].
    destruct (existsb _ _) eqn:He; [|done]. intros _. apply existsb_exists in He as (k & Hin & Hk). split; [done|]. exists k. by rewrite list_elem_of_In.
  - intros (Hl & k & Hin & Hk). destruct (st_legacy_keys trust) as [|k0 ks]; [by apply elem_of_nil in Hin|]. rewrite Hl. cbn [Z.eqb Pos.eqb negb].
    rewrite (proj2 (existsb_exists _ _)); [done|]. exists k. by rewrite <- list_elem_of_In.
Qed.
Lemma head_verdict trust proof head now :
  (if has_roots (st_ring trust) then
     match head with Some h => delegated_head_verdict trust proof h now | None => if HYBRID_REQUIRED then SignatureInvalid else legacy_head_verdict trust proof end
   else legacy_head_verdict trust proof) = Verified ↔ head_signed trust proof head now.
Proof.
  unfold head_signed. destruct (has_roots (st_ring trust)); [|apply legacy_verdict]. destruct head as [h|]; [|apply legacy_verdict].
  unfold delegated_head_verdict. destruct (Z.eqb_spec (kh_tree_size h) (kp_tree_size proof)) as [Hs|]; cbn [negb orb]; [|naive_solver].
  case_bool_decide as Hr; cbn [negb]; [|naive_solver]. destruct (Z.eqb_spec (len (kh_kid h)) KID_LEN); cbn [negb]; [|naive_solver].
  rewrite Hs. destruct (ring_verify _ _ _ _ _ _ _) as [[]|err|]; [naive_solver| |naive_solver]. split; [by destruct err|naive_solver].
Qed.

(** C37: A key with a verified proof is in the log. When a client concludes [Verified]
    for a device's key, the head of the proof is signed by a server key it trusts -
    by a delegated one, whenever roots are pinned and the head comes with that signature
    - and in every log of that size with the root the head names, the leaf at the
    proof's position is the key of that device, or the proof exhibits, against that log, two different
    inputs with one SHA-256, which [clash] computes. *)
Theorem verified_key_is_logged domain device_id key proof head trust now leaves :
  verify_proof domain device_id key proof head trust now = Verified → 0 ≤ kp_leaf_index proof →
  Forall (λ h, len h = 32) leaves → len leaves = kp_tree_size proof → len leaves ≤ u64_max → merkle_tree_hash leaves = kp_root_hash proof →
  head_signed trust proof head now ∧
  (leaves !! Z.to_nat (kp_leaf_index proof) = Some (leaf_hash domain device_id key) ∨
   collides (clash (leaf_hash domain device_id key) (reverse (kp_proof_hashes proof)) (kp_leaf_index proof) leaves)).
Proof.
  intros Hv Hi Hh Hn Hu Hroot. unfold verify_proof in Hv. do 3 (case_match; [done|]).
  destruct (verify_inclusion_inner _ _ _ _ _) eqn:Hincl; [|done]. cbn [negb] in Hv. apply head_verdict in Hv. split; [done|].
  unfold verify_inclusion_inner, inclusion_reconstruct in Hincl. case_match; [done|]. apply bool_decide_eq_true in Hincl.
  rewrite <- Hn, <- Hroot in Hincl. apply inclusion_sound; [done|apply sha256_len|done| |done]. lia.
Qed.

(** C38: Every key in the log can be proved. For every position of a log, the proof the
    prover makes is judged [Verified], for the key and device of the leaf there and
    with the log's own root, whenever the head is signed: no genuine proof is too long,
    malformed or refused. *)
Theorem logged_key_verifies domain device_id key leaves i head trust now signature :
  let proof := mkKtInclusionProof i (len leaves) (merkle_tree_hash leaves) (generate_inclusion_proof_inner leaves i) signature in
  Forall (λ h, len h = 32) leaves → len leaves ≤ u64_max → 0 ≤ i → leaves !! Z.to_nat i = Some (leaf_hash domain device_id key) →
  head_signed trust proof head now → verify_proof domain device_id key proof head trust now = Verified.
Proof.
  intros proof Hh Hu Hi Hl Hs. pose proof (lookup_lt_Some _ _ _ Hl) as Hlt. assert (i < len leaves) as Hil by (unfold len; lia).
  unfold verify_proof, proof. cbn [kp_leaf_index kp_tree_size kp_root_hash kp_proof_hashes]. rewrite tree_hash_len by done. cbn [Z.eqb Pos.eqb negb].
  assert (forallb (λ h, len h =? 32) (generate_inclusion_proof_inner leaves i) = true) as ->.
  { apply forallb_forall. intros x Hx. apply Z.eqb_eq. apply list_elem_of_In in Hx. revert x Hx. apply Forall_forall. apply proof_hashes; [done|lia]. }
  cbn [negb]. rewrite (proj2 (Z.eqb_neq (len leaves) 0)) by lia. cbn [orb]. destruct (Z.geb_spec i (len leaves)); [lia|].
  assert (verify_inclusion_inner (leaf_hash domain device_id key) (generate_inclusion_proof_inner leaves i) i (len leaves) (merkle_tree_hash leaves) = true) as ->.
  { unfold verify_inclusion_inner. rewrite (proj2 (Z.eqb_neq (len leaves) 0)) by lia. cbn [orb]. destruct (Z.geb_spec i (len leaves)); [lia|]. cbn [orb].
    pose proof (proof_depth (length leaves) leaves i ltac:(lia) ltac:(lia)) as Hd.
    assert (Z.log2_up (len leaves) ≤ Z.log2_up (2 ^ 64)) as Hm by (apply Z.log2_up_le_mono; unfold u64_max in Hu; lia).
    rewrite Z.log2_up_pow2 in Hm by lia. unfold generate_inclusion_proof_inner. destruct (Z.gtb_spec (len (prove_inclusion (length leaves) leaves i)) MAX_PROOF_DEPTH) as [Hlong|];
      [unfold MAX_PROOF_DEPTH in Hlong; lia|]. apply bool_decide_eq_true_2, inclusion_complete; [lia|done..]. }
  cbn [negb]. by apply head_verdict.
Qed.
End verdicts.

(** ** A log of three keys *)

Definition demo_log : list bytes :=
  [leaf_hash LEAF_IDENTITY "d1" (replicate 32 Byte.x11); leaf_hash LEAF_IDENTITY "d2" (replicate 32 Byte.x12); leaf_hash LEAF_HYBRID "d2" (replicate 32 Byte.x13)].
Definition demo_kt_proof : KtInclusionProof :=
  mkKtInclusionProof 1 3 (merkle_tree_hash demo_log) (generate_inclusion_proof_inner demo_log 1)
    (ed25519_sign (replicate 32 Byte.x05) (tree_head_signable 3 (merkle_tree_hash demo_log))).
Definition demo_trust : ServerTrust := mkServerTrust [ed25519_public (replicate 32 Byte.x05)] (ring_new []).

Lemma demo_log_hashes : Forall (λ h, len h = 32) demo_log.
Proof. repeat constructor; apply sha256_len. Qed.
Lemma demo_head_signed : head_signed demo_trust demo_kt_proof None 0.
Proof.
  split; [vm_compute; reflexivity|]. exists (ed25519_public (replicate 32 Byte.x05)). split; [left|]. vm_compute. reflexivity.
Qed.
Lemma verified_key_is_logged_witness :
  head_signed demo_trust demo_kt_proof None 0 ∧
  (demo_log !! 1%nat = Some (leaf_hash LEAF_IDENTITY "d2" (replicate 32 Byte.x12)) ∨
   collides (clash (leaf_hash LEAF_IDENTITY "d2" (replicate 32 Byte.x12)) (reverse (kp_proof_hashes demo_kt_proof)) 1 demo_log)).
Proof.
  apply (verified_key_is_logged LEAF_IDENTITY "d2" (replicate 32 Byte.x12) demo_kt_proof None demo_trust 0 demo_log);
    [vm_compute; reflexivity|vm_compute; discriminate|apply demo_log_hashes|reflexivity|vm_compute; discriminate|reflexivity].
Defined.
Lemma logged_key_verifies_witness :
  verify_proof LEAF_IDENTITY "d2" (replicate 32 Byte.x12) demo_kt_proof None demo_trust 0 = Verified.
Proof.
  apply (logged_key_verifies LEAF_IDENTITY "d2" (replicate 32 Byte.x12) demo_log 1 None demo_trust 0
    (ed25519_sign (replicate 32 Byte.x05) (tree_head_signable 3 (merkle_tree_hash demo_log))));
    [apply demo_log_hashes|vm_compute; discriminate|lia|reflexivity|apply demo_head_signed].
Defined.
