(* ===== verification/AckStore.v ===== *)
(** * Acknowledgement records

    Models [src/src/orchestration/ack_store.rs]: which message ids this process
    has handled, and the actions that make the platform keep the durable record.
    [Action] has the actions of [src/src/orchestration/actions.rs] that the
    modelled code returns. *)

From stdpp Require Import gmap strings.
From S2P Require Import Prelude Platform Wp.

Inductive SecureStoreSlot :=
  | SlotSession (contact_id : string)
  | SlotOrchestratorState.

Inductive Action :=
  | SaveToSecureStore (slot : SecureStoreSlot) (data : bytes)
  | PersistAck (message_id : string) (timestamp : Z)
  | PruneAckStore (cutoff_ts : Z).

Inductive AckCheckResult := InCache | NeedDbCheck | NotProcessed.

Record AckStore := mkAckStore {
  ack_cache : gset string;
  ack_max_age_seconds : Z;
  ack_post_restart_mode : bool;
}.
#[global] Instance ack_store_eta : Eta AckStore := λ a,
  mkAckStore (ack_cache a) (ack_max_age_seconds a) (ack_post_restart_mode a).

(** [AckStore::new], [new_with_clock] *)
Definition ack_new (max_age_seconds : Z) : AckStore := mkAckStore ∅ max_age_seconds false.

Definition is_processed (a : AckStore) (message_id : string) : AckCheckResult :=
  if bool_decide (message_id ∈ ack_cache a) then InCache
  else if ack_post_restart_mode a then NeedDbCheck else NotProcessed.

Definition restore_cache (ids : list string) (a : AckStore) : AckStore :=
  a <| ack_cache := list_to_set ids |> <| ack_post_restart_mode := true |>.

Section ack.
Context `{Platform} {E : Type}.

Definition mark_processed (message_id : string) : method AckStore E (list Action) :=
  a ← self;
  if bool_decide (message_id ∈ ack_cache a) then mret [] else
  update (λ a, a <| ack_cache := {[message_id]} ∪ ack_cache a |>);;
  now ← now;
  mret [PersistAck message_id now].

(** [prune_expired(&self)] *)
Definition prune_expired : method AckStore E (list Action) :=
  a ← self;
  now ← now;
  mret [PruneAckStore (sat_sub now (ack_max_age_seconds a))].

Lemma wp_mark_processed id a w Q (R : E → AckStore * World → Prop) :
  (id ∈ ack_cache a → Q [] (a, w)) →
  (id ∉ ack_cache a → ∀ w', Q [PersistAck id (clock w).2] (a <| ack_cache := {[id]} ∪ ack_cache a |>, w')) →
  wp False (mark_processed id) (a, w) Q R.
Proof.
  intros Hin Hout. unfold mark_processed. do 2 wp_step. cbv beta. case_bool_decide.
  - wp_step. by apply Hin.
  - wp_steps. by apply Hout.
Qed.
End ack.
