(* ===== verification/Lifecycle.v ===== *)
(** * The session lifecycle

    Models [SessionLifecycleManager] of [src/src/orchestration/session_lifecycle.rs]
    with [src/src/orchestration/reorder_stats.rs]: the client, the states a newer
    one replaced, the pinned identity keys, the rotation epochs and the
    acknowledgement store. The injected clock is the platform's
    ([src/src/orchestration/clock.rs], [SystemClock]).
    The proofs are in [LifecycleProps] and [LifecycleStorage]. *)

From stdpp Require Import gmap strings sorting.
From S2P Require Import Prelude SuiteId Platform Wp Classic Crates WirePayload RatchetTypes Ratchet RatchetStorage RatchetCfe CfeEnvelope X3dh Envelope FirstFlight EnvelopeBook KyberPrekeys KeyManager Client AckStore.

Definition MAX_PREVIOUS_STATES : nat := 3.
Definition PREVIOUS_STATE_TTL_SECONDS : Z := 7 * 24 * 60 * 60.

Inductive RatchetKeyOwner := OwnerCurrent | OwnerPrevious | OwnerUnknown.

Record SpkEpochRegressed := mkSpkEpochRegressed { sr_received : Z; sr_known : Z }.

(** ** How late messages arrive *)

(** [ReorderStats]; its 64-bit counters count the messages of one process. *)
Record ReorderStats := mkReorderStats {
  rs_decrypted : Z;
  rs_previous_epoch : Z;
  rs_older_epoch : Z;
  rs_max_epoch_lag : Z;
  rs_max_skip_depth : Z;
  rs_evicted_epoch_failures : Z;
}.
#[global] Instance reorder_stats_eta : Eta ReorderStats := λ r,
  mkReorderStats (rs_decrypted r) (rs_previous_epoch r) (rs_older_epoch r) (rs_max_epoch_lag r)
    (rs_max_skip_depth r) (rs_evicted_epoch_failures r).

Definition reorder_default : ReorderStats := mkReorderStats 0 0 0 0 0 0.

Definition record_lag (before : DrHealthSnapshot) (message_epoch : Z) (r : ReorderStats) : ReorderStats :=
  if message_epoch >? 0 then
    let lag := sat_sub (hs_pq_epoch before) message_epoch in
    let r := if lag =? 0 then r
             else if lag =? 1 then r <| rs_previous_epoch := rs_previous_epoch r + 1 |>
             else r <| rs_older_epoch := rs_older_epoch r + 1 |> in
    r <| rs_max_epoch_lag := Z.max (rs_max_epoch_lag r) lag |>
  else r.

Definition record_decrypted (before after : DrHealthSnapshot) (message_epoch : Z) (r : ReorderStats) : ReorderStats :=
  let r := record_lag before message_epoch (r <| rs_decrypted := rs_decrypted r + 1 |>) in
  let skipped := Z.max (sat_sub (hs_skipped_keys_count after) (hs_skipped_keys_count before))
                       (sat_sub (hs_pq_skipped_keys_count after) (hs_pq_skipped_keys_count before)) in
  r <| rs_max_skip_depth := Z.max (rs_max_skip_depth r) (Z.min skipped u32_max) |>.

Definition record_failed (current : option DrHealthSnapshot) (message_epoch : Z) (r : ReorderStats) : ReorderStats :=
  match current ≫= hs_pq_oldest_chain_epoch with
  | Some oldest => if (message_epoch >? 0) && (message_epoch <? oldest)
                   then r <| rs_evicted_epoch_failures := rs_evicted_epoch_failures r + 1 |> else r
  | None => r
  end.

(** ** Stored forms *)

#[global] Instance cfe_session_eta : Eta CfeSessionStateV1 := λ c,
  mkCfeSession (cf_ver c) (cf_suite_id c) (cf_contact_id c) (cf_local_uid c) (cf_session_id c) (cf_rk c) (cf_sck c)
    (cf_rck c) (cf_scl c) (cf_rcl c) (cf_psl c) (cf_dh_priv c) (cf_dh_pub c) (cf_rdh_pub c) (cf_skipped c)
    (cf_prekey_header c) (cf_pq_handshake c) (cf_last_ratchet_at c) (cf_peer_ad_version c) (cf_pq_authentication c)
    (cf_pq_applied c) (cf_identity_proof_awaiting c) (cf_identity_proof_ciphertext c) (cf_pqr c) (cf_previous c) (cf_retired c).

Record CfeHybridPinV1 := mkCfeHybridPinV1 { hp_device_id : string; hp_fingerprint : bytes }.
Record CfeSpkEpochV1 := mkCfeSpkEpochV1 { sp_device_id : string; sp_epoch_no : Z }.

(** [processed_ids] is a list of [CfeAckRecordV1], a message id each. *)
Record CfeOrchestratorStateV1 := mkCfeOrchestratorStateV1 {
  co_ver : Z;
  co_my_user_id : string;
  co_processed_ids : list string;
  co_init_locks : list string;
  co_hybrid_identity_pins : list CfeHybridPinV1;
  co_kem_identity_pins : list CfeHybridPinV1;
  co_envelope_book : list CfeEnvelopeEntryV1;
  co_spk_epochs : list CfeSpkEpochV1;
}.

(** A [BTreeMap] is iterated in the order of its keys. *)
Definition by_key {V} (x y : string * V) : Prop := Is_true (String.leb x.1 y.1).
#[global] Instance by_key_dec {V} : RelDecision (@by_key V).
Proof. intros x y. unfold by_key. apply _. Defined.
Definition btree_iter {V} (m : gmap string V) : list (string * V) := merge_sort by_key (map_to_list m).

(** [serde_json::from_str] on the bytes of a record older than CFE. *)
Class LegacySessionJson := { session_from_json : bytes → res string SerializableSession }.

Inductive LifecycleError :=
  | LeWire (e : WirePayloadError)
  | LeDhKeySize
  | LeSealedBoxShort
  | LeKeys (e : ConstructError)
  | LeClient (e : ClientError)
  | LePrevious (e : DrError)
  | LeNoActiveSession (contact_id : string)
  | LeSessionNotFound (contact_id : string)
  | LeRecord (e : CfeRecordError)
  | LeCfe (e : CfeError)
  | LeStateVersion (ver : Z)
  | LeDecodeAs (e : CfeError)
  | LeJson (e : string)
  | LeFromCfe (e : CfeRecordError)
  | LeIdentity (e : IdentityMismatch)
  | LeRestore (e : RestoreError)
  | LePredatesEnvelope (session_id : string)
  | LeNoFirstFlightKey (session_id : string).

(** [e.starts_with(MESSAGE_KEY_CONSUMED)]: the text of a ratchet error passes
    through the session and the client as it is. *)
Definition key_consumed (e : LifecycleError) : bool :=
  match e with LeClient (CeRatchet d) | LePrevious d => is_key_consumed d | _ => false end.

Section lifecycle.
Context `{MlKemCrate} `{!HexCrate} `{!CryptoProvider}.
Context `{!MlKem1024Crate} `{!Sha2Crate} `{!ClassicCrates} `{!HmacCrate}.

Record PreviousState := mkPreviousState {
  ps_session : Session;
  ps_retired_at : Z;
  ps_held_back : bool;
}.
#[global] Instance previous_state_eta : Eta PreviousState := λ s,
  mkPreviousState (ps_session s) (ps_retired_at s) (ps_held_back s).

Record SessionLifecycleManager := mkLifecycle {
  lm_client : Client;
  lm_ack_store : AckStore;
  lm_previous : gmap string (list PreviousState);
  lm_hybrid_identity_pins : gmap string bytes;
  lm_kem_identity_pins : gmap string bytes;
  lm_spk_epochs : gmap string Z;
  lm_my_user_id : string;
  lm_reorder_stats : ReorderStats;
}.
#[global] Instance lifecycle_eta : Eta SessionLifecycleManager := λ m,
  mkLifecycle (lm_client m) (lm_ack_store m) (lm_previous m) (lm_hybrid_identity_pins m) (lm_kem_identity_pins m)
    (lm_spk_epochs m) (lm_my_user_id m) (lm_reorder_stats m).

#[local] Abbreviation lc_method A := (method SessionLifecycleManager LifecycleError A).

(** [SessionLifecycleManager::new], [new_with_clock] *)
Definition lifecycle_new (client : Client) (my_user_id : string) : SessionLifecycleManager :=
  mkLifecycle (set_local_user_id my_user_id client) (ack_new (30 * 24 * 60 * 60)) ∅ ∅ ∅ ∅ my_user_id reorder_default.

(** A method of the client or of the store, called on the manager's. *)
Definition on_client {A} (m : method Client ClientError A) : lc_method A := λ sw,
  let '((c, w), r) := m (lm_client sw.1, sw.2) in ((sw.1 <| lm_client := c |>, w), map_err LeClient r).
Definition on_acks {A} (m : method AckStore LifecycleError A) : lc_method A := λ sw,
  let '((a, w), r) := m (lm_ack_store sw.1, sw.2) in ((sw.1 <| lm_ack_store := a |>, w), r).
(** [self.client.envelopes_mut()] *)
Definition on_book (f : EnvelopeBook → EnvelopeBook) (lm : SessionLifecycleManager) : SessionLifecycleManager :=
  lm <| lm_client := (lm_client lm) <| cl_envelopes := f (cl_envelopes (lm_client lm)) |> |>.
Definition on_stats (f : ReorderStats → ReorderStats) (lm : SessionLifecycleManager) : SessionLifecycleManager :=
  lm <| lm_reorder_stats := f (lm_reorder_stats lm) |>.

Definition current_session (lm : SessionLifecycleManager) (contact_id : string) : option Session :=
  cl_sessions (lm_client lm) !! contact_id.
Definition has_active_session (lm : SessionLifecycleManager) (contact_id : string) : bool :=
  has_session_with (lm_client lm) contact_id.
Definition active_session_id (lm : SessionLifecycleManager) (contact_id : string) : option string :=
  get_session_id (lm_client lm) contact_id.
Definition get_session_health (lm : SessionLifecycleManager) (contact_id : string) : option DrHealthSnapshot :=
  (λ s, health_snapshot (se_messaging s)) <$> current_session lm contact_id.
Definition previous_states (lm : SessionLifecycleManager) (contact_id : string) : list PreviousState :=
  default [] (lm_previous lm !! contact_id).
Definition previous_state_count (lm : SessionLifecycleManager) (contact_id : string) : Z := len (previous_states lm contact_id).

Definition set_my_user_id (user_id : string) (lm : SessionLifecycleManager) : SessionLifecycleManager :=
  lm <| lm_my_user_id := user_id |> <| lm_client := set_local_user_id user_id (lm_client lm) |>.

(** ** Pins and rotation epochs *)

Definition spk_epoch_regression (lm : SessionLifecycleManager) (device_id : string) (epoch : Z) : option SpkEpochRegressed :=
  if epoch =? 0 then None else
  match lm_spk_epochs lm !! device_id with
  | Some known => if epoch <? known then Some (mkSpkEpochRegressed epoch known) else None
  | None => None
  end.

Definition note_spk_epoch (device_id : string) (epoch : Z) (lm : SessionLifecycleManager) : SessionLifecycleManager :=
  if epoch =? 0 then lm else
  lm <| lm_spk_epochs := <[device_id := Z.max (default 0 (lm_spk_epochs lm !! device_id)) epoch]> (lm_spk_epochs lm) |>.

(** [entry(device).or_insert(fingerprint)] *)
Definition or_insert (device_id : string) (fingerprint : bytes) (pins : gmap string bytes) : gmap string bytes :=
  match pins !! device_id with Some _ => pins | None => <[device_id := fingerprint]> pins end.
Definition pin_hybrid_identity (device_id : string) (fingerprint : bytes) (lm : SessionLifecycleManager) : SessionLifecycleManager :=
  lm <| lm_hybrid_identity_pins := or_insert device_id fingerprint (lm_hybrid_identity_pins lm) |>.
Definition pin_kem_identity (device_id : string) (fingerprint : bytes) (lm : SessionLifecycleManager) : SessionLifecycleManager :=
  lm <| lm_kem_identity_pins := or_insert device_id fingerprint (lm_kem_identity_pins lm) |>.

Definition forget_contact_state (contact_id : string) : lc_method unit :=
  on_client (remove_session contact_id);;
  update (λ lm, lm <| lm_previous := delete contact_id (lm_previous lm) |>);;
  now ← now;
  update (on_book (λ b, book_prune now (retire_device contact_id now b)));;
  update (λ lm, lm <| lm_hybrid_identity_pins := delete contact_id (lm_hybrid_identity_pins lm) |>
                   <| lm_kem_identity_pins := delete contact_id (lm_kem_identity_pins lm) |>
                   <| lm_spk_epochs := delete contact_id (lm_spk_epochs lm) |>).

(** ** Previous states *)

Definition state_id (s : PreviousState) : string := se_session_id (ps_session s).
Definition fresh_state (now : Z) (s : PreviousState) : bool := sat_sub now (ps_retired_at s) <? PREVIOUS_STATE_TTL_SECONDS.

(** The sessions held with a contact once its previous states are [states]. *)
Definition held_ids (lm : SessionLifecycleManager) (contact_id : string) (states : list PreviousState) : list string :=
  (state_id <$> states) ++ match current_session lm contact_id with Some s => [se_session_id s] | None => [] end.

Definition prune_previous_at (contact_id : string) (now : Z) (lm : SessionLifecycleManager) : SessionLifecycleManager :=
  match lm_previous lm !! contact_id with
  | None => lm
  | Some states =>
      let states := take MAX_PREVIOUS_STATES (retain (fresh_state now) states) in
      let held := held_ids lm contact_id states in
      let lm := lm <| lm_previous := match states with
                                     | [] => delete contact_id (lm_previous lm)
                                     | _ => <[contact_id := states]> (lm_previous lm)
                                     end |> in
      on_book (λ b, book_prune now (retire_device_except contact_id held now b)) lm
  end.
Definition prune_previous (contact_id : string) : lc_method unit := now ← now; update (prune_previous_at contact_id now).

Definition retire (contact_id : string) (session : Session) : lc_method unit :=
  retired_at ← now;
  update (λ lm, lm <| lm_previous := <[contact_id := mkPreviousState session retired_at false :: previous_states lm contact_id]>
                                       (lm_previous lm) |>);;
  prune_previous contact_id.

(** [self.client.take_session(contact_id)] *)
Definition take_current (contact_id : string) : lc_method (option Session) :=
  lm ← self;
  let (c, s) := take_session contact_id (lm_client lm) in
  update (λ lm, lm <| lm_client := c |>);; mret s.

Definition install_current (contact_id : string) (session : Session) : lc_method unit :=
  replaced ← take_current contact_id;
  match replaced with Some replaced => retire contact_id replaced | None => mret tt end;;
  update (λ lm, lm <| lm_client := put_back_session contact_id session (lm_client lm) |>).

(** A new session with the contact is in place, and the one it replaces becomes a
    previous state: the success branch of [Orchestrator::open_receiving],
    [receiving_from_certificate] and [reopen_session_with_bundle]. *)
Definition replace_session (contact_id : string) (session : Session) : lc_method unit :=
  held ← take_current contact_id;
  update (λ lm, lm <| lm_client := file_session contact_id session (lm_client lm) |>);;
  match held with Some held => retire contact_id held | None => mret tt end.

(** [newest.held_back = true] *)
Definition hold_back_newest (contact_id : string) (lm : SessionLifecycleManager) : SessionLifecycleManager :=
  match lm_previous lm !! contact_id with
  | Some (newest :: states) =>
      lm <| lm_previous := <[contact_id := newest <| ps_held_back := true |> :: states]> (lm_previous lm) |>
  | _ => lm
  end.

Definition retire_current (contact_id : string) : lc_method bool :=
  session ← take_current contact_id;
  match session with
  | None => mret false
  | Some session =>
      retire contact_id session;;
      update (hold_back_newest contact_id);;
      mret true
  end.

(** [sending_ratchet_key()] *)
Definition sending_ratchet_key (s : Session) : bytes := kem_public_ref (dh_ratchet_public (se_messaging s)).

Definition ratchet_key_owner (lm : SessionLifecycleManager) (contact_id : string) (key : bytes) : RatchetKeyOwner :=
  let owns s := bool_decide (sending_ratchet_key s = key) in
  if match current_session lm contact_id with Some s => owns s | None => false end then OwnerCurrent
  else if existsb (λ s, owns (ps_session s)) (previous_states lm contact_id) then OwnerPrevious else OwnerUnknown.

(** ** Decrypting *)

(** The session may still send or receive first flights. *)
Definition in_first_flights (s : DoubleRatchetSession) : bool :=
  bool_decide (is_Some (prekey_header s)) || bool_decide (pq_authentication s = PaReceived).

Definition close_first_flights (contact_id : string) (lm : SessionLifecycleManager) : SessionLifecycleManager :=
  match current_session lm contact_id with
  | None => lm
  | Some s => if in_first_flights (se_messaging s) then lm else on_book (clear_first_flight (se_session_id s)) lm
  end.

Definition identity_answer_secret (lm : SessionLifecycleManager) (msg : EncryptedRatchetMessage) : res LifecycleError (option bytes) :=
  match em_identity_proof_ciphertext msg with
  | None => Ok None
  | Some ct => s ← map_err LeKeys (kem_identity_decapsulate (cl_key_manager (lm_client lm)) ct); Ok (Some s)
  end.

(** The state at [index] decrypted: its health before and after, and the plaintext. *)
Definition read_state : Type := nat * (DrHealthSnapshot * DrHealthSnapshot) * bytes.

Definition next_index (x : read_state) : read_state := (S x.1.1, x.1.2, x.2).

(** The loop over the previous states, each tried in place. *)
Fixpoint try_previous (msg : EncryptedRatchetMessage) (secret : option bytes) (states : list PreviousState) (w : World)
    : (list PreviousState * World) * res LifecycleError (option read_state) :=
  match states with
  | [] => (([], w), Ok None)
  | state :: rest =>
      let before := health_snapshot (se_messaging (ps_session state)) in
      let '((dr, w), r) := decrypt_with_identity_secret msg secret (se_messaging (ps_session state), w) in
      let state := state <| ps_session := (ps_session state) <| se_messaging := dr |> |> in
      match r with
      | Ok plaintext => ((state :: rest, w), Ok (Some (0%nat, (before, health_snapshot dr), plaintext)))
      | Panic => ((state :: rest, w), Panic)
      | Err e =>
          if is_key_consumed e then ((state :: rest, w), Err (LePrevious e)) else
          let '((rest, w), r) := try_previous msg secret rest w in
          ((state :: rest, w), (d ← r; Ok (option_map next_index d)))
      end
  end.

(** The loop, on the states held with the contact, if there are any. *)
Definition on_previous (contact_id : string) (msg : EncryptedRatchetMessage) (secret : option bytes) : lc_method (option read_state) := λ sw,
  match lm_previous sw.1 !! contact_id with
  | None => (sw, Ok None)
  | Some states =>
      let '((states, w), r) := try_previous msg secret states sw.2 in
      ((sw.1 <| lm_previous := <[contact_id := states]> (lm_previous sw.1) |>, w), r)
  end.

(** What follows when the current state did not decrypt. *)
Definition decrypt_on_previous (contact_id : string) (msg : EncryptedRatchetMessage) (secret : option bytes)
    (current_before : option DrHealthSnapshot) (current_error : option LifecycleError) : lc_method bytes :=
  prune_previous contact_id;;
  decrypted ← on_previous contact_id msg secret;
  match decrypted with
  | None =>
      update (on_stats (record_failed current_before (em_pq_message_epoch msg)));;
      throw (default (LeNoActiveSession contact_id) current_error)
  | Some (index, (before, after), plaintext) =>
      update (on_stats (record_decrypted before after (em_pq_message_epoch msg)));;
      lm ← self;
      let states := previous_states lm contact_id in
      match states !! index with
      | None => lift Panic
      | Some state =>
          if ps_held_back state then mret plaintext else
          update (λ lm, lm <| lm_previous := <[contact_id := delete index states]> (lm_previous lm) |>);;
          install_current contact_id (ps_session state);;
          update (close_first_flights contact_id);;
          mret plaintext
      end
  end.

Definition decrypt_ratchet_message (contact_id : string) (msg : EncryptedRatchetMessage) : lc_method bytes :=
  lm ← self;
  secret ← lift (identity_answer_secret lm msg);
  match get_session_health lm contact_id with
  | None => decrypt_on_previous contact_id msg secret None None
  | Some before =>
      r ← attempt (on_client (decrypt_message_with_identity_secret contact_id msg secret));
      match r with
      | Panic => lift Panic
      | Ok plaintext =>
          update (λ lm, match get_session_health lm contact_id with
                        | Some after => on_stats (record_decrypted before after (em_pq_message_epoch msg)) lm
                        | None => lm
                        end);;
          update (close_first_flights contact_id);;
          mret plaintext
      | Err e => if key_consumed e then throw e else decrypt_on_previous contact_id msg secret (Some before) (Some e)
      end
  end.
(** ** Stored records *)

Context `{!Crc32Crate} `{!MessagePack CfeSessionStateV1} `{!MessagePack CfeOrchestratorStateV1} `{!LegacySessionJson}.

Definition session_to_cfe (s : Session) : res LifecycleError CfeSessionStateV1 :=
  map_err LeRecord (to_cfe_v1 (to_serializable (se_messaging s))).

Fixpoint previous_to_cfe (states : list PreviousState) : res LifecycleError (list CfePreviousStateV1) :=
  match states with
  | [] => Ok []
  | state :: rest =>
      c ← session_to_cfe (ps_session state);
      rest ← previous_to_cfe rest;
      Ok (mkCfePrevious (ps_retired_at state) c (ps_held_back state) :: rest)
  end.

(** The top of the record, and the states below it. *)
Definition record_top (lm : SessionLifecycleManager) (contact_id : string)
    : res LifecycleError (CfeSessionStateV1 * list PreviousState) :=
  match current_session lm contact_id, previous_states lm contact_id with
  | Some s, previous => top ← session_to_cfe s; Ok (top, previous)
  | None, [] => Err (LeSessionNotFound contact_id)
  | None, newest :: rest =>
      top ← session_to_cfe (ps_session newest);
      Ok (top <| cf_retired := Some (mkCfeRetiredMark (ps_retired_at newest) (ps_held_back newest)) |>, rest)
  end.

Definition export_session_bytes_for (lm : SessionLifecycleManager) (contact_id : string) : res LifecycleError bytes :=
  '(top, rest) ← record_top lm contact_id;
  previous ← previous_to_cfe rest;
  map_err LeCfe (cfe_encode SessionState (top <| cf_previous := cf_previous top ++ previous |>)).

(** The record, the states below its top and its mark. *)
Definition read_record (data : bytes)
    : res LifecycleError (SerializableSession * list CfePreviousStateV1 * option CfeRetiredMarkV1) :=
  match @decode_as _ CfeSessionStateV1 _ data SessionState with
  | Ok c => s ← map_err LeFromCfe (from_cfe_v1 c); Ok (s, cf_previous c, cf_retired c)
  | Err LegacyJson => s ← map_err LeJson (session_from_json data); Ok (s, [], None)
  | Err e => Err (LeDecodeAs e)
  | Panic => Panic
  end.

Fixpoint import_previous (contact_id local_user_id : string) (book : EnvelopeBook) (entries : list CfePreviousStateV1)
    : stm World LifecycleError (list PreviousState) :=
  match entries with
  | [] => mret []
  | entry :: rest =>
      if cf_suite_id (pv_state entry) =? RETIRED_PQ_RATCHET_V1 then import_previous contact_id local_user_id book rest else
      state ← lift (map_err LeFromCfe (from_cfe_v1 (pv_state entry)));
      lift (map_err LeIdentity (verify_identity state contact_id local_user_id));;
      ratchet ← map_err_m LeRestore (from_serializable state);
      states ← import_previous contact_id local_user_id book rest;
      mret (if has_session book (session_id ratchet)
            then mkPreviousState (from_messaging_session contact_id ratchet) (pv_retired_at entry) (pv_held_back entry) :: states
            else states)
  end.

(** The session at the top of a record takes its place, below it [states]. *)
Definition install_record (contact_id : string) (ratchet : DoubleRatchetSession) (retired : option CfeRetiredMarkV1)
    (states : list PreviousState) : lc_method unit :=
  states ← match retired with
           | Some mark =>
               take_current contact_id;;
               mret (mkPreviousState (from_messaging_session contact_id ratchet) (rm_retired_at mark) (rm_held_back mark) :: states)
           | None =>
               update (λ lm, lm <| lm_client := (import_session contact_id ratchet (lm_client lm)).1 |>);; mret states
           end;
  match states with
  | [] => update (λ lm, lm <| lm_previous := delete contact_id (lm_previous lm) |>)
  | _ => update (λ lm, lm <| lm_previous := <[contact_id := states]> (lm_previous lm) |>);; prune_previous contact_id
  end.

Definition import_session_bytes (contact_id : string) (data : bytes) : lc_method unit :=
  '(serializable, previous, retired) ← lift (read_record data);
  lm ← self;
  let local := cl_local_user_id (lm_client lm) in
  let book := cl_envelopes (lm_client lm) in
  lift (map_err LeIdentity (verify_identity serializable contact_id local));;
  states ← on_world (import_previous contact_id local book previous);
  ratchet ← on_world (map_err_m LeRestore (from_serializable serializable));
  if negb (has_session book (session_id ratchet)) then throw (LePredatesEnvelope (session_id ratchet)) else
  if in_first_flights ratchet && bool_decide (first_flight_of_session book (session_id ratchet) = None)
  then throw (LeNoFirstFlightKey (session_id ratchet)) else
  install_record contact_id ratchet retired states.

Definition DecryptResult : Type := bytes * list Action.

Definition message_of_wire (d : DecodedWirePayload) : res LifecycleError EncryptedRatchetMessage :=
  if negb (len (dh_public_key d) =? 32) then Err LeDhKeySize else
  if len (sealed_box d) <? 12 then Err LeSealedBoxShort else
  nonce ← slice 0 12 (sealed_box d);
  ciphertext ← slice_from 12 (sealed_box d);
  Ok (mkMessage (dh_public_key d) (message_number d) ciphertext nonce (previous_chain_length d) (WirePayload.suite_id d)
        (pq_message_epoch d) (pq_key_index d) (pq_ratchet_field d) (identity_proof_ciphertext d) (ad_version d)).

Definition decrypt_wire_payload (contact_id : string) (payload : bytes) : lc_method DecryptResult :=
  decoded ← lift (map_err LeWire (unpack payload));
  msg ← lift (message_of_wire decoded);
  plaintext ← decrypt_ratchet_message contact_id msg;
  lm ← self;
  session_bytes ← lift (export_session_bytes_for lm contact_id);
  mret (plaintext, [SaveToSecureStore (SlotSession contact_id) session_bytes]).

Definition export_pins (pins : gmap string bytes) : list CfeHybridPinV1 := (λ kv, mkCfeHybridPinV1 kv.1 kv.2) <$> btree_iter pins.

Definition orchestrator_state (lm : SessionLifecycleManager) (init_locks : gset string) : CfeOrchestratorStateV1 := {|
  co_ver := 1;
  co_my_user_id := lm_my_user_id lm;
  co_processed_ids := [];
  co_init_locks := elements init_locks;
  co_hybrid_identity_pins := export_pins (lm_hybrid_identity_pins lm);
  co_kem_identity_pins := export_pins (lm_kem_identity_pins lm);
  co_envelope_book := book_to_cfe (cl_envelopes (lm_client lm));
  co_spk_epochs := (λ kv, mkCfeSpkEpochV1 kv.1 kv.2) <$> btree_iter (lm_spk_epochs lm);
|}.
Definition export_orchestrator_state_cfe (lm : SessionLifecycleManager) (init_locks : gset string) : res LifecycleError bytes :=
  map_err LeCfe (cfe_encode OrchestratorState (orchestrator_state lm init_locks)).

(** A pin that is not 32 bytes is dropped. *)
Definition import_pins (pins : list CfeHybridPinV1) : gmap string bytes :=
  collect_map ((λ p, (hp_device_id p, hp_fingerprint p)) <$> retain (λ p, len (hp_fingerprint p) =? 32) pins).
Definition import_epochs (epochs : list CfeSpkEpochV1) : gmap string Z :=
  collect_map ((λ e, (sp_device_id e, sp_epoch_no e)) <$> retain (λ e, sp_epoch_no e >? 0) epochs).

Definition import_orchestrator_state_cfe (data : bytes) : lc_method (gset string) :=
  state ← lift (map_err LeCfe (@decode_as _ CfeOrchestratorStateV1 _ data OrchestratorState));
  if negb (co_ver state =? 1) then throw (LeStateVersion (co_ver state)) else
  update (λ lm, lm <| lm_ack_store := restore_cache (co_processed_ids state) (lm_ack_store lm) |>
                   <| lm_hybrid_identity_pins := import_pins (co_hybrid_identity_pins state) |>
                   <| lm_kem_identity_pins := import_pins (co_kem_identity_pins state) |>
                   <| lm_spk_epochs := import_epochs (co_spk_epochs state) |>);;
  envelopes ← lift (map_err (λ e, LeKeys (Crypto e)) (book_from_cfe (co_envelope_book state)));
  now ← now;
  update (on_book (λ _, book_prune now envelopes));;
  mret (list_to_set (co_init_locks state)).
End lifecycle.
