(* ===== verification/LifecycleProps.v ===== *)
(** * The session lifecycle: decrypting on any state held

    What [decrypt_ratchet_message] of [session_lifecycle.rs] does with the current
    state, the previous ones and the envelope book, on every path; and what holds
    over any sequence of reads, replacements and retirements. *)

From stdpp Require Import gmap strings.
From S2P Require Import Prelude Platform Wp Classic Toy Crates RatchetTypes Ratchet RatchetDemo RatchetRollback X3dh SealedBox Envelope EnvelopeBook KyberPrekeys KeyManager Client AckStore Lifecycle.

Section props.
Context `{MlKemCrate} `{!HexCrate} `{!CryptoProvider}.
Context `{!MlKem1024Crate} `{!Sha2Crate} `{!ClassicCrates} `{!HmacCrate}.

(** ** What a read leaves of a state *)

(** A session that a message did not open: as it was, but for keys that expired
    and the time of the last ratchet step. *)
Definition unread (s s' : DoubleRatchetSession) : Prop :=
  s' = s ∨ ∃ c w w1, periodic_cleanup (s, w) = ((c, w1), Ok tt) ∧ same_but_ratchet_time c s'.

Definition with_ratchet (s : Session) (dr : DoubleRatchetSession) : Session := s <| se_messaging := dr |>.
Definition with_state (st : PreviousState) (dr : DoubleRatchetSession) : PreviousState :=
  st <| ps_session := with_ratchet (ps_session st) dr |>.
Definition ratchet_of (st : PreviousState) : DoubleRatchetSession := se_messaging (ps_session st).

(** The same state, with a ratchet of the same names. *)
Definition touched (st st' : PreviousState) : Prop := ∃ dr, st' = with_state st dr ∧ names dr = names (ratchet_of st).
Definition left_unread (st st' : PreviousState) : Prop := ∃ dr, st' = with_state st dr ∧ unread (ratchet_of st) dr.

Lemma unread_names s s' : unread s s' → names s' = names s.
Proof.
  intros [->|(c & w & w1 & Hc & Hs)]; [done|]. rewrite Hs. pose proof (keeps_cleanup s w) as Hk. unfold wp in Hk.
  rewrite Hc in Hk. exact Hk.
Qed.
Lemma left_unread_touched st st' : left_unread st st' → touched st st'.
Proof. intros (dr & -> & Hu). exists dr. split; [done|]. by apply unread_names. Qed.
Lemma left_unread_refl st : left_unread st st.
Proof. exists (ratchet_of st). split; [by destruct st as [[]]|by left]. Qed.
Lemma touched_refl st : touched st st.
Proof. apply left_unread_touched, left_unread_refl. Qed.
Lemma touched_id st st' : touched st st' → state_id st' = state_id st.
Proof. intros (dr & -> & Hn). unfold state_id, se_session_id. cbn. unfold names in Hn. unfold ratchet_of in Hn. congruence. Qed.
Lemma touched_marks st st' : touched st st' → ps_retired_at st' = ps_retired_at st ∧ ps_held_back st' = ps_held_back st.
Proof. by intros (dr & -> & _). Qed.

Lemma decrypt_names m sec s w s' w' r : decrypt_with_identity_secret m sec (s, w) = ((s', w'), r) → r ≠ Panic → names s' = names s.
Proof. intros Hd Hr. pose proof (decrypt_keeps_names m sec s w) as Hk. unfold wp in Hk. rewrite Hd in Hk. by destruct r. Qed.
Lemma decrypt_unread m sec s w s' w' e : decrypt_with_identity_secret m sec (s, w) = ((s', w'), Err e) → unread s s'.
Proof. intros (c & w1 & ? & ?)%decrypt_failure_restores. right. by exists c, w, w1. Qed.

(** ** The loop over the previous states *)

(** What it leaves when it returns [r]. *)
Definition loop_leaves (m : EncryptedRatchetMessage) (sec : option bytes) (l l' : list PreviousState) (r : res LifecycleError (option read_state)) : Prop :=
  match r with
  | Ok None => Forall2 left_unread l l'
  | Ok (Some (i, _, p)) => Forall2 touched l l' ∧ ∃ st dr w w', l !! i = Some st ∧ l' !! i = Some (with_state st dr) ∧
      decrypt_with_identity_secret m sec (ratchet_of st, w) = ((dr, w'), Ok p)
  | Err e => Forall2 left_unread l l' ∧ key_consumed e = true
  | Panic => True
  end.

Lemma Forall2_unread_refl l : Forall2 left_unread l l.
Proof. induction l; constructor; [apply left_unread_refl|done]. Qed.
Lemma Forall2_touched l l' : Forall2 left_unread l l' → Forall2 touched l l'.
Proof. intros Hl. eapply Forall2_impl; [exact Hl|]. apply left_unread_touched. Qed.

Lemma try_previous_leaves m sec l w :
  let x := try_previous m sec l w in loop_leaves m sec l x.1.1 x.2.
Proof.
  revert w. induction l as [|st l IH]; intros w; [constructor|]. cbn [try_previous].
  destruct (decrypt_with_identity_secret m sec _) as [[dr w1] r] eqn:Hd. destruct r as [p|e|]; [| |done].
  - cbn [fst snd loop_leaves]. split.
    + constructor; [|by apply Forall2_touched, Forall2_unread_refl]. exists dr. split; [done|]. by eapply decrypt_names.
    + by exists st, dr, w, w1.
  - assert (left_unread st (with_state st dr)) as Hst by (exists dr; split; [done|]; by eapply decrypt_unread).
    destruct (is_key_consumed e) eqn:He; [split; [|done]; constructor; [done|apply Forall2_unread_refl]|].
    specialize (IH w1). cbn zeta in IH. destruct (try_previous m sec l w1) as [[l1 w2] [[[[i h] p]|]|e'|]]; cbn in *.
    + destruct IH as [Hl (st1 & dr1 & w3 & w4 & Hi & Hi' & Hd')]. split.
      * constructor; [by apply left_unread_touched|done].
      * by exists st1, dr1, w3, w4.
    + by constructor.
    + destruct IH as [Hl Hc]. split; [by constructor|done].
    + done.
Qed.

(** ** The outcomes of [decrypt_ratchet_message] *)

Definition set_current (c : string) (s : Session) (lm : SessionLifecycleManager) : SessionLifecycleManager :=
  lm <| lm_client := put_back_session c s (lm_client lm) |>.
Definition drop_current (c : string) (lm : SessionLifecycleManager) : SessionLifecycleManager :=
  lm <| lm_client := (take_session c (lm_client lm)).1 |>.
Definition set_states (c : string) (l : list PreviousState) (lm : SessionLifecycleManager) : SessionLifecycleManager :=
  lm <| lm_previous := <[c := l]> (lm_previous lm) |>.
Definition retired_at (c : string) (s : Session) (t1 t2 : Z) (lm : SessionLifecycleManager) : SessionLifecycleManager :=
  prune_previous_at c t2 (set_states c (mkPreviousState s t1 false :: previous_states lm c) lm).

(** [s] becomes current with [c]. *)
Inductive installed (c : string) (s : Session) (lm : SessionLifecycleManager) : SessionLifecycleManager → Prop :=
  | installed_over old w1 w2 :
      current_session lm c = Some old →
      installed c s lm (set_current c s (retired_at c old (clock w1).2 (clock w2).2 (drop_current c lm)))
  | installed_first :
      current_session lm c = None → installed c s lm (set_current c s (drop_current c lm)).

(** The current state did not open the message, or there is none. *)
Inductive current_failed (c : string) (lm : SessionLifecycleManager) : SessionLifecycleManager → Prop :=
  | no_current : current_session lm c = None → current_failed c lm lm
  | current_unread s dr : current_session lm c = Some s → unread (se_messaging s) dr →
      current_failed c lm (set_current c (with_ratchet s dr) lm).

Inductive read_outcome (c : string) (m : EncryptedRatchetMessage) (sec : option bytes) (lm : SessionLifecycleManager)
    : SessionLifecycleManager → res LifecycleError bytes → Prop :=
  | read_on_current s dr w w' p f :
      current_session lm c = Some s → decrypt_with_identity_secret m sec (se_messaging s, w) = ((dr, w'), Ok p) →
      read_outcome c m sec lm (close_first_flights c (on_stats f (set_current c (with_ratchet s dr) lm))) (Ok p)
  | refused_on_current lm1 e : current_failed c lm lm1 → read_outcome c m sec lm lm1 (Err e)
  | refused_on_previous lm1 w e l l' f :
      current_failed c lm lm1 →
      let lm2 := prune_previous_at c (clock w).2 lm1 in
      lm_previous lm2 !! c = Some l → Forall2 left_unread l l' →
      read_outcome c m sec lm (on_stats f (set_states c l' lm2)) (Err e)
  | refused_by_all lm1 w e f :
      current_failed c lm lm1 →
      let lm2 := prune_previous_at c (clock w).2 lm1 in
      lm_previous lm2 !! c = None → read_outcome c m sec lm (on_stats f lm2) (Err e)
  | read_on_previous lm1 w w1 w2 l l' i st dr p f lm' :
      current_failed c lm lm1 →
      let lm2 := prune_previous_at c (clock w).2 lm1 in
      lm_previous lm2 !! c = Some l → Forall2 touched l l' → l !! i = Some st → l' !! i = Some (with_state st dr) →
      decrypt_with_identity_secret m sec (ratchet_of st, w1) = ((dr, w2), Ok p) →
      (if ps_held_back st then lm' = on_stats f (set_states c l' lm2)
       else ∃ lm3, installed c (with_ratchet (ps_session st) dr) (set_states c (delete i l') (on_stats f (set_states c l' lm2))) lm3 ∧
            lm' = close_first_flights c lm3) →
      read_outcome c m sec lm lm' (Ok p).

Lemma wp_install_current c s lm w : wp True (install_current c s) (lm, w) (λ _ sw, installed c s lm sw.1) (λ _ _, False).
Proof.
  unfold install_current, take_current, take_session, retire, prune_previous. do 5 wp_step.
  destruct (cl_sessions (lm_client lm) !! c) as [old|] eqn:Ho; wp_steps; simpl.
  - by apply (installed_over c s lm old).
  - by apply installed_first.
Qed.

Lemma set_states_twice c l l' lm : set_states c l (set_states c l' lm) = set_states c l lm.
Proof. unfold set_states. destruct lm. simpl. by rewrite insert_insert_eq. Qed.
Lemma on_stats_states f c l lm : set_states c l (on_stats f lm) = on_stats f (set_states c l lm).
Proof. by destruct lm. Qed.

Lemma previous_set c l lm : previous_states (set_states c l lm) c = l.
Proof. unfold previous_states. cbn. by rewrite lookup_insert_eq. Qed.
Lemma previous_stats f c lm : previous_states (on_stats f lm) c = previous_states lm c.
Proof. done. Qed.

Lemma wp_on_previous c m sec lm w :
  wp True (on_previous c m sec) (lm, w)
    (λ d sw, match d with
             | None => lm_previous lm !! c = None ∧ sw.1 = lm ∨
                 ∃ l l', lm_previous lm !! c = Some l ∧ Forall2 left_unread l l' ∧ sw.1 = set_states c l' lm
             | Some (i, _, p) => ∃ l l' st dr w1 w2, lm_previous lm !! c = Some l ∧ Forall2 touched l l' ∧ l !! i = Some st ∧
                 l' !! i = Some (with_state st dr) ∧ decrypt_with_identity_secret m sec (ratchet_of st, w1) = ((dr, w2), Ok p) ∧
                 sw.1 = set_states c l' lm
             end)
    (λ e sw, key_consumed e = true ∧ ∃ l l', lm_previous lm !! c = Some l ∧ Forall2 left_unread l l' ∧ sw.1 = set_states c l' lm).
Proof.
  unfold wp, on_previous. cbn [fst snd]. destruct (lm_previous lm !! c) as [l|] eqn:Hl; [|by left].
  pose proof (try_previous_leaves m sec l w) as Hp. cbn zeta in Hp.
  destruct (try_previous m sec l w) as [[l' w'] [[[[i h] p]|]|e|]]; cbn in *; [| | |done].
  - destruct Hp as [Ht (st & dr & w1 & w2 & Hi & Hi' & Hd)]. by exists l, l', st, dr, w1, w2.
  - right. by exists l, l'.
  - destruct Hp as [Hf Hk]. split; [done|]. by exists l, l'.
Qed.

Lemma wp_decrypt_on_previous c m sec lm lm1 w before err :
  current_failed c lm lm1 →
  wp True (decrypt_on_previous c m sec before err) (lm1, w)
    (λ p sw, read_outcome c m sec lm sw.1 (Ok p)) (λ e sw, read_outcome c m sec lm sw.1 (Err e)).
Proof.
  intros Hc. unfold decrypt_on_previous, prune_previous. do 5 wp_step.
  set (lm2 := prune_previous_at c _ lm1). eapply wp_mono; [apply wp_on_previous|..].
  - intros [[[i [h1 h2]] p]|] [lm3 w3]; cbn [fst].
    + intros (l & l' & st & dr & w4 & w5 & Hl & Ht & Hi & Hi' & Hd & ->). do 4 wp_step.
      set (f := record_decrypted _ _ _). cbv beta zeta. rewrite (previous_stats f), previous_set, Hi'.
      change (ps_held_back (with_state st dr)) with (ps_held_back st).
      destruct (ps_held_back st) eqn:Hb.
      * wp_step. eapply (read_on_previous c m sec lm lm1 w w4 w5 l l' i st dr p f); try done. by rewrite Hb.
      * do 3 wp_step. eapply wp_mono; [apply wp_install_current| |done]. intros _ [lm4 w6] Hin. cbn [fst] in Hin.
        do 3 wp_step. eapply (read_on_previous c m sec lm lm1 w w4 w5 l l' i st dr p f); try done. rewrite Hb. by exists lm4.
    + intros Hn. do 3 wp_step. destruct Hn as [[Hn ->]|(l & l' & Hl & Hf & ->)].
      * by apply (refused_by_all c m sec lm lm1 w).
      * by apply (refused_on_previous c m sec lm lm1 w _ l l').
  - intros e [lm3 w3] [_ (l & l' & Hl & Hf & E)]. cbn [fst] in *. subst lm3.
    apply (refused_on_previous c m sec lm lm1 w e l l' id); done.
Qed.

Lemma set_current_same c s lm : current_session lm c = Some s → set_current c (with_ratchet s (se_messaging s)) lm = lm.
Proof.
  intros Hs. unfold set_current, put_back_session, with_ratchet. destruct lm as [[]], s. unfold current_session in Hs. cbn in *.
  by rewrite insert_id.
Qed.

Lemma wp_current c m sec lm w s :
  current_session lm c = Some s →
  wp True (on_client (decrypt_message_with_identity_secret c m sec)) (lm, w)
    (λ p sw, ∃ dr w1 w2, decrypt_with_identity_secret m sec (se_messaging s, w1) = ((dr, w2), Ok p) ∧
       sw.1 = set_current c (with_ratchet s dr) lm)
    (λ _ sw, current_failed c lm sw.1).
Proof.
  intros Hs. unfold wp, on_client, decrypt_message_with_identity_secret, ensure_local_user_id_set, mbind, stm_bind, self. cbn [fst snd].
  case_bool_decide; cbn.
  - pose proof (current_unread c lm s (se_messaging s) Hs (or_introl eq_refl)) as Hc. rewrite set_current_same in Hc by done.
    by destruct lm as [[]].
  - unfold current_session in Hs. rewrite Hs. cbn. unfold on_session. cbn [fst snd].
    destruct (decrypt_with_identity_secret m sec (se_messaging s, w)) as [[dr w2] [p|e|]] eqn:Hd; cbn; [| |done].
    + by exists dr, w, w2.
    + apply (current_unread c lm s dr); [done|]. by eapply decrypt_unread.
Qed.

Lemma wp_decrypt c m lm w :
  wp True (decrypt_ratchet_message c m) (lm, w)
    (λ p sw, ∃ sec, identity_answer_secret lm m = Ok sec ∧ read_outcome c m sec lm sw.1 (Ok p))
    (λ e sw, sw.1 = lm ∨ ∃ sec, read_outcome c m sec lm sw.1 (Err e)).
Proof.
  unfold decrypt_ratchet_message. do 3 wp_step. cbv beta. apply wp_lift_cases; [|by left|done]. intros sec Hsec.
  unfold get_session_health at 1. destruct (current_session lm c) as [s|] eqn:Hs; cbn [fmap option_fmap option_map].
  - do 2 wp_step. eapply wp_mono; [by apply (wp_current c m sec lm w s)|..].
    + intros p [lm1 w1] (dr & w2 & w3 & Hd & E). cbn [fst] in E. subst lm1. wp_step. do 4 wp_step. exists sec. split; [done|]. cbn [fst].
      assert (get_session_health (set_current c (with_ratchet s dr) lm) c = Some (health_snapshot dr)) as ->.
      { unfold get_session_health, current_session. cbn. by rewrite lookup_insert_eq. }
      by eapply read_on_current.
    + intros e [lm1 w1] Hc. cbv beta match. destruct (key_consumed e).
      * wp_step. right. exists sec. by apply refused_on_current.
      * eapply wp_mono; [by apply (wp_decrypt_on_previous c m sec lm)|..]; cbn beta.
        -- intros. by exists sec.
        -- intros. right. by exists sec.
  - eapply wp_mono; [apply (wp_decrypt_on_previous c m sec lm); by apply no_current|..]; cbn beta.
    + intros. by exists sec.
    + intros. right. by exists sec.
Qed.

(** ** What the steps keep *)

(** All but the sessions, the previous states, the book and the statistics. *)
Definition kept (lm : SessionLifecycleManager) :=
  (cl_key_manager (lm_client lm), cl_pending_otpk_ids (lm_client lm), cl_local_user_id (lm_client lm), lm_ack_store lm,
   lm_hybrid_identity_pins lm, lm_kem_identity_pins lm, lm_spk_epochs lm, lm_my_user_id lm).
Definition book_of (lm : SessionLifecycleManager) : EnvelopeBook := cl_envelopes (lm_client lm).

(** Only what belongs to [c] may differ. *)
Record only (c : string) (lm lm' : SessionLifecycleManager) : Prop := {
  on_kept : kept lm' = kept lm;
  on_session_of : ∀ c', c' ≠ c → current_session lm' c' = current_session lm c';
  on_previous_of : ∀ c', c' ≠ c → lm_previous lm' !! c' = lm_previous lm !! c';
}.

Lemma only_refl c lm : only c lm lm.
Proof. done. Qed.
Lemma only_trans c lm1 lm2 lm3 : only c lm1 lm2 → only c lm2 lm3 → only c lm1 lm3.
Proof. intros [Ha Hb Hc] [Hd He Hf]. split; [congruence|..]; intros c' Hne; [rewrite He, Hb|rewrite Hf, Hc]; done. Qed.
Lemma only_set_current c s lm : only c lm (set_current c s lm).
Proof. split; [done| |done]. intros c' Hc. unfold current_session. cbn. by rewrite lookup_insert_ne. Qed.
Lemma only_drop_current c lm : only c lm (drop_current c lm).
Proof. split; [done| |done]. intros c' Hc. unfold current_session. cbn. by rewrite lookup_delete_ne. Qed.
Lemma only_set_states c l lm : only c lm (set_states c l lm).
Proof. split; [done..|]. intros c' Hc. cbn. by rewrite lookup_insert_ne. Qed.
Lemma only_stats c f lm : only c lm (on_stats f lm).
Proof. done. Qed.
Lemma only_book c f lm : only c lm (on_book f lm).
Proof. done. Qed.
Lemma only_close c lm : only c lm (close_first_flights c lm).
Proof. unfold close_first_flights. repeat case_match; done. Qed.
Lemma only_prune c t lm : only c lm (prune_previous_at c t lm).
Proof.
  unfold prune_previous_at. destruct (lm_previous lm !! c) as [l|] eqn:Hl; [|done]. cbv zeta. split; [done|done|].
  intros c' Hc. cbn. case_match; [by rewrite lookup_delete_ne|by rewrite lookup_insert_ne].
Qed.
Lemma only_installed c s lm lm' : installed c s lm lm' → only c lm lm'.
Proof.
  intros [old w1 w2 _|_]; (eapply only_trans; [apply only_drop_current|]); [|apply only_set_current].
  eapply only_trans; [|apply only_set_current]. unfold retired_at. eapply only_trans; [apply only_set_states|apply only_prune].
Qed.
Lemma only_failed c lm lm' : current_failed c lm lm' → only c lm lm'.
Proof. intros []; [done|apply only_set_current]. Qed.

Lemma read_only c m sec lm lm' r : read_outcome c m sec lm lm' r → only c lm lm'.
Proof.
  assert (∀ lm1 t, current_failed c lm lm1 → only c lm (prune_previous_at c t lm1)) as Hp.
  { intros. eapply only_trans; [by apply only_failed|apply only_prune]. }
  intros [s dr w w' p f _ _|lm1 e Hc|lm1 w e l l' f Hc lm2 _ _|lm1 w e f Hc lm2 _|lm1 w w1 w2 l l' i st dr p f lm3 Hc lm2 _ _ _ _ _ Hlm].
  - eapply only_trans; [|apply only_close]. eapply only_trans; [apply only_set_current|apply only_stats].
  - by apply only_failed.
  - eapply only_trans; [by apply Hp|]. eapply only_trans; [apply only_set_states|apply only_stats].
  - eapply only_trans; [by apply Hp|apply only_stats].
  - eapply only_trans; [by apply Hp|]. destruct (ps_held_back st).
    + subst. eapply only_trans; [apply only_set_states|apply only_stats].
    + destruct Hlm as (lm4 & Hin & ->). eapply only_trans; [|apply only_close]. eapply only_trans; [|by apply (only_installed _ _ _ _ Hin)].
      eapply only_trans; [|apply only_set_states]. eapply only_trans; [apply only_set_states|apply only_stats].
Qed.

(** ** Pruning *)

Lemma current_prune c t lm c' : current_session (prune_previous_at c t lm) c' = current_session lm c'.
Proof. unfold prune_previous_at. by case_match. Qed.
Lemma current_stats f lm c : current_session (on_stats f lm) c = current_session lm c.
Proof. done. Qed.
Lemma current_states c l lm c' : current_session (set_states c l lm) c' = current_session lm c'.
Proof. done. Qed.
Lemma current_close c lm c' : current_session (close_first_flights c lm) c' = current_session lm c'.
Proof. unfold close_first_flights. by repeat case_match. Qed.
Lemma current_set c s lm : current_session (set_current c s lm) c = Some s.
Proof. unfold current_session. cbn. by rewrite lookup_insert_eq. Qed.
Lemma current_drop c lm : current_session (drop_current c lm) c = None.
Proof. unfold current_session. cbn. by rewrite lookup_delete_eq. Qed.

Definition pruned (t : Z) (l : list PreviousState) : list PreviousState := take MAX_PREVIOUS_STATES (retain (fresh_state t) l).
#[local] Arguments pruned : simpl never.

Lemma previous_prune c t lm : previous_states (prune_previous_at c t lm) c = pruned t (previous_states lm c).
Proof.
  unfold prune_previous_at, previous_states. destruct (lm_previous lm !! c) as [l|] eqn:Hl; [|by rewrite Hl]. cbv zeta.
  fold (pruned t l). cbn. destruct (pruned t l) eqn:Hp; [by rewrite lookup_delete_eq|by rewrite lookup_insert_eq].
Qed.
Lemma previous_close c lm c' : previous_states (close_first_flights c lm) c' = previous_states lm c'.
Proof. unfold close_first_flights. by repeat case_match. Qed.
Lemma lookup_states lm c l : lm_previous lm !! c = Some l → previous_states lm c = l.
Proof. unfold previous_states. by intros ->. Qed.

Lemma pruned_sublist t l : pruned t l `sublist_of` l.
Proof. unfold pruned, retain. etrans; [apply sublist_take|apply sublist_filter]. Qed.
Lemma pruned_length t l : (length (pruned t l) ≤ MAX_PREVIOUS_STATES)%nat.
Proof. unfold pruned. rewrite length_take. lia. Qed.
Lemma pruned_fresh t l : Forall (λ st, fresh_state t st = true) (pruned t l).
Proof. unfold pruned, retain. apply Forall_take, Forall_forall. intros st [Hst _]%list_elem_of_filter. done. Qed.

(** A pair in use is not touched. *)
Lemma prune_keeps_pair c t lm e :
  e ∈ book_of lm → be_retired_at e = None →
  (be_device e = c → be_session_id e ∈ held_ids lm c (pruned t (previous_states lm c))) →
  e ∈ book_of (prune_previous_at c t lm).
Proof.
  intros He Hr Hd. unfold prune_previous_at, previous_states in *. destruct (lm_previous lm !! c) as [l|]; [|done]. cbv zeta.
  fold (pruned t l). cbn in Hd |- *.
  unfold book_of. cbn. apply list_elem_of_filter. split; [unfold entry_live; by rewrite Hr|].
  unfold retire_device_except, retire_where. apply list_elem_of_fmap. exists e. split; [|done]. unfold has_device.
  destruct (decide (be_device e = c)) as [Hc|]; [|by rewrite bool_decide_eq_false_2].
  rewrite (bool_decide_eq_true_2 (be_device e = c)) by done. by rewrite bool_decide_eq_true_2 by auto.
Qed.

(** What is left of the pairs was there. *)
Lemma prune_pairs c t lm e' :
  e' ∈ book_of (prune_previous_at c t lm) → ∃ e, e ∈ book_of lm ∧ (e' = e ∨ e' = retire_entry t e ∧ be_device e = c).
Proof.
  unfold prune_previous_at. destruct (lm_previous lm !! c) as [l|]; [|by eexists; eauto]. cbv zeta.
  fold (pruned t l). unfold book_of. cbn.
  unfold book_prune, retain, retire_device_except, retire_where. intros [_ (e & -> & He)%list_elem_of_fmap]%list_elem_of_filter.
  exists e. split; [done|]. destruct (has_device c e && _) eqn:Hb; [|by left]. right. split; [done|].
  apply andb_true_iff in Hb as [Hb _]. by apply bool_decide_eq_true_1 in Hb.
Qed.

(** ** A message that no state reads *)

(** The states held with [c] after a failed read: the current one, and the
    previous ones in their order, all of them or, after pruning, those that are
    within their age at a reading of the clock, up to the cap; each of them
    unread. *)
Record states_unread (c : string) (lm lm' : SessionLifecycleManager) : Prop := {
  su_current : match current_session lm c with
               | Some s => ∃ dr, current_session lm' c = Some (with_ratchet s dr) ∧ unread (se_messaging s) dr
               | None => current_session lm' c = None
               end;
  su_previous : ∃ l, (l = previous_states lm c ∨ ∃ w, l = pruned (clock w).2 (previous_states lm c)) ∧
    Forall2 left_unread l (previous_states lm' c);
}.

(** The book after a failed read: the pairs of other devices and of the
    sessions held are as they were, unless they were retired before. *)
Definition pairs_kept (c : string) (lm lm' : SessionLifecycleManager) : Prop := ∀ e,
  e ∈ book_of lm → be_retired_at e = None →
  (be_device e = c → be_session_id e ∈ held_ids lm' c (previous_states lm' c)) → e ∈ book_of lm'.

Lemma current_failed_unread c lm lm' : current_failed c lm lm' →
  match current_session lm c with
  | Some s => ∃ dr, current_session lm' c = Some (with_ratchet s dr) ∧ unread (se_messaging s) dr
  | None => current_session lm' c = None
  end ∧ lm_previous lm' = lm_previous lm ∧ book_of lm' = book_of lm.
Proof.
  intros [Hn|s dr Hs Hu]; [by rewrite Hn|]. rewrite Hs. split_and!; [|done|done]. exists dr. by rewrite current_set.
Qed.

Lemma ids_touched l l' : Forall2 touched l l' → state_id <$> l' = state_id <$> l.
Proof. induction 1 as [|st st' l l' Hst _ IH]; [done|]. cbn. by rewrite (touched_id _ _ Hst), IH. Qed.
Lemma held_touched lm c l l' : Forall2 touched l l' → held_ids lm c l' = held_ids lm c l.
Proof. intros Hl. unfold held_ids. by rewrite (ids_touched _ _ Hl). Qed.
Lemma held_current lm lm' c l : current_session lm' c = current_session lm c → held_ids lm' c l = held_ids lm c l.
Proof. intros Hs. unfold held_ids. by rewrite Hs. Qed.

(** Pruning, then the loop. *)
Lemma pruned_pairs c t lm lm' l' :
  Forall2 touched (previous_states (prune_previous_at c t lm) c) l' →
  current_session lm' c = current_session lm c → previous_states lm' c = l' →
  book_of lm' = book_of (prune_previous_at c t lm) → pairs_kept c lm lm'.
Proof.
  intros Hl Hc Hp Hb e He Hr Hd. rewrite Hb. apply prune_keeps_pair; [done..|]. intros Hde. specialize (Hd Hde).
  rewrite Hp, (held_touched _ _ _ _ Hl), (held_current lm) in Hd by done. by rewrite previous_prune in Hd.
Qed.

Lemma failed_outcome c m sec lm lm' e : read_outcome c m sec lm lm' (Err e) → states_unread c lm lm' ∧ pairs_kept c lm lm'.
Proof.
  remember (Err e) as r eqn:Hr. intros Ho. revert Hr.
  destruct Ho as [|lm1 e1 Hc|lm1 w e1 l l' f Hc lm2 Hl Hf|lm1 w e1 f Hc lm2 Hn|]; [done|intros _..|done];
    apply current_failed_unread in Hc as (Hcur & Hprev & Hbook).
  - split.
    + split; [done|]. exists (previous_states lm c). split; [by left|]. unfold previous_states. rewrite Hprev. apply Forall2_unread_refl.
    + intros b Hb _ _. by rewrite Hbook.
  - assert (pruned (clock w).2 (previous_states lm c) = l) as Hpl.
    { rewrite <- (lookup_states _ _ _ Hl). unfold lm2. rewrite previous_prune. unfold previous_states. by rewrite Hprev. }
    split.
    + split; [unfold lm2; by rewrite current_stats, current_states, current_prune|].
      exists l. split; [right; by exists w|]. by rewrite previous_stats, previous_set.
    + intros b Hb Hr' Hd. rewrite <- Hbook in Hb. revert b Hb Hr' Hd. apply (pruned_pairs c (clock w).2 lm1 _ l').
      * fold lm2. rewrite (lookup_states _ _ _ Hl). by apply Forall2_touched.
      * unfold lm2. by rewrite current_stats, current_states, current_prune.
      * by rewrite previous_stats, previous_set.
      * done.
  - split.
    + split; [by unfold lm2; rewrite current_stats, current_prune|]. exists []. split.
      * right. exists w. pose proof (previous_prune c (clock w).2 lm1) as Hp. fold lm2 in Hp. unfold previous_states in Hp |- *.
        rewrite Hn, Hprev in Hp. exact Hp.
      * unfold previous_states. cbn. unfold lm2 in *. by rewrite Hn.
    + intros b Hb Hr' Hd. rewrite <- Hbook in Hb. revert b Hb Hr' Hd. apply (pruned_pairs c (clock w).2 lm1 _ []).
      * unfold previous_states. unfold lm2 in Hn. by rewrite Hn.
      * unfold lm2. by rewrite current_stats, current_prune.
      * unfold previous_states. cbn. unfold lm2 in *. by rewrite Hn.
      * done.
Qed.

(** C23: A message that no state reads costs nothing. Whatever it is and whatever
    the error, the manager's keys, pins, epochs and acknowledgements, its sessions
    with other contacts and their previous states are as they were; with this
    contact, the current state stays current, and the previous states stay, in
    their order and each unread, except that a prune may have run on the way:
    then exactly those whose week is over at its reading of the clock are gone, and those
    beyond the cap of three; and no envelope pair of a session still held is
    retired. *)
Theorem failed_decrypt_keeps_states c m lm w lm' w' e :
  decrypt_ratchet_message c m (lm, w) = ((lm', w'), Err e) →
  only c lm lm' ∧ states_unread c lm lm' ∧ pairs_kept c lm lm'.
Proof.
  intros Hd. pose proof (wp_decrypt c m lm w) as Hw. unfold wp in Hw. rewrite Hd in Hw. cbn [fst] in Hw.
  destruct Hw as [->|(sec & Ho)]; [|split; [by eapply read_only|by eapply failed_outcome]].
  split; [done|]. split; [|by intros b Hb]. split.
  - destruct (current_session lm c) as [s|] eqn:Hs; [|done]. exists (se_messaging s). split; [by destruct s|by left].
  - exists (previous_states lm c). split; [by left|apply Forall2_unread_refl].
Qed.

(** ** Where the states come from *)

(** The states with [c] in [lm'] are states of [lm], or new ones whose ids
    satisfy [N]; the current one was current or a previous one that was not held
    back, and a state held back still is. *)
Record descends (N : string → Prop) (c : string) (lm lm' : SessionLifecycleManager) : Prop := {
  ds_current : ∀ sid, active_session_id lm' c = Some sid → active_session_id lm c = Some sid ∨ N sid ∨
    ∃ st, st ∈ previous_states lm c ∧ state_id st = sid ∧ ps_held_back st = false;
  ds_previous : ∀ st', st' ∈ previous_states lm' c → active_session_id lm c = Some (state_id st') ∨ N (state_id st') ∨
    ∃ st, st ∈ previous_states lm c ∧ state_id st = state_id st' ∧ (ps_held_back st = true → ps_held_back st' = true);
}.

Section descends.
Variable N : string → Prop.

Lemma descends_refl c lm : descends N c lm lm.
Proof. split; [by left|]. intros st Hst. right. right. by exists st. Qed.
Lemma descends_trans c lm1 lm2 lm3 : descends N c lm1 lm2 → descends N c lm2 lm3 → descends N c lm1 lm3.
Proof.
  intros [Hc Hp] [Hc' Hp']. split.
  - intros sid [Hs|[Hs|(st & Hst & Hid & Hh)]]%Hc'; [by apply Hc|by auto|].
    destruct (Hp st Hst) as [Ha|[Ha|(st0 & Hst0 & Hid0 & Hh0)]]; [left; congruence|right; left; congruence|].
    right. right. exists st0. split_and!; [done|congruence|]. destruct (ps_held_back st0); [|done]. by rewrite Hh0 in Hh.
  - intros st' [Hs|[Hs|(st & Hst & Hid & Hh)]]%Hp'; [|by auto|].
    + apply Hc in Hs as [Ha|[Ha|(st0 & Hst0 & Hid0 & Hh0)]]; [by auto..|]. right. right. exists st0. split_and!; [done..|].
      by rewrite Hh0.
    + destruct (Hp st Hst) as [Ha|[Ha|(st0 & Hst0 & Hid0 & Hh0)]]; [left; congruence|right; left; congruence|].
      right. right. exists st0. split_and!; [done|congruence|auto].
Qed.

Lemma active_current lm c : active_session_id lm c = se_session_id <$> current_session lm c.
Proof. done. Qed.

(** The same states, in other places of the manager. *)
Lemma descends_same c lm lm' : current_session lm' c = current_session lm c → previous_states lm' c = previous_states lm c →
  descends N c lm lm'.
Proof.
  intros Hc Hp. split; [rewrite !active_current, Hc; by left|]. rewrite Hp. intros st Hst. right. right. by exists st.
Qed.
Lemma descends_only c c' lm lm' : only c lm lm' → c' ≠ c → descends N c' lm lm'.
Proof.
  intros [_ Hs Hp] Hne. apply descends_same; [by apply Hs|]. unfold previous_states. by rewrite Hp.
Qed.
Lemma touched_from l l' st' : Forall2 touched l l' → st' ∈ l' →
  ∃ st, st ∈ l ∧ state_id st = state_id st' ∧ (ps_held_back st = true → ps_held_back st' = true).
Proof.
  intros Hl Hst'. apply list_elem_of_lookup in Hst' as [i Hi]. destruct (Forall2_lookup_r _ _ _ _ _ Hl Hi) as (st & Hst & Ht).
  exists st. split_and!; [by eapply list_elem_of_lookup_2|by rewrite (touched_id _ _ Ht)|].
  by destruct (touched_marks _ _ Ht) as [_ ->].
Qed.
Lemma descends_touched c lm lm' l' : current_session lm' c = current_session lm c → Forall2 touched (previous_states lm c) l' →
  previous_states lm' c = l' → descends N c lm lm'.
Proof.
  intros Hc Hl Hp. split; [rewrite !active_current, Hc; by left|]. rewrite Hp. intros st' Hst'. right. right.
  by apply (touched_from _ l').
Qed.
Lemma descends_sublist c lm lm' : current_session lm' c = current_session lm c →
  previous_states lm' c `sublist_of` previous_states lm c → descends N c lm lm'.
Proof.
  intros Hc Hp. split; [rewrite !active_current, Hc; by left|]. intros st Hst. right. right. exists st.
  split; [by eapply elem_of_sublist|done].
Qed.
Lemma descends_prune c t lm : descends N c lm (prune_previous_at c t lm).
Proof. apply descends_sublist; [apply current_prune|]. rewrite previous_prune. apply pruned_sublist. Qed.

Lemma names_id s dr : names dr = names (se_messaging s) → se_session_id (with_ratchet s dr) = se_session_id s.
Proof. unfold names, se_session_id. cbn. congruence. Qed.

Lemma descends_set_current c s dr lm : current_session lm c = Some s → names dr = names (se_messaging s) →
  descends N c lm (set_current c (with_ratchet s dr) lm).
Proof.
  intros Hs Hn. split.
  - rewrite !active_current, current_set, Hs. cbn. rewrite names_id by done. by left.
  - intros st Hst. right. right. by exists st.
Qed.
Lemma descends_failed c lm lm' : current_failed c lm lm' → descends N c lm lm'.
Proof. intros [|s dr Hs Hu]; [apply descends_refl|]. apply descends_set_current; [done|by apply unread_names]. Qed.

(** The states after an installation. *)
Lemma installed_states c s lm lm' : installed c s lm lm' →
  current_session lm' c = Some s ∧
  match current_session lm c with
  | Some old => ∃ t1 t2, previous_states lm' c = pruned t2 (mkPreviousState old t1 false :: previous_states lm c)
  | None => previous_states lm' c = previous_states lm c
  end.
Proof.
  intros [old w1 w2 Ho|Hn]; (split; [apply current_set|]); [rewrite Ho|by rewrite Hn]. exists (clock w1).2, (clock w2).2.
  change (previous_states (set_current ?c ?s ?l) ?d) with (previous_states l d). unfold retired_at.
  by rewrite previous_prune, previous_set.
Qed.

Lemma descends_promoted c lm l l' i st dr f lm3 :
  previous_states lm c = l → Forall2 touched l l' → l !! i = Some st → l' !! i = Some (with_state st dr) → ps_held_back st = false →
  installed c (with_ratchet (ps_session st) dr) (set_states c (delete i l') (on_stats f (set_states c l' lm))) lm3 →
  descends N c lm (close_first_flights c lm3).
Proof.
  intros Hp Ht Hi Hi' Hh (Hc & Hprev)%installed_states.
  pose proof (touched_id _ _ (Forall2_lookup_lr _ _ _ _ _ _ Ht Hi Hi')) as Hid.
  assert (st ∈ previous_states lm c) as Hst by (rewrite Hp; by eapply list_elem_of_lookup_2).
  split; rewrite active_current.
  - rewrite active_current, current_close, Hc. intros sid [= <-]. right. right. exists st. split_and!; [done| |done]. by rewrite <- Hid.
  - rewrite previous_close. rewrite current_states, current_stats, current_states in Hprev.
    rewrite previous_set in Hprev. destruct (current_session lm c) as [old|].
    + destruct Hprev as (t1 & t2 & ->). intros st' Hst'.
      pose proof (elem_of_sublist _ _ _ Hst' (pruned_sublist _ _)) as [->|Hin]%elem_of_cons; [by left|].
      right. right. rewrite Hp. apply (touched_from l l'); [done|]. by eapply elem_of_sublist, sublist_delete.
    + rewrite Hprev. intros st' Hst'. right. right. rewrite Hp. apply (touched_from l l'); [done|].
      by eapply elem_of_sublist, sublist_delete.
Qed.

Lemma read_descends c m sec lm lm' r : read_outcome c m sec lm lm' r → descends N c lm lm'.
Proof.
  assert (∀ lm1 t, current_failed c lm lm1 → descends N c lm (prune_previous_at c t lm1)) as Hp.
  { intros. eapply descends_trans; [by apply descends_failed|apply descends_prune]. }
  intros [s dr w w' p f Hs Hd|lm1 e Hc|lm1 w e l l' f Hc lm2 Hl Hf|lm1 w e f Hc lm2 _|lm1 w w1 w2 l l' i st dr p f lm3 Hc lm2 Hl Ht Hi Hi' Hd Hlm].
  - eapply descends_trans; [apply (descends_set_current c s dr); [done|by eapply decrypt_names]|].
    apply descends_same; [by rewrite current_close|by rewrite previous_close].
  - by apply descends_failed.
  - eapply descends_trans; [by apply Hp|]. apply (descends_touched c lm2 _ l'); [done| |by rewrite previous_stats, previous_set].
    rewrite (lookup_states _ _ _ Hl). by apply Forall2_touched.
  - eapply descends_trans; [by apply Hp|by apply descends_same].
  - eapply descends_trans; [by apply Hp|]. destruct (ps_held_back st) eqn:Hh.
    + subst. apply (descends_touched c lm2 _ l'); [done| |by rewrite previous_stats, previous_set]. by rewrite (lookup_states _ _ _ Hl).
    + destruct Hlm as (lm4 & Hin & ->). eapply (descends_promoted c lm2 l l' i st dr f lm4); try done. by apply lookup_states.
Qed.

(** The old current state is retired; the new one, if any, satisfies [N]. *)
Lemma descends_retired c lm lm1 old t1 t2 :
  current_session lm c = Some old → previous_states lm1 c = previous_states lm c →
  (∀ s, current_session lm1 c = Some s → N (se_session_id s)) → descends N c lm (retired_at c old t1 t2 lm1).
Proof.
  intros Ho Hp Hn. unfold retired_at. split; rewrite !active_current.
  - rewrite current_prune, current_states. destruct (current_session lm1 c) as [s|] eqn:Hs; [|done]. intros sid [= <-]. right. left. by apply Hn.
  - rewrite previous_prune, previous_set, Hp, Ho. intros st' Hst'.
    pose proof (elem_of_sublist _ _ _ Hst' (pruned_sublist _ _)) as [->|Hin]%elem_of_cons; [by left|]. right. right. by exists st'.
Qed.
Lemma descends_hold c lm : descends N c lm (hold_back_newest c lm).
Proof.
  unfold hold_back_newest. destruct (lm_previous lm !! c) as [[|newest l]|] eqn:Hl; try apply descends_refl. split; [by left|].
  unfold previous_states. cbn. rewrite lookup_insert_eq, Hl. cbn. intros st' [->|Hin]%elem_of_cons; right; right.
  - exists newest. split_and!; [apply elem_of_cons; by left|done|done].
  - exists st'. split_and!; [apply elem_of_cons; by right|done|done].
Qed.
End descends.

(** ** The other operations *)

Lemma only_hold c lm : only c lm (hold_back_newest c lm).
Proof. unfold hold_back_newest. case_match; [|done]. case_match; [done|]. apply only_set_states. Qed.
Lemma only_retired c old t1 t2 lm : only c lm (retired_at c old t1 t2 lm).
Proof. eapply only_trans; [apply only_set_states|apply only_prune]. Qed.

Lemma wp_retire_current c lm w :
  wp True (retire_current c) (lm, w)
    (λ b sw, match current_session lm c with
             | None => b = false ∧ sw.1 = drop_current c lm
             | Some old => b = true ∧ ∃ t1 t2, sw.1 = hold_back_newest c (retired_at c old t1 t2 (drop_current c lm))
             end) (λ _ _, False).
Proof.
  unfold retire_current, take_current, take_session, retire, prune_previous. do 5 wp_step. unfold current_session.
  destruct (cl_sessions (lm_client lm) !! c) as [old|]; wp_steps; [|done]. split; [done|]. by eexists _, _.
Qed.

Definition filed (c : string) (s : Session) (lm : SessionLifecycleManager) : SessionLifecycleManager :=
  lm <| lm_client := file_session c s (lm_client lm) |>.

Lemma wp_replace_session c s lm w :
  wp True (replace_session c s) (lm, w)
    (λ _ sw, match current_session lm c with
             | None => sw.1 = filed c s (drop_current c lm)
             | Some old => ∃ t1 t2, sw.1 = retired_at c old t1 t2 (filed c s (drop_current c lm))
             end) (λ _ _, False).
Proof.
  unfold replace_session, take_current, take_session, retire, prune_previous. do 5 wp_step. unfold current_session.
  destruct (cl_sessions (lm_client lm) !! c) as [old|]; wp_steps; [|done]. by eexists _, _.
Qed.
Lemma current_filed c s lm : current_session (filed c s lm) c = Some (s <| se_envelope_keys := None |>).
Proof. unfold current_session, filed, file_session. destruct (se_envelope_keys s); cbn; by rewrite lookup_insert_eq. Qed.
Lemma filed_other c s lm c' : c' ≠ c → current_session (filed c s lm) c' = current_session lm c'.
Proof. intros Hc. unfold current_session, filed, file_session. destruct (se_envelope_keys s); cbn; by rewrite lookup_insert_ne. Qed.

(** ** The manager in use *)

(** What the manager is asked to do. The ids of new sessions satisfy [N], and
    only the contacts of [F] are forgotten. *)
Inductive lc_step (N F : string → Prop) : SessionLifecycleManager → SessionLifecycleManager → Prop :=
  | step_decrypt c m lm w lm' w' r :
      decrypt_ratchet_message c m (lm, w) = ((lm', w'), r) → r ≠ Panic → lc_step N F lm lm'
  | step_retire c lm w lm' w' b : retire_current c (lm, w) = ((lm', w'), Ok b) → lc_step N F lm lm'
  | step_replace c s lm w lm' w' :
      replace_session c s (lm, w) = ((lm', w'), Ok tt) → N (se_session_id s) → lc_step N F lm lm'
  | step_forget c lm w lm' w' : forget_contact_state c (lm, w) = ((lm', w'), Ok tt) → F c → lc_step N F lm lm'
  | step_note d e lm : lc_step N F lm (note_spk_epoch d e lm)
  | step_pin_hybrid d k lm : lc_step N F lm (pin_hybrid_identity d k lm)
  | step_pin_kem d k lm : lc_step N F lm (pin_kem_identity d k lm).

Lemma wp_remove c lm w :
  wp True (on_client (remove_session c)) (lm, w) (λ _ sw, ∃ b, sw.1 = on_book b (drop_current c lm)) (λ _ _, False).
Proof.
  unfold wp, on_client, remove_session, mbind, stm_bind, self. cbn [fst snd].
  destruct (cl_sessions (lm_client lm) !! c) as [s|] eqn:Hs; cbn.
  - unfold now. cbn [fst snd]. destruct (clock w) as [w1 t]. cbn. by eexists.
  - exists id. unfold on_book, drop_current, take_session. destruct lm as [[]]. cbn in *. by rewrite delete_id.
Qed.

Lemma wp_forget c lm w :
  wp True (forget_contact_state c) (lm, w)
    (λ _ sw, ∃ b, sw.1 = on_book b (drop_current c lm)
      <| lm_previous := delete c (lm_previous lm) |>
      <| lm_hybrid_identity_pins := delete c (lm_hybrid_identity_pins lm) |>
      <| lm_kem_identity_pins := delete c (lm_kem_identity_pins lm) |> <| lm_spk_epochs := delete c (lm_spk_epochs lm) |>) (λ _ _, False).
Proof.
  unfold forget_contact_state. wp_step. eapply wp_mono; [apply wp_remove| |done]. intros x [lm1 w1] [b E]. cbn [fst] in E. subst lm1.
  wp_steps. eexists (λ bk, book_prune _ (retire_device c _ (b bk))). done.
Qed.

Lemma descends_forget N c lm lm' :
  current_session lm' c = None → previous_states lm' c = [] → descends N c lm lm'.
Proof. intros Hc Hp. split; rewrite ?active_current, ?Hc, ?Hp; [done|]. by intros st ?%elem_of_nil. Qed.

Lemma decrypt_descends N c c' m lm w lm' w' r :
  decrypt_ratchet_message c' m (lm, w) = ((lm', w'), r) → r ≠ Panic → descends N c lm lm'.
Proof.
  intros Hd Hr. enough (lm' = lm ∨ ∃ sec r', read_outcome c' m sec lm lm' r') as [->|(sec & r' & Ho)]; [apply descends_refl| |].
  - destruct (decide (c = c')) as [->|Hne]; [by eapply read_descends|]. eapply descends_only; [by eapply read_only|done].
  - pose proof (wp_decrypt c' m lm w) as Hw. unfold wp in Hw. rewrite Hd in Hw. cbn [fst] in Hw. destruct r; naive_solver.
Qed.

Lemma retire_descends N c c' lm w lm' w' b : retire_current c' (lm, w) = ((lm', w'), Ok b) → descends N c lm lm'.
Proof.
  intros Hd. pose proof (wp_retire_current c' lm w) as Hw. unfold wp in Hw. rewrite Hd in Hw. cbn [fst] in Hw.
  destruct (current_session lm c') as [old|] eqn:Ho.
  - destruct Hw as (_ & t1 & t2 & ->). destruct (decide (c = c')) as [->|Hne].
    + eapply descends_trans; [|apply descends_hold]. apply (descends_retired N c' lm); [done|done|]. by rewrite current_drop.
    + eapply descends_only; [|done]. eapply only_trans; [apply only_drop_current|]. eapply only_trans; [apply only_retired|apply only_hold].
  - destruct Hw as [_ ->]. destruct (decide (c = c')) as [->|Hne]; [|eapply descends_only; [apply only_drop_current|done]].
    apply descends_same; [|done]. by rewrite current_drop.
Qed.

Lemma replace_descends N c c' s lm w lm' w' :
  replace_session c' s (lm, w) = ((lm', w'), Ok tt) → N (se_session_id s) → descends N c lm lm'.
Proof.
  intros Hd Hn. pose proof (wp_replace_session c' s lm w) as Hw. unfold wp in Hw. rewrite Hd in Hw. cbn [fst] in Hw.
  destruct (decide (c = c')) as [->|Hne].
  - assert (∀ s', current_session (filed c' s (drop_current c' lm)) c' = Some s' → N (se_session_id s')) as Hs'.
    { rewrite current_filed. intros s' Hs'. injection Hs' as <-. exact Hn. }
    destruct (current_session lm c') as [old|] eqn:Ho.
    + destruct Hw as (t1 & t2 & ->). by apply (descends_retired N c' lm).
    + subst. split; [|intros st Hst; right; right; by exists st]. intros sid. rewrite active_current.
      destruct (current_session (filed c' s _) c') as [s'|]; [|done]. intros [= <-]. right. left. by apply Hs'.
  - assert (current_session (filed c' s (drop_current c' lm)) c = current_session lm c) as Hf.
    { rewrite filed_other by done. by apply (on_session_of _ _ _ (only_drop_current c' lm)). }
    destruct (current_session lm c') as [old|].
    + destruct Hw as (t1 & t2 & ->). eapply descends_trans; [|eapply descends_only; [apply only_retired|done]]. by apply descends_same.
    + subst. by apply descends_same.
Qed.

Lemma forget_descends N c c' lm w lm' w' : forget_contact_state c' (lm, w) = ((lm', w'), Ok tt) → descends N c lm lm'.
Proof.
  intros Hd. pose proof (wp_forget c' lm w) as Hw. unfold wp in Hw. rewrite Hd in Hw. cbn [fst] in Hw. destruct Hw as [b ->].
  destruct (decide (c = c')) as [->|Hne].
  - apply descends_forget; [apply current_drop|]. unfold previous_states. cbn. by rewrite lookup_delete_eq.
  - apply descends_same; [by apply (on_session_of _ _ _ (only_drop_current c' lm))|]. unfold previous_states. cbn. by rewrite lookup_delete_ne.
Qed.

(** Whatever the step, the states come from states. *)
Lemma step_descends N F c lm lm' : lc_step N F lm lm' → descends N c lm lm'.
Proof.
  intros [c' m lm1 w lm2 w' r Hd Hr|c' lm1 w lm2 w' b Hd|c' s lm1 w lm2 w' Hd Hn|c' lm1 w lm2 w' Hd _|d e lm1|d k lm1|d k lm1].
  - by eapply decrypt_descends.
  - by eapply retire_descends.
  - by eapply replace_descends.
  - by eapply forget_descends.
  - apply descends_same; unfold note_spk_epoch; by case_match.
  - by apply descends_same.
  - by apply descends_same.
Qed.

Lemma steps_descend N F c lm lm' : rtc (lc_step N F) lm lm' → descends N c lm lm'.
Proof.
  induction 1 as [|lm1 lm2 lm3 Hs _ IH]; [apply descends_refl|]. eapply descends_trans; [by eapply step_descends|done].
Qed.

Lemma current_hold c lm c' : current_session (hold_back_newest c lm) c' = current_session lm c'.
Proof. unfold hold_back_newest. by repeat case_match. Qed.
Lemma previous_hold c lm : previous_states (hold_back_newest c lm) c =
  match previous_states lm c with [] => [] | n :: l => n <| ps_held_back := true |> :: l end.
Proof.
  unfold hold_back_newest, previous_states. destruct (lm_previous lm !! c) as [[|n l]|] eqn:Hl; cbn; [by rewrite Hl| |by rewrite Hl].
  by rewrite lookup_insert_eq.
Qed.

(** C24: A state that the peer could not read never sends again. Once
    [retire_current] set the current session aside, it is not the current one at
    any later time, whatever is read, replaced, retired or forgotten: late
    messages on it are still read, and do not bring it back. *)
Theorem held_back_never_current c sid F lm w lm1 w1 b lm2 :
  active_session_id lm c = Some sid → Forall (λ st, state_id st ≠ sid) (previous_states lm c) →
  retire_current c (lm, w) = ((lm1, w1), Ok b) →
  rtc (lc_step (λ sid', sid' ≠ sid) F) lm1 lm2 → active_session_id lm2 c ≠ Some sid.
Proof.
  intros Ha Hp Hr Hs Ha2. pose proof (wp_retire_current c lm w) as Hw. unfold wp in Hw. rewrite Hr in Hw. cbn [fst] in Hw.
  rewrite active_current in Ha. destruct (current_session lm c) as [old|] eqn:Ho; [|done]. destruct Hw as (-> & t1 & t2 & ->).
  destruct (ds_current _ _ _ _ (steps_descend _ _ c _ _ Hs) sid Ha2) as [Hc|[Hc|(st & Hst & Hid & Hh)]]; [|done|].
  - rewrite active_current, current_hold in Hc. unfold retired_at in Hc. rewrite current_prune, current_states, current_drop in Hc. done.
  - rewrite previous_hold in Hst. unfold retired_at in Hst. rewrite previous_prune, previous_set in Hst.
    pose proof (pruned_sublist t2 (mkPreviousState old t1 false :: previous_states lm c)) as Hsub.
    change (previous_states (drop_current c lm) c) with (previous_states lm c) in Hst.
    destruct (pruned t2 _) as [|n l]; [by apply elem_of_nil in Hst|]. apply elem_of_cons in Hst as [->|Hst]; [done|].
    assert (l `sublist_of` previous_states lm c) as Hl.
    { inversion Hsub as [|? ? ? Hl|? ? ? Hl]; subst; [done|]. etrans; [|exact Hl]. by apply sublist_cons. }
    rewrite Forall_forall in Hp. by apply (Hp st (elem_of_sublist _ _ _ Hst Hl)).
Qed.

(** ** How many states, and for how long *)

#[local] Abbreviation few l := (length l ≤ MAX_PREVIOUS_STATES)%nat.

Lemma few_pruned t l : few (pruned t l).
Proof. apply pruned_length. Qed.
Lemma few_touched l l' : Forall2 touched l l' → few l → few l'.
Proof. by intros ->%Forall2_length. Qed.
Lemma few_delete (l : list PreviousState) i : few l → few (delete i l).
Proof. intros Hl. pose proof (sublist_length _ _ (sublist_delete l i)). lia. Qed.

Lemma read_few c m sec lm lm' r : read_outcome c m sec lm lm' r → few (previous_states lm c) → few (previous_states lm' c).
Proof.
  assert (∀ t lm1 l, lm_previous (prune_previous_at c t lm1) !! c = Some l → few l) as Hl.
  { intros t lm1 l Hl%lookup_states. rewrite previous_prune in Hl. subst l. apply few_pruned. }
  intros [s dr w w' p f _ _|lm1 e Hc|lm1 w e l l' f Hc lm2 Hp Hf|lm1 w e f Hc lm2 Hn|lm1 w w1 w2 l l' i st dr p f lm3 Hc lm2 Hp Ht Hi Hi' Hd Hlm] Hfew.
  - by rewrite previous_close.
  - apply current_failed_unread in Hc as (_ & Hp & _). unfold previous_states in *. by rewrite Hp.
  - rewrite previous_stats, previous_set. eapply few_touched; [by apply Forall2_touched|by eapply Hl].
  - unfold previous_states, lm2. cbn. fold lm2. rewrite Hn. apply Nat.le_0_l.
  - assert (few l') as Hl' by (eapply few_touched; [done|by eapply Hl]). destruct (ps_held_back st).
    + subst. by rewrite previous_stats, previous_set.
    + destruct Hlm as (lm4 & [_ Hin]%installed_states & ->). rewrite previous_close.
      rewrite previous_set in Hin. destruct (current_session _ c) as [old|].
      * destruct Hin as (t1 & t2 & ->). apply few_pruned.
      * rewrite Hin. by apply few_delete.
Qed.

Lemma step_few N F c lm lm' : lc_step N F lm lm' → few (previous_states lm c) → few (previous_states lm' c).
Proof.
  assert (∀ c' lm1 lm2, only c' lm1 lm2 → c ≠ c' → previous_states lm2 c = previous_states lm1 c) as Honly.
  { intros c' lm1 lm2 [_ _ Hp] Hne. unfold previous_states. by rewrite Hp. }
  intros [c' m lm1 w lm2 w' r Hd Hr|c' lm1 w lm2 w' b Hd|c' s lm1 w lm2 w' Hd Hn|c' lm1 w lm2 w' Hd _|d e lm1|d k lm1|d k lm1] Hfew; [..|done|done].
  - enough (lm2 = lm1 ∨ ∃ sec r', read_outcome c' m sec lm1 lm2 r') as [->|(sec & r' & Ho)]; [done| |].
    + destruct (decide (c = c')) as [->|Hne]; [by eapply read_few|]. rewrite (Honly c' lm1 lm2); [done|by eapply read_only|done].
    + pose proof (wp_decrypt c' m lm1 w) as Hw. unfold wp in Hw. rewrite Hd in Hw. cbn [fst] in Hw. destruct r; naive_solver.
  - pose proof (wp_retire_current c' lm1 w) as Hw. unfold wp in Hw. rewrite Hd in Hw. cbn [fst] in Hw.
    destruct (current_session lm1 c') as [old|]; [|by destruct Hw as [_ ->]]. destruct Hw as (_ & t1 & t2 & ->).
    destruct (decide (c = c')) as [->|Hne].
    + rewrite previous_hold. unfold retired_at. rewrite previous_prune. pose proof (few_pruned t2) as Hpr.
      match goal with |- context [pruned t2 ?l] => specialize (Hpr l); by destruct (pruned t2 l) end.
    + rewrite (Honly c' _ _ (only_hold _ _)), (Honly c' _ _ (only_retired _ _ _ _ _)) by done. done.
  - pose proof (wp_replace_session c' s lm1 w) as Hw. unfold wp in Hw. rewrite Hd in Hw. cbn [fst] in Hw.
    destruct (current_session lm1 c') as [old|]; [|by subst]. destruct Hw as (t1 & t2 & ->).
    destruct (decide (c = c')) as [->|Hne]; [unfold retired_at; rewrite previous_prune; apply few_pruned|].
    by rewrite (Honly c' _ _ (only_retired _ _ _ _ _)).
  - pose proof (wp_forget c' lm1 w) as Hw. unfold wp in Hw. rewrite Hd in Hw. cbn [fst] in Hw. destruct Hw as [b ->].
    unfold previous_states in *. cbn. destruct (decide (c = c')) as [->|Hne]; [rewrite lookup_delete_eq; apply Nat.le_0_l|by rewrite lookup_delete_ne].
  - unfold note_spk_epoch. by case_match.
Qed.

(** A device's record is bounded in number and in time. However the manager
    has been used, at most three states are held with a contact besides the
    current one; and what a message decrypts to is what the current state reads,
    or a previous one that was replaced less than seven days before. *)
Theorem previous_states_bounded client user N F lm :
  rtc (lc_step N F) (lifecycle_new client user) lm →
  (∀ c, previous_state_count lm c ≤ 3) ∧
  ∀ c m w lm' w' p, decrypt_ratchet_message c m (lm, w) = ((lm', w'), Ok p) →
    ∃ sec dr w1 w2, (∃ s, current_session lm c = Some s ∧ decrypt_with_identity_secret m sec (se_messaging s, w1) = ((dr, w2), Ok p)) ∨
      ∃ st w0, st ∈ previous_states lm c ∧ sat_sub (clock w0).2 (ps_retired_at st) < 7 * 24 * 60 * 60 ∧
        decrypt_with_identity_secret m sec (ratchet_of st, w1) = ((dr, w2), Ok p).
Proof.
  intros Hs. split.
  - intros c. enough (few (previous_states lm c)) as Hf by (unfold previous_state_count, len, MAX_PREVIOUS_STATES in *; lia).
    assert (few (previous_states (lifecycle_new client user) c)) as Hn by apply Nat.le_0_l.
    revert Hn. induction Hs as [|lm1 lm2 lm3 Hst _ IH]; [done|]. intros Hn. apply IH. by eapply step_few.
  - intros c m w lm' w' p Hd. pose proof (wp_decrypt c m lm w) as Hw. unfold wp in Hw. rewrite Hd in Hw. cbn [fst] in Hw.
    destruct Hw as (sec & _ & Ho). remember (Ok p) as r eqn:Hr. revert Hr. exists sec.
    destruct Ho as [s dr w1 w2 p' f Hc Hdec| | | |lm1 w0 w1 w2 l l' i st dr p' f lm3 Hc lm2 Hp Ht Hi _ Hdec _]; try done; injection Hr as ->; exists dr, w1, w2.
    + left. by exists s.
    + right. exists st, w0. apply lookup_states in Hp. unfold lm2 in Hp. rewrite previous_prune in Hp.
      assert (previous_states lm1 c = previous_states lm c) as Hpc.
      { apply current_failed_unread in Hc as (_ & Hq & _). unfold previous_states. by rewrite Hq. }
      rewrite Hpc in Hp. assert (st ∈ pruned (clock w0).2 (previous_states lm c)) as Hst by (rewrite Hp; by eapply list_elem_of_lookup_2).
      split_and!; [by eapply elem_of_sublist, pruned_sublist| |done].
      pose proof (pruned_fresh (clock w0).2 (previous_states lm c)) as Hf. rewrite Forall_forall in Hf. by apply Z.ltb_lt, (Hf st).
Qed.

(** ** The envelope pair of a promoted state *)

Lemma ids_prune c t lm : be_session_id <$> book_of (prune_previous_at c t lm) `sublist_of` be_session_id <$> book_of lm.
Proof.
  unfold prune_previous_at. destruct (lm_previous lm !! c) as [l|]; [|done]. cbv zeta. fold (pruned t l). unfold book_of. cbn.
  unfold retire_device_except. rewrite <- (retire_where_ids (λ e, has_device c e && negb (bool_decide (be_session_id e ∈
    held_ids lm c (pruned t l)))) t (cl_envelopes (lm_client lm))). apply fmap_sublist. unfold book_prune, retain. apply sublist_filter.
Qed.
Lemma ids_close c lm : be_session_id <$> book_of (close_first_flights c lm) = be_session_id <$> book_of lm.
Proof. unfold close_first_flights. repeat case_match; try done. unfold book_of. cbn. by apply alter_first_ids. Qed.

(** The pair of a session that is not held is retired, and not dropped at once. *)
Lemma prune_retires_pair c t lm e l :
  lm_previous lm !! c = Some l → e ∈ book_of lm → be_device e = c → be_retired_at e = None →
  be_session_id e ∉ held_ids lm c (pruned t l) → retire_entry t e ∈ book_of (prune_previous_at c t lm).
Proof.
  intros Hl He Hd Hr Hn. unfold prune_previous_at. rewrite Hl. cbv zeta. fold (pruned t l). unfold book_of. cbn.
  apply list_elem_of_filter. split.
  - unfold entry_live, retire_entry. cbn. rewrite Hr. cbn. unfold sat_sub, RETIRED_RETENTION_SECS, QUEUE_TTL_SECS. apply Z.ltb_lt. lia.
  - unfold retire_device_except, retire_where. apply list_elem_of_fmap. exists e. split; [|done].
    unfold has_device. rewrite (bool_decide_eq_true_2 (be_device e = c)) by done. by rewrite bool_decide_eq_false_2.
Qed.
Lemma close_keeps_retired c lm e : e ∈ book_of lm →
  ∃ e', e' ∈ book_of (close_first_flights c lm) ∧ be_session_id e' = be_session_id e ∧ be_retired_at e' = be_retired_at e.
Proof.
  intros He. unfold close_first_flights. repeat case_match; try by exists e. unfold book_of. cbn.
  destruct (elem_of_alter_first (has_id (se_session_id s)) (λ e, e <| be_first_flight := None |>) _ _ He) as [Hin|Hin]; by eexists.
Qed.

(** A retired pair is gone when its retention is over. *)
Lemma retired_pair_expires b e sid t t' :
  NoDup (be_session_id <$> b) → e ∈ b → be_session_id e = sid → be_retired_at e = Some t →
  t + RETIRED_RETENTION_SECS ≤ t' → has_session (book_prune t' b) sid = false.
Proof.
  intros Hnd He Hs Hr Ht. destruct (has_session _ sid) eqn:Hh; [|done]. exfalso. apply existsb_find in Hh as [e' He'].
  apply find_first_elem in He' as [Hin Hid]. apply bool_decide_eq_true_1 in Hid. pose proof Hin as [Hl Hb]%list_elem_of_filter.
  assert (e' = e) as ->.
  { apply list_elem_of_lookup in Hb as [i Hi], He as [j Hj].
    assert (i = j) as ->; [|congruence]. eapply (NoDup_lookup _ _ _ sid Hnd); rewrite list_lookup_fmap; [rewrite Hi|rewrite Hj]; cbn; by f_equal. }
  pose proof (prune_drops t' b e Hin t Hr) as Hd. unfold sat_sub in Hd. lia.
Qed.

Lemma promotion_retires c lm l l' i st dr f lm3 e old :
  Forall2 touched l l' → l !! i = Some st → l' !! i = Some (with_state st dr) → NoDup (state_id <$> l) →
  active_session_id lm c = Some old → old ≠ state_id st →
  installed c (with_ratchet (ps_session st) dr) (set_states c (delete i l') (on_stats f (set_states c l' lm))) lm3 →
  e ∈ book_of lm → be_device e = c → be_session_id e = state_id st → be_retired_at e = None →
  (∃ w, retire_entry (clock w).2 e ∈ book_of lm3) ∧ be_session_id <$> book_of lm3 `sublist_of` be_session_id <$> book_of lm.
Proof.
  intros Ht Hi Hi' Hnd Ha Hne Hin He Hd Hid Hr. set (lm0 := set_states c (delete i l') _) in *.
  assert (current_session lm0 c = current_session lm c) as Hc0 by done. rewrite active_current in Ha.
  destruct Hin as [s w1 w2 Hs|Hn]; [|by rewrite <- Hc0, Hn in Ha]. rewrite <- Hc0, Hs in Ha. injection Ha as Ha.
  unfold retired_at. set (lm2 := set_states c _ (drop_current c lm0)).
  change (book_of (set_current c _ ?x)) with (book_of x). split; [|apply (ids_prune c _ lm2)].
  exists w2. apply (prune_retires_pair c _ lm2 e (mkPreviousState s (clock w1).2 false :: delete i l')); try done.
  - unfold lm2. cbn. rewrite lookup_insert_eq. do 2 f_equal. change (previous_states (drop_current c lm0) c) with (previous_states lm0 c).
    apply previous_set.
  - rewrite Hid. unfold held_ids. unfold lm2. rewrite current_states, current_drop, app_nil_r.
    intros (st' & Heq & Hst')%list_elem_of_fmap. pose proof (elem_of_sublist _ _ _ Hst' (pruned_sublist _ _)) as [->|Hin]%elem_of_cons; [apply Hne; rewrite Heq; by rewrite <- Ha|].
    apply list_elem_of_lookup in Hin as [j Hj].
    assert (∃ k, k ≠ i ∧ l' !! k = Some st') as (k & Hk & Hlk).
    { destruct (decide (j < i)%nat).
      - exists j. rewrite list_lookup_delete_lt in Hj by done. split; [lia|done].
      - exists (S j). rewrite list_lookup_delete_ge in Hj by lia. split; [lia|done]. }
    destruct (Forall2_lookup_r _ _ _ _ _ Ht Hlk) as (st0 & Hl0 & Ht0). apply Hk.
    eapply (NoDup_lookup _ _ _ (state_id st) Hnd); rewrite list_lookup_fmap; [rewrite Hl0|by rewrite Hi].
    cbn. f_equal. by rewrite Heq, (touched_id _ _ Ht0).
Qed.

Lemma active_failed c lm lm1 : current_failed c lm lm1 → active_session_id lm1 c = active_session_id lm c.
Proof.
  intros [|s dr Hs Hu]; [done|]. rewrite !active_current, current_set, Hs. cbn. by rewrite names_id by (by apply unread_names).
Qed.

(** The book after a read that changed the current session. *)
Lemma promotion_book c m sec lm lm' p old sid e :
  read_outcome c m sec lm lm' (Ok p) →
  active_session_id lm c = Some old → active_session_id lm' c = Some sid → sid ≠ old →
  NoDup (state_id <$> previous_states lm c) → NoDup (be_session_id <$> book_of lm) →
  e ∈ book_of lm → be_device e = c → be_session_id e = sid → be_retired_at e = None →
  ∃ e' w0, e' ∈ book_of lm' ∧ be_session_id e' = sid ∧ be_retired_at e' = Some (clock w0).2 ∧ NoDup (be_session_id <$> book_of lm').
Proof.
  intros Ho Ha Ha' Hne Hnd Hndb He Hdev Hid Hr. remember (Ok p) as r eqn:Er. revert Er Ha'.
  destruct Ho as [s dr w w' p' f Hs Hd| | | |lm1 w0 w1 w2 l l' i st dr p' f lm3 Hc lm2 Hp Ht Hi Hi' Hd Hlm]; try done; intros _ Ha'.
  { rewrite active_current, current_close, current_stats, current_set in Ha'. rewrite active_current, Hs in Ha. injection Ha' as Ha'. injection Ha as Ha.
    rewrite names_id in Ha' by (by eapply decrypt_names). congruence. }
  assert (active_session_id lm2 c = Some old) as Ha2.
  { unfold lm2. rewrite active_current, current_prune, <- active_current. by rewrite (active_failed _ _ _ Hc). }
  destruct (ps_held_back st); [subst lm3; rewrite active_current, current_stats, current_states, <- active_current, Ha2 in Ha'; congruence|].
  destruct Hlm as (lm4 & Hin & ->). pose proof (installed_states _ _ _ _ Hin) as [Hcur _].
  rewrite active_current, current_close, Hcur in Ha'. injection Ha' as Ha'.
  pose proof (touched_id _ _ (Forall2_lookup_lr _ _ _ _ _ _ Ht Hi Hi')) as Hsid. change (state_id (with_state st dr) = state_id st) in Hsid.
  assert (sid = state_id st) as -> by (rewrite <- Hsid; by rewrite <- Ha').
  apply current_failed_unread in Hc as (_ & Hprev & Hbook).
  assert (pruned (clock w0).2 (previous_states lm c) = l) as Hpl.
  { rewrite <- (lookup_states _ _ _ Hp). unfold lm2. rewrite previous_prune. unfold previous_states. by rewrite Hprev. }
  assert (e ∈ book_of lm2) as He2.
  { unfold lm2. apply prune_keeps_pair; [by rewrite Hbook|done|]. intros _. unfold previous_states. rewrite Hprev. fold (previous_states lm c).
    rewrite Hpl, Hid. unfold held_ids. apply elem_of_app. left. apply list_elem_of_fmap_2. by eapply list_elem_of_lookup_2. }
  destruct (promotion_retires c lm2 l l' i st dr f lm4 e old) as [[w3 Hin3] Hsub]; try done.
  { rewrite <- Hpl. eapply sublist_NoDup; [exact Hnd|]. apply fmap_sublist, pruned_sublist. }
  destruct (close_keeps_retired c lm4 _ Hin3) as (e' & He' & Hid' & Hr'). exists e', w3. split_and!; [done|by rewrite Hid'|..].
  - rewrite Hr'. unfold retire_entry. cbn. by rewrite Hr.
  - rewrite ids_close. eapply sublist_NoDup; [|exact Hsub]. eapply sublist_NoDup; [|apply ids_prune]. by rewrite Hbook.
Qed.

(** C25: The state that takes over loses its envelope keys. When a message is read
    by a previous state that becomes current again in place of the current one,
    the envelope pair of the session the two sides are now talking on is marked as
    retired: while [install_current] files the replaced session, the promoted one is
    in neither place that [prune_previous] looks at. Once the seven days of retention
    are over, pruning the book drops it: nothing can be sealed on the current session
    any more, although the session itself works. *)
Theorem promoted_session_loses_envelope c m lm w lm' w' p old sid e :
  decrypt_ratchet_message c m (lm, w) = ((lm', w'), Ok p) →
  active_session_id lm c = Some old → active_session_id lm' c = Some sid → sid ≠ old →
  NoDup (state_id <$> previous_states lm c) → NoDup (be_session_id <$> book_of lm) →
  e ∈ book_of lm → be_device e = c → be_session_id e = sid → be_retired_at e = None →
  ∃ w0 e', e' ∈ book_of lm' ∧ be_session_id e' = sid ∧ be_retired_at e' = Some (clock w0).2 ∧
    ∀ t, (clock w0).2 + 7 * 24 * 3600 ≤ t → has_session (book_prune t (book_of lm')) sid = false ∧
      ∀ kind payload w1, book_seal (book_prune t (book_of lm')) sid kind payload w1
        = (w1, Err (InvalidInputError "no envelope keys for session")).
Proof.
  intros Hd Ha Ha' Hne Hnd Hndb He Hdev Hid Hr.
  pose proof (wp_decrypt c m lm w) as Hw. unfold wp in Hw. rewrite Hd in Hw. cbn [fst] in Hw. destruct Hw as (sec & _ & Ho).
  destruct (promotion_book c m sec lm lm' p old sid e Ho Ha Ha' Hne Hnd Hndb He Hdev Hid Hr) as (e' & w0 & He' & Hid' & Hr' & Hnd').
  exists w0, e'. split_and!; [done..|]. intros t Ht.
  assert (has_session (book_prune t (book_of lm')) sid = false) as Hh by (eapply retired_pair_expires; done).
  split; [done|]. intros kind payload w1. unfold book_seal, mbind, stm_bind, lift.
  destruct (find_first _ _) eqn:Hf; [|done]. exfalso. enough (has_session (book_prune t (book_of lm')) sid = true) by congruence.
  apply existsb_find. by rewrite Hf.
Qed.
End props.

(** ** A reopen that crosses the peer's answer *)

(** Alice opened a session and Bob answered on it; before the answer arrives she
    opens another. *)
Definition demo_bob := init_receiving_session_with_ephemeral "alice" (demo_pair demo_a).2
  (kem_public_key_from_bytes (em_dh_public_key demo_m)) demo_m 1000000 None (demo_b1.1.1, toy_world 200).
Definition demo_reply : EncryptedRatchetMessage := result (encrypt_message "alice" demo_hello demo_bob.1).2.
#[global] Instance session_inhabited : Inhabited Session := populate (from_messaging_session "bob" inhabitant).
Definition demo_reopened : Session :=
  result (init_as_initiator (demo_pair demo_a).1 demo_bundle (demo_pair demo_b0.1.1).2 "bob" "alice" None (toy_world 300)).2.

Definition demo_lm0 : SessionLifecycleManager := lifecycle_new demo_open.1.1 "alice".
#[local] Abbreviation demo_replaced := (replace_session "bob" demo_reopened (demo_lm0, toy_world 400)).
Definition demo_lm1 : SessionLifecycleManager := demo_replaced.1.1.
Definition demo_forged : EncryptedRatchetMessage := demo_reply <| em_ciphertext := [] |>.

Lemma failed_decrypt_keeps_states_witness :
  let x := decrypt_ratchet_message "bob" demo_forged (demo_lm1, toy_world 500) in
  only "bob" demo_lm1 x.1.1 ∧ states_unread "bob" demo_lm1 x.1.1 ∧ pairs_kept "bob" demo_lm1 x.1.1.
Proof.
  intros x. eapply (failed_decrypt_keeps_states "bob" demo_forged demo_lm1 (toy_world 500) x.1.1 x.1.2). apply run_eq.
  vm_compute. reflexivity.
Defined.

#[local] Abbreviation demo_retired := (retire_current "bob" (demo_lm1, toy_world 450)).
#[local] Abbreviation demo_late := (decrypt_ratchet_message "bob" demo_reply (demo_retired.1.1, toy_world 500)).
Lemma held_back_never_current_witness : active_session_id demo_late.1.1 "bob" ≠ Some (se_session_id demo_reopened).
Proof.
  eapply (held_back_never_current "bob" (se_session_id demo_reopened) (λ _, True) demo_lm1 (toy_world 450) demo_retired.1.1
    demo_retired.1.2 true demo_late.1.1).
  - vm_compute. reflexivity.
  - assert (bool_decide (Forall (λ st, state_id st ≠ se_session_id demo_reopened) (previous_states demo_lm1 "bob")) = true) as Hb
      by (vm_compute; reflexivity).
    exact (bool_decide_eq_true_1 _ Hb).
  - apply run_eq. vm_compute. reflexivity.
  - apply rtc_once. eapply (step_decrypt _ _ "bob" demo_reply demo_retired.1.1 (toy_world 500) demo_late.1.1 demo_late.1.2 (Ok demo_hello)); [|done].
    apply run_eq. vm_compute. reflexivity.
Defined.

Lemma previous_states_bounded_witness : previous_state_count demo_lm1 "bob" ≤ 3 ∧ previous_state_count demo_lm1 "bob" = 1.
Proof.
  split; [|vm_compute; reflexivity].
  refine (proj1 (previous_states_bounded demo_open.1.1 "alice" (λ _, True) (λ _, True) demo_lm1 _) "bob"%string).
  apply rtc_once. eapply (step_replace _ _ "bob" demo_reopened demo_lm0 (toy_world 400) demo_lm1 demo_replaced.1.2); [|done].
  unfold demo_lm1. apply run_eq. vm_compute. reflexivity.
Defined.

Lemma toy_clock_small (w : World) : (clock w).2 < 2 ^ 19.
Proof. apply Z.mod_pos_bound. lia. Qed.

#[local] Abbreviation demo_promoted := (decrypt_ratchet_message "bob" demo_reply (demo_lm1, toy_world 500)).
Lemma promoted_session_loses_envelope_witness :
  ∃ sid, active_session_id demo_promoted.1.1 "bob" = Some sid ∧
    has_session (book_prune (2 ^ 21) (book_of demo_promoted.1.1)) sid = false.
Proof.
  exists (default EmptyString (active_session_id demo_promoted.1.1 "bob")). split; [vm_compute; reflexivity|].
  destruct (promoted_session_loses_envelope "bob" demo_reply demo_lm1 (toy_world 500) demo_promoted.1.1 demo_promoted.1.2 demo_hello
    (se_session_id demo_reopened) (default EmptyString (active_session_id demo_promoted.1.1 "bob"))
    (nth 1 (book_of demo_lm1) (mkBookEntry EmptyString EmptyString (mkEnvelopePair (mkDirectionKeys [] []) (mkDirectionKeys [] [])) None None)))
    as (w0 & e' & He' & Hid & Hr & Hexp).
  - apply run_eq. vm_compute. reflexivity.
  - vm_compute. reflexivity.
  - vm_compute. reflexivity.
  - vm_compute. discriminate.
  - apply (bool_decide_eq_true_1 _). vm_compute. reflexivity.
  - apply (bool_decide_eq_true_1 _). vm_compute. reflexivity.
  - apply (list_elem_of_lookup_2 _ 1). vm_compute. reflexivity.
  - vm_compute. reflexivity.
  - vm_compute. reflexivity.
  - vm_compute. reflexivity.
  - apply Hexp. pose proof (toy_clock_small w0). lia.
Defined.
