(* ===== verification/LifecycleStorage.v ===== *)
(** * The session lifecycle across a restart

    The record of a contact's sessions and the coordination state, written by
    [export_session_bytes_for] and [export_orchestrator_state_cfe] of
    [session_lifecycle.rs] and read back by the importing calls. *)

From stdpp Require Import gmap strings sorting.
From S2P Require Import Prelude SuiteId Platform Wp Classic Toy Crates RatchetTypes Ratchet RatchetInv RatchetDemo RatchetRollback RatchetReach RatchetStorage RatchetStorageProps RatchetCfe CfeEnvelope X3dh SealedBox Envelope FirstFlight EnvelopeBook KyberPrekeys KeyManager Client AckStore Lifecycle LifecycleProps.

Section storage.
Context `{MlKemCrate} `{!HexCrate} `{!CryptoProvider} `{!MlKemLaws} `{!HexLaws} `{!ProviderLaws}.
Context `{!MlKem1024Crate} `{!Sha2Crate} `{!ClassicCrates} `{!HmacCrate}.
Context `{!Crc32Crate} `{!Crc32Laws} `{!MessagePack CfeSessionStateV1} `{!MessagePackLaws CfeSessionStateV1} `{!LegacySessionJson}.

(** ** One session *)

(** What a session is when it is loaded at [t]. *)
Definition loaded (t : Z) (s : DoubleRatchetSession) : DoubleRatchetSession :=
  cleanup_at t (max_skipped_message_age_seconds global) (stored s).
Definition loaded_session (c : string) (t : Z) (s : Session) : Session := from_messaging_session c (loaded t (se_messaging s)).
Definition reloaded (c : string) (st st' : PreviousState) : Prop :=
  ∃ t, st' = mkPreviousState (loaded_session c t (ps_session st)) (ps_retired_at st) (ps_held_back st).

Lemma loaded_same t s : session_id (loaded t s) = session_id s ∧ prekey_header (loaded t s) = prekey_header s ∧
  pq_authentication (loaded t s) = pq_authentication s.
Proof. unfold loaded, stored, cleanup_at. by destruct (is_pq_ratchet _). Qed.

(** A session that can be stored with [c] and be found again. *)
Record storable (c local : string) (book : EnvelopeBook) (s : Session) : Prop := {
  st_wf : wf_session (se_messaging s);
  st_contact : contact_id (se_messaging s) = c;
  st_local : local_user_id (se_messaging s) = local;
  st_pair : has_session book (se_session_id s) = true;
}.

Lemma session_to_cfe_ok s : wf_session (se_messaging s) →
  ∃ cf, session_to_cfe s = Ok cf ∧ from_cfe_v1 cf = Ok (to_serializable (se_messaging s)) ∧
    cf_suite_id cf ≠ RETIRED_PQ_RATCHET_V1 ∧ cf_previous cf = [] ∧ cf_retired cf = None.
Proof.
  intros Hw. pose proof Hw as ([Hsu _ _ _ _ _ _ (b & Hid & Hb) _] & _ & _).
  destruct (cfe_roundtrip (to_serializable (se_messaging s)) b) as (cf & Hc & Hd); try done; [by apply supported_u8|].
  exists cf. unfold session_to_cfe. rewrite Hc. split_and!; try done; unfold to_cfe_v1 in Hc; cbn [ss_suite_id ss_session_id to_serializable] in Hc;
    rewrite (proj2 (Z.leb_le _ _)) in Hc by (by apply supported_u8); cbn [mbind res_bind] in Hc; rewrite Hid, hex_decode_encode in Hc;
    cbn [ok_or mbind res_bind] in Hc; destruct (guard_err _ _); try done; injection Hc as <-; try done.
  cbn. intros Hs. rewrite Hs in Hsu. done.
Qed.

Lemma verify_storable c local book s : storable c local book s → verify_identity (to_serializable (se_messaging s)) c local = Ok tt.
Proof.
  intros [_ Hc Hl _]. unfold verify_identity. cbn [ss_contact_id ss_local_user_id to_serializable].
  rewrite (bool_decide_eq_true_2 _ Hc). cbn. destruct (_ || _); [done|]. by rewrite (bool_decide_eq_true_2 _ Hl).
Qed.

Lemma load_ok s w : wf_session (se_messaging s) →
  ∃ t w', from_serializable (to_serializable (se_messaging s)) w = (w', Ok (loaded t (se_messaging s))).
Proof. intros Hw. rewrite restore_roundtrip by done. destruct (clock w) as [w' t]. by exists t, w'. Qed.

(** ** The states below the top *)

Lemma previous_roundtrip c local book l w :
  Forall (λ st, storable c local book (ps_session st)) l →
  ∃ cl l' w', previous_to_cfe l = Ok cl ∧ import_previous c local book cl w = (w', Ok l') ∧ Forall2 (reloaded c) l l'.
Proof.
  intros Hl. revert w. induction Hl as [|st l Hst _ IH]; intros w; [by exists [], [], w|].
  destruct (session_to_cfe_ok (ps_session st)) as (cf & Hc & Hd & Hs & _); [by apply Hst|].
  destruct (load_ok (ps_session st) w) as (t & w1 & Hload); [by apply Hst|].
  destruct (IH w1) as (cl & l' & w2 & Hcl & Himp & Hl').
  exists (mkCfePrevious (ps_retired_at st) cf (ps_held_back st) :: cl),
    (mkPreviousState (loaded_session c t (ps_session st)) (ps_retired_at st) (ps_held_back st) :: l'), w2. split_and!.
  - cbn [previous_to_cfe]. rewrite Hc. cbn. by rewrite Hcl.
  - cbn [import_previous pv_state]. rewrite (proj2 (Z.eqb_neq _ _)) by done. unfold mbind, stm_bind, lift, map_err_m.
    rewrite Hd. cbn [map_err]. rewrite (verify_storable c local book) by done. cbn [map_err]. rewrite Hload. cbn [map_err]. rewrite Himp.
    destruct (loaded_same t (se_messaging (ps_session st))) as (-> & _). pose proof (st_pair _ _ _ _ Hst) as Hp. unfold se_session_id in Hp.
    by rewrite Hp.
  - constructor; [by exists t|done].
Qed.

(** ** The record *)

Definition top_session (lm : SessionLifecycleManager) (c : string) : option Session :=
  match current_session lm c with Some s => Some s | None => ps_session <$> head (previous_states lm c) end.

(** Every session with [c] can be stored, and the first-flight key that the one
    at the top still needs is in the book. *)
Record record_ok (c : string) (lm : SessionLifecycleManager) : Prop := {
  ro_current : ∀ s, current_session lm c = Some s → storable c (cl_local_user_id (lm_client lm)) (book_of lm) s;
  ro_previous : Forall (λ st, storable c (cl_local_user_id (lm_client lm)) (book_of lm) (ps_session st)) (previous_states lm c);
  ro_first_flight : ∀ s, top_session lm c = Some s → in_first_flights (se_messaging s) = true →
    first_flight_of_session (book_of lm) (se_session_id s) ≠ None;
}.

(** What [record_top] writes and [read_record] reads. *)
Lemma record_top_ok c lm s rest retired :
  match current_session lm c, previous_states lm c with
  | Some s', l => s' = s ∧ rest = l ∧ retired = None
  | None, st :: l => ps_session st = s ∧ rest = l ∧ retired = Some (mkCfeRetiredMark (ps_retired_at st) (ps_held_back st))
  | None, [] => False
  end → wf_session (se_messaging s) →
  ∃ cf, record_top lm c = Ok (cf, rest) ∧ from_cfe_v1 cf = Ok (to_serializable (se_messaging s)) ∧ cf_previous cf = [] ∧ cf_retired cf = retired.
Proof.
  intros Hm Hw. destruct (session_to_cfe_ok s Hw) as (cf & Hc & Hd & _ & Hp & Hr). unfold record_top.
  destruct (current_session lm c) as [s'|], (previous_states lm c) as [|st l]; try done; destruct Hm as (-> & -> & ->); rewrite Hc; cbn.
  - by exists cf.
  - by exists cf.
  - eexists. split_and!; [done|exact Hd|exact Hp|done].
Qed.

Lemma read_record_ok cf cl data s :
  from_cfe_v1 cf = Ok s → cf_previous cf = [] → map_err LeCfe (cfe_encode SessionState (cf <| cf_previous := cf_previous cf ++ cl |>)) = Ok data →
  read_record data = Ok (s, cl, cf_retired cf).
Proof.
  intros Hf Hp He%map_err_ok. apply (encode_decodes _ _ _ []) in He. rewrite app_nil_r in He. unfold read_record. rewrite He.
  change (from_cfe_v1 (cf <| cf_previous := cf_previous cf ++ cl |>)) with (from_cfe_v1 cf). rewrite Hf. cbn. by rewrite Hp.
Qed.

(** Installing what was read. *)
Lemma wp_install_record c ratchet retired states lm w :
  wp False (install_record c ratchet retired states) (lm, w)
    (λ _ sw, current_session sw.1 c = match retired with Some _ => None | None => Some (from_messaging_session c ratchet) end ∧
       ∃ t, previous_states sw.1 c = pruned t (match retired with
         | Some mark => mkPreviousState (from_messaging_session c ratchet) (rm_retired_at mark) (rm_held_back mark) :: states
         | None => states end)) (λ _ _, False).
Proof.
  unfold install_record, take_current, take_session, prune_previous. destruct retired as [mark|].
  - wp_steps. cbn [fst]. rewrite current_prune, previous_prune. split; [apply (current_drop c lm)|]. eexists.
    f_equal. unfold previous_states. cbn. by rewrite lookup_insert_eq.
  - wp_step. wp_step. wp_step. wp_step. destruct states as [|st states]; wp_steps; cbn [fst].
    + split; [|exists 0; unfold previous_states; cbn; by rewrite lookup_delete_eq].
      unfold current_session. cbn. by rewrite lookup_insert_eq.
    + rewrite current_prune, previous_prune. split; [unfold current_session; cbn; by rewrite lookup_insert_eq|]. eexists.
      f_equal. unfold previous_states. cbn. by rewrite lookup_insert_eq.
Qed.

(** Reading back what was written, into a manager with the same book and name. *)
Lemma import_exported c lm data lm0 w s rest retired :
  record_ok c lm → export_session_bytes_for lm c = Ok data →
  cl_local_user_id (lm_client lm0) = cl_local_user_id (lm_client lm) → book_of lm0 = book_of lm →
  match current_session lm c, previous_states lm c with
  | Some s', l => s' = s ∧ rest = l ∧ retired = None
  | None, st :: l => ps_session st = s ∧ rest = l ∧ retired = Some (mkCfeRetiredMark (ps_retired_at st) (ps_held_back st))
  | None, [] => False
  end →
  storable c (cl_local_user_id (lm_client lm)) (book_of lm) s →
  Forall (λ st, storable c (cl_local_user_id (lm_client lm)) (book_of lm) (ps_session st)) rest → top_session lm c = Some s →
  ∃ t l' w1, Forall2 (reloaded c) rest l' ∧
    import_session_bytes c data (lm0, w) = install_record c (loaded t (se_messaging s)) retired l' (lm0, w1).
Proof.
  intros Hok Hex Hlocal Hbook Hm Hst Hrest Htop. destruct (record_top_ok c lm s rest retired Hm (st_wf _ _ _ _ Hst)) as (cf & Ht & Hf & Hp & Hr).
  destruct (previous_roundtrip c _ (book_of lm) rest w Hrest) as (cl & l' & w1 & Hcl & Himp & Hl').
  unfold export_session_bytes_for in Hex. rewrite Ht in Hex. cbn [mbind res_bind] in Hex. rewrite Hcl in Hex. cbn [mbind res_bind] in Hex.
  destruct (load_ok s w1 (st_wf _ _ _ _ Hst)) as (t & w2 & Hload). exists t, l', w2. split; [done|].
  unfold import_session_bytes. unfold mbind at 1, stm_bind at 1, lift at 1. rewrite (read_record_ok cf cl data _ Hf Hp Hex), Hr.
  unfold mbind, stm_bind, self, lift, on_world, map_err_m. cbn [fst snd].
  change (cl_envelopes (lm_client lm0)) with (book_of lm0). rewrite Hlocal, Hbook, (verify_storable _ _ _ _ Hst). cbn [map_err].
  rewrite Himp. cbn [fst snd]. rewrite Hload. cbn [map_err]. destruct (loaded_same t (se_messaging s)) as (Hid & Hph & Hpa). rewrite Hid.
  pose proof (st_pair _ _ _ _ Hst) as Hpair. unfold se_session_id in Hpair. rewrite Hpair. cbn [negb].
  assert (in_first_flights (loaded t (se_messaging s)) && bool_decide (first_flight_of_session (book_of lm) (session_id (se_messaging s)) = None) = false) as ->; [|done].
  unfold in_first_flights. rewrite Hph, Hpa. apply andb_false_iff. fold (in_first_flights (se_messaging s)).
  destruct (in_first_flights (se_messaging s)) eqn:Hff; [right|by left]. apply bool_decide_eq_false_2. by apply (ro_first_flight _ _ Hok s).
Qed.

End storage.

(** ** The coordination state *)

Lemma btree_iter_Permutation {V} (m : gmap string V) : btree_iter m ≡ₚ map_to_list m.
Proof. apply merge_sort_Permutation. Qed.

(** Writing the entries of a map and reading back those that pass [keep]. *)
Lemma ledger_roundtrip {V E} (m : gmap string V) (mk : string * V → E) (get : E → string * V) (keep : E → bool) d v :
  (∀ kv, get (mk kv) = kv) →
  collect_map (get <$> retain keep (mk <$> btree_iter m)) !! d = Some v ↔ m !! d = Some v ∧ keep (mk (d, v)) = true.
Proof.
  intros Hget.
  assert (get <$> retain keep (mk <$> btree_iter m) = filter (λ kv, keep (mk kv) = true) (btree_iter m)) as ->.
  { induction (btree_iter m) as [|kv l IH]; [done|]. unfold retain in *. rewrite fmap_cons, !filter_cons.
    destruct (decide (keep (mk kv) = true)); rewrite ?fmap_cons, IH, ?Hget; done. }
  rewrite collect_map_lookup.
  - rewrite list_elem_of_filter, btree_iter_Permutation, elem_of_map_to_list. naive_solver.
  - eapply sublist_NoDup; [|apply fmap_sublist, sublist_filter]. rewrite btree_iter_Permutation. apply NoDup_fst_map_to_list.
Qed.

Lemma pins_roundtrip m d k : import_pins (export_pins m) !! d = Some k ↔ m !! d = Some k ∧ len k = 32.
Proof. unfold import_pins, export_pins. rewrite ledger_roundtrip by (by intros []). cbn. by rewrite Z.eqb_eq. Qed.
Lemma epochs_roundtrip m d e : import_epochs ((λ kv, mkCfeSpkEpochV1 kv.1 kv.2) <$> btree_iter m) !! d = Some e ↔ m !! d = Some e ∧ 0 < e.
Proof. unfold import_epochs. rewrite ledger_roundtrip by (by intros []). cbn. by rewrite Z.gtb_gt, Z.gt_lt_iff. Qed.

Section coordination.
Context `{MlKemCrate} `{!HexCrate} `{!CryptoProvider}.
Context `{!MlKem1024Crate} `{!Sha2Crate} `{!ClassicCrates} `{!HmacCrate}.
Context `{!Crc32Crate} `{!Crc32Laws} `{!MessagePack CfeOrchestratorStateV1} `{!MessagePackLaws CfeOrchestratorStateV1}.

(** What a device showed: pins of 32 bytes, epochs that are not 0. *)
Record ledger_wf (lm : SessionLifecycleManager) : Prop := {
  lw_hybrid : map_Forall (λ _ k, len k = 32) (lm_hybrid_identity_pins lm);
  lw_kem : map_Forall (λ _ k, len k = 32) (lm_kem_identity_pins lm);
  lw_epochs : map_Forall (λ _ e, 0 < e) (lm_spk_epochs lm);
}.

Lemma import_state lm locks data lm0 w :
  export_orchestrator_state_cfe lm locks = Ok data →
  wp (book_from_cfe (book_to_cfe (book_of lm)) = Panic) (import_orchestrator_state_cfe data) (lm0, w)
    (λ ls sw, ls = locks ∧ lm_hybrid_identity_pins sw.1 = import_pins (export_pins (lm_hybrid_identity_pins lm)) ∧
       lm_kem_identity_pins sw.1 = import_pins (export_pins (lm_kem_identity_pins lm)) ∧
       lm_spk_epochs sw.1 = import_epochs ((λ kv, mkCfeSpkEpochV1 kv.1 kv.2) <$> btree_iter (lm_spk_epochs lm)) ∧
       lm_ack_store sw.1 = restore_cache [] (lm_ack_store lm0) ∧ lm_previous sw.1 = lm_previous lm0 ∧
       cl_sessions (lm_client sw.1) = cl_sessions (lm_client lm0) ∧
       ∃ t b, book_from_cfe (book_to_cfe (book_of lm)) = Ok b ∧ book_of sw.1 = book_prune t b)
    (λ _ _, ∃ e, book_from_cfe (book_to_cfe (book_of lm)) = Err e).
Proof.
  intros He%map_err_ok. apply (encode_decodes _ _ _ []) in He. rewrite app_nil_r in He.
  unfold import_orchestrator_state_cfe. wp_step. apply wp_lift. rewrite He. cbn [map_err]. cbn [co_ver orchestrator_state Z.eqb Pos.eqb negb].
  do 3 wp_step. fold (book_of lm). apply wp_lift_cases.
  - intros b Hb%map_err_ok. wp_steps. split_and!; try done.
    + cbn. apply list_to_set_elements_L.
    + eexists _, b. done.
  - intros e Hb. destruct (book_from_cfe _) as [b|e'|] eqn:Hf; [done|by exists e'|done].
  - intros Hb. by apply map_err_panic in Hb.
Qed.

(** C27: The coordination state survives a restart. Read back into any manager,
    what was written gives the init locks, the pinned identity keys, the rotation
    epochs and the envelope book, less the pairs whose retention is over; the
    sessions already loaded stay, and every message id is again looked up in the
    platform's store before it is processed. *)
Theorem coordination_state_survives lm locks data lm0 w :
  export_orchestrator_state_cfe lm locks = Ok data → ledger_wf lm → book_wf (book_of lm) →
  ∃ lm' w' t, import_orchestrator_state_cfe data (lm0, w) = ((lm', w'), Ok locks) ∧
    lm_hybrid_identity_pins lm' = lm_hybrid_identity_pins lm ∧ lm_kem_identity_pins lm' = lm_kem_identity_pins lm ∧
    lm_spk_epochs lm' = lm_spk_epochs lm ∧ book_of lm' = book_prune t (book_of lm) ∧
    cl_sessions (lm_client lm') = cl_sessions (lm_client lm0) ∧ lm_previous lm' = lm_previous lm0 ∧
    ∀ id, is_processed (lm_ack_store lm') id = NeedDbCheck.
Proof.
  intros He [Hh Hk Hs] Hb%book_cfe_roundtrip. pose proof (import_state lm locks data lm0 w He) as Hw. unfold wp in Hw. rewrite Hb in Hw.
  destruct (import_orchestrator_state_cfe data (lm0, w)) as [[lm' w'] [ls|e|]]; [|by destruct Hw|done]. cbn [fst] in Hw.
  destruct Hw as (-> & E1 & E2 & E3 & E4 & E5 & E6 & t & b & [= <-] & E7). exists lm', w', t.
  rewrite E1, E2, E3, E4, E5, E6. split_and!; try done.
  - apply map_eq. intros d. apply option_eq. intros k. rewrite pins_roundtrip. split; [by intros []|]. intros Hd. split; [done|by apply (Hh d)].
  - apply map_eq. intros d. apply option_eq. intros k. rewrite pins_roundtrip. split; [by intros []|]. intros Hd. split; [done|by apply (Hk d)].
  - apply map_eq. intros d. apply option_eq. intros k. rewrite epochs_roundtrip. split; [by intros []|]. intros Hd. split; [done|by apply (Hs d)].
Qed.

(** ** What a device showed first *)

(** The manager in use, restarts included. *)
Inductive life (N F : string → Prop) : SessionLifecycleManager → SessionLifecycleManager → Prop :=
  | life_step lm lm' : lc_step N F lm lm' → life N F lm lm'
  | life_restart lm locks data lm0 w lm' w' ls :
      export_orchestrator_state_cfe lm locks = Ok data →
      import_orchestrator_state_cfe data (lm0, w) = ((lm', w'), Ok ls) → life N F lm lm'.

(** What is known of [d] in [lm] holds in [lm']. *)
Record remembers (d : string) (lm lm' : SessionLifecycleManager) : Prop := {
  re_epoch : ∀ e, 0 < e → lm_spk_epochs lm !! d = Some e → ∃ e', lm_spk_epochs lm' !! d = Some e' ∧ e ≤ e';
  re_hybrid : ∀ k, len k = 32 → lm_hybrid_identity_pins lm !! d = Some k → lm_hybrid_identity_pins lm' !! d = Some k;
  re_kem : ∀ k, len k = 32 → lm_kem_identity_pins lm !! d = Some k → lm_kem_identity_pins lm' !! d = Some k;
}.

Lemma remembers_trans d lm1 lm2 lm3 : remembers d lm1 lm2 → remembers d lm2 lm3 → remembers d lm1 lm3.
Proof.
  intros [He Hh Hk] [He' Hh' Hk']. split; [|by auto..]. intros e Hp Hl. destruct (He e Hp Hl) as (e1 & Hl1 & Hle).
  destruct (He' e1) as (e2 & Hl2 & Hle'); [lia|done|]. exists e2. split; [done|lia].
Qed.
Lemma remembers_same d lm lm' :
  lm_spk_epochs lm' = lm_spk_epochs lm → lm_hybrid_identity_pins lm' = lm_hybrid_identity_pins lm →
  lm_kem_identity_pins lm' = lm_kem_identity_pins lm → remembers d lm lm'.
Proof. intros He Hh Hk. split; [rewrite He; intros e _ Hl; by exists e|by rewrite Hh|by rewrite Hk]. Qed.
Lemma remembers_only d c lm lm' : only c lm lm' → remembers d lm lm'.
Proof. intros [Hk _ _]. unfold kept in Hk. apply remembers_same; congruence. Qed.

Lemma or_insert_lookup d k d' k' pins : pins !! d' = Some k' → or_insert d k pins !! d' = Some k'.
Proof.
  unfold or_insert. intros Hl. destruct (pins !! d) eqn:Hd; [done|]. rewrite lookup_insert_ne; [done|]. intros <-. congruence.
Qed.

Lemma step_remembers N F d lm lm' : lc_step N F lm lm' → ¬ F d → remembers d lm lm'.
Proof.
  intros [c m lm1 w lm2 w' r Hd Hr|c lm1 w lm2 w' b Hd|c s lm1 w lm2 w' Hd _|c lm1 w lm2 w' Hd HF|d' e lm1|d' k lm1|d' k lm1] Hn.
  - pose proof (wp_decrypt c m lm1 w) as Hw. unfold wp in Hw. rewrite Hd in Hw. cbn [fst] in Hw.
    destruct r as [p|e|]; [destruct Hw as (sec & _ & Ho)|destruct Hw as [->|(sec & Ho)]|done]; [|by apply remembers_same|]; by eapply remembers_only, read_only.
  - pose proof (wp_retire_current c lm1 w) as Hw. unfold wp in Hw. rewrite Hd in Hw. cbn [fst] in Hw. apply (remembers_only d c).
    destruct (current_session lm1 c) as [old|]; [destruct Hw as (_ & t1 & t2 & ->)|destruct Hw as [_ ->]]; [|apply only_drop_current].
    eapply only_trans; [apply only_drop_current|]. eapply only_trans; [apply only_retired|apply only_hold].
  - pose proof (wp_replace_session c s lm1 w) as Hw. unfold wp in Hw. rewrite Hd in Hw. cbn [fst] in Hw.
    destruct (current_session lm1 c) as [old|]; [destruct Hw as (t1 & t2 & ->)|subst; by apply remembers_same].
    eapply remembers_trans; [|apply (remembers_only d c), only_retired]. by apply remembers_same.
  - pose proof (wp_forget c lm1 w) as Hw. unfold wp in Hw. rewrite Hd in Hw. cbn [fst] in Hw. destruct Hw as [b ->].
    assert (c ≠ d) as Hne by (intros ->; done). split; cbn; [intros e _|intros k _..]; rewrite lookup_delete_ne by done; [|done..].
    intros Hl. by exists e.
  - unfold note_spk_epoch. destruct (e =? 0); [by apply remembers_same|]. split; cbn; [|by auto..]. intros e0 _ Hl.
    destruct (decide (d' = d)) as [->|Hne]; [rewrite lookup_insert_eq, Hl; eexists; split; [done|]; cbn; lia|].
    rewrite lookup_insert_ne by done. by exists e0.
  - split; cbn; [intros e _ Hl; by exists e|intros k' _; apply or_insert_lookup|by auto].
  - split; cbn; [intros e _ Hl; by exists e|by auto|intros k' _; apply or_insert_lookup].
Qed.

Lemma life_remembers N F d lm lm' : life N F lm lm' → ¬ F d → remembers d lm lm'.
Proof.
  intros [lm1 lm2 Hs|lm1 locks data lm0 w lm2 w' ls He Hi] Hn; [by eapply step_remembers|].
  pose proof (import_state lm1 locks data lm0 w He) as Hw. unfold wp in Hw. rewrite Hi in Hw. cbn [fst] in Hw.
  destruct Hw as (_ & Hh & Hk & Hs & _). split.
  - intros e Hp Hl. exists e. split; [|done]. rewrite Hs. by apply epochs_roundtrip.
  - intros k Hlen Hl. rewrite Hh. by apply pins_roundtrip.
  - intros k Hlen Hl. rewrite Hk. by apply pins_roundtrip.
Qed.

(** C28: A device cannot go back on what it showed. Until the contact is forgotten,
    and through any use of the manager and any number of restarts, a bundle whose
    rotation epoch is not zero and below one that was admitted is refused as a replay,
    and the hybrid and the KEM identity key pinned for a device, of 32 bytes each, are
    the first ones it presented. Epoch zero, that of a bundle which names none, is
    always admitted. *)
Theorem device_stays_pinned N F d lm lm' e :
  ¬ F d → 0 < e → rtc (life N F) (note_spk_epoch d e lm) lm' →
  (∀ e', 0 < e' < e → ∃ known, e ≤ known ∧ spk_epoch_regression lm' d e' = Some (mkSpkEpochRegressed e' known)) ∧
  spk_epoch_regression lm' d 0 = None ∧
  (∀ k, len k = 32 → lm_hybrid_identity_pins lm !! d = Some k →
    ∀ k', lm_hybrid_identity_pins (pin_hybrid_identity d k' lm') !! d = Some k) ∧
  (∀ k, len k = 32 → lm_kem_identity_pins lm !! d = Some k →
    ∀ k', lm_kem_identity_pins (pin_kem_identity d k' lm') !! d = Some k).
Proof.
  intros Hn He Hl. assert (remembers d (note_spk_epoch d e lm) lm') as [Hep Hh Hk].
  { induction Hl as [|lm1 lm2 lm3 Hs _ IH]; [by apply remembers_same|]. eapply remembers_trans; [by eapply life_remembers|done]. }
  unfold note_spk_epoch in Hep, Hh, Hk. rewrite (proj2 (Z.eqb_neq e 0)) in Hep, Hh, Hk by lia. cbn in Hep, Hh, Hk. split_and!.
  - intros e' Hr. destruct (Hep (Z.max (default 0 (lm_spk_epochs lm !! d)) e)) as (known & Hlk & Hle); [lia|by rewrite lookup_insert_eq|].
    exists known. split; [lia|]. unfold spk_epoch_regression. rewrite (proj2 (Z.eqb_neq e' 0)), Hlk by lia.
    by rewrite (proj2 (Z.ltb_lt e' known)) by lia.
  - done.
  - intros k Hlen Hp k'. cbn. apply or_insert_lookup. by apply Hh.
  - intros k Hlen Hp k'. cbn. apply or_insert_lookup. by apply Hk.
Qed.
End coordination.

(** ** Records that evaluate *)

#[local] Instance cfe_skipped_eq : EqDecision CfeSkippedKeyEntryV1.
Proof. solve_decision. Defined.
#[local] Instance cfe_header_eq : EqDecision CfePrekeyHeaderV1.
Proof. solve_decision. Defined.
#[local] Instance cfe_mark_eq : EqDecision CfeRetiredMarkV1.
Proof. solve_decision. Defined.
#[local] Instance cfe_chain_eq : EqDecision CfePqChainV2.
Proof. solve_decision. Defined.
#[local] Instance cfe_chains_eq : EqDecision CfePqEpochChainsV2.
Proof. solve_decision. Defined.
#[local] Instance cfe_pq_skipped_eq : EqDecision CfePqSkippedKeyV2.
Proof. solve_decision. Defined.
#[local] Instance cfe_exchange_eq : EqDecision CfePqPendingExchangeV1.
Proof. solve_decision. Defined.
#[local] Instance cfe_ciphertext_eq : EqDecision CfePqPendingCiphertextV2.
Proof. solve_decision. Defined.
#[local] Instance cfe_ratchet_eq : EqDecision CfePqRatchetStateV2.
Proof. solve_decision. Defined.
Fixpoint cfe_session_eq (a b : CfeSessionStateV1) {struct a} : Decision (a = b)
with cfe_previous_eq (a b : CfePreviousStateV1) {struct a} : Decision (a = b).
Proof.
  - unfold Decision. decide equality; first [apply (decide_rel (=))|apply (List.list_eq_dec cfe_previous_eq)].
  - unfold Decision. decide equality; first [apply (decide_rel (=))|apply cfe_session_eq].
Defined.
#[local] Instance cfe_entry_eq : EqDecision CfeEnvelopeEntryV1.
Proof. solve_decision. Defined.
#[local] Instance cfe_pin_eq : EqDecision CfeHybridPinV1.
Proof. solve_decision. Defined.
#[local] Instance cfe_epoch_eq : EqDecision CfeSpkEpochV1.
Proof. solve_decision. Defined.
#[local] Instance cfe_state_eq : EqDecision CfeOrchestratorStateV1.
Proof. solve_decision. Defined.

(** A codec that knows one value. *)
Definition one_value {T} `{EqDecision T} (x : T) : MessagePack T := {|
  rmp_to_vec v := if decide (v = x) then Ok [] else Err "another value"%string;
  rmp_from_slice _ := Ok x;
|}.
Lemma one_value_laws {T} `{EqDecision T} (x : T) : @MessagePackLaws T (one_value x).
Proof. split; cbn; intros; [case_decide; naive_solver|by case_decide|done]. Qed.
#[local] Instance no_json : LegacySessionJson := {| session_from_json _ := Err "no json"%string |}.

Lemma opened_wf `{MlKemCrate} `{!HexCrate} `{!CryptoProvider} `{!MlKemLaws} `{!HexLaws} `{!ProviderLaws}
    `{!ClassicCrates} ik b ip c u pq w w' s :
  init_as_initiator ik b ip c u pq w = (w', Ok s) → wf_session (se_messaging s).
Proof.
  unfold init_as_initiator, mbind, stm_bind, map_err_m, lift.
  destruct (perform_as_initiator ik b pq w) as [w1 [[root st]|e|]]; cbn [map_err]; [|done..].
  destruct (derive_envelope_keys root u c) as [keys|e|]; [|done..].
  pose proof (new_initiator_spec root st ip c u negotiated_initiator_suite w1 eq_refl) as Hw. unfold wp in Hw.
  destruct (new_initiator_session root st ip c u negotiated_initiator_suite w1) as [w2 [dr|e|]]; cbn [map_err]; [|done..].
  intros Hs. by injection Hs as _ <-.
Qed.

(** Two sessions with Bob: one current, one that he could not read. *)
#[local] Abbreviation demo_opened z :=
  (init_as_initiator (demo_pair demo_a).1 demo_bundle (demo_pair demo_b0.1.1).2 "bob" "alice" None (toy_world z)).
#[local] Abbreviation demo_s z := (result (demo_opened z).2).
Definition demo_pair_of (z : Z) : EnvelopePair :=
  default (mkEnvelopePair (mkDirectionKeys [] []) (mkDirectionKeys [] [])) (se_envelope_keys (demo_s z)).
Definition demo_book : EnvelopeBook :=
  register "bob" (se_session_id (demo_s 300)) (demo_pair_of 300) (register "bob" (se_session_id (demo_s 350)) (demo_pair_of 350) []).
Definition demo_kept : SessionLifecycleManager :=
  mkLifecycle (mkClient km_new {[ "bob" := demo_s 300 ]} ∅ "alice" demo_book) (ack_new 0)
    {[ "bob" := [mkPreviousState (demo_s 350) 100 true] ]} {[ "bob" := replicate 32 Byte.x07 ]} ∅ {[ "bob" := 5 ]} "alice" reorder_default.
Definition demo_started : SessionLifecycleManager :=
  lifecycle_new (mkClient km_new ∅ ∅ "alice" demo_book) "alice".

Lemma demo_storable z : is_ok (demo_opened z).2 && bool_decide (contact_id (se_messaging (demo_s z)) = "bob"%string)
    && bool_decide (local_user_id (se_messaging (demo_s z)) = "alice"%string) && has_session demo_book (se_session_id (demo_s z)) = true →
  storable "bob" "alice" demo_book (demo_s z).
Proof.
  intros [[[Ho Hc]%andb_true_iff Hl]%andb_true_iff Hp]%andb_true_iff. split; [|by apply (bool_decide_eq_true_1 _)..|done].
  eapply opened_wf. rewrite <- (result_ok _ Ho). apply surjective_pairing.
Qed.

Lemma demo_current : current_session demo_kept "bob" = Some (demo_s 300).
Proof. unfold current_session, demo_kept. cbn [lm_client cl_sessions]. apply lookup_singleton_eq. Qed.
Lemma demo_previous : previous_states demo_kept "bob" = [mkPreviousState (demo_s 350) 100 true].
Proof. unfold previous_states, demo_kept. cbn [lm_previous]. by rewrite lookup_singleton_eq. Qed.
Lemma demo_record_ok : record_ok "bob" demo_kept.
Proof.
  split; unfold top_session; rewrite ?demo_current, ?demo_previous.
  - intros s Hs%(inj Some). rewrite <- Hs. apply demo_storable. vm_compute. reflexivity.
  - apply Forall_singleton. apply demo_storable. vm_compute. reflexivity.
  - intros s Hs%(inj Some). rewrite <- Hs. assert (in_first_flights (se_messaging (demo_s 300)) = false) as -> by (vm_compute; reflexivity).
    intros Hf. discriminate Hf.
Qed.

(** The record the manager writes. *)
Definition demo_record : res LifecycleError CfeSessionStateV1 :=
  '(top, rest) ← record_top demo_kept "bob";
  previous ← previous_to_cfe rest;
  Ok (top <| cf_previous := cf_previous top ++ previous |>).
#[local] Instance cfe_record_inhabited : Inhabited CfeSessionStateV1 :=
  populate (mkCfeSession 0 0 EmptyString EmptyString [] [] [] [] 0 0 0 None [] None [] None None 0 0 0 None false None None [] None).
#[local] Instance demo_codec : MessagePack CfeSessionStateV1 := @one_value _ cfe_session_eq (result demo_record).
#[local] Instance demo_codec_laws : MessagePackLaws CfeSessionStateV1.
Proof. apply (@one_value_laws _ cfe_session_eq). Qed.

Lemma demo_same : cl_local_user_id (lm_client demo_started) = cl_local_user_id (lm_client demo_kept) ∧ book_of demo_started = book_of demo_kept.
Proof.
  unfold book_of, demo_started, demo_kept, lifecycle_new, set_local_user_id. cbn [lm_client cl_local_user_id cl_envelopes set_field]. by split.
Qed.


(** The coordination state it writes, and the manager that reads it. *)
Definition demo_noted : SessionLifecycleManager := note_spk_epoch "bob" 7 demo_kept.
#[local] Instance demo_state_codec : MessagePack CfeOrchestratorStateV1 := one_value (orchestrator_state demo_noted {[ "carol" ]}).
#[local] Instance demo_state_codec_laws : MessagePackLaws CfeOrchestratorStateV1.
Proof. apply one_value_laws. Qed.
#[local] Abbreviation demo_exported := (export_orchestrator_state_cfe demo_noted {[ "carol" ]}).
#[local] Abbreviation demo_imported := (import_orchestrator_state_cfe (result demo_exported) (demo_started, toy_world 500)).

Lemma demo_exports : is_ok demo_exported = true.
Proof. vm_compute. reflexivity. Qed.
Lemma demo_ledger_wf : ledger_wf demo_noted.
Proof.
  split; intros d k; cbn.
  - intros [<- <-]%lookup_singleton_Some. done.
  - by rewrite lookup_empty.
  - destruct (decide (d = "bob"%string)) as [->|Hne]; [rewrite lookup_insert_eq; by intros [= <-]|].
    rewrite lookup_insert_ne, lookup_singleton_ne by done. done.
Qed.
Lemma demo_book_wf : book_wf (book_of demo_noted).
Proof.
  assert (book_of demo_noted = demo_book) as -> by (unfold demo_noted, note_spk_epoch, demo_kept, book_of; reflexivity). split.
  - apply (bool_decide_eq_true_1 _). vm_compute. reflexivity.
  - assert (Forall (λ e, ((len (dk_env (ep_send (be_keys e))) = 32 ∧ len (dk_tag (ep_send (be_keys e))) = 32) ∧
      len (dk_env (ep_recv (be_keys e))) = 32 ∧ len (dk_tag (ep_recv (be_keys e))) = 32) ∧ be_first_flight e = None) demo_book) as Hf.
    { apply (bool_decide_eq_true_1 _). vm_compute. reflexivity. }
    eapply Forall_impl; [exact Hf|]. intros e [He Hn]. split; [done|]. by rewrite Hn.
Qed.

Lemma coordination_state_survives_witness :
  ∃ lm' w', demo_imported = ((lm', w'), Ok {[ "carol"%string ]}) ∧ lm_hybrid_identity_pins lm' = {[ "bob"%string := replicate 32 Byte.x07 ]}.
Proof.
  destruct (coordination_state_survives demo_noted {[ "carol"%string ]} (result demo_exported) demo_started (toy_world 500) (result_ok _ demo_exports)
    demo_ledger_wf demo_book_wf) as (lm' & w' & t & Hi & Hh & _).
  exists lm', w'. split; [exact Hi|exact Hh].
Defined.

Lemma demo_restarts : ∃ lm' w', demo_imported = ((lm', w'), Ok {[ "carol"%string ]}).
Proof.
  pose proof (import_state demo_noted {[ "carol"%string ]} (result demo_exported) demo_started (toy_world 500) (result_ok _ demo_exports)) as Hw.
  unfold wp in Hw. rewrite (book_cfe_roundtrip _ demo_book_wf) in Hw.
  destruct demo_imported as [[lm' w'] [ls|e|]]; [|by destruct Hw|done]. exists lm', w'. by destruct Hw as [-> _].
Qed.

Lemma device_stays_pinned_witness :
  ∃ lm' known, rtc (life (λ _, True) (λ _, False)) demo_noted lm' ∧ 7 ≤ known ∧
    spk_epoch_regression lm' "bob" 5 = Some (mkSpkEpochRegressed 5 known).
Proof.
  destruct demo_restarts as (lm' & w' & Hi).
  assert (rtc (life (λ _, True) (λ _, False)) demo_noted lm') as Hr.
  { apply rtc_once. exact (life_restart _ _ _ _ _ _ _ _ _ _ (result_ok _ demo_exports) Hi). }
  destruct (device_stays_pinned (λ _, True) (λ _, False) "bob" demo_kept lm' 7 (λ H, H) eq_refl Hr) as [He _].
  destruct (He 5 (conj eq_refl eq_refl)) as (known & Hk & Hs). exists lm', known. split_and!; [exact Hr|exact Hk|exact Hs].
Defined.
