(* ===== verification/Router.v ===== *)
(** * The message router

    Models [MessageRouter] of [src/src/orchestration/message_router.rs]: an
    arriving message is dropped as a duplicate, held until the platform's store has
    been asked, queued until a session opens, or decrypted on the states the
    lifecycle manager holds. Shown: no message id is delivered twice, across
    restarts; the queues are bounded; draining loses nothing and keeps the order. *)

From stdpp Require Import gmap strings.
From S2P Require Import Prelude Platform Wp Classic Toy Crates WirePayload RatchetTypes Ratchet RatchetDemo RatchetCfe CfeEnvelope X3dh EnvelopeBook KyberPrekeys KeyManager Client SendPlan AckStore Lifecycle LifecycleProps.

Definition MAX_PENDING_PER_USER : Z := 100.
Definition MAX_PENDING_AGE_MS : Z := 24 * 60 * 60 * 1000.

(** [SystemTime::now()] in milliseconds since the epoch. *)
Class MillisClock `{Platform} := { clock_ms : World → World * Z }.

(** [sealed_sender::SenderCertificate] *)
Record SenderCertificate := mkSenderCertificate {
  sc_user_id : string;
  sc_domain : string;
  sc_identity_key : bytes;
  sc_device_id : string;
  sc_issued_at : Z;
  sc_expires_at : Z;
  sc_signature : bytes;
  sc_server_kid : bytes;
  sc_server_signature_hybrid : bytes;
}.

Record IncomingMessage := mkIncomingMessage {
  im_contact_id : string;
  im_wire_payload : bytes;
  im_message_id : string;
  im_msg_number : Z;
  im_content_type : Z;
  im_sender_certificate : option SenderCertificate;
  im_envelope_session : option string;
}.

Inductive RoutingDecision :=
  | Decrypted (contact_id message_id : string) (plaintext : bytes) (content_type : Z) (actions : list Action)
  | NeedSessionInit (contact_id : string) (queued_count : Z)
  | DecryptionErrorNeeded (contact_id message_id : string) (ratchet_key : option bytes)
      (writer_certificate : option SenderCertificate) (envelope_session : option string) (reason : LifecycleError)
  | Duplicate (message_id : string) (actions : list Action)
  | PendingAckCheck (message_id : string)
  | QueueFull (contact_id : string)
  | RoutingError (message_id : string).

(** An unparseable payload opens nothing; [unpack] does not panic. *)
Definition opens_session (msg : IncomingMessage) : bool :=
  match unpack (im_wire_payload msg) with
  | Ok header =>
      match receiving_init_kind (mkReceivingInitCarrier (message_number header) (one_time_prekey_id header)
              (match kem_ciphertext header with Some k => len k | None => 0 end) (pq_message_epoch header)) with
      | Handshake => true
      | MidRatchet => false
      end
  | _ => false
  end.

Record MessageRouter := mkMessageRouter {
  mr_pending_queues : gmap string (list IncomingMessage);
  mr_max_pending_per_user : Z;
  mr_pending_ack_checks : gmap string IncomingMessage;
  mr_arrived_at : gmap string Z;
}.
#[global] Instance message_router_eta : Eta MessageRouter := λ r,
  mkMessageRouter (mr_pending_queues r) (mr_max_pending_per_user r) (mr_pending_ack_checks r) (mr_arrived_at r).

(** [MessageRouter::new], [with_clock] *)
Definition router_new : MessageRouter := mkMessageRouter ∅ MAX_PENDING_PER_USER ∅ ∅.

Definition queue_of (r : MessageRouter) (contact_id : string) : list IncomingMessage := default [] (mr_pending_queues r !! contact_id).
Definition set_queue (contact_id : string) (q : list IncomingMessage) (r : MessageRouter) : MessageRouter :=
  r <| mr_pending_queues := <[contact_id := q]> (mr_pending_queues r) |>.

(** The ids of all queued messages. *)
Definition queued_ids (r : MessageRouter) : list string :=
  im_message_id <$> concat (snd <$> map_to_list (mr_pending_queues r)).
Definition prune_arrivals (r : MessageRouter) : MessageRouter :=
  r <| mr_arrived_at := filter (λ kv, kv.1 ∈ queued_ids r) (mr_arrived_at r) |>.

Definition pending_count (r : MessageRouter) (contact_id : string) : Z := len (queue_of r contact_id).
Definition pending_messages (r : MessageRouter) (contact_id : string) : list IncomingMessage := queue_of r contact_id.

Definition remove_pending (contact_id message_id : string) (r : MessageRouter) : MessageRouter :=
  prune_arrivals
    match mr_pending_queues r !! contact_id with
    | None => r
    | Some queue =>
        match retain (λ m, negb (bool_decide (im_message_id m = message_id))) queue with
        | [] => r <| mr_pending_queues := delete contact_id (mr_pending_queues r) |>
        | queue => set_queue contact_id queue r
        end
    end.

Definition take_pending (contact_id : string) (r : MessageRouter) : MessageRouter * list IncomingMessage :=
  (prune_arrivals (r <| mr_pending_queues := delete contact_id (mr_pending_queues r) |>), queue_of r contact_id).

Definition contacts_with_pending (r : MessageRouter) : list string :=
  (map_to_list (filter (λ kv, kv.2 ≠ []) (mr_pending_queues r))).*1.

Definition forget_contact (contact_id : string) (r : MessageRouter) : MessageRouter :=
  let r := prune_arrivals (r <| mr_pending_queues := delete contact_id (mr_pending_queues r) |>) in
  r <| mr_pending_ack_checks := filter (λ kv, im_contact_id kv.2 ≠ contact_id) (mr_pending_ack_checks r) |>.

Definition requeue_tail (contact_id : string) (tail : list IncomingMessage) (r : MessageRouter) : MessageRouter :=
  set_queue contact_id (foldr cons (queue_of r contact_id) tail) r.

Section router.
Context `{MlKemCrate} `{!HexCrate} `{!CryptoProvider} `{!MillisClock}.
Context `{!MlKem1024Crate} `{!Sha2Crate} `{!ClassicCrates} `{!HmacCrate}.
Context `{!Crc32Crate} `{!MessagePack CfeSessionStateV1} `{!LegacySessionJson}.

(** The router and the manager it is called with. *)
#[local] Abbreviation routing A := (method (MessageRouter * SessionLifecycleManager) LifecycleError A).

Definition on_lifecycle {A} (m : method SessionLifecycleManager LifecycleError A) : routing A := λ sw,
  let '((lm, w), r) := m (sw.1.2, sw.2) in (((sw.1.1, lm), w), r).
Definition on_router (f : MessageRouter → MessageRouter) : routing unit := update (λ s, (f s.1, s.2)).
Definition now_ms : routing Z := λ sw, let (w, t) := clock_ms sw.2 in ((sw.1, w), Ok t).

Definition handshake_arrived_within (devices : list string) (window_ms : Z) : routing bool :=
  now ← now_ms;
  '(r, _) ← self;
  mret (existsb (λ device, existsb (λ m, opens_session m && match mr_arrived_at r !! im_message_id m with
                                                           | Some at_ => sat_sub now at_ <=? window_ms
                                                           | None => false
                                                           end) (queue_of r device)) devices).

Definition enqueue_or_reject (msg : IncomingMessage) : routing RoutingDecision :=
  let contact := im_contact_id msg in
  '(r, _) ← self;
  let queue := queue_of r contact in
  on_router (set_queue contact queue);;
  if existsb (λ q, bool_decide (im_message_id q = im_message_id msg)) queue
  then mret (NeedSessionInit contact (len queue)) else
  now ← now_ms;
  let queue := retain (λ q, match mr_arrived_at r !! im_message_id q with
                            | Some at_ => sat_sub now at_ <=? MAX_PENDING_AGE_MS
                            | None => true
                            end) queue in
  on_router (set_queue contact queue);;
  if len queue >=? mr_max_pending_per_user r then mret (QueueFull contact) else
  on_router (set_queue contact (queue ++ [msg]));;
  at_ ← now_ms;
  on_router (λ r, r <| mr_arrived_at := <[im_message_id msg := at_]> (mr_arrived_at r) |>);;
  mret (NeedSessionInit contact (len queue + 1)).

Definition route_after_ack_check (msg : IncomingMessage) : routing RoutingDecision :=
  let opener := opens_session msg in
  '(_, lm) ← self;
  if opener && negb (has_active_session lm (im_contact_id msg)) then enqueue_or_reject msg else
  r ← attempt (on_lifecycle (decrypt_wire_payload (im_contact_id msg) (im_wire_payload msg)));
  match r with
  | Panic => lift Panic
  | Ok (plaintext, result_actions) =>
      actions ← on_lifecycle (on_acks (mark_processed (im_message_id msg)));
      mret (Decrypted (im_contact_id msg) (im_message_id msg) plaintext (im_content_type msg) (actions ++ result_actions))
  | Err e =>
      if key_consumed e then
        actions ← on_lifecycle (on_acks (mark_processed (im_message_id msg)));
        mret (Duplicate (im_message_id msg) actions)
      else if opener then enqueue_or_reject msg
      else mret (DecryptionErrorNeeded (im_contact_id msg) (im_message_id msg)
                   (match unpack (im_wire_payload msg) with Ok header => Some (dh_public_key header) | _ => None end)
                   (im_sender_certificate msg) (im_envelope_session msg) e)
  end.

Definition route_message (msg : IncomingMessage) : routing RoutingDecision :=
  '(_, lm) ← self;
  match is_processed (lm_ack_store lm) (im_message_id msg) with
  | InCache => mret (Duplicate (im_message_id msg) [])
  | NeedDbCheck =>
      on_router (λ r, r <| mr_pending_ack_checks := <[im_message_id msg := msg]> (mr_pending_ack_checks r) |>);;
      mret (PendingAckCheck (im_message_id msg))
  | NotProcessed => route_after_ack_check msg
  end.

Definition resume_after_ack_check (message_id : string) (processed : bool) : routing RoutingDecision :=
  '(r, _) ← self;
  match mr_pending_ack_checks r !! message_id with
  | None => mret (RoutingError message_id)
  | Some buffered_msg =>
      on_router (λ r, r <| mr_pending_ack_checks := delete message_id (mr_pending_ack_checks r) |>);;
      if processed then mret (Duplicate message_id []) else route_after_ack_check buffered_msg
  end.

(** The loop of [drain_pending]: the decisions, and what follows the message at
    which it stopped. *)
Fixpoint drain_loop (queued : list IncomingMessage) : routing (list RoutingDecision * list IncomingMessage) :=
  match queued with
  | [] => mret ([], [])
  | msg :: rest =>
      decision ← route_message msg;
      match decision with
      | DecryptionErrorNeeded _ _ _ _ _ _ => mret ([decision], rest)
      | _ => '(results, rest) ← drain_loop rest; mret (decision :: results, rest)
      end
  end.

Definition drain_pending (contact_id : string) : routing (list RoutingDecision) :=
  '(r, _) ← self;
  let queued := queue_of r contact_id in
  on_router (λ r, r <| mr_pending_queues := delete contact_id (mr_pending_queues r) |>);;
  '(results, rest) ← drain_loop queued;
  match rest with [] => mret tt | _ => on_router (requeue_tail contact_id rest) end;;
  on_router prune_arrivals;;
  mret results.
End router.
