(* ===== verification/RouterProps.v ===== *)
(** * The message router: delivery and queues

    What routing does to the acknowledgement records, to the messages waiting for
    the platform's answer and to the pending queues, for [message_router.rs]; and,
    over any history of the process and its restarts, that a message id is
    delivered once. *)

From stdpp Require Import gmap strings.
From S2P Require Import Prelude Platform Wp Classic Toy Crates WirePayload RatchetTypes Ratchet RatchetDemo RatchetCfe CfeEnvelope X3dh EnvelopeBook KyberPrekeys KeyManager Client SendPlan AckStore Lifecycle LifecycleProps Router.

(** What the platform does for a decision, and which message it delivers. *)
Definition decision_actions (d : RoutingDecision) : list Action :=
  match d with Decrypted _ _ _ _ a | Duplicate _ a => a | _ => [] end.
Definition delivered (d : RoutingDecision) : list string :=
  match d with Decrypted _ id _ _ _ => [id] | _ => [] end.
Definition persisted (l : list Action) : list string :=
  omap (λ a, match a with PersistAck id _ => Some id | _ => None end) l.

(** The decision is about the message. *)
Definition concerns (msg : IncomingMessage) (d : RoutingDecision) : Prop :=
  match d with
  | Decrypted c id _ _ _ | DecryptionErrorNeeded c id _ _ _ _ => c = im_contact_id msg ∧ id = im_message_id msg
  | NeedSessionInit c _ | QueueFull c => c = im_contact_id msg
  | Duplicate id _ | PendingAckCheck id | RoutingError id => id = im_message_id msg
  end.

Section router_props.
Context `{MlKemCrate} `{!HexCrate} `{!CryptoProvider} `{!MillisClock}.
Context `{!MlKem1024Crate} `{!Sha2Crate} `{!ClassicCrates} `{!HmacCrate}.
Context `{!Crc32Crate} `{!MessagePack CfeSessionStateV1} `{!LegacySessionJson}.

(** ** What one message does *)

(** The router after a message of [msg]'s contact was queued, or not. *)
Record requeued (msg : IncomingMessage) (r r' : MessageRouter) : Prop := {
  rq_max : mr_max_pending_per_user r' = mr_max_pending_per_user r;
  rq_checks : mr_pending_ack_checks r' = mr_pending_ack_checks r;
  rq_other : ∀ c, c ≠ im_contact_id msg → queue_of r' c = queue_of r c;
  rq_own : queue_of r' (im_contact_id msg) `sublist_of` queue_of r (im_contact_id msg) ++ [msg];
  rq_bound : len (queue_of r (im_contact_id msg)) ≤ mr_max_pending_per_user r →
    len (queue_of r' (im_contact_id msg)) ≤ mr_max_pending_per_user r;
}.

Lemma queue_set c q r : queue_of (set_queue c q r) c = q.
Proof. unfold queue_of. cbn. by rewrite lookup_insert_eq. Qed.
Lemma queue_set_ne c c' q r : c' ≠ c → queue_of (set_queue c q r) c' = queue_of r c'.
Proof. intros Hc. unfold queue_of. cbn. by rewrite lookup_insert_ne. Qed.

Lemma requeued_same msg r : requeued msg r r.
Proof. split; try done. by apply sublist_inserts_r. Qed.
Lemma requeued_set msg r q : q `sublist_of` queue_of r (im_contact_id msg) ++ [msg] →
  (len (queue_of r (im_contact_id msg)) ≤ mr_max_pending_per_user r → len q ≤ mr_max_pending_per_user r) →
  requeued msg r (set_queue (im_contact_id msg) q r).
Proof. intros Hs Hl. split; try done; [intros c Hc; by apply queue_set_ne|by rewrite queue_set|by rewrite queue_set]. Qed.
Lemma set_queue_twice c q q' r : set_queue c q (set_queue c q' r) = set_queue c q r.
Proof. unfold set_queue. destruct r. cbn. by rewrite insert_insert_eq. Qed.

Lemma wp_now_ms s w Q (R : LifecycleError → (MessageRouter * SessionLifecycleManager) * World → Prop) :
  (∀ w', Q (clock_ms w).2 (s, w')) → wp False now_ms (s, w) Q R.
Proof. unfold wp, now_ms. cbn. destruct (clock_ms w) as [w' t]. eauto. Qed.

Lemma wp_enqueue msg r lm w :
  wp False (enqueue_or_reject msg) ((r, lm), w)
    (λ d sw, sw.1.2 = lm ∧ requeued msg r sw.1.1 ∧ concerns msg d ∧ delivered d = [] ∧ decision_actions d = []) (λ _ _, False).
Proof.
  unfold enqueue_or_reject, on_router. cbv zeta. do 2 wp_step. cbn [fst]. do 2 wp_step. cbn [fst snd].
  set (q := queue_of r (im_contact_id msg)). destruct (existsb _ q).
  { wp_step. split_and!; try done. apply requeued_set; [by apply sublist_inserts_r|done]. }
  wp_step. apply wp_now_ms. intros w1. do 2 wp_step. cbn [fst snd]. rewrite set_queue_twice.
  set (q' := retain _ q). assert (q' `sublist_of` q) as Hq' by apply sublist_filter.
  destruct (Z.geb_spec (len q') (mr_max_pending_per_user r)) as [Hfull|Hroom].
  { wp_step. split_and!; try done. apply requeued_set; [by apply sublist_inserts_r|]. fold q. apply sublist_length in Hq'. unfold len. lia. }
  do 3 wp_step. cbn [fst snd]. rewrite set_queue_twice. apply wp_now_ms. intros w2. wp_steps. split_and!; try done.
  assert (requeued msg r (set_queue (im_contact_id msg) (q' ++ [msg]) r)) as [Hm Hc Ho Hs Hb].
  { apply requeued_set; [by apply sublist_app|]. intros _. rewrite len_app. change (len [msg]) with 1. lia. }
  split; [exact Hm|exact Hc|exact Ho|exact Hs|exact Hb].
Qed.

(** The manager's acknowledgements and the decision for message [id]: nothing,
    or [id] is recorded, here and by the platform, and may be delivered. *)
Inductive routed (id : string) (a a' : AckStore) (d : RoutingDecision) : Prop :=
  | routed_quiet : a' = a → delivered d = [] → persisted (decision_actions d) = [] → routed id a a' d
  | routed_marked : ack_cache a' = {[id]} ∪ ack_cache a → ack_post_restart_mode a' = ack_post_restart_mode a →
      delivered d = [] ∨ delivered d = [id] → (∀ x, x ∈ persisted (decision_actions d) → x = id) →
      id ∈ ack_cache a ∨ id ∈ persisted (decision_actions d) → routed id a a' d.

Lemma decrypt_keeps_acks c payload lm w :
  wp True (decrypt_wire_payload c payload) (lm, w)
    (λ x sw, lm_ack_store sw.1 = lm_ack_store lm ∧ persisted x.2 = []) (λ _ sw, lm_ack_store sw.1 = lm_ack_store lm).
Proof.
  unfold decrypt_wire_payload. wp_step. apply wp_lift_cases; [|done..]. intros dec _. wp_step.
  apply wp_lift_cases; [|done..]. intros m _. wp_step.
  assert (∀ lm' r, (∃ sec, read_outcome c m sec lm lm' r) → lm_ack_store lm' = lm_ack_store lm) as Ho.
  { intros lm' r (sec & Ho). pose proof (on_kept _ _ _ (read_only _ _ _ _ _ _ Ho)) as Hk. unfold kept in Hk. congruence. }
  eapply wp_mono; [apply wp_decrypt|..].
  - intros p [lm' w'] (sec & _ & Hr). cbn [fst] in *. do 3 wp_step. cbv beta.
    apply wp_lift_cases; [|intros; apply (Ho lm' (Ok p)); by exists sec|done]. intros data _. wp_step. split; [|done].
    apply (Ho lm' (Ok p)). by exists sec.
  - intros e [lm' w'] [->|Hr]; cbn [fst] in *; [done|by eapply Ho].
Qed.

Lemma wp_lifecycle {A} (m : method SessionLifecycleManager LifecycleError A) r lm w Q R :
  wp True m (lm, w) (λ x sw, Q x ((r, sw.1), sw.2)) (λ e sw, R e ((r, sw.1), sw.2)) →
  wp True (on_lifecycle m) ((r, lm), w) Q R.
Proof. unfold wp, on_lifecycle. cbn [fst snd]. by destruct (m (lm, w)) as [[lm' w'] [x|e|]]. Qed.

Lemma wp_mark id r lm w Q (R : LifecycleError → (MessageRouter * SessionLifecycleManager) * World → Prop) :
  (∀ acts a' lm' w', lm_ack_store lm' = a' → ack_cache a' = {[id]} ∪ ack_cache (lm_ack_store lm) →
    ack_post_restart_mode a' = ack_post_restart_mode (lm_ack_store lm) → (∀ x, x ∈ persisted acts → x = id) →
    id ∈ ack_cache (lm_ack_store lm) ∨ id ∈ persisted acts → Q acts ((r, lm'), w')) →
  wp True (on_lifecycle (on_acks (mark_processed id))) ((r, lm), w) Q R.
Proof.
  intros HQ. apply wp_lifecycle. unfold wp, on_acks. cbn [fst snd].
  pose proof (wp_mark_processed (E:=LifecycleError) id (lm_ack_store lm) w
    (λ acts sw, ack_cache sw.1 = {[id]} ∪ ack_cache (lm_ack_store lm) ∧ ack_post_restart_mode sw.1 = ack_post_restart_mode (lm_ack_store lm) ∧
      (∀ x, x ∈ persisted acts → x = id) ∧ (id ∈ ack_cache (lm_ack_store lm) ∨ id ∈ persisted acts)) (λ _ _, False)) as Hm.
  unfold wp in Hm. destruct (mark_processed id (lm_ack_store lm, w)) as [[a' w'] [acts|e|]].
  - destruct Hm as (Hc & Hp & Hx & Hi); [|intros; cbn; split_and!; try done; [set_solver|right; set_solver]|by eapply HQ].
    intros Hin. cbn. split_and!; try done; [set_solver|by intros x ?%elem_of_nil|by left].
  - exfalso. apply Hm; intros; [|cbn; split_and!; try done; [set_solver|right; set_solver]].
    cbn. split_and!; try done; [set_solver|by intros x ?%elem_of_nil|by left].
  - done.
Qed.

Lemma wp_route_after msg r lm w :
  wp True (route_after_ack_check msg) ((r, lm), w)
    (λ d sw, requeued msg r sw.1.1 ∧ concerns msg d ∧ routed (im_message_id msg) (lm_ack_store lm) (lm_ack_store sw.1.2) d) (λ _ _, False).
Proof.
  assert (∀ lm', lm_ack_store lm' = lm_ack_store lm → ∀ w', wp True (enqueue_or_reject msg) ((r, lm'), w')
    (λ d sw, requeued msg r sw.1.1 ∧ concerns msg d ∧ routed (im_message_id msg) (lm_ack_store lm) (lm_ack_store sw.1.2) d) (λ _ _, False)) as Henq.
  { intros lm' Ha w'. apply (wp_weaken_panic False); [done|]. eapply wp_mono; [apply wp_enqueue| |done].
    intros d [[r' lm''] w''] (E & Hr & Hcon & Hd & Hacts). cbn [fst snd] in *. subst. split_and!; [done|done|]. apply routed_quiet; [done|done|]. by rewrite Hacts. }
  unfold route_after_ack_check. cbv zeta. do 2 wp_step. cbn [fst snd]. destruct (opens_session msg && _); [by apply Henq|].
  do 2 wp_step. apply wp_lifecycle. eapply wp_mono; [apply decrypt_keeps_acks|..].
  - intros [p acts] [lm' w'] [Ha Hp]. cbn [fst snd] in *. wp_step. apply wp_mark. intros acts' a' lm'' w'' Hl Hc Hpm Hx Hi. rewrite Ha in *.
    wp_step. split_and!; [apply requeued_same|done|]. apply routed_marked; cbn; unfold persisted in *; rewrite ?omap_app, ?Hp, ?app_nil_r, ?Hl; try done. by right.
  - intros e [lm' w'] Ha. cbn [fst snd] in *. cbv beta match. destruct (key_consumed e); [|destruct (opens_session msg)].
    + wp_step. apply wp_mark. intros acts' a' lm'' w'' Hl Hc Hpm Hx Hi. rewrite Ha in *. wp_step. split_and!; [apply requeued_same|done|].
      apply routed_marked; cbn; rewrite ?Hl; try done. by left.
    + by apply Henq.
    + wp_step. split_and!; [apply requeued_same|done|]. by apply routed_quiet.
Qed.

(** ** The process and its restarts *)

(** The router and the manager of the running process, the message ids in the
    platform's store, those that were there when the process started, and the ids
    of the messages delivered so far. *)
Record system := mkSystem {
  sy_router : MessageRouter;
  sy_lifecycle : SessionLifecycleManager;
  sy_launch : gset string;
  sy_db : gset string;
  sy_log : list string;
}.

(** The platform carries out a decision. *)
Definition perform (d : RoutingDecision) (db : gset string) : gset string := list_to_set (persisted (decision_actions d)) ∪ db.
Definition performed (ds : list RoutingDecision) (r : MessageRouter) (lm : SessionLifecycleManager) (y : system) : system :=
  mkSystem r lm (sy_launch y) (foldl (λ db d, perform d db) (sy_db y) ds) (foldl (λ log d, delivered d ++ log) (sy_log y) ds).

Definition first_launch (lm : SessionLifecycleManager) : system := mkSystem router_new lm ∅ ∅ [].

Inductive sys_step : system → system → Prop :=
  | sys_receive y msg w r lm w' d :
      route_message msg ((sy_router y, sy_lifecycle y), w) = (((r, lm), w'), Ok d) → sys_step y (performed [d] r lm y)
  | sys_answer y id b w r lm w' d :
      (id ∈ sy_launch y → b = true) →
      resume_after_ack_check id b ((sy_router y, sy_lifecycle y), w) = (((r, lm), w'), Ok d) → sys_step y (performed [d] r lm y)
  | sys_drain y c w r lm w' ds :
      drain_pending c ((sy_router y, sy_lifecycle y), w) = (((r, lm), w'), Ok ds) → sys_step y (performed ds r lm y)
  | sys_mark y id w lm w' acts :
      on_acks (mark_processed id) (sy_lifecycle y, w) = ((lm, w'), Ok acts) →
      sys_step y (performed [Duplicate id acts] (sy_router y) lm y)
  | sys_manage y lm : lm_ack_store lm = lm_ack_store (sy_lifecycle y) → sys_step y (performed [] (sy_router y) lm y)
  | sys_remove y c id : sys_step y (performed [] (remove_pending c id (sy_router y)) (sy_lifecycle y) y)
  | sys_take y c : sys_step y (performed [] (take_pending c (sy_router y)).1 (sy_lifecycle y) y)
  | sys_forget y c : sys_step y (performed [] (forget_contact c (sy_router y)) (sy_lifecycle y) y)
  | sys_restart y lm n : lm_ack_store lm = restore_cache [] (ack_new n) →
      sys_step y (mkSystem router_new lm (sy_db y) (sy_db y) (sy_log y)).

(** Every id delivered is in the cache or was in the store at launch; what waits
    for an answer was not delivered by this process. *)
Record once (checks : gmap string IncomingMessage) (a : AckStore) (launch db : gset string) (log : list string) : Prop := {
  on_log : NoDup log;
  on_seen : ∀ id, id ∈ log → id ∈ ack_cache a ∨ id ∈ launch;
  on_cache : ack_cache a ⊆ db;
  on_launch : launch ⊆ db;
  on_first : ack_post_restart_mode a = false → launch = ∅ ∧ checks = ∅;
  on_checks : ∀ id m, checks !! id = Some m → im_message_id m = id ∧ (id ∈ log → id ∈ launch);
}.
Definition sys_inv (y : system) : Prop :=
  once (mr_pending_ack_checks (sy_router y)) (lm_ack_store (sy_lifecycle y)) (sy_launch y) (sy_db y) (sy_log y).

(** A decision for a message that was not delivered and does not wait. *)
Lemma once_routed id checks a a' d launch db log :
  once checks a launch db log → routed id a a' d → id ∉ log → checks !! id = None →
  once checks a' launch (perform d db) (delivered d ++ log).
Proof.
  intros [Hl Hs Hc Hla Hf Hch] Hr Hn Hno. unfold perform. destruct Hr as [-> Hd Hp|Hc' Hm Hd Hx Hi].
  - rewrite Hd, Hp. split; try done; cbn; set_solver.
  - split.
    + destruct Hd as [->| ->]; [done|]. by apply NoDup_cons.
    + intros x Hin. rewrite Hc'. assert (x = id ∨ x ∈ log) as [->|Hx'] by (destruct Hd as [Hd|Hd]; rewrite Hd in Hin; set_solver); [set_solver|].
      destruct (Hs x Hx'); set_solver.
    + rewrite Hc'. set_solver.
    + set_solver.
    + by rewrite Hm.
    + intros x m Hxm. destruct (Hch x m Hxm) as [Hid Hxl]. split; [done|]. intros Hin. apply Hxl.
      destruct Hd as [Hd|Hd]; rewrite Hd in Hin; cbn in Hin; [done|]. apply elem_of_cons in Hin as [->|?]; [congruence|done].
Qed.

Lemma once_route msg r lm w launch db log :
  once (mr_pending_ack_checks r) (lm_ack_store lm) launch db log →
  wp True (route_message msg) ((r, lm), w)
    (λ d sw, once (mr_pending_ack_checks sw.1.1) (lm_ack_store sw.1.2) launch (perform d db) (delivered d ++ log)) (λ _ _, False).
Proof.
  intros Ho. pose proof Ho as [Hl Hs Hc Hla Hf Hch]. unfold route_message, is_processed. do 2 wp_step. cbn [fst snd].
  case_bool_decide as Hin; [|destruct (ack_post_restart_mode (lm_ack_store lm)) eqn:Hm].
  - wp_step. cbn. unfold perform. cbn. rewrite union_empty_l_L. done.
  - unfold on_router. wp_steps. cbn. unfold perform. cbn. rewrite union_empty_l_L. split; try done; [by rewrite Hm|].
    intros id m. destruct (decide (id = im_message_id msg)) as [->|Hne]; [rewrite lookup_insert_eq; intros [= <-]|rewrite lookup_insert_ne by done; apply Hch].
    split; [done|]. intros Hlog. by destruct (Hs _ Hlog).
  - destruct (Hf eq_refl) as [-> Hno]. eapply wp_mono; [apply wp_route_after| |done].
    intros d [[r' lm'] w'] (Hr & _ & Hd). cbn [fst snd] in *. rewrite (rq_checks _ _ _ Hr). eapply once_routed; [done|done| |by rewrite Hno].
    intros Hlog. destruct (Hs _ Hlog); [done|set_solver].
Qed.

Lemma once_resume id b r lm w launch db log :
  once (mr_pending_ack_checks r) (lm_ack_store lm) launch db log → (id ∈ launch → b = true) →
  wp True (resume_after_ack_check id b) ((r, lm), w)
    (λ d sw, once (mr_pending_ack_checks sw.1.1) (lm_ack_store sw.1.2) launch (perform d db) (delivered d ++ log)) (λ _ _, False).
Proof.
  intros Ho Hb. pose proof Ho as [Hl Hs Hc Hla Hf Hch]. unfold resume_after_ack_check, on_router. do 2 wp_step. cbn [fst snd].
  destruct (mr_pending_ack_checks r !! id) as [msg|] eqn:Hmsg; [|wp_step; cbn; unfold perform; cbn; by rewrite union_empty_l_L].
  destruct (Hch id msg Hmsg) as [Hid Hlaunch]. do 2 wp_step. cbn [fst snd].
  set (r1 := r <| mr_pending_ack_checks := delete id (mr_pending_ack_checks r) |>).
  assert (once (mr_pending_ack_checks r1) (lm_ack_store lm) launch db log) as Ho1.
  { split; try done.
    - intros Hm. destruct (Hf Hm) as [? Hno]. split; [done|]. cbn. by rewrite Hno, delete_empty.
    - intros x m. cbn. intros [_ Hx]%lookup_delete_Some. by apply Hch. }
  destruct b; [wp_step; cbn; unfold perform; cbn; by rewrite union_empty_l_L|].
  eapply wp_mono; [apply wp_route_after| |done]. intros d [[r' lm'] w'] (Hr & _ & Hd). cbn [fst snd] in *. rewrite (rq_checks _ _ _ Hr).
  rewrite Hid in Hd. eapply (once_routed id); [done|done| |cbn; apply lookup_delete_eq].
  intros Hlog. discriminate (Hb (Hlaunch Hlog)).
Qed.

Lemma once_loop q r lm w launch db log :
  once (mr_pending_ack_checks r) (lm_ack_store lm) launch db log →
  wp True (drain_loop q) ((r, lm), w)
    (λ x sw, once (mr_pending_ack_checks sw.1.1) (lm_ack_store sw.1.2) launch
       (foldl (λ db d, perform d db) db x.1) (foldl (λ log d, delivered d ++ log) log x.1)) (λ _ _, False).
Proof.
  revert r lm w db log. induction q as [|msg q IH]; intros r lm w db log Ho; cbn [drain_loop]; [by wp_step|].
  wp_step. eapply wp_mono; [by apply (once_route msg)| |done]. intros d [[r1 lm1] w1] Ho1. cbn [fst snd] in Ho1.
  assert (wp True (drain_loop q ≫= λ '(results, rest), mret (d :: results, rest)) ((r1, lm1), w1)
    (λ x sw, once (mr_pending_ack_checks sw.1.1) (lm_ack_store sw.1.2) launch
       (foldl (λ db d, perform d db) db x.1) (foldl (λ log d, delivered d ++ log) log x.1)) (λ _ _, False)) as Hrest.
  { wp_step. eapply wp_mono; [by apply IH| |done]. intros [ds rest] [[r2 lm2] w2] Ho2. by wp_step. }
  by destruct d; first [exact Hrest|wp_step].
Qed.

Lemma once_drain c r lm w launch db log :
  once (mr_pending_ack_checks r) (lm_ack_store lm) launch db log →
  wp True (drain_pending c) ((r, lm), w)
    (λ ds sw, once (mr_pending_ack_checks sw.1.1) (lm_ack_store sw.1.2) launch
       (foldl (λ db d, perform d db) db ds) (foldl (λ log d, delivered d ++ log) log ds)) (λ _ _, False).
Proof.
  intros Ho. unfold drain_pending, on_router. cbv zeta. do 2 wp_step. cbn [fst snd]. do 3 wp_step. cbn [fst snd].
  eapply wp_mono; [by apply (once_loop _ _ lm _ launch db log)| |done]. intros [ds rest] [[r1 lm1] w1] Ho1. cbn [fst snd] in *.
  wp_step. destruct rest; wp_steps; exact Ho1.
Qed.

Lemma once_mark id lm w lm' w' acts r launch db log :
  on_acks (mark_processed id) (lm, w) = ((lm', w'), Ok acts) →
  once (mr_pending_ack_checks r) (lm_ack_store lm) launch db log →
  once (mr_pending_ack_checks r) (lm_ack_store lm') launch (perform (Duplicate id acts) db) log.
Proof.
  intros Hrun [Hl Hs Hc Hla Hf Hch].
  pose proof (wp_mark id r lm w (λ acts sw, once (mr_pending_ack_checks r) (lm_ack_store sw.1.2) launch (perform (Duplicate id acts) db) log)
    (λ _ _, True)) as Hw.
  unfold wp, on_lifecycle in Hw. cbn [fst snd] in Hw. rewrite Hrun in Hw. apply Hw. clear Hw Hrun.
  intros acts' a' lm'' w'' Hl' Hc' Hm Hx Hi. cbn [fst snd]. rewrite Hl'. unfold perform. cbn. split; try done.
  - intros x Hin. rewrite Hc'. destruct (Hs x Hin); set_solver.
  - rewrite Hc'. set_solver.
  - set_solver.
  - by rewrite Hm.
Qed.

Lemma once_fewer checks' checks a launch db log :
  once checks a launch db log → checks' ⊆ checks → once checks' a launch db log.
Proof.
  intros [Hl Hs Hc Hla Hf Hch] Hsub. split; try done.
  - intros Hm. destruct (Hf Hm) as [? ->]. split; [done|]. apply map_eq. intros i. rewrite lookup_empty.
    destruct (checks' !! i) eqn:Hi; [|done]. apply (lookup_weaken _ _ _ _ Hi) in Hsub. by rewrite lookup_empty in Hsub.
  - intros id m Hid. apply Hch. by eapply lookup_weaken.
Qed.

Lemma step_once y y' : sys_step y y' → sys_inv y → sys_inv y'.
Proof.
  unfold sys_inv. intros [y1 msg w r lm w' d Hr|y1 id b w r lm w' d Hb Hr|y1 c w r lm w' ds Hr|y1 id w lm w' acts Hr|y1 lm Ha|y1 c id|y1 c|y1 c|y1 lm n Ha] Ho; cbn.
  - pose proof (once_route msg _ _ w _ _ _ Ho) as Hw. unfold wp in Hw. by rewrite Hr in Hw.
  - pose proof (once_resume id b _ _ w _ _ _ Ho Hb) as Hw. unfold wp in Hw. by rewrite Hr in Hw.
  - pose proof (once_drain c _ _ w _ _ _ Ho) as Hw. unfold wp in Hw. by rewrite Hr in Hw.
  - by eapply once_mark.
  - by rewrite Ha.
  - eapply once_fewer; [done|]. unfold remove_pending. case_match; [|done]. by case_match.
  - by eapply once_fewer.
  - eapply once_fewer; [done|]. apply map_filter_subseteq.
  - destruct Ho as [Hl Hs Hc Hla Hf Hch]. rewrite Ha. split; cbn; try done.
    intros id Hin. right. destruct (Hs id Hin); set_solver.
Qed.

(** C4: A message is delivered at most once. Whatever arrives, in whatever order
    and however often, whatever is queued, drained, forgotten or recorded meanwhile,
    and however often the process restarts, no message id is handed to the
    application twice: as long as the platform carries out [PersistAck], answers a
    lookup truthfully for what it held when the process started - an answer may be
    older than what it recorded since - and keeps the records. *)
Theorem delivered_once lm n y :
  lm_ack_store lm = ack_new n → rtc sys_step (first_launch lm) y → NoDup (sy_log y).
Proof.
  intros Ha Hy. enough (sys_inv y) as Hi by apply Hi. assert (sys_inv (first_launch lm)) as Hf.
  { unfold sys_inv. cbn. rewrite Ha. split; cbn; try done; [apply NoDup_nil_2|intros id ?%elem_of_nil; done]. }
  revert Hf. induction Hy as [|y1 y2 y3 Hs _ IH]; [done|]. intros Hi. apply IH. by eapply step_once.
Qed.

(** ** Draining *)

(** A message routed during a drain. *)
Lemma wp_route msg r lm w :
  wp True (route_message msg) ((r, lm), w)
    (λ d sw, concerns msg d ∧ mr_max_pending_per_user sw.1.1 = mr_max_pending_per_user r ∧
       (∀ c, c ≠ im_contact_id msg → queue_of sw.1.1 c = queue_of r c) ∧
       queue_of sw.1.1 (im_contact_id msg) `sublist_of` queue_of r (im_contact_id msg) ++ [msg] ∧
       (len (queue_of r (im_contact_id msg)) ≤ mr_max_pending_per_user r → len (queue_of sw.1.1 (im_contact_id msg)) ≤ mr_max_pending_per_user r))
    (λ _ _, False).
Proof.
  unfold route_message. do 2 wp_step. cbn [fst snd]. destruct (is_processed _ _).
  - wp_step. split_and!; try done. by apply sublist_inserts_r.
  - unfold on_router. wp_steps. split_and!; try done. by apply sublist_inserts_r.
  - eapply wp_mono; [apply wp_route_after| |done]. intros d [[r' lm'] w'] ([Hm _ Ho Hs Hb] & Hcon & _). by split_and!.
Qed.

Definition is_error (d : RoutingDecision) : bool := match d with DecryptionErrorNeeded _ _ _ _ _ _ => true | _ => false end.

Lemma wp_drain_loop c q r lm w :
  Forall (λ m, im_contact_id m = c) q →
  wp True (drain_loop q) ((r, lm), w)
    (λ x sw, mr_max_pending_per_user sw.1.1 = mr_max_pending_per_user r ∧ (∀ c', c' ≠ c → queue_of sw.1.1 c' = queue_of r c') ∧
       ∃ handled, q = handled ++ x.2 ∧ Forall2 concerns handled x.1 ∧ (x.2 ≠ [] → ∃ d, last x.1 = Some d ∧ is_error d = true) ∧
         queue_of sw.1.1 c `sublist_of` queue_of r c ++ handled) (λ _ _, False).
Proof.
  intros Hq. revert r lm w. induction Hq as [|msg q Hmsg _ IH]; intros r lm w; cbn [drain_loop].
  { wp_step. split_and!; try done. exists []. split_and!; [done|constructor|done|]. by rewrite app_nil_r. }
  wp_step. eapply wp_mono; [apply wp_route| |done]. intros d [[r1 lm1] w1] (Hcon & Hm & Ho & Hs & _). cbn [fst snd] in *. rewrite Hmsg in *.
  destruct (is_error d) eqn:He.
  { destruct d; try done. wp_step. split_and!; try done. exists [msg]. split_and!; [done|constructor; [done|constructor]| |done]. intros _. by eexists. }
  assert (wp True (drain_loop q ≫= λ '(results, rest), mret (d :: results, rest)) ((r1, lm1), w1)
    (λ x sw, mr_max_pending_per_user sw.1.1 = mr_max_pending_per_user r ∧ (∀ c', c' ≠ c → queue_of sw.1.1 c' = queue_of r c') ∧
       ∃ handled, msg :: q = handled ++ x.2 ∧ Forall2 concerns handled x.1 ∧ (x.2 ≠ [] → ∃ d, last x.1 = Some d ∧ is_error d = true) ∧
         queue_of sw.1.1 c `sublist_of` queue_of r c ++ handled) (λ _ _, False)) as Hrest.
  { wp_step. eapply wp_mono; [apply IH| |done]. intros [ds rest] [[r2 lm2] w2] (Hm2 & Ho2 & handled & -> & Hf & Hlast & Hs2).
    wp_step. cbn [fst snd] in *. split_and!; [congruence|intros c' Hc; by rewrite Ho2, Ho|]. exists (msg :: handled).
    split_and!; [done|by constructor| |].
    - intros Hne. destruct (Hlast Hne) as (d' & Hd' & He'). exists d'. split; [|done]. destruct ds; [done|]. by rewrite <- Hd'.
    - etrans; [exact Hs2|]. rewrite (cons_middle msg), app_assoc. by apply sublist_app. }
  by destruct d.
Qed.

Lemma foldr_cons {A} (l q : list A) : foldr cons q l = l ++ q.
Proof. induction l; cbn; congruence. Qed.
Lemma queue_requeue c l r : queue_of (requeue_tail c l r) c = l ++ queue_of r c.
Proof. unfold requeue_tail. by rewrite queue_set, foldr_cons. Qed.
Lemma queue_delete c r c' :
  queue_of (r <| mr_pending_queues := delete c (mr_pending_queues r) |>) c' = if decide (c' = c) then [] else queue_of r c'.
Proof. unfold queue_of. cbn. case_decide; [subst; by rewrite lookup_delete_eq|by rewrite lookup_delete_ne]. Qed.

Lemma wp_drain c r lm w :
  Forall (λ m, im_contact_id m = c) (queue_of r c) →
  wp True (drain_pending c) ((r, lm), w)
    (λ ds sw, mr_max_pending_per_user sw.1.1 = mr_max_pending_per_user r ∧ (∀ c', c' ≠ c → queue_of sw.1.1 c' = queue_of r c') ∧
       ∃ handled rest again, queue_of r c = handled ++ rest ∧ Forall2 concerns handled ds ∧
         (rest ≠ [] → ∃ d, last ds = Some d ∧ is_error d = true) ∧
         queue_of sw.1.1 c = rest ++ again ∧ again `sublist_of` handled) (λ _ _, False).
Proof.
  intros Hq. unfold drain_pending, on_router. cbv zeta. do 2 wp_step. cbn [fst snd]. do 3 wp_step. cbn [fst snd].
  set (r0 := r <| mr_pending_queues := delete c (mr_pending_queues r) |>).
  eapply wp_mono; [by apply (wp_drain_loop c)| |done]. intros [ds rest] [[r1 lm1] w1] (Hm & Ho & handled & Hh & Hf & Hl & Hs). cbn [fst snd] in *.
  assert (queue_of r0 c = []) as Hr0 by (unfold r0; rewrite queue_delete; by rewrite decide_True).
  rewrite Hr0 in Hs. cbn in Hs. wp_step.
  assert (∀ c', c' ≠ c → queue_of r1 c' = queue_of r c') as Ho'.
  { intros c' Hc. rewrite Ho by done. unfold r0. rewrite queue_delete. by rewrite decide_False. }
  destruct rest as [|m rest]; wp_steps; cbn [fst snd].
  - split_and!; [done|done|]. by exists handled, [], (queue_of r1 c).
  - split_and!; [done|intros c' Hc; unfold requeue_tail; change (queue_of (prune_arrivals ?x) ?y) with (queue_of x y); rewrite queue_set_ne by done; by apply Ho'|].
    exists handled, (m :: rest), (queue_of r1 c). split_and!; try done. apply queue_requeue.
Qed.

(** C29: Draining loses nothing and keeps the order. Once a session is open, the
    waiting messages are routed oldest first, each gets a decision of its own, and
    the drain stops only at one that nothing held reads; those behind it are back at
    the head of the queue in their order, before the ones that had to wait again. The
    queues of other contacts are as they were, and this one is no longer. *)
Theorem drain_keeps_order c r lm w r' lm' w' ds :
  Forall (λ m, im_contact_id m = c) (pending_messages r c) →
  drain_pending c ((r, lm), w) = (((r', lm'), w'), Ok ds) →
  (∀ c', c' ≠ c → pending_messages r' c' = pending_messages r c') ∧ pending_count r' c ≤ pending_count r c ∧
  ∃ handled rest again, pending_messages r c = handled ++ rest ∧ Forall2 concerns handled ds ∧
    (rest ≠ [] → ∃ d, last ds = Some d ∧ is_error d = true) ∧
    pending_messages r' c = rest ++ again ∧ again `sublist_of` handled.
Proof.
  intros Hq Hd. pose proof (wp_drain c r lm w Hq) as Hw. unfold wp in Hw. rewrite Hd in Hw. cbn [fst] in Hw.
  destruct Hw as (_ & Ho & handled & rest & again & Hh & Hf & Hl & Hr & Hs). split_and!; [done| |by exists handled, rest, again].
  unfold pending_count. rewrite Hr, Hh, !len_app. apply sublist_length in Hs. unfold len. lia.
Qed.

(** ** The queues *)

(** Every queue holds messages of its contact, and a hundred at most. *)
Record router_ok (r : MessageRouter) : Prop := {
  ok_max : mr_max_pending_per_user r = MAX_PENDING_PER_USER;
  ok_contact : ∀ c, Forall (λ m, im_contact_id m = c) (queue_of r c);
  ok_bound : ∀ c, len (queue_of r c) ≤ MAX_PENDING_PER_USER;
}.

Lemma router_ok_new : router_ok router_new.
Proof. split; [done|..]; intros c; unfold queue_of; cbn; rewrite lookup_empty; [constructor|done]. Qed.

(** One queue changed, to a list of its messages that is not too long. *)
Lemma router_ok_queue c r r' :
  router_ok r → mr_max_pending_per_user r' = mr_max_pending_per_user r → (∀ c', c' ≠ c → queue_of r' c' = queue_of r c') →
  Forall (λ m, im_contact_id m = c) (queue_of r' c) → len (queue_of r' c) ≤ MAX_PENDING_PER_USER → router_ok r'.
Proof.
  intros [Hm Hc Hb] Hm' Ho Hq Hl. split; [congruence|..]; intros c'; destruct (decide (c' = c)) as [->|Hne]; try done; by rewrite Ho.
Qed.
Lemma router_ok_routed msg r r' :
  router_ok r → mr_max_pending_per_user r' = mr_max_pending_per_user r → (∀ c, c ≠ im_contact_id msg → queue_of r' c = queue_of r c) →
  queue_of r' (im_contact_id msg) `sublist_of` queue_of r (im_contact_id msg) ++ [msg] →
  (len (queue_of r (im_contact_id msg)) ≤ mr_max_pending_per_user r → len (queue_of r' (im_contact_id msg)) ≤ mr_max_pending_per_user r) →
  router_ok r'.
Proof.
  intros Hr Hm Ho Hs Hb. pose proof Hr as [Hm' Hc Hl]. apply (router_ok_queue (im_contact_id msg) r); [done..| |].
  - apply Forall_forall. intros m Hin. apply (elem_of_sublist _ _ _ Hin) in Hs. apply elem_of_app in Hs as [Hin'|Hin'].
    + specialize (Hc (im_contact_id msg)). rewrite Forall_forall in Hc. by apply Hc.
    + by apply list_elem_of_singleton in Hin' as ->.
  - rewrite <- Hm'. apply Hb. rewrite Hm'. apply Hl.
Qed.
(** A shorter queue of the same contact. *)
Lemma router_ok_shorter c r r' :
  router_ok r → mr_max_pending_per_user r' = mr_max_pending_per_user r → (∀ c', c' ≠ c → queue_of r' c' = queue_of r c') →
  queue_of r' c `sublist_of` queue_of r c → router_ok r'.
Proof.
  intros Hr Hm Ho Hs. pose proof Hr as [Hm' Hc Hl]. apply (router_ok_queue c r); [done..| |].
  - by eapply sublist_forall.
  - specialize (Hl c). apply sublist_length in Hs. unfold len in *. lia.
Qed.
Lemma router_ok_delete c r : router_ok r → router_ok (r <| mr_pending_queues := delete c (mr_pending_queues r) |>).
Proof.
  intros Hr. apply (router_ok_shorter c r); [done|done| |]; [intros c' Hc; rewrite queue_delete; by rewrite decide_False|].
  rewrite queue_delete, decide_True by done. apply sublist_nil_l.
Qed.
Lemma router_ok_prune r : router_ok r → router_ok (prune_arrivals r).
Proof. intros [Hm Hc Hl]. by split. Qed.
Lemma router_ok_remove c id r : router_ok r → router_ok (remove_pending c id r).
Proof.
  intros Hr. unfold remove_pending. apply router_ok_prune. destruct (mr_pending_queues r !! c) as [q|] eqn:Hq; [|done].
  set (q' := retain _ q). assert (q' `sublist_of` queue_of r c) as Hs by (unfold queue_of; rewrite Hq; apply sublist_filter).
  assert (router_ok (set_queue c q' r)) as Hset.
  { apply (router_ok_shorter c r); [done|done|intros; by apply queue_set_ne|by rewrite queue_set]. }
  destruct q'; [exact (router_ok_delete c r Hr)|exact Hset].
Qed.

Lemma wp_resume_ok id b r lm w :
  router_ok r → wp True (resume_after_ack_check id b) ((r, lm), w) (λ _ sw, router_ok sw.1.1) (λ _ _, False).
Proof.
  intros Ho. unfold resume_after_ack_check, on_router. do 2 wp_step. cbn [fst snd].
  destruct (mr_pending_ack_checks r !! id) as [msg|]; [|by wp_step]. do 2 wp_step. cbn [fst snd].
  set (r1 := r <| mr_pending_ack_checks := delete id (mr_pending_ack_checks r) |>). assert (router_ok r1) as Ho1 by (by destruct Ho).
  destruct b; [by wp_step|]. eapply wp_mono; [apply wp_route_after| |done]. intros d [[r' lm'] w'] ([Hm _ Hoth Hs Hl] & _).
  by apply (router_ok_routed msg r1).
Qed.

Lemma step_router_ok y y' : sys_step y y' → router_ok (sy_router y) → router_ok (sy_router y').
Proof.
  intros [y1 msg w r lm w' d Hr|y1 id b w r lm w' d Hb Hr|y1 c w r lm w' ds Hr|y1 id w lm w' acts Hr|y1 lm Ha|y1 c id|y1 c|y1 c|y1 lm n Ha] Ho; cbn; try done.
  - pose proof (wp_route msg (sy_router y1) (sy_lifecycle y1) w) as Hw. unfold wp in Hw. rewrite Hr in Hw. cbn [fst] in Hw.
    destruct Hw as (_ & Hm & Hoth & Hs & Hl). by eapply (router_ok_routed msg).
  - pose proof (wp_resume_ok id b (sy_router y1) (sy_lifecycle y1) w Ho) as Hw. unfold wp in Hw. by rewrite Hr in Hw.
  - pose proof (wp_drain c (sy_router y1) (sy_lifecycle y1) w (ok_contact _ Ho c)) as Hw. unfold wp in Hw. rewrite Hr in Hw. cbn [fst] in Hw.
    destruct Hw as (Hm & Hoth & handled & rest & again & Hh & _ & _ & Hq & Hs). pose proof Ho as [Hmax Hc Hl].
    specialize (Hc c). specialize (Hl c). rewrite Hh in Hc, Hl. apply Forall_app in Hc as [Hc1 Hc2].
    apply (router_ok_queue c (sy_router y1)); [done|done|done|..]; rewrite Hq.
    + apply Forall_app. split; [done|]. by eapply sublist_forall.
    + rewrite len_app in *. apply sublist_length in Hs. unfold len in *. lia.
  - by apply router_ok_remove.
  - by apply router_ok_prune, router_ok_delete.
  - destruct (router_ok_prune _ (router_ok_delete c _ Ho)) as [Hm Hc Hl]. by split.
Qed.

(** C30: The router is well formed at all times. Whatever arrives, is answered,
    drained, taken or forgotten, and across restarts, every message in a contact's
    queue is a message of that contact, and no queue is longer than a hundred: a
    device that floods the queue cannot make it grow. *)
Theorem router_well_formed lm y : rtc sys_step (first_launch lm) y → router_ok (sy_router y).
Proof.
  intros Hy. assert (router_ok (sy_router (first_launch lm))) as Hf by apply router_ok_new.
  revert Hf. induction Hy as [|y1 y2 y3 Hs _ IH]; [done|]. intros Hi. apply IH. by eapply step_router_ok.
Qed.
End router_props.

(** ** Bob's answer, arriving twice *)

#[local] Instance toy_millis : MillisClock := {| clock_ms w := let (w, t) := clock w in (w, t * 1000) |}.
#[local] Instance write_only : MessagePack CfeSessionStateV1 := {| rmp_to_vec _ := Ok []; rmp_from_slice _ := Err "not read back"%string |}.
#[local] Instance router_json : LegacySessionJson := {| session_from_json _ := Err "no json"%string |}.
#[local] Instance decision_inhabited : Inhabited RoutingDecision := populate (RoutingError EmptyString).

Definition demo_wire : bytes :=
  result (pack_message (em_ad_version demo_reply) (em_dh_public_key demo_reply) (em_message_number demo_reply) 0 0
    (em_previous_chain_length demo_reply) (em_suite_id demo_reply) None None (em_identity_proof_ciphertext demo_reply)
    (em_nonce demo_reply ++ em_ciphertext demo_reply) (em_pq_message_epoch demo_reply) (em_pq_key_index demo_reply)
    (em_pq_ratchet_field demo_reply)).
Definition demo_incoming : IncomingMessage := mkIncomingMessage "bob" demo_wire "m1" (em_message_number demo_reply) 0 None None.

(** A message arrives. *)
Definition received (msg : IncomingMessage) (w : World) (y : system) : system :=
  let x := route_message msg ((sy_router y, sy_lifecycle y), w) in performed [result x.2] x.1.1.1 x.1.1.2 y.
Lemma received_step msg w y :
  is_ok (route_message msg ((sy_router y, sy_lifecycle y), w)).2 = true → sys_step y (received msg w y).
Proof.
  intros Ho%result_ok. unfold received. cbv zeta.
  apply (sys_receive y msg w _ _ (route_message msg ((sy_router y, sy_lifecycle y), w)).1.2). rewrite <- Ho.
  by destruct (route_message msg _) as [[[r lm] w'] o].
Qed.

Lemma delivered_once_witness :
  let y := received demo_incoming (toy_world 600) (received demo_incoming (toy_world 500) (first_launch demo_lm0)) in NoDup (sy_log y) ∧ sy_log y = ["m1"%string].
Proof.
  intros y. split; [|vm_compute; reflexivity].
  apply (delivered_once demo_lm0 (30 * 24 * 60 * 60)).
  { unfold demo_lm0, lifecycle_new. cbn [lm_ack_store]. reflexivity. }
  refine (rtc_l sys_step _ _ _ (received_step demo_incoming (toy_world 500) (first_launch demo_lm0) _)
    (rtc_once _ _ (received_step demo_incoming (toy_world 600) (received demo_incoming (toy_world 500) (first_launch demo_lm0)) _)));
    vm_compute; reflexivity.
Defined.

Lemma router_well_formed_witness : router_ok (sy_router (received demo_incoming (toy_world 500) (first_launch demo_lm0))).
Proof.
  apply (router_well_formed demo_lm0). refine (rtc_once _ _ (received_step demo_incoming (toy_world 500) (first_launch demo_lm0) _)).
  vm_compute. reflexivity.
Defined.

(** The answer waits with a payload that does not parse and a message behind it. *)
Definition demo_broken : IncomingMessage := mkIncomingMessage "bob" [] "m2" 1 0 None None.
Definition demo_behind : IncomingMessage := mkIncomingMessage "bob" demo_wire "m3" 2 0 None None.
Definition demo_waiting : MessageRouter := set_queue "bob" [demo_incoming; demo_broken; demo_behind] router_new.
#[local] Instance decisions_inhabited : Inhabited (list RoutingDecision) := populate [].
#[local] Abbreviation demo_drained := (drain_pending "bob" ((demo_waiting, demo_lm0), toy_world 500)).

Lemma drain_keeps_order_witness :
  (∃ handled rest again, [demo_incoming; demo_broken; demo_behind] = handled ++ rest ∧ Forall2 concerns handled (result demo_drained.2) ∧
    pending_messages demo_drained.1.1.1 "bob" = rest ++ again) ∧
  (im_message_id <$> pending_messages demo_drained.1.1.1 "bob") = ["m3"%string] ∧ length (result demo_drained.2) = 2%nat.
Proof.
  split; [|vm_compute; split; reflexivity].
  destruct (drain_keeps_order "bob" demo_waiting demo_lm0 (toy_world 500) demo_drained.1.1.1 demo_drained.1.1.2 demo_drained.1.2
    (result demo_drained.2)) as (_ & _ & handled & rest & again & Hh & Hf & _ & Hr & _).
  - apply Forall_forall. intros m Hm. unfold pending_messages, demo_waiting in Hm. rewrite queue_set in Hm.
    repeat (apply elem_of_cons in Hm as [->|Hm]; [done|]). by apply elem_of_nil in Hm.
  - assert (is_ok demo_drained.2 = true) as Ho%result_ok by (vm_compute; reflexivity). rewrite <- Ho.
    by destruct demo_drained as [[[r lm] w] o].
  - exists handled, rest, again. split_and!; [|exact Hf|exact Hr]. rewrite <- Hh. unfold pending_messages, demo_waiting.
    by rewrite queue_set.
Defined.
