(* ===== verification/PqPrekeyPlan.v ===== *)
(** * Signed Kyber prekeys

    Models the hybrid half of [KeyManager], [src/src/crypto/keys.rs] (the hybrid
    signature key, the upload records of the Kyber prekeys), the checks of
    [src/src/crypto/kyber_prekey_auth.rs], and the initiator's choice of a prekey,
    [src/src/orchestration/pq_prekey_plan.rs]. Shown: exactly which bundles yield a
    prekey, and that what a device uploads is chosen and decapsulates. *)

From stdpp Require Import gmap.
From S2P Require Import Prelude SuiteId Platform Wp Classic Toy Crates X3dh EnvelopeBook KyberPrekeys KeyManager Client HybridSuite.

(** ** The signed messages *)

Definition X3DH_SIGN_PROLOGUE : bytes := as_bytes "KonstruktX3DH-v1".
Definition HYBRID_ID_BIND_PROLOGUE : bytes := as_bytes "KonstruktHybridId-v1".
Definition KYBER_PREKEY_SIGN_SUITE_V2 : Z := 0x11.
Definition KYBER_SPK_MAX_AGE_SECS : Z := SPK_MAX_AGE_SECS.

Definition build_x3dh_sign_message (suite_id : Z) (public_key : bytes) : bytes :=
  X3DH_SIGN_PROLOGUE ++ [byte_of_Z 0] ++ [byte_of_Z suite_id] ++ public_key.
Definition build_hybrid_identity_bind_message (hybrid_public : bytes) : bytes :=
  HYBRID_ID_BIND_PROLOGUE ++ hybrid_public.
Definition kyber_prekey_sign_message_v2 (created_at : Z) (kyber_public : bytes) : bytes :=
  build_x3dh_sign_message KYBER_PREKEY_SIGN_SUITE_V2 (be_bytes 8 created_at ++ kyber_public).

(** ** The key manager's hybrid key *)

Record KyberPrekeyUpload := mkKyberPrekeyUpload {
  ku_key_id : Z;
  ku_public_key : bytes;
  ku_created_at : Z;
  ku_signature : bytes;
  ku_hybrid_signature : bytes;
}.

Section keys.
Context `{MlKem1024Crate} `{ClassicCrates} `{!MlDsaCrate} `{!CryptoProvider}.
#[local] Abbreviation km_method A := (method KeyManager ConstructError A).

Definition ensure_hybrid_signature_key : km_method bytes :=
  km ← self;
  match hybrid_sig_priv km with
  | None =>
      '(priv_key, pub_key) ← map_err_m Crypto (on_world hybrid_generate_signature_keys);
      update (λ km, km <| hybrid_sig_priv := Some priv_key |>);;
      mret pub_key
  | Some priv_key => lift (map_err Crypto (hybrid_private_to_public priv_key))
  end.

(** [and_then(|p| from_signature_private_to_public(p).ok())] *)
Definition hybrid_signature_public_key (km : KeyManager) : res ConstructError (option bytes) :=
  match hybrid_sig_priv km with
  | None => Ok None
  | Some p => match hybrid_private_to_public p with Ok pk => Ok (Some pk) | Err _ => Ok None | Panic => Panic end
  end.

Definition sign_hybrid (km : KeyManager) (message : bytes) : res ConstructError bytes :=
  priv_key ← ok_or (hybrid_sig_priv km) (other "Hybrid signature key not initialized (call ensure first)");
  map_err Crypto (hybrid_sign priv_key message).

Definition sign_hybrid_prekey (suite_id : Z) (public_key : bytes) : km_method bytes :=
  ensure_hybrid_signature_key;;
  km ← self;
  lift (sign_hybrid km (build_x3dh_sign_message suite_id public_key)).

Definition kyber_prekey_upload (km : KeyManager) (prekey : KyberPrekey) : res ConstructError KyberPrekeyUpload :=
  public_key ← map_err other (kp_public_key prekey);
  let message := kyber_prekey_sign_message_v2 (kp_created_at prekey) public_key in
  '(signing, _) ← ok_or (signing_key km) (other "Signing key not initialized");
  signature ← map_err Crypto (sign signing message);
  hybrid_signature ← sign_hybrid km message;
  Ok (mkKyberPrekeyUpload (kp_key_id prekey) public_key (kp_created_at prekey) signature hybrid_signature).

Definition require_hybrid_key (km : KeyManager) : res ConstructError unit :=
  pk ← hybrid_signature_public_key km;
  match pk with Some _ => Ok tt | None => Err (other "hybrid identity key missing") end.

(** A call on [self.kyber_prekeys], with [map_err(Self::crypto_err)]. *)
Definition on_kyber {A} (m : method KyberPrekeyStore string A) : km_method A := λ '(km, w),
  let '((ks, w), r) := m (kyber_prekeys km, w) in ((km <| kyber_prekeys := ks |>, w), map_err other r).

Definition generate_kyber_one_time_prekeys (count : nat) : km_method (list KyberPrekeyUpload) :=
  km ← self;
  lift (require_hybrid_key km);;
  now ← now;
  keys ← on_kyber (generate_otpks count now);
  km ← self;
  lift (mapM (kyber_prekey_upload km) keys).

Definition begin_kyber_spk_rotation : km_method KyberPrekeyUpload :=
  km ← self;
  lift (require_hybrid_key km);;
  now ← now;
  prekey ← on_kyber (begin_spk_rotation now);
  km ← self;
  lift (kyber_prekey_upload km prekey).

Definition commit_kyber_spk_rotation : km_method bool :=
  now ← now;
  km ← self;
  let '(ks, committed) := commit_spk_rotation now (kyber_prekeys km) in
  update (λ km, km <| kyber_prekeys := ks |>);;
  mret committed.

Definition rollback_kyber_spk_rotation (km : KeyManager) : KeyManager :=
  km <| kyber_prekeys := rollback_spk_rotation (kyber_prekeys km) |>.

Definition current_kyber_spk_upload (km : KeyManager) : res ConstructError (option KyberPrekeyUpload) :=
  match ks_spk (kyber_prekeys km) with
  | Some prekey => up ← kyber_prekey_upload km prekey; Ok (Some up)
  | None => Ok None
  end.
End keys.

(** ** The checks *)

Inductive KyberPrekeySignature := KsValid | KsMissing | KsInvalid.

(** [o.filter(|s| !s.is_empty())] *)
Definition non_empty (o : option bytes) : option bytes := b ← o; match b with [] => None | _ => Some b end.

Section checks.
Context `{Platform} `{ClassicCrates} `{!MlDsaCrate}.

(** [match verify(..) { Ok(()) => Valid, Err(_) => Invalid }] *)
Definition signature_verdict {E} (r : res CryptoError unit) : res E KyberPrekeySignature :=
  match r with Ok _ => Ok KsValid | Err _ => Ok KsInvalid | Panic => Panic end.

Definition check_kyber_prekey_signature_v2 {E} (verifying_key kyber_public : bytes) (created_at : Z)
    (signature : option bytes) : res E KyberPrekeySignature :=
  match non_empty signature with
  | None => Ok KsMissing
  | Some signature =>
      let message := kyber_prekey_sign_message_v2 created_at kyber_public in
      signature_verdict (classic_verify verifying_key message signature)
  end.

Definition check_kyber_prekey_hybrid_signature {E} (hybrid_identity_key kyber_public : bytes) (created_at : Z)
    (signature : option bytes) : res E KyberPrekeySignature :=
  match non_empty signature with
  | None => Ok KsMissing
  | Some signature =>
      if negb (len hybrid_identity_key =? HYBRID_SIG_PUBLIC_KEY_SIZE) then Ok KsInvalid else
      let message := kyber_prekey_sign_message_v2 created_at kyber_public in
      signature_verdict (hybrid_verify hybrid_identity_key message signature)
  end.
End checks.

(** ** The plan *)

Record KyberPrekeyOffer := mkKyberPrekeyOffer {
  kf_key_id : Z;
  kf_public : bytes;
  kf_created_at : option Z;
  kf_signature : option bytes;
  kf_hybrid_signature : option bytes;
}.

Record PqxdhOffer := mkPqxdhOffer {
  of_verifying_key : bytes;
  of_hybrid_identity_key : option bytes;
  of_hybrid_identity_signature : option bytes;
  of_signed_prekey : option KyberPrekeyOffer;
  of_one_time_prekey : option KyberPrekeyOffer;
}.

Record PqxdhContext := mkPqxdhContext { cx_now : Z; cx_pinned_hybrid_identity : option bytes }.

Inductive PqxdhRefusal :=
  | NoKyberPrekey
  | KyberPrekeyMalformed
  | KyberSignatureMissing
  | KyberSignatureInvalid
  | KyberPrekeyStale
  | HybridIdentityMissing
  | HybridIdentityBindingInvalid
  | HybridIdentityChanged
  | HybridSignatureMissing
  | HybridSignatureInvalid.

Record PqxdhChoice := mkPqxdhChoice {
  pc_kyber_prekey_id : Z;
  pc_kyber_public : bytes;
  pc_hybrid_identity_fingerprint : bytes;
  pc_one_time_prekey_rejected : option PqxdhRefusal;
}.

Inductive Range := RangeSigned | RangeOneTime.

Section plan.
Context `{Platform} `{ClassicCrates} `{!MlDsaCrate} `{Sha2Crate}.

Definition hybrid_identity_fingerprint (hybrid_identity_key : bytes) : bytes := sha256 hybrid_identity_key.

Definition check_hybrid_identity (offer : PqxdhOffer) : res PqxdhRefusal bytes :=
  key ← ok_or (non_empty (of_hybrid_identity_key offer)) HybridIdentityMissing;
  binding ← ok_or (non_empty (of_hybrid_identity_signature offer)) HybridIdentityMissing;
  let message := build_hybrid_identity_bind_message key in
  map_err (λ _, HybridIdentityBindingInvalid) (classic_verify (of_verifying_key offer) message binding);;
  Ok key.

Definition id_in_range (range : Range) (key_id : Z) : bool :=
  match range with
  | RangeSigned => (1 <=? key_id) && (key_id <? KYBER_OTPK_ID_START)
  | RangeOneTime => KYBER_OTPK_ID_START <=? key_id
  end.

Definition check_prekey (verifying_key hybrid_key : bytes) (prekey : KyberPrekeyOffer) (range : Range) (now : Z)
    : res PqxdhRefusal unit :=
  if negb (len (kf_public prekey) =? MLKEM1024_PK_SIZE) || negb (id_in_range range (kf_key_id prekey))
  then Err KyberPrekeyMalformed else
  created_at ← ok_or (kf_created_at prekey) KyberSignatureMissing;
  v ← check_kyber_prekey_signature_v2 verifying_key (kf_public prekey) created_at (kf_signature prekey);
  match v with KsValid => Ok tt | KsMissing => Err KyberSignatureMissing | KsInvalid => Err KyberSignatureInvalid end;;
  v ← check_kyber_prekey_hybrid_signature hybrid_key (kf_public prekey) created_at (kf_hybrid_signature prekey);
  match v with KsValid => Ok tt | KsMissing => Err HybridSignatureMissing | KsInvalid => Err HybridSignatureInvalid end;;
  match range with
  | RangeSigned => if sat_sub now created_at >? KYBER_SPK_MAX_AGE_SECS then Err KyberPrekeyStale else Ok tt
  | RangeOneTime => Ok tt
  end.

(** From the signed prekey on. *)
Definition plan_signed (offer : PqxdhOffer) (hybrid_key : bytes) (now : Z) (rejected : option PqxdhRefusal)
    : res PqxdhRefusal PqxdhChoice :=
  spk ← ok_or (of_signed_prekey offer) NoKyberPrekey;
  check_prekey (of_verifying_key offer) hybrid_key spk RangeSigned now;;
  Ok (mkPqxdhChoice (kf_key_id spk) (kf_public spk) (hybrid_identity_fingerprint hybrid_key) rejected).

Definition plan_pqxdh (offer : PqxdhOffer) (ctx : PqxdhContext) : res PqxdhRefusal PqxdhChoice :=
  hybrid_key ← check_hybrid_identity offer;
  let fingerprint := hybrid_identity_fingerprint hybrid_key in
  if match cx_pinned_hybrid_identity ctx with Some pinned => bool_decide (pinned ≠ fingerprint) | None => false end
  then Err HybridIdentityChanged else
  match of_one_time_prekey offer with
  | Some otpk =>
      match check_prekey (of_verifying_key offer) hybrid_key otpk RangeOneTime (cx_now ctx) with
      | Ok _ => Ok (mkPqxdhChoice (kf_key_id otpk) (kf_public otpk) fingerprint None)
      | Err reason => plan_signed offer hybrid_key (cx_now ctx) (Some reason)
      | Panic => Panic
      end
  | None => plan_signed offer hybrid_key (cx_now ctx) None
  end.
End plan.

(** ** What the plan trusts *)

Section trust.
Context `{Platform} `{ClassicCrates} `{!MlDsaCrate} `{Sha2Crate}.

(** An Ed25519 signature under an encoded key. *)
Definition ed_signed (vk message signature : bytes) : Prop :=
  len vk = 32 ∧ ed25519_key_valid vk = true ∧ len signature = 64 ∧ ed25519_verify vk message signature = true.

(** Both halves of the hybrid key signed. *)
Definition hybrid_signed (pk message signature : bytes) : Prop :=
  ∃ epk mpk esig msig, pk = epk ++ mpk ∧ signature = esig ++ msig ∧ len mpk = 1952 ∧ len msig = 3309 ∧
    ed_signed epk message esig ∧ mldsa_signature_valid msig = true ∧ mldsa_verify mpk message msig = true.

Record trusted (vk hybrid_key : bytes) (k : KyberPrekeyOffer) (range : Range) (now : Z) : Prop := {
  tr_size : len (kf_public k) = MLKEM1024_PK_SIZE;
  tr_id : match range with
          | RangeSigned => 1 ≤ kf_key_id k < KYBER_OTPK_ID_START
          | RangeOneTime => KYBER_OTPK_ID_START ≤ kf_key_id k
          end;
  tr_signed : ∃ created_at signature hybrid_signature,
    kf_created_at k = Some created_at ∧ kf_signature k = Some signature ∧ kf_hybrid_signature k = Some hybrid_signature ∧
    ed_signed vk (kyber_prekey_sign_message_v2 created_at (kf_public k)) signature ∧
    hybrid_signed hybrid_key (kyber_prekey_sign_message_v2 created_at (kf_public k)) hybrid_signature ∧
    (range = RangeSigned → now - created_at ≤ KYBER_SPK_MAX_AGE_SECS);
}.

Definition chosen (k : KyberPrekeyOffer) (hybrid_key : bytes) (rejected : option PqxdhRefusal) : PqxdhChoice :=
  mkPqxdhChoice (kf_key_id k) (kf_public k) (sha256 hybrid_key) rejected.

Lemma classic_verify_signed vk m s : classic_verify vk m s = Ok tt ↔ ed_signed vk m s.
Proof.
  unfold classic_verify, ed_signed, try_array. destruct (Z.eqb_spec (len vk) 32) as [Hv|Hv]; cbn [mbind res_bind]; [|naive_solver].
  destruct (ed25519_key_valid vk); cbn [negb]; [|naive_solver].
  destruct (Z.eqb_spec (len s) 64) as [Hs|Hs]; cbn [mbind res_bind]; [|naive_solver]. destruct (ed25519_verify vk m s); naive_solver.
Qed.
Lemma classic_verify_no_panic vk m s : classic_verify vk m s ≠ Panic.
Proof. unfold classic_verify, try_array. by repeat (case_match; simplify_eq/=). Qed.

Lemma hybrid_verify_signed pk m s : hybrid_verify pk m s = Ok tt ↔ hybrid_signed pk m s.
Proof. rewrite hybrid_verify_halves. unfold hybrid_signed, ed_signed. naive_solver. Qed.
Lemma hybrid_signed_len pk m s : hybrid_signed pk m s → len pk = HYBRID_SIG_PUBLIC_KEY_SIZE ∧ len s = HYBRID_SIGNATURE_SIZE.
Proof. intros (epk & mpk & es & ms & -> & -> & Hm & Hs & (He & _ & Hes & _) & _). by rewrite !len_app, He, Hm, Hes, Hs. Qed.

Lemma non_empty_some o b : non_empty o = Some b ↔ o = Some b ∧ len b ≠ 0.
Proof. destruct o as [[|x l]|]; cbn; rewrite ?len_nil; naive_solver (rewrite ?len_cons; pose proof (len_nonneg l); lia). Qed.

(** Both checks: the outcome is an answer, and [Valid] only for a signature. *)
Lemma check_classic_valid {E} vk pk t sig : ∃ v, @check_kyber_prekey_signature_v2 _ E vk pk t sig = Ok v ∧
  (v = KsValid ↔ ∃ s, sig = Some s ∧ ed_signed vk (kyber_prekey_sign_message_v2 t pk) s).
Proof.
  unfold check_kyber_prekey_signature_v2, signature_verdict. destruct (non_empty sig) as [s|] eqn:Hs.
  - apply non_empty_some in Hs as [-> Hl]. pose proof (classic_verify_signed vk (kyber_prekey_sign_message_v2 t pk) s) as Hv.
    pose proof (classic_verify_no_panic vk (kyber_prekey_sign_message_v2 t pk) s).
    destruct (classic_verify _ _ s) as [[]|e|]; [| |done]; eexists; (split; [done|]); naive_solver.
  - exists KsMissing. split; [done|]. split; [done|]. intros (s & -> & Hs1 & _ & Hs2 & _).
    assert (non_empty (Some s) = Some s) by (apply non_empty_some; split; [done|lia]). congruence.
Qed.
Lemma check_hybrid_valid {E} hk pk t sig : ∃ v, @check_kyber_prekey_hybrid_signature _ _ E hk pk t sig = Ok v ∧
  (v = KsValid ↔ ∃ s, sig = Some s ∧ hybrid_signed hk (kyber_prekey_sign_message_v2 t pk) s).
Proof.
  unfold check_kyber_prekey_hybrid_signature, signature_verdict. destruct (non_empty sig) as [s|] eqn:Hs.
  - apply non_empty_some in Hs as [-> Hl]. pose proof (hybrid_verify_signed hk (kyber_prekey_sign_message_v2 t pk) s) as Hv.
    pose proof (hybrid_verify_no_panic hk (kyber_prekey_sign_message_v2 t pk) s).
    pose proof (hybrid_signed_len hk (kyber_prekey_sign_message_v2 t pk) s) as Hn.
    destruct (Z.eqb_spec (len hk) HYBRID_SIG_PUBLIC_KEY_SIZE); cbn [negb].
    + destruct (hybrid_verify _ _ s) as [[]|e'|]; [| |done]; eexists; (split; [done|]); naive_solver.
    + exists KsInvalid. split; [done|]. naive_solver.
  - exists KsMissing. split; [done|]. split; [done|]. intros (s & -> & [_ Hl]%hybrid_signed_len).
    assert (non_empty (Some s) = Some s) by (apply non_empty_some; split; [done|by rewrite Hl]). congruence.
Qed.

Lemma check_prekey_trusted vk hk k r now : (check_prekey vk hk k r now = Ok tt ↔ trusted vk hk k r now) ∧ check_prekey vk hk k r now ≠ Panic.
Proof.
  unfold check_prekey. destruct (Z.eqb_spec (len (kf_public k)) MLKEM1024_PK_SIZE) as [Hp|Hp]; cbn [negb orb];
    [|split; [|done]; split; [done|]; by intros []].
  assert (id_in_range r (kf_key_id k) = true ↔ match r with
    | RangeSigned => 1 ≤ kf_key_id k < KYBER_OTPK_ID_START | RangeOneTime => KYBER_OTPK_ID_START ≤ kf_key_id k end) as Hid.
  { destruct r; cbn [id_in_range]; lia. }
  destruct (id_in_range r (kf_key_id k)); cbn [negb]; [|split; [|done]; split; [done|]; intros [_ Hi _]; by apply Hid in Hi].
  destruct (kf_created_at k) as [t|] eqn:Ht; cbn [ok_or mbind res_bind];
    [|split; [|done]; split; [done|]; intros [_ _ (t & ? & ? & Ht' & _)]; congruence].
  destruct (check_classic_valid (E := PqxdhRefusal) vk (kf_public k) t (kf_signature k)) as (v1 & -> & Hv1).
  destruct (check_hybrid_valid (E := PqxdhRefusal) hk (kf_public k) t (kf_hybrid_signature k)) as (v2 & -> & Hv2).
  assert (trusted vk hk k r now ↔ v1 = KsValid ∧ v2 = KsValid ∧ (r = RangeSigned → now - t ≤ KYBER_SPK_MAX_AGE_SECS)) as ->.
  { rewrite Hv1, Hv2. split.
    - intros [_ _ (t' & s & hs & Ht' & Hs & Hhs & Hc & Hh & Ha)]. rewrite Ht in Ht'. injection Ht' as <-. split_and!; [by exists s|by exists hs|done].
    - intros ((s & Hs & Hc) & (hs & Hhs & Hh) & Ha). split; [done|by apply Hid|]. by exists t, s, hs. }
  destruct v1, v2; cbn [mbind res_bind]; try (split; [naive_solver|done]).
  destruct r; [|naive_solver]. unfold sat_sub. rewrite Z.gtb_ltb.
  destruct (Z.ltb_spec KYBER_SPK_MAX_AGE_SECS (Z.max 0 (now - t))) as [Hl|Hl]; (split; [|done]); (split; [|]); try done.
  - intros (_ & _ & Ha). specialize (Ha eq_refl). unfold KYBER_SPK_MAX_AGE_SECS, SPK_MAX_AGE_SECS in *. lia.
  - intros _. split_and!; [done..|]. intros _. lia.
Qed.

Lemma hybrid_identity_bound offer : check_hybrid_identity offer ≠ Panic ∧ ∀ hk, check_hybrid_identity offer = Ok hk ↔
  len hk ≠ 0 ∧ of_hybrid_identity_key offer = Some hk ∧ ∃ binding, of_hybrid_identity_signature offer = Some binding ∧
    ed_signed (of_verifying_key offer) (build_hybrid_identity_bind_message hk) binding.
Proof.
  unfold check_hybrid_identity. destruct (non_empty (of_hybrid_identity_key offer)) as [k|] eqn:Hk; cbn [ok_or mbind res_bind];
    [apply non_empty_some in Hk as [Hk Hl]|].
  2: { split; [done|]. intros hk. split; [done|]. intros (Hl & Hs & _). assert (non_empty (of_hybrid_identity_key offer) = Some hk) by
         (by apply non_empty_some). congruence. }
  destruct (non_empty (of_hybrid_identity_signature offer)) as [b|] eqn:Hb; cbn [ok_or mbind res_bind];
    [apply non_empty_some in Hb as [Hb Hlb]|].
  2: { split; [done|]. intros hk. split; [done|]. intros (_ & _ & b & Hs & _ & _ & Hlb & _).
       assert (non_empty (of_hybrid_identity_signature offer) = Some b) by (apply non_empty_some; split; [done|lia]). congruence. }
  pose proof (classic_verify_signed (of_verifying_key offer) (build_hybrid_identity_bind_message k) b) as Hv.
  pose proof (classic_verify_no_panic (of_verifying_key offer) (build_hybrid_identity_bind_message k) b).
  rewrite Hk, Hb. destruct (classic_verify _ _ b) as [[]|e'|]; cbn [map_err mbind res_bind]; [| |done]; (split; [done|]); naive_solver.
Qed.

Lemma plan_signed_ok offer hk now rejected : plan_signed offer hk now rejected ≠ Panic ∧
  ∀ c, plan_signed offer hk now rejected = Ok c ↔ ∃ k, of_signed_prekey offer = Some k ∧
    trusted (of_verifying_key offer) hk k RangeSigned now ∧ c = chosen k hk rejected.
Proof.
  unfold plan_signed. destruct (of_signed_prekey offer) as [k|]; cbn [ok_or mbind res_bind]; [|split; [done|]; naive_solver].
  destruct (check_prekey_trusted (of_verifying_key offer) hk k RangeSigned now) as [Ht Hp].
  destruct (check_prekey _ _ k _ _) as [[]|e'|]; cbn [mbind res_bind]; [| |done]; (split; [done|]); unfold chosen, hybrid_identity_fingerprint; naive_solver.
Qed.

Lemma trusted_hybrid_key vk hk k r now : trusted vk hk k r now → len hk ≠ 0.
Proof. intros [_ _ (t & s & hs & _ & _ & _ & _ & [-> _]%hybrid_signed_len & _)]. done. Qed.

(** C31: The initiator encapsulates to a Kyber prekey exactly when it may trust it. The
    plan ends in a choice or a refusal, and it makes the choice [c] if and only if the
    hybrid identity key of the bundle is bound to the device's Ed25519 key by a
    signature, equals the pinned one where there is one, and [c] names either the
    one-time prekey, when its size and id are right and both the Ed25519 and the hybrid
    signature over its signed time and its bytes verify, or else a signed prekey for
    which the same holds and that is at most 30 days old by its signed time; an unusable
    one-time prekey is reported with the choice and never chosen. *)
Theorem plan_trusts_only_signed_prekeys offer ctx :
  plan_pqxdh offer ctx ≠ Panic ∧
  ∀ c, plan_pqxdh offer ctx = Ok c ↔
    ∃ hk binding, of_hybrid_identity_key offer = Some hk ∧ of_hybrid_identity_signature offer = Some binding ∧
      ed_signed (of_verifying_key offer) (build_hybrid_identity_bind_message hk) binding ∧
      (∀ pin, cx_pinned_hybrid_identity ctx = Some pin → pin = sha256 hk) ∧
      ((∃ k, of_one_time_prekey offer = Some k ∧ trusted (of_verifying_key offer) hk k RangeOneTime (cx_now ctx) ∧ c = chosen k hk None) ∨
       (∃ k, of_signed_prekey offer = Some k ∧ trusted (of_verifying_key offer) hk k RangeSigned (cx_now ctx) ∧
          match of_one_time_prekey offer with
          | None => c = chosen k hk None
          | Some o => ¬ trusted (of_verifying_key offer) hk o RangeOneTime (cx_now ctx) ∧
              ∃ reason, check_prekey (of_verifying_key offer) hk o RangeOneTime (cx_now ctx) = Err reason ∧ c = chosen k hk (Some reason)
          end)).
Proof.
  unfold plan_pqxdh. destruct (hybrid_identity_bound offer) as [Hn Hb].
  destruct (check_hybrid_identity offer) as [hk|e'|]; cbn [mbind res_bind]; [| |done].
  2: { split; [done|]. intros c. split; [done|]. intros (hk & b & Hk & Hs & Hv & _ & Ht). exfalso.
       assert (len hk ≠ 0) as Hl by (destruct Ht as [(k & _ & Ht & _)|(k & _ & Ht & _)]; exact (trusted_hybrid_key _ _ _ _ _ Ht)).
       assert (@Err _ bytes e' = Ok hk) by (apply Hb; eauto 6). done. }
  destruct (proj1 (Hb hk) eq_refl) as (Hl & Hk & b & Hs & Hv).
  assert (match cx_pinned_hybrid_identity ctx with Some pinned => bool_decide (pinned ≠ hybrid_identity_fingerprint hk) | None => false end
    = false ↔ ∀ pin, cx_pinned_hybrid_identity ctx = Some pin → pin = sha256 hk) as Hpin.
  { destruct (cx_pinned_hybrid_identity ctx) as [pin|]; [|naive_solver]. rewrite bool_decide_eq_false. unfold hybrid_identity_fingerprint.
    destruct (decide (pin = sha256 hk)); naive_solver. }
  destruct (match cx_pinned_hybrid_identity ctx with Some _ => _ | None => _ end).
  { split; [done|]. intros c. split; [done|]. intros (hk' & b' & Hk' & _ & _ & Hp & _). rewrite Hk in Hk'. injection Hk' as <-. by apply Hpin in Hp. }
  pose proof (proj1 Hpin eq_refl) as Hp. clear Hpin. rewrite Hk, Hs.
  assert (∀ P : bytes → bytes → Prop, (∃ hk' b', Some hk = Some hk' ∧ Some b = Some b' ∧ P hk' b') ↔ P hk b) as HP.
  { intros P. split; [by intros (? & ? & [= <-] & [= <-] & ?)|intros HP; by exists hk, b]. }
  destruct (of_one_time_prekey offer) as [o|].
  - destruct (check_prekey_trusted (of_verifying_key offer) hk o RangeOneTime (cx_now ctx)) as [Ht Hc].
    destruct (check_prekey _ _ o _ _) as [[]|reason|] eqn:Ho; [| |done].
    + split; [done|]. intros c. rewrite HP. pose proof (proj1 Ht eq_refl) as Hto. split.
      * intros [= <-]. split_and!; [done..|]. left. by exists o.
      * intros (_ & _ & [(k & [= <-] & _ & ->)|(k & _ & _ & Hnt & _)]); [done|by destruct Hnt].
    + destruct (plan_signed_ok offer hk (cx_now ctx) (Some reason)) as [Hsn Hso]. split; [done|]. intros c. rewrite HP, Hso, Ho. split.
      * intros (k & Hk' & Hkt & ->). split_and!; [done..|]. right. exists k. split_and!; [done..| |by exists reason]. by intros Hx%Ht.
      * intros (_ & _ & [(k & [= <-] & Hx%Ht & _)|(k & Hk' & Hkt & _ & r & [= <-] & ->)]); [done|by exists k].
  - destruct (plan_signed_ok offer hk (cx_now ctx) None) as [Hsn Hso]. split; [done|]. intros c. rewrite HP, Hso. split.
    + intros (k & Hk' & Hkt & ->). split_and!; [done..|]. right. by exists k.
    + intros (_ & _ & [(k & [=] & _)|(k & Hk' & Hkt & ->)]). by exists k.
Qed.
End trust.

(** ** What a device uploads *)

(** The prekey of an upload record, as a bundle carries it. *)
Definition offer_of (u : KyberPrekeyUpload) : KyberPrekeyOffer :=
  mkKyberPrekeyOffer (ku_key_id u) (ku_public_key u) (Some (ku_created_at u)) (Some (ku_signature u)) (Some (ku_hybrid_signature u)).

Lemma wp_and {S E A} ϕ (m : stm S E A) s Q Q' (R R' : E → S → Prop) :
  wp ϕ m s Q R → wp ϕ m s Q' R' → wp ϕ m s (λ a s, Q a s ∧ Q' a s) (λ e s, R e s ∧ R' e s).
Proof. unfold wp. by destruct (m s) as [s' [a|e|]]. Qed.

Section store.
Context `{ML : MlKem1024Laws}.

Lemma wp_begin_pending s w now : kyber_wf s → (ks_pending_spk s = None → ks_next_spk_id s < KYBER_OTPK_ID_START) →
  wp False (begin_spk_rotation now) (s, w)
    (λ k sw, kyber_wf sw.1 ∧ ks_pending_spk sw.1 = Some k ∧ ks_next_otpk_id sw.1 = ks_next_otpk_id s) (λ _ _, False).
Proof.
  intros Hw Hroom. eapply wp_mono; [apply wp_and; [by apply wp_begin|]|..].
  - instantiate (1 := λ _ _, False). instantiate (1 := λ k sw, ks_pending_spk sw.1 = Some k ∧ ks_next_otpk_id sw.1 = ks_next_otpk_id s).
    unfold begin_spk_rotation. wp_step. wp_step. destruct (ks_pending_spk s) as [k|] eqn:Hp; [by wp_step|]. wp_step.
    + specialize (Hroom eq_refl). rewrite Z.geb_leb, Z.leb_le in Heqb. lia.
    + wp_steps. apply wp_kp_generate. intros w' seed _. by wp_steps.
  - intros k sw [[[Hw' _ _ _ _] _] Hk]. done.
  - by intros e sw [_ ?].
Qed.

(** New one-time prekeys are filed under their ids, beside the old ones. *)
Lemma wp_generate_filed n now s w : kyber_wf s → ks_next_otpk_id s + Z.of_nat n ≤ u32_max →
  wp False (generate_otpks n now) (s, w)
    (λ ks sw, kyber_wf sw.1 ∧ length ks = n ∧ spk_chain sw.1 = spk_chain s ∧ ks_otpks s ⊆ ks_otpks sw.1 ∧
       Forall (λ k, ks_otpks sw.1 !! kp_key_id k = Some k) ks) (λ _ _, False).
Proof.
  revert s w. induction n as [|n IH]; intros s w Hw Hn; cbn [generate_otpks]; [by wp_steps|]. wp_step.
  eapply wp_mono; [apply wp_and; [by apply wp_generate_otpk|]|..].
  - instantiate (1 := λ _ _, False). instantiate (1 := λ k sw, kp_key_id k = ks_next_otpk_id s ∧
      ks_next_otpk_id sw.1 = ks_next_otpk_id s + 1 ∧ spk_chain sw.1 = spk_chain s ∧ ks_otpks sw.1 = <[kp_key_id k := k]> (ks_otpks s)).
    unfold generate_otpk. wp_steps. unfold checked_add32. destruct (Z.leb_spec (ks_next_otpk_id s + 1) u32_max); [|lia].
    apply wp_lift. cbn [ok_or]. wp_steps. apply wp_kp_generate. intros w' seed _. by wp_steps.
  - intros k [s1 w1] [[[Hw1 _ _ _ _] _] (Hk & Hn1 & Hc & Ho)]. cbn [fst] in *. wp_step. eapply wp_mono; [apply IH; [done|lia]| |done].
    intros ks [s2 w2] (Hw2 & Hl & Hc2 & Hsub & Hf). wp_step. cbn [fst] in *.
    assert (ks_otpks s !! ks_next_otpk_id s = None) as Hfresh.
    { destruct (ks_otpks s !! ks_next_otpk_id s) as [k'|] eqn:Hk'; [|done]. apply (kw_otpks s Hw) in Hk' as [Hid [[_ ?] _]]. lia. }
    rewrite Ho, Hk in Hsub. split_and!; [done|cbn; lia|congruence| |].
    + etrans; [by apply insert_subseteq|exact Hsub].
    + constructor; [|done]. rewrite Hk. eapply lookup_weaken; [|exact Hsub]. by rewrite lookup_insert_eq.
  - by intros e sw [_ ?].
Qed.
End store.

Section device.
Context `{ML : MlKem1024Laws} `{EL : Ed25519Laws} `{DL : !MlDsaLaws} `{PL : !PlatformLaws} `{Sha2Crate}.

(** No hybrid key yet, or one that [generate_signature_keys] made. *)
Definition hybrid_genuine (o : option bytes) : Prop :=
  ∀ h, o = Some h → ∃ es ms, len es = 32 ∧ len ms = 32 ∧ h = (hybrid_signature_keypair_from_seeds es ms).1.

(** A device that can sign: [ssk] its Ed25519 key, [es] and [ms] the seeds of its
    hybrid key. *)
Record signer (ssk es ms : bytes) (km : KeyManager) : Prop := {
  sg_classic : signing_key km = Some (ssk, ed25519_public ssk) ∧ len ssk = 32;
  sg_hybrid : hybrid_sig_priv km = Some (hybrid_signature_keypair_from_seeds es ms).1;
  sg_seeds : len es = 32 ∧ len ms = 32;
}.

Lemma signer_kyber ssk es ms km ks : signer ssk es ms km → signer ssk es ms (km <| kyber_prekeys := ks |>).
Proof. by intros []. Qed.

Lemma wp_generate_hybrid w Q (R : CryptoError → World → Prop) :
  (∀ w' es ms, len es = 32 → len ms = 32 → Q (hybrid_signature_keypair_from_seeds es ms) w') →
  wp False hybrid_generate_signature_keys w Q R.
Proof.
  intros HQ. unfold hybrid_generate_signature_keys. wp_step. unfold wp at 1, fill_bytes.
  pose proof (os_rng_len (ED25519_SECRET_KEY_SIZE + ML_DSA_65_SECRET_KEY_SIZE) w) as Hl.
  destruct (os_rng _ w) as [w' seeds]. cbn [snd] in Hl. destruct (cut_at 32 32 seeds) as (es & ms & -> & He & Hm); [done..|by apply Hl|].
  wp_step. rewrite slice_here by done. apply wp_lift. wp_step. rewrite (slice_from_app _ es) by done. apply wp_lift. wp_step. by apply HQ.
Qed.

Lemma wp_ensure ssk km w : signing_key km = Some (ssk, ed25519_public ssk) → len ssk = 32 → hybrid_genuine (hybrid_sig_priv km) →
  wp False ensure_hybrid_signature_key (km, w)
    (λ hpk sw, ∃ es ms, signer ssk es ms sw.1 ∧ hpk = (hybrid_signature_keypair_from_seeds es ms).2 ∧ kyber_prekeys sw.1 = kyber_prekeys km)
    (λ _ _, False).
Proof.
  intros Hk Hl Hg. unfold ensure_hybrid_signature_key. wp_step. wp_step. destruct (hybrid_sig_priv km) as [h|] eqn:Hh.
  - destruct (Hg h eq_refl) as (es & ms & He & Hm & ->). apply wp_lift. rewrite keypair_public by done. cbn [map_err].
    exists es, ms. by repeat split.
  - wp_step. wp_step. wp_step. apply wp_generate_hybrid. intros w' es ms He Hm.
    rewrite (surjective_pairing (hybrid_signature_keypair_from_seeds es ms)). wp_step. wp_step. wp_step. exists es, ms. by repeat split.
Qed.

(** The record [u] offers the prekey [k], signed by both keys of the device. *)
Record uploaded (ssk es ms : bytes) (k : KyberPrekey) (u : KyberPrekeyUpload) : Prop := {
  up_id : ku_key_id u = kp_key_id k;
  up_public : ku_public_key u = kem1024_public (kp_seed k);
  up_classic : ed_signed (ed25519_public ssk) (kyber_prekey_sign_message_v2 (ku_created_at u) (ku_public_key u)) (ku_signature u);
  up_hybrid : hybrid_signed (hybrid_signature_keypair_from_seeds es ms).2
    (kyber_prekey_sign_message_v2 (ku_created_at u) (ku_public_key u)) (ku_hybrid_signature u);
}.

Lemma signer_upload ssk es ms km k : signer ssk es ms km → len (kp_seed k) = MLKEM_SEED_SIZE →
  ∃ u, kyber_prekey_upload km k = Ok u ∧ uploaded ssk es ms k u.
Proof.
  intros [[Hs Hl] Hh [He Hm]] Hk. unfold kyber_prekey_upload, kp_public_key, mlkem1024_public_from_seed, mlkem1024_key_from_seed.
  rewrite Hk, Hs. unfold sign_hybrid. rewrite Hh. cbn [negb Z.eqb Pos.eqb mbind res_bind map_err ok_or sign ClassicSuiteProvider].
  change (negb _) with false. cbn [mbind res_bind map_err].
  set (m := kyber_prekey_sign_message_v2 (kp_created_at k) (kem1024_public (kp_seed k))).
  unfold classic_sign, try_array. rewrite Hl. cbn [Z.eqb Pos.eqb mbind res_bind map_err].
  destruct (hybrid_sign_verifies es ms m He Hm) as (s & -> & _ & Hv). cbn [mbind res_bind map_err].
  eexists. split; [done|]. split; [done|done| |].
  - split_and!; [apply ed25519_public_len|apply ed25519_public_valid|apply ed25519_sign_len|apply ed25519_sign_verifies].
  - by apply hybrid_verify_signed.
Qed.

Lemma signer_requires ssk es ms km : signer ssk es ms km → require_hybrid_key km = Ok tt.
Proof. intros [_ Hh [He Hm]]. unfold require_hybrid_key, hybrid_signature_public_key. rewrite Hh. by rewrite keypair_public. Qed.

Lemma wp_on_kyber {A} (m : method KyberPrekeyStore string A) km w Q (R : ConstructError → KeyManager * World → Prop) :
  wp False m (kyber_prekeys km, w) (λ a sw, Q a (km <| kyber_prekeys := sw.1 |>, sw.2)) (λ _ _, False) → wp False (on_kyber m) (km, w) Q R.
Proof. unfold wp, on_kyber. by destruct (m _) as [[ks w'] [a|e|]]. Qed.

Lemma held_seed s k : kyber_wf s → held k s → kp_key_id k ≠ 0 ∧ len (kp_seed k) = MLKEM_SEED_SIZE.
Proof.
  intros Hw [Hk|[i Hk]].
  - pose proof (kw_chain s Hw) as Hf. rewrite Forall_forall in Hf. destruct (Hf k Hk) as [? ?]. split; [lia|done].
  - apply (kw_otpks s Hw) in Hk as [_ [Hi ?]]. unfold KYBER_OTPK_ID_START in Hi. split; [lia|done].
Qed.

Lemma wp_begin_upload ssk es ms km w : signer ssk es ms km → kyber_wf (kyber_prekeys km) →
  (ks_pending_spk (kyber_prekeys km) = None → ks_next_spk_id (kyber_prekeys km) < KYBER_OTPK_ID_START) →
  wp False begin_kyber_spk_rotation (km, w)
    (λ u sw, signer ssk es ms sw.1 ∧ kyber_wf (kyber_prekeys sw.1) ∧
       ks_next_otpk_id (kyber_prekeys sw.1) = ks_next_otpk_id (kyber_prekeys km) ∧
       ∃ k, ks_pending_spk (kyber_prekeys sw.1) = Some k ∧ uploaded ssk es ms k u) (λ _ _, False).
Proof.
  intros Hg Hw Hroom. unfold begin_kyber_spk_rotation. wp_step. wp_step. wp_step. rewrite (signer_requires _ _ _ _ Hg). apply wp_lift.
  wp_step. wp_step. wp_step. apply wp_on_kyber. eapply wp_mono; [by apply wp_begin_pending| |done].
  intros k [ks w'] (Hw' & Hk & Hn). cbn [fst snd] in *. wp_step. wp_step.
  assert (len (kp_seed k) = MLKEM_SEED_SIZE) as Hs.
  { eapply (held_seed ks); [done|]. left. unfold spk_chain. rewrite Hk. set_solver. }
  destruct (signer_upload ssk es ms _ k (signer_kyber _ _ _ _ ks Hg) Hs) as (u & Hu & Hup). rewrite Hu. apply wp_lift.
  split_and!; [by apply signer_kyber|done|done|by exists k].
Qed.

Lemma wp_commit_pending ssk es ms km w k : signer ssk es ms km → kyber_wf (kyber_prekeys km) → ks_pending_spk (kyber_prekeys km) = Some k →
  wp False (E := ConstructError) commit_kyber_spk_rotation (km, w)
    (λ b sw, b = true ∧ signer ssk es ms sw.1 ∧ kyber_wf (kyber_prekeys sw.1) ∧
       ks_next_otpk_id (kyber_prekeys sw.1) = ks_next_otpk_id (kyber_prekeys km) ∧ ks_spk (kyber_prekeys sw.1) = Some k) (λ _ _, False).
Proof.
  intros Hg Hw Hk. unfold commit_kyber_spk_rotation. wp_step. wp_step. wp_step. wp_step.
  destruct (commit_spk_rotation (clock w).2 (kyber_prekeys km)) as [ks b] eqn:Hc. pose proof (commit_wf _ _ _ _ Hc Hw) as Hw'. wp_steps.
  revert Hc. unfold commit_spk_rotation. rewrite Hk. intros [= Hks <-]. split_and!; [done|by apply signer_kyber|done|..];
    cbn; rewrite <- Hks; by destruct (ks_spk (kyber_prekeys km)).
Qed.

Lemma wp_generate_uploads ssk es ms km w n : signer ssk es ms km → kyber_wf (kyber_prekeys km) →
  ks_next_otpk_id (kyber_prekeys km) + Z.of_nat n ≤ u32_max →
  wp False (generate_kyber_one_time_prekeys n) (km, w)
    (λ us sw, kyber_wf (kyber_prekeys sw.1) ∧ length us = n ∧ spk_chain (kyber_prekeys sw.1) = spk_chain (kyber_prekeys km) ∧
       Forall (λ u, ∃ k, ks_otpks (kyber_prekeys sw.1) !! kp_key_id k = Some k ∧ uploaded ssk es ms k u) us) (λ _ _, False).
Proof.
  intros Hg Hw Hroom. unfold generate_kyber_one_time_prekeys. wp_step. wp_step. wp_step. rewrite (signer_requires _ _ _ _ Hg). apply wp_lift.
  wp_step. wp_step. wp_step. apply wp_on_kyber. eapply wp_mono; [by apply wp_generate_filed| |done].
  intros keys [ks w'] (Hw' & Hn & Hc & _ & Hf). cbn [fst snd] in *. wp_step. wp_step. set (km' := km <| kyber_prekeys := ks |>).
  assert (∃ us, mapM (kyber_prekey_upload km') keys = Ok us ∧ Forall2 (uploaded ssk es ms) keys us) as (us & -> & Hus).
  { clear Hn. induction Hf as [|k keys Hk _ (us & IH & Hus)]; [by exists []|]. cbn [mapM].
    destruct (signer_upload ssk es ms km' k) as (u & -> & Hu); [by apply signer_kyber|eapply (held_seed ks); [done|right; by eexists]|].
    cbn [mbind res_bind]. rewrite IH. exists (u :: us). by split; [|constructor]. }
  apply wp_lift. split_and!; [done|by rewrite <- (Forall2_length _ _ _ Hus)|done|].
  clear Hn. induction Hus as [|k u keys us Hu _ IH]; [constructor|]. apply Forall_cons in Hf as [Hk Hf]. constructor; [by exists k|by apply IH].
Qed.

(** A prekey the device holds answers what is encapsulated to it. *)
Lemma held_decapsulates km k pk v : kyber_wf (kyber_prekeys km) → held k (kyber_prekeys km) → pk = kem1024_public (kp_seed k) →
  ∃ v' enc, mlkem1024_encapsulate pk v = (v', Ok enc) ∧
    decapsulate_with_kyber_prekey km (kp_key_id k) (mlkem_ciphertext enc) = Ok (mlkem_shared_secret enc).
Proof.
  intros Hw Hk ->. destruct (held_seed _ _ Hw Hk) as [Hz Hl]. pose proof (held_found _ _ Hw Hk) as Hf.
  assert (∃ v' enc, mlkem1024_encapsulate (kem1024_public (kp_seed k)) v = (v', Ok enc)) as (v' & enc & Henc).
  { unfold mlkem1024_encapsulate. rewrite kem1024_public_len, kem1024_public_valid. change (negb (_ =? _)) with false. cbn [negb].
    destruct (kem1024_encapsulate _ v) as [v' [ct ss]]. eauto. }
  exists v', enc. split; [done|]. unfold decapsulate_with_kyber_prekey. rewrite (proj2 (Z.eqb_neq _ _) Hz), Hf. cbn [ok_or mbind res_bind].
  erewrite (mlkem1024_correct (kp_seed k)); [done|done| |exact Henc].
  unfold mlkem1024_public_from_seed, mlkem1024_key_from_seed. by rewrite Hl.
Qed.

Lemma uploaded_trusted ssk es ms k u r now : uploaded ssk es ms k u → id_in_range r (kp_key_id k) = true →
  (r = RangeSigned → now - ku_created_at u ≤ KYBER_SPK_MAX_AGE_SECS) →
  check_prekey (ed25519_public ssk) (hybrid_signature_keypair_from_seeds es ms).2 (offer_of u) r now = Ok tt.
Proof.
  intros [Hi Hp Hc Hh] Hr Ha. apply check_prekey_trusted.
  split; cbn [offer_of kf_public kf_key_id kf_created_at kf_signature kf_hybrid_signature].
  - rewrite Hp. apply kem1024_public_len.
  - rewrite Hi. destruct r; cbn [id_in_range] in Hr; lia.
  - eexists _, _, _. split_and!; [done..|exact Hc|exact Hh|exact Ha].
Qed.

(** The Ed25519 signature that binds the hybrid key. *)
Lemma binding_accepted ssk es ms : len ssk = 32 → len es = 32 → len ms = 32 →
  let hpk := (hybrid_signature_keypair_from_seeds es ms).2 in
  ∃ binding, sign ssk (build_hybrid_identity_bind_message hpk) = Ok binding ∧
    ∀ spk otpk, check_hybrid_identity (mkPqxdhOffer (ed25519_public ssk) (Some hpk) (Some binding) spk otpk) = Ok hpk.
Proof.
  intros Hl He Hm hpk. exists (ed25519_sign ssk (build_hybrid_identity_bind_message hpk)). split.
  - cbn [sign ClassicSuiteProvider]. unfold classic_sign, try_array. by rewrite Hl.
  - intros spk otpk. apply hybrid_identity_bound. cbn [of_verifying_key of_hybrid_identity_key of_hybrid_identity_signature]. split_and!; [|done|eexists; split; [done|]].
    + unfold hpk, hybrid_signature_keypair_from_seeds. cbn [snd]. by rewrite len_app, ed25519_public_len, mldsa_public_len.
    + split_and!; [apply ed25519_public_len|apply ed25519_public_valid|apply ed25519_sign_len|apply ed25519_sign_verifies].
Qed.

(** A device makes its hybrid key, rotates its Kyber signed prekey and uploads
    [n] one-time prekeys. *)
Definition publish (n : nat) : method KeyManager ConstructError (bytes * KyberPrekeyUpload * list KyberPrekeyUpload) :=
  hpk ← ensure_hybrid_signature_key;
  spk ← begin_kyber_spk_rotation;
  commit_kyber_spk_rotation;;
  otpks ← generate_kyber_one_time_prekeys n;
  mret (hpk, spk, otpks).

Lemma wp_publish ssk km w n : signing_key km = Some (ssk, ed25519_public ssk) → len ssk = 32 → hybrid_genuine (hybrid_sig_priv km) →
  kyber_wf (kyber_prekeys km) → (ks_pending_spk (kyber_prekeys km) = None → ks_next_spk_id (kyber_prekeys km) < KYBER_OTPK_ID_START) →
  ks_next_otpk_id (kyber_prekeys km) + Z.of_nat n ≤ u32_max →
  wp False (publish n) (km, w)
    (λ '(hpk, spk, otpks) sw, kyber_wf (kyber_prekeys sw.1) ∧ length otpks = n ∧
       ∃ es ms, len es = 32 ∧ len ms = 32 ∧ hpk = (hybrid_signature_keypair_from_seeds es ms).2 ∧
       (∃ k, k ∈ spk_chain (kyber_prekeys sw.1) ∧ uploaded ssk es ms k spk) ∧
       Forall (λ u, ∃ k, ks_otpks (kyber_prekeys sw.1) !! kp_key_id k = Some k ∧ uploaded ssk es ms k u) otpks) (λ _ _, False).
Proof.
  intros Hs Hl Hg Hw Hroom Hn. unfold publish. wp_step. eapply wp_mono; [by apply wp_ensure| |done].
  intros hpk [km1 w1] (es & ms & Hg1 & -> & Hk1). cbn [fst] in *. wp_step. eapply wp_mono; [apply wp_begin_upload; [done|by rewrite Hk1..]| |done].
  intros spk [km2 w2] (Hg2 & Hw2 & Hn2 & k & Hk & Hup). cbn [fst] in *. wp_step. eapply wp_mono; [by apply wp_commit_pending| |done].
  intros b [km3 w3] (_ & Hg3 & Hw3 & Hn3 & Hk3). cbn [fst] in *. wp_step.
  eapply wp_mono; [apply wp_generate_uploads; [done|done|by rewrite Hn3, Hn2, Hk1]| |done].
  intros otpks [km4 w4] (Hw4 & Hl4 & Hc4 & Hf). wp_step. split_and!; [done..|]. exists es, ms. destruct Hg1 as [_ _ [? ?]].
  split_and!; [done..| |done]. exists k. split; [|done]. cbn [fst] in *. rewrite Hc4. unfold spk_chain. rewrite Hk3. set_solver.
Qed.

Lemma plan_evaluates vk hpk binding spk otpk now pin : check_hybrid_identity (mkPqxdhOffer vk (Some hpk) (Some binding) (Some spk) otpk) = Ok hpk →
  pin = None ∨ pin = Some (sha256 hpk) →
  match otpk with
  | Some o => check_prekey vk hpk o RangeOneTime now
  | None => check_prekey vk hpk spk RangeSigned now
  end = Ok tt →
  plan_pqxdh (mkPqxdhOffer vk (Some hpk) (Some binding) (Some spk) otpk) (mkPqxdhContext now pin) = Ok (chosen (default spk otpk) hpk None).
Proof.
  intros Hh Hpin Hc. unfold plan_pqxdh. rewrite Hh. cbn [mbind res_bind cx_pinned_hybrid_identity of_one_time_prekey of_verifying_key cx_now].
  assert (match pin with Some pinned => bool_decide (pinned ≠ hybrid_identity_fingerprint hpk) | None => false end = false) as ->.
  { destruct Hpin as [->| ->]; [done|]. apply bool_decide_eq_false. unfold hybrid_identity_fingerprint. naive_solver. }
  destruct otpk as [o|]; [by rewrite Hc|]. unfold plan_signed. cbn [of_signed_prekey of_verifying_key ok_or mbind res_bind]. by rewrite Hc.
Qed.

(** C32: A post-quantum handshake can be opened with what a device uploads. A device
    with sound keys creates its hybrid key, commits a rotation of its Kyber signed
    prekey and generates [n] one-time prekeys, all without an error; an initiator that
    is served the hybrid key with its binding, the signed prekey and possibly one of
    the one-time prekeys, and has no pin or the right one, chooses the one-time
    prekey, or the signed one within 30 days of its signed time; and encapsulating to
    the chosen key succeeds and the device, asked by the id of the choice,
    decapsulates the same secret. *)
Theorem uploaded_prekeys_open_handshakes lt p km w n :
  km_ok lt p km → hybrid_genuine (hybrid_sig_priv km) →
  (ks_pending_spk (kyber_prekeys km) = None → ks_next_spk_id (kyber_prekeys km) < KYBER_OTPK_ID_START) →
  ks_next_otpk_id (kyber_prekeys km) + Z.of_nat n ≤ u32_max →
  ∃ hpk spk otpks km' w' binding, publish n (km, w) = ((km', w'), Ok (hpk, spk, otpks)) ∧ length otpks = n ∧
    sign (lt_ssk lt) (build_hybrid_identity_bind_message hpk) = Ok binding ∧
    ∀ now pin otpk, (pin = None ∨ pin = Some (sha256 hpk)) →
      match otpk with Some u => u ∈ otpks | None => now - ku_created_at spk ≤ KYBER_SPK_MAX_AGE_SECS end →
      ∃ c, plan_pqxdh (mkPqxdhOffer (lt_svk lt) (Some hpk) (Some binding) (Some (offer_of spk)) (offer_of <$> otpk)) (mkPqxdhContext now pin) = Ok c ∧
        pc_one_time_prekey_rejected c = None ∧ pc_kyber_prekey_id c = ku_key_id (default spk otpk) ∧
        ∀ v, ∃ v' enc, mlkem1024_encapsulate (pc_kyber_public c) v = (v', Ok enc) ∧
          decapsulate_with_kyber_prekey km' (pc_kyber_prekey_id c) (mlkem_ciphertext enc) = Ok (mlkem_shared_secret enc).
Proof.
  intros Hk Hg Hroom Hn. destruct (ko_signing _ _ _ Hk) as [Hs Hsv]. cbn [from_signature_private_to_public ClassicSuiteProvider] in Hsv.
  unfold classic_signature_private_to_public, try_array in Hsv. destruct (Z.eqb_spec (len (lt_ssk lt)) 32) as [Hl|]; [|done].
  injection Hsv as Hsv. rewrite <- Hsv in Hs |- *.
  pose proof (wp_publish (lt_ssk lt) km w n Hs Hl Hg (ko_kyber _ _ _ Hk) Hroom Hn) as Hp. unfold wp in Hp.
  destruct (publish n (km, w)) as [[km' w'] [[[hpk spk] otpks]|e|]]; [|done..].
  destruct Hp as (Hw & Hlen & es & ms & He & Hm & -> & (k & Hkc & Hup) & Hf). cbn [fst] in *.
  destruct (binding_accepted (lt_ssk lt) es ms Hl He Hm) as (binding & Hb & Hbind).
  exists (hybrid_signature_keypair_from_seeds es ms).2, spk, otpks, km', w', binding. split_and!; [done..|]. intros now pin otpk Hpin Hot.
  assert (∃ k', held k' (kyber_prekeys km') ∧ uploaded (lt_ssk lt) es ms k' (default spk otpk) ∧
    id_in_range (match otpk with Some _ => RangeOneTime | None => RangeSigned end) (kp_key_id k') = true) as (k' & Hh & Hup' & Hr).
  { destruct otpk as [u|].
    - rewrite Forall_forall in Hf. destruct (Hf u Hot) as (k' & Hk' & Hu). exists k'. split_and!; [right; by eexists|done|].
      apply (kw_otpks _ Hw) in Hk' as [_ [Hi _]]. cbn [id_in_range]. lia.
    - exists k. split_and!; [by left|done|]. pose proof (kw_chain _ Hw) as Hc. rewrite Forall_forall in Hc.
      destruct (Hc k Hkc) as [Hi _]. pose proof (kw_spk_range _ Hw). cbn [id_in_range]. lia. }
  eexists. split_and!.
  - apply plan_evaluates; [apply Hbind|done|].
    destruct otpk as [u|]; cbn [fmap option_fmap option_map default] in *; by eapply uploaded_trusted.
  - done.
  - by destruct otpk.
  - intros v. destruct Hup' as [Hid Hpub _ _].
    replace (pc_kyber_prekey_id _) with (kp_key_id k') by (rewrite <- Hid; by destruct otpk). apply held_decapsulates; [done..|].
    rewrite <- Hpub. by destruct otpk.
Qed.
End device.

(** ** A device that evaluates *)

Lemma demo_account_kyber : hybrid_sig_priv demo_account.1.1 = None ∧ kyber_prekeys demo_account.1.1 = kyber_default.
Proof. by vm_compute. Qed.

Lemma uploaded_prekeys_open_handshakes_witness :
  ∃ lt hpk spk otpks km' w' binding, publish 2 demo_account.1 = ((km', w'), Ok (hpk, spk, otpks)) ∧ length otpks = 2%nat ∧
    ∃ c, plan_pqxdh (mkPqxdhOffer (lt_svk lt) (Some hpk) (Some binding) (Some (offer_of spk)) (offer_of <$> (None : option KyberPrekeyUpload)))
           (mkPqxdhContext (ku_created_at spk + KYBER_SPK_MAX_AGE_SECS) None) = Ok c ∧ pc_kyber_prekey_id c = ku_key_id spk.
Proof.
  destruct demo_account.1 as [km w] eqn:Hd. pose proof demo_account_ok as Ha. pose proof demo_account_kyber as Hk. rewrite Hd in Ha, Hk.
  destruct Hk as [Hh Hk]. cbn [fst snd] in Ha, Hh, Hk. destruct (account_ok _ _ _ Ha) as (lt & p & Hok & _).
  destruct (uploaded_prekeys_open_handshakes lt p km w 2 Hok) as (hpk & spk & otpks & km' & w' & binding & Hp & Hl & _ & Hc).
  - rewrite Hh. by intros h.
  - by rewrite Hk.
  - by rewrite Hk.
  - exists lt, hpk, spk, otpks, km', w', binding. split_and!; [done..|].
    destruct (Hc (ku_created_at spk + KYBER_SPK_MAX_AGE_SECS) None None) as (c & Hplan & _ & Hid & _); [by left|lia|]. by exists c.
Defined.
