(* ===== verification/DeviceTrust.v ===== *)
(** * Devices vouching for each other

    Models [src/src/crypto/device_certificate.rs] with [qr_fingerprint] of
    [src/src/history/discovery.rs]: the certificate by which one device of an account
    vouches for another, and the verdict on each device a server lists. Shown: the
    rounds of [judge] end, and a verdict of trust is given exactly along chains of
    certificates that start at a pinned device. *)

From stdpp Require Import gmap strings.
From S2P Require Import Prelude SuiteId Platform Classic Toy Crates X3dh EnvelopeBook KyberPrekeys KeyManager Client HybridSuite PqPrekeyPlan.

Definition DEVICE_CERT_PROLOGUE : bytes := as_bytes "KonstruktDeviceCert-v1".
Definition LINK_PROOF_PROLOGUE : bytes := as_bytes "KonstruktLinkProof-v1".
Definition DEVICE_CERT_VERSION : Z := 1.
Definition LINK_SECRET_LEN : Z := 32.
Definition DEVICE_ID_LEN : Z := 16.
Definition CERT_LEN : Z := 1 + DEVICE_ID_LEN + 8 + HYBRID_SIG_PUBLIC_KEY_SIZE + HYBRID_SIGNATURE_SIZE.

Record DeviceKeys := mkDeviceKeys {
  dk_identity_public : bytes;
  dk_verifying_key : bytes;
  dk_hybrid_public : bytes;
  dk_hybrid_binding : bytes;
}.

Inductive CertError := KeysMalformed | BindingInvalid | EvidenceMismatch | SignerIsSubject | SigningFailed.

Inductive LinkEvidence :=
  | QrFingerprint (fingerprint : bytes)
  | QrSecret (secret proof : bytes).

Inductive DeviceVerdict :=
  | Pinned
  | FirstOfAccount
  | Vouched (by_ : string)
  | Unvouched
  | KeyChanged
  | Invalid.
#[global] Instance device_verdict_eq_dec : EqDecision DeviceVerdict.
Proof. solve_decision. Defined.

Record TrustedDevice := mkTrustedDevice { td_device_id : string; td_hybrid_pin : option bytes }.

Record OfferedDevice := mkOfferedDevice { od_device_id : string; od_keys : DeviceKeys; od_certificate : option bytes }.

Record DeviceCertificate := mkDeviceCertificate {
  dc_signer_device_id : bytes;
  dc_issued_at : Z;
  dc_signer_hybrid_public : bytes;
  dc_signature : bytes;
}.

Definition certificate_encode (c : DeviceCertificate) : bytes :=
  [byte_of_Z DEVICE_CERT_VERSION] ++ dc_signer_device_id c ++ be_bytes 8 (dc_issued_at c) ++ dc_signer_hybrid_public c ++ dc_signature c.

Definition certificate_decode {E} (b : bytes) : res E (option DeviceCertificate) :=
  if negb (len b =? CERT_LEN) then Ok None else
  version ← index 0 b;
  if negb (byte_to_Z version =? DEVICE_CERT_VERSION) then Ok None else
  signer_device_id ← slice 1 (1 + DEVICE_ID_LEN) b;
  issued_at ← slice (1 + DEVICE_ID_LEN) (1 + DEVICE_ID_LEN + 8) b;
  let at_ := 1 + DEVICE_ID_LEN + 8 in
  signer_hybrid_public ← slice at_ (at_ + HYBRID_SIG_PUBLIC_KEY_SIZE) b;
  signature ← slice_from (at_ + HYBRID_SIG_PUBLIC_KEY_SIZE) b;
  Ok (Some (mkDeviceCertificate signer_device_id (be_val issued_at) signer_hybrid_public signature)).

Definition certificate_message (signer_device_id subject_device_id : bytes) (subject : DeviceKeys) (issued_at : Z) : bytes :=
  DEVICE_CERT_PROLOGUE ++ [byte_of_Z 0] ++ signer_device_id ++ subject_device_id ++
  dk_identity_public subject ++ dk_verifying_key subject ++ dk_hybrid_public subject ++ be_bytes 8 issued_at.

Section certificates.
Context `{ClassicCrates} `{!MlDsaCrate} `{Sha2Crate} `{HmacCrate} `{HexCrate}.

Definition qr_fingerprint (identity_public hybrid_public : bytes) : bytes := sha256 (identity_public ++ hybrid_public).

Definition link_proof_mac (secret identity_public hybrid_public : bytes) : bytes :=
  hmac_sha256 secret (LINK_PROOF_PROLOGUE ++ [byte_of_Z 0] ++ qr_fingerprint identity_public hybrid_public).

Definition link_key_proof (secret identity_public hybrid_public : bytes) : res CertError bytes :=
  if negb (len secret =? LINK_SECRET_LEN) then Err KeysMalformed else
  Ok (link_proof_mac secret identity_public hybrid_public).

Definition check_keys (keys : DeviceKeys) : res CertError bytes :=
  if negb (len (dk_identity_public keys) =? 32) || negb (len (dk_verifying_key keys) =? 32)
     || negb (len (dk_hybrid_public keys) =? HYBRID_SIG_PUBLIC_KEY_SIZE)
  then Err KeysMalformed else
  let bind := build_hybrid_identity_bind_message (dk_hybrid_public keys) in
  map_err (λ _, BindingInvalid) (classic_verify (dk_verifying_key keys) bind (dk_hybrid_binding keys));;
  Ok (derive_device_id_bytes (dk_identity_public keys)).

(** [Mac::verify_slice] compares the whole tag. *)
Definition check_evidence (keys : DeviceKeys) (evidence : LinkEvidence) : res CertError unit :=
  match evidence with
  | QrFingerprint fingerprint =>
      if bool_decide (fingerprint = qr_fingerprint (dk_identity_public keys) (dk_hybrid_public keys))
      then Ok tt else Err EvidenceMismatch
  | QrSecret secret proof =>
      if negb (len secret =? LINK_SECRET_LEN) then Err KeysMalformed else
      if bool_decide (link_proof_mac secret (dk_identity_public keys) (dk_hybrid_public keys) = proof)
      then Ok tt else Err EvidenceMismatch
  end.

Definition issue (signer_identity_public signer_hybrid_public : bytes) (subject : DeviceKeys) (evidence : LinkEvidence)
    (issued_at : Z) (sign : bytes → option bytes) : res CertError bytes :=
  subject_id ← check_keys subject;
  check_evidence subject evidence;;
  if negb (len signer_hybrid_public =? HYBRID_SIG_PUBLIC_KEY_SIZE) then Err SigningFailed else
  let signer_id := derive_device_id_bytes signer_identity_public in
  if bool_decide (signer_id = subject_id) then Err SignerIsSubject else
  let message := certificate_message signer_id subject_id subject issued_at in
  signature ← ok_or (sign message) SigningFailed;
  if negb (len signature =? HYBRID_SIGNATURE_SIZE) then Err SigningFailed else
  Ok (certificate_encode (mkDeviceCertificate signer_id issued_at signer_hybrid_public signature)).

Definition hybrid_pin (hybrid_public : bytes) : bytes := sha256 hybrid_public.

Definition vouching_signer (device : OfferedDevice) (anchors : gmap string bytes) : res CertError (option string) :=
  match od_certificate device with
  | None => Ok None
  | Some certificate =>
      cert ← certificate_decode certificate;
      match cert with
      | None => Ok None
      | Some cert =>
          let signer := hex_encode (dc_signer_device_id cert) in
          if bool_decide (signer = od_device_id device) then Ok None else
          match anchors !! signer with
          | None => Ok None
          | Some anchor =>
              if bool_decide (hybrid_pin (dc_signer_hybrid_public cert) ≠ anchor) then Ok None else
              match hex_decode (od_device_id device) with
              | None => Ok None
              | Some subject_id =>
                  if negb (len subject_id =? DEVICE_ID_LEN) then Ok None else
                  let message := certificate_message (dc_signer_device_id cert) subject_id (od_keys device) (dc_issued_at cert) in
                  match hybrid_verify (dc_signer_hybrid_public cert) message (dc_signature cert) with
                  | Ok _ => Ok (Some signer)
                  | Err _ => Ok None
                  | Panic => Panic
                  end
              end
          end
      end
  end.
End certificates.

(** ** The verdicts *)

(** [verdicts] and [anchors] *)
Abbreviation judge_state := (list (option DeviceVerdict) * gmap string bytes)%type.

Section judge.
Context `{ClassicCrates} `{!MlDsaCrate} `{Sha2Crate} `{HmacCrate} `{HexCrate}.

(** The first loop: a bundle that does not hold together. *)
Definition first_verdict (device : OfferedDevice) : res CertError (option DeviceVerdict) :=
  match check_keys (od_keys device) with
  | Ok id => Ok (if bool_decide (hex_encode id = od_device_id device) then None else Some Invalid)
  | Err _ => Ok (Some Invalid)
  | Panic => Panic
  end.

(** One round of the loop over the trusted devices. *)
Definition trust_step (offered : list OfferedDevice) (s : judge_state) (t : TrustedDevice) : judge_state :=
  let '(verdicts, anchors) := s in
  match list_find (λ dv, dv.2 = None ∧ od_device_id dv.1 = td_device_id t) (zip offered verdicts) with
  | Some (i, (d, _)) =>
      let presented := hybrid_pin (dk_hybrid_public (od_keys d)) in
      if match td_hybrid_pin t with Some p => bool_decide (p ≠ presented) | None => false end
      then (<[i := Some KeyChanged]> verdicts, anchors)
      else (<[i := Some Pinned]> verdicts, <[td_device_id t := presented]> anchors)
  | None =>
      match td_hybrid_pin t with
      | Some pin => (verdicts, <[td_device_id t := pin]> anchors)
      | None => s
      end
  end.

(** One pass over the offered devices, from the [i]th on. *)
Fixpoint vouch_pass (i : nat) (devices : list OfferedDevice) (s : judge_state) (progressed : bool)
    : res CertError (judge_state * bool) :=
  match devices with
  | [] => Ok (s, progressed)
  | device :: devices =>
      verdict ← index (Z.of_nat i) s.1;
      match verdict with
      | Some _ => vouch_pass (S i) devices s progressed
      | None =>
          signer ← vouching_signer device s.2;
          match signer with
          | None => vouch_pass (S i) devices s progressed
          | Some signer =>
              let anchors := <[od_device_id device := hybrid_pin (dk_hybrid_public (od_keys device))]> s.2 in
              vouch_pass (S i) devices (<[i := Some (Vouched signer)]> s.1, anchors) true
          end
      end
  end.

(** [loop], for at most [fuel] passes: [None] when they do not suffice. *)
Fixpoint vouch_passes (fuel : nat) (offered : list OfferedDevice) (s : judge_state) : option (res CertError judge_state) :=
  match fuel with
  | O => None
  | S fuel =>
      match vouch_pass 0 offered s false with
      | Ok (s, progressed) => if progressed then vouch_passes fuel offered s else Some (Ok s)
      | Err e => Some (Err e)
      | Panic => Some Panic
      end
  end.

(** Every pass but the last gives a device its verdict. *)
Definition judge (trusted : list TrustedDevice) (offered : list OfferedDevice) : option (res CertError (list DeviceVerdict)) :=
  match (mapM first_verdict offered : res CertError _) with
  | Ok verdicts =>
      let s := foldl (trust_step offered) (verdicts, ∅) trusted in
      match trusted with
      | [] => Some (Ok (default FirstOfAccount <$> s.1))
      | _ =>
          let finish (s : judge_state) : res CertError (list DeviceVerdict) := Ok (default Unvouched <$> s.1) in
          option_map (mbind finish) (vouch_passes (S (length offered)) offered s)
      end
  | Err e => Some (Err e)
  | Panic => Some Panic
  end.
End judge.

(** ** What the verdicts mean *)

Section trust.
Context `{ClassicCrates} `{!MlDsaCrate} `{Sha2Crate} `{HmacCrate} `{HexCrate}.
Implicit Types d : OfferedDevice.

(** The bundle holds together, and makes the id it is listed under. *)
Definition sound_keys (k : DeviceKeys) : Prop :=
  len (dk_identity_public k) = 32 ∧ len (dk_verifying_key k) = 32 ∧ len (dk_hybrid_public k) = HYBRID_SIG_PUBLIC_KEY_SIZE ∧
  ed_signed (dk_verifying_key k) (build_hybrid_identity_bind_message (dk_hybrid_public k)) (dk_hybrid_binding k).
Definition sound (d : OfferedDevice) : Prop :=
  sound_keys (od_keys d) ∧ derive_device_id (dk_identity_public (od_keys d)) = od_device_id d.

Definition pin_of (d : OfferedDevice) : bytes := sha256 (dk_hybrid_public (od_keys d)).

(** The certificate of [d] is a signature over its id and its keys by the hybrid key
    [pin] of another device, [signer]. *)
Definition certified (d : OfferedDevice) (signer : string) (pin : bytes) : Prop :=
  ∃ b cert subject_id, od_certificate d = Some b ∧ certificate_decode (E := CertError) b = Ok (Some cert) ∧
    hex_encode (dc_signer_device_id cert) = signer ∧ signer ≠ od_device_id d ∧ sha256 (dc_signer_hybrid_public cert) = pin ∧
    hex_decode (od_device_id d) = Some subject_id ∧ len subject_id = DEVICE_ID_LEN ∧
    hybrid_signed (dc_signer_hybrid_public cert)
      (certificate_message (dc_signer_device_id cert) subject_id (od_keys d) (dc_issued_at cert)) (dc_signature cert).

(** What the trusted devices [ts] alone say of an offered device. *)
Definition settled (ts : list TrustedDevice) (d : OfferedDevice) (v : option DeviceVerdict) : Prop :=
  match v with
  | Some Invalid => ¬ sound d
  | Some KeyChanged => sound d ∧ ∃ t p, t ∈ ts ∧ td_device_id t = od_device_id d ∧ td_hybrid_pin t = Some p ∧ p ≠ pin_of d
  | Some Pinned => sound d ∧ ∃ t, t ∈ ts ∧ td_device_id t = od_device_id d ∧ (td_hybrid_pin t = None ∨ td_hybrid_pin t = Some (pin_of d))
  | None => sound d ∧ od_device_id d ∉ td_device_id <$> ts
  | _ => False
  end.

(** The key a trusted device is trusted with: what it presents, unless that is not
    the pinned one, or the pin of a device that is not listed. *)
Definition pinned_anchor (offered : list OfferedDevice) (ts : list TrustedDevice) (id : string) (pin : bytes) : Prop :=
  ∃ t, t ∈ ts ∧ td_device_id t = id ∧
    ((∃ d, d ∈ offered ∧ sound d ∧ od_device_id d = id ∧ pin = pin_of d ∧ (td_hybrid_pin t = None ∨ td_hybrid_pin t = Some pin)) ∨
     ((∀ d, d ∈ offered → sound d → od_device_id d ≠ id) ∧ td_hybrid_pin t = Some pin)).

(** Trust spreads from the trusted devices through certificates. *)
Inductive anchored (trusted : list TrustedDevice) (offered : list OfferedDevice) : string → bytes → Prop :=
  | anchored_pin id pin : pinned_anchor offered trusted id pin → anchored trusted offered id pin
  | anchored_cert d signer pin : d ∈ offered → sound d → od_device_id d ∉ td_device_id <$> trusted →
      anchored trusted offered signer pin → certified d signer pin → anchored trusted offered (od_device_id d) (pin_of d).

Definition verdict_means (trusted : list TrustedDevice) (offered : list OfferedDevice) (d : OfferedDevice) (v : DeviceVerdict) : Prop :=
  match v with
  | Invalid | KeyChanged | Pinned => settled trusted d (Some v)
  | FirstOfAccount => sound d ∧ trusted = []
  | Vouched signer => settled trusted d None ∧ trusted ≠ [] ∧ ∃ pin, anchored trusted offered signer pin ∧ certified d signer pin
  | Unvouched => settled trusted d None ∧ trusted ≠ [] ∧ ∀ signer pin, anchored trusted offered signer pin → ¬ certified d signer pin
  end.

(** The keys a device can be trusted with, for any list, an id listed more than once
    included: a pinned key; what a trusted device without a pinned key presents; what
    a listed device presents that another one so trusted certifies. *)
Inductive reached (trusted : list TrustedDevice) (offered : list OfferedDevice) : string → bytes → Prop :=
  | reached_pin t pin : t ∈ trusted → td_hybrid_pin t = Some pin → reached trusted offered (td_device_id t) pin
  | reached_presented t d : t ∈ trusted → td_hybrid_pin t = None → d ∈ offered → sound d → od_device_id d = td_device_id t →
      reached trusted offered (td_device_id t) (pin_of d)
  | reached_cert d signer pin : d ∈ offered → sound d → reached trusted offered signer pin → certified d signer pin →
      reached trusted offered (od_device_id d) (pin_of d).

(** What a verdict promises, for any list. *)
Definition verdict_sound (trusted : list TrustedDevice) (offered : list OfferedDevice) (d : OfferedDevice) (v : DeviceVerdict) : Prop :=
  match v with
  | Invalid | KeyChanged | Pinned => settled trusted d (Some v)
  | FirstOfAccount => sound d ∧ trusted = []
  | Vouched signer => sound d ∧ trusted ≠ [] ∧ ∃ pin, reached trusted offered signer pin ∧ certified d signer pin
  | Unvouched => sound d ∧ trusted ≠ []
  end.

Lemma check_keys_means k : check_keys k ≠ Panic ∧
  ∀ id, check_keys k = Ok id ↔ id = derive_device_id_bytes (dk_identity_public k) ∧ sound_keys k.
Proof.
  unfold check_keys, sound_keys. destruct (Z.eqb_spec (len (dk_identity_public k)) 32); cbn [negb orb]; [|split; [done|]; naive_solver].
  destruct (Z.eqb_spec (len (dk_verifying_key k)) 32); cbn [negb orb]; [|split; [done|]; naive_solver].
  destruct (Z.eqb_spec (len (dk_hybrid_public k)) HYBRID_SIG_PUBLIC_KEY_SIZE); cbn [negb]; [|split; [done|]; naive_solver].
  pose proof (classic_verify_signed (dk_verifying_key k) (build_hybrid_identity_bind_message (dk_hybrid_public k)) (dk_hybrid_binding k)) as Hv.
  pose proof (classic_verify_no_panic (dk_verifying_key k) (build_hybrid_identity_bind_message (dk_hybrid_public k)) (dk_hybrid_binding k)).
  destruct (classic_verify _ _ _) as [[]|e'|]; cbn [map_err mbind res_bind]; [| |done]; (split; [done|]); naive_solver.
Qed.

Lemma first_verdict_settled d : ∃ v, first_verdict d = Ok v ∧ settled [] d v.
Proof.
  unfold first_verdict. destruct (check_keys_means (od_keys d)) as [Hp Hk]. destruct (check_keys _) as [id|e'|]; [| |done].
  - destruct (proj1 (Hk id) eq_refl) as [-> Hs]. eexists. split; [done|]. case_bool_decide as Hid; cbn [settled].
    + split; [done|apply not_elem_of_nil].
    + by intros [_ ?].
  - exists (Some Invalid). split; [done|]. intros [Hs _]. by pose proof (proj2 (Hk _) (conj eq_refl Hs)).
Qed.

Lemma certificate_decode_total b : ∃ o, certificate_decode (E := CertError) b = Ok o.
Proof.
  unfold certificate_decode. destruct (Z.eqb_spec (len b) CERT_LEN) as [Hl|]; cbn [negb]; [|eauto].
  destruct b as [|x b]; [done|]. change (index 0 (x :: b)) with (@Ok CertError _ x). cbn [mbind res_bind].
  destruct (negb _); [eauto|].
  destruct (slice_total (E := CertError) 1 (1 + DEVICE_ID_LEN) (x :: b)) as (? & -> & _); [done|by rewrite Hl|]. cbn [mbind res_bind].
  destruct (slice_total (E := CertError) (1 + DEVICE_ID_LEN) (1 + DEVICE_ID_LEN + 8) (x :: b)) as (? & -> & _); [done|by rewrite Hl|].
  cbn [mbind res_bind].
  destruct (slice_total (E := CertError) (1 + DEVICE_ID_LEN + 8) (1 + DEVICE_ID_LEN + 8 + HYBRID_SIG_PUBLIC_KEY_SIZE) (x :: b)) as (? & -> & _);
    [done|by rewrite Hl|]. cbn [mbind res_bind].
  unfold slice_from. destruct (slice_total (E := CertError) (1 + DEVICE_ID_LEN + 8 + HYBRID_SIG_PUBLIC_KEY_SIZE) (len (x :: b)) (x :: b)) as (? & -> & _);
    [by rewrite Hl|done|]. cbn [mbind res_bind]. eauto.
Qed.

Lemma vouching_signer_sound d anchors s : vouching_signer d anchors = Ok (Some s) → ∃ pin, anchors !! s = Some pin ∧ certified d s pin.
Proof.
  unfold vouching_signer. destruct (od_certificate d) as [b|] eqn:Hb; [|done].
  destruct (certificate_decode b) as [[cert|]| |] eqn:Hd; cbn [mbind res_bind]; [|done..].
  destruct (bool_decide_reflect (hex_encode (dc_signer_device_id cert) = od_device_id d)) as [|Hne]; [done|].
  destruct (anchors !! _) as [anchor|] eqn:Ha; [|done]. destruct (bool_decide _) eqn:Hp; [done|]. apply bool_decide_eq_false, dec_stable in Hp.
  destruct (hex_decode _) as [subject_id|] eqn:Hx; [|done]. destruct (Z.eqb_spec (len subject_id) DEVICE_ID_LEN) as [Hl|]; cbn [negb]; [|done].
  destruct (hybrid_verify _ _ _) as [[]| |] eqn:Hv; [|done..]. intros Hs. injection Hs as <-.
  exists anchor. split; [done|]. exists b, cert, subject_id. split_and!; try done. by apply hybrid_verify_signed.
Qed.
Lemma vouching_signer_complete d anchors s pin : anchors !! s = Some pin → certified d s pin → vouching_signer d anchors = Ok (Some s).
Proof.
  intros Ha (b & cert & x & Hb & Hd & Hs & Hne & Hp & Hx & Hl & Hv). unfold vouching_signer. rewrite Hb, Hd. cbn [mbind res_bind].
  rewrite Hs, Ha, Hx. rewrite bool_decide_eq_false_2, bool_decide_eq_false_2 by (unfold hybrid_pin; naive_solver).
  rewrite Hl. apply hybrid_verify_signed in Hv. by rewrite Hv.
Qed.
Lemma vouching_signer_total d anchors : ∃ o, vouching_signer d anchors = Ok o.
Proof.
  unfold vouching_signer. destruct (od_certificate d) as [b|]; [|eauto].
  destruct (certificate_decode_total b) as ([cert|] & ->); cbn [mbind res_bind]; [|eauto].
  destruct (bool_decide _); [eauto|]. destruct (anchors !! _) as [a|]; [|eauto]. destruct (bool_decide _); [eauto|].
  destruct (hex_decode _) as [x|]; [|eauto]. destruct (negb _); [eauto|].
  pose proof (hybrid_verify_no_panic (dc_signer_hybrid_public cert)
    (certificate_message (dc_signer_device_id cert) x (od_keys d) (dc_issued_at cert)) (dc_signature cert)).
  destruct (hybrid_verify _ _ _); eauto. done.
Qed.

(** *** After the trusted devices *)

Record trust_ok (offered : list OfferedDevice) (ts : list TrustedDevice) (s : judge_state) : Prop := {
  to_length : length s.1 = length offered;
  to_verdicts : ∀ i d v, offered !! i = Some d → s.1 !! i = Some v → settled ts d v;
  to_anchors : ∀ id pin, s.2 !! id = Some pin ↔ pinned_anchor offered ts id pin;
}.

Lemma settled_mono ts t d v : settled ts d v → td_device_id t ≠ od_device_id d → settled (ts ++ [t]) d v.
Proof.
  intros Hs Hne. assert (∀ x, x ∈ ts → x ∈ ts ++ [t]) by set_solver. destruct v as [[]|]; cbn [settled] in *; try naive_solver.
  destruct Hs as [Hd Hn]. split; [done|]. rewrite fmap_app. set_solver.
Qed.

Lemma pinned_anchor_other offered ts t id pin : id ≠ td_device_id t → pinned_anchor offered (ts ++ [t]) id pin ↔ pinned_anchor offered ts id pin.
Proof.
  intros Hne. unfold pinned_anchor. split; intros (x & Hx & Hid & Hp); exists x; (split_and!; [|done|done]).
  - apply elem_of_app in Hx as [?|?%list_elem_of_singleton]; [done|by subst].
  - apply elem_of_app. by left.
Qed.
Lemma pinned_anchor_here offered ts t pin : td_device_id t ∉ td_device_id <$> ts →
  pinned_anchor offered (ts ++ [t]) (td_device_id t) pin ↔ pinned_anchor offered [t] (td_device_id t) pin.
Proof.
  intros Hn. unfold pinned_anchor. split; intros (x & Hx & Hid & Hp); exists x; (split_and!; [|done|done]).
  - apply elem_of_app in Hx as [Hx|?]; [|done]. destruct Hn. rewrite <- Hid. by apply list_elem_of_fmap_2.
  - apply elem_of_app. by right.
Qed.

(** The listed devices under one id. *)
Lemma listed_once offered i j d d' : NoDup (od_device_id <$> offered) → offered !! i = Some d → offered !! j = Some d' →
  od_device_id d = od_device_id d' → i = j.
Proof.
  intros Hn Hi Hj He. eapply NoDup_lookup; [exact Hn|..]; rewrite list_lookup_fmap; [by rewrite Hi|by rewrite Hj, He].
Qed.
Lemma listed_same offered d d' : NoDup (od_device_id <$> offered) → d ∈ offered → d' ∈ offered → od_device_id d = od_device_id d' → d = d'.
Proof.
  intros Hn [i Hi]%list_elem_of_lookup [j Hj]%list_elem_of_lookup He. assert (i = j) as -> by (by eapply listed_once). congruence.
Qed.

Lemma pinned_here_listed offered t d pin : NoDup (od_device_id <$> offered) → d ∈ offered → sound d → od_device_id d = td_device_id t →
  pinned_anchor offered [t] (td_device_id t) pin ↔ pin = pin_of d ∧ (td_hybrid_pin t = None ∨ td_hybrid_pin t = Some pin).
Proof.
  intros Hn Hd Hs Hid. split.
  - intros (x & ->%list_elem_of_singleton & _ & [(d' & Hd' & Hs' & Hid' & -> & Hp)|[Hno _]]); [|by destruct (Hno d)].
    by assert (d' = d) as -> by (eapply listed_same; try done; congruence).
  - intros [-> Hp]. exists t. split_and!; [set_solver|done|]. left. by exists d.
Qed.
Lemma pinned_here_unlisted offered t pin : (∀ d, d ∈ offered → sound d → od_device_id d ≠ td_device_id t) →
  pinned_anchor offered [t] (td_device_id t) pin ↔ td_hybrid_pin t = Some pin.
Proof.
  intros Hno. split.
  - intros (x & ->%list_elem_of_singleton & _ & [(d & Hd & Hs & Hid & _)|[_ Hp]]); [by destruct (Hno d)|done].
  - intros Hp. exists t. split_and!; [set_solver|done|]. by right.
Qed.

Lemma anchors_step offered ts t (an an' : gmap string bytes) : td_device_id t ∉ td_device_id <$> ts →
  (∀ id pin, an !! id = Some pin ↔ pinned_anchor offered ts id pin) →
  (∀ id, id ≠ td_device_id t → an' !! id = an !! id) →
  (∀ pin, an' !! td_device_id t = Some pin ↔ pinned_anchor offered [t] (td_device_id t) pin) →
  ∀ id pin, an' !! id = Some pin ↔ pinned_anchor offered (ts ++ [t]) id pin.
Proof.
  intros Hn Ha Hother Hhere id pin. destruct (decide (id = td_device_id t)) as [->|Hne].
  - by rewrite pinned_anchor_here.
  - by rewrite Hother, pinned_anchor_other.
Qed.
Lemma unanchored offered ts t (an : gmap string bytes) : td_device_id t ∉ td_device_id <$> ts →
  (∀ id pin, an !! id = Some pin ↔ pinned_anchor offered ts id pin) → an !! td_device_id t = None.
Proof.
  intros Hn Ha. destruct (an !! td_device_id t) as [pin|] eqn:Hl; [|done]. apply Ha in Hl as (x & Hx & Hid & _).
  destruct Hn. rewrite <- Hid. by apply list_elem_of_fmap_2.
Qed.

Lemma trust_step_listed offered ts t s i d nv an' : NoDup (od_device_id <$> offered) → td_device_id t ∉ td_device_id <$> ts →
  trust_ok offered ts s → offered !! i = Some d → od_device_id d = td_device_id t →
  settled (ts ++ [t]) d (Some nv) → (∀ id, id ≠ td_device_id t → an' !! id = s.2 !! id) →
  (∀ pin, an' !! td_device_id t = Some pin ↔ pinned_anchor offered [t] (td_device_id t) pin) →
  trust_ok offered (ts ++ [t]) (<[i := Some nv]> s.1, an').
Proof.
  intros Hn Ht [Hl Hv Ha] Hd Hid Hs Ho Hh. split; cbn [fst snd].
  - by rewrite length_insert.
  - intros j d' v Hd' Hvj. destruct (decide (i = j)) as [->|Hne].
    + rewrite list_lookup_insert_eq in Hvj by (apply lookup_lt_Some in Hd; lia). congruence.
    + rewrite list_lookup_insert_ne in Hvj by done. apply settled_mono; [by eapply Hv|]. intros He. apply Hne.
      eapply listed_once; try done. congruence.
  - by eapply anchors_step.
Qed.

(** Under the id of a trusted device that is not found stand only broken bundles. *)
Lemma unlisted_invalid offered ts t s : td_device_id t ∉ td_device_id <$> ts → trust_ok offered ts s →
  list_find (λ dv, dv.2 = None ∧ od_device_id dv.1 = td_device_id t) (zip offered s.1) = None →
  (∀ i d v, offered !! i = Some d → s.1 !! i = Some v → od_device_id d = td_device_id t → v = Some Invalid) ∧
  (∀ d, d ∈ offered → sound d → od_device_id d ≠ td_device_id t).
Proof.
  intros Ht [Hl Hv Ha] Hf%list_find_None. assert (∀ i d v, offered !! i = Some d → s.1 !! i = Some v → od_device_id d = td_device_id t → v = Some Invalid) as Hinv.
  { intros i d v Hd Hvi Hid. pose proof (Hv _ _ _ Hd Hvi) as Hs. destruct v as [[]|]; cbn [settled] in Hs; try done; exfalso.
    1, 2: destruct Hs as [_ (x & Hx)]; apply Ht; rewrite <- Hid.
    - destruct Hx as (Hx & <- & _). by apply list_elem_of_fmap_2.
    - destruct Hx as (p & Hx & <- & _). by apply list_elem_of_fmap_2.
    - rewrite Forall_forall in Hf. apply (Hf (d, None)); [|done]. eapply list_elem_of_lookup_2, lookup_zip_Some. by split. }
  split; [done|]. intros d [i Hd]%list_elem_of_lookup Hs Hid.
  destruct (lookup_lt_is_Some_2 s.1 i) as [v Hvi]; [rewrite Hl; by eapply lookup_lt_Some|].
  pose proof (Hv _ _ _ Hd Hvi) as Hset. by rewrite (Hinv _ _ _ Hd Hvi Hid) in Hset.
Qed.

Lemma trust_step_ok offered ts t s : NoDup (od_device_id <$> offered) → td_device_id t ∉ td_device_id <$> ts →
  trust_ok offered ts s → trust_ok offered (ts ++ [t]) (trust_step offered s t).
Proof.
  intros Hn Ht Hok. pose proof Hok as [Hl Hv Ha]. destruct s as [vs an]. cbn [fst snd] in *. unfold trust_step.
  assert (t ∈ ts ++ [t]) as Hin by set_solver. destruct (list_find _ _) as [[i [d v]]|] eqn:Hf.
  - apply list_find_Some in Hf as (Hz & [Hv0 Hid] & _). cbn [fst snd] in *. subst v.
    apply lookup_zip_Some in Hz as [Hd Hvi]. destruct (Hv _ _ _ Hd Hvi) as [Hs _].
    assert (∀ pin, pinned_anchor offered [t] (td_device_id t) pin ↔ pin = pin_of d ∧ (td_hybrid_pin t = None ∨ td_hybrid_pin t = Some pin)) as Hp
      by (intros pin; apply pinned_here_listed; try done; by eapply list_elem_of_lookup_2).
    unfold hybrid_pin. fold (pin_of d).
    destruct (match td_hybrid_pin t with Some p => _ | None => _ end) eqn:Hb.
    + destruct (td_hybrid_pin t) as [p|] eqn:Htp; [|done]. apply bool_decide_eq_true in Hb.
      eapply (trust_step_listed _ _ _ (vs, an)); try done.
      * cbn [settled]. split; [done|]. by exists t, p.
      * intros pin. cbn [snd]. rewrite (unanchored offered ts t an Ht Ha), Hp. naive_solver.
    + assert (td_hybrid_pin t = None ∨ td_hybrid_pin t = Some (pin_of d)) as Htp.
      { destruct (td_hybrid_pin t); [|by left]. apply bool_decide_eq_false, dec_stable in Hb. right. by f_equal. }
      eapply (trust_step_listed _ _ _ (vs, an)); try done.
      * cbn [settled]. split; [done|]. by exists t.
      * intros id Hne. by rewrite lookup_insert_ne.
      * intros pin. rewrite lookup_insert_eq, Hp. naive_solver.
  - destruct (unlisted_invalid offered ts t (vs, an) Ht Hok Hf) as [Hinv Hno].
    assert (∀ an', (∀ id, id ≠ td_device_id t → an' !! id = an !! id) → (∀ pin, an' !! td_device_id t = Some pin ↔ td_hybrid_pin t = Some pin) →
      trust_ok offered (ts ++ [t]) (vs, an')) as Hgo.
    { intros an' Ho Hh. split; cbn [fst snd]; [done| |].
      - intros i d v Hd Hvi. pose proof (Hv _ _ _ Hd Hvi) as Hs. destruct (decide (td_device_id t = od_device_id d)) as [He|]; [|by apply settled_mono].
        by rewrite (Hinv _ _ _ Hd Hvi) in Hs |- * by done.
      - eapply anchors_step; [done|exact Ha|done|]. intros pin. by rewrite pinned_here_unlisted. }
    destruct (td_hybrid_pin t) as [pin|] eqn:Htp; apply Hgo.
    + intros id Hne. by rewrite lookup_insert_ne.
    + intros p. by rewrite lookup_insert_eq.
    + done.
    + intros p. by rewrite (unanchored offered ts t an Ht Ha).
Qed.

Lemma trust_steps_ok offered ts : ∀ done s, NoDup (od_device_id <$> offered) → NoDup (td_device_id <$> done ++ ts) →
  trust_ok offered done s → trust_ok offered (done ++ ts) (foldl (trust_step offered) s ts).
Proof.
  induction ts as [|t ts IH]; intros done s Hn Ht Hok; [by rewrite app_nil_r|]. rewrite cons_middle, app_assoc in Ht |- *. cbn [foldl].
  apply IH; [done|done|]. apply trust_step_ok; [done| |done]. rewrite !fmap_app in Ht. apply NoDup_app in Ht as [Ht _].
  apply NoDup_app in Ht as (_ & Hd & _). intros Hin. by apply (Hd _ Hin), list_elem_of_singleton.
Qed.

Lemma first_verdicts_ok offered : ∃ vs, (mapM first_verdict offered : res CertError _) = Ok vs ∧ trust_ok offered [] (vs, ∅).
Proof.
  assert (∃ vs, (mapM first_verdict offered : res CertError _) = Ok vs ∧ Forall2 (settled []) offered vs) as (vs & Hm & Hf).
  { induction offered as [|d offered (vs & IH & Hf)]; [by exists []|]. cbn [mapM]. destruct (first_verdict_settled d) as (v & -> & Hv).
    cbn [mbind res_bind]. rewrite IH. exists (v :: vs). by split; [|constructor]. }
  exists vs. split; [done|]. split; cbn [fst snd].
  - by rewrite (Forall2_length _ _ _ Hf).
  - intros i d v Hd Hv. by eapply Forall2_lookup_lr.
  - intros id pin. rewrite lookup_empty. split; [done|]. by intros (x & ?%not_elem_of_nil & _).
Qed.

(** *** The passes *)

Definition undecided (vs : list (option DeviceVerdict)) : nat := length (filter (λ v, v = None) vs).

Lemma undecided_insert vs i v : vs !! i = Some None → S (undecided (<[i := Some v]> vs)) = undecided vs.
Proof.
  unfold undecided. revert i. induction vs as [|x vs IH]; intros [|i] Hi; [done|done|injection Hi as ->|].
  - change (<[0%nat := Some v]> (None :: vs)) with (Some v :: vs). by rewrite filter_cons_False, filter_cons_True.
  - change (<[S i := Some v]> (x :: vs)) with (x :: <[i := Some v]> vs). specialize (IH i Hi).
    destruct x; [by rewrite !filter_cons_False by done|]. rewrite !filter_cons_True by done. cbn [length]. by f_equal.
Qed.
Lemma undecided_length vs : (undecided vs ≤ length vs)%nat.
Proof. apply length_filter. Qed.

Record pass_ok (trusted : list TrustedDevice) (offered : list OfferedDevice) (s : judge_state) : Prop := {
  pa_length : length s.1 = length offered;
  pa_verdicts : ∀ i d v, offered !! i = Some d → s.1 !! i = Some v →
    match v with
    | Some (Vouched signer) => settled trusted d None ∧ (∃ pin, anchored trusted offered signer pin ∧ certified d signer pin) ∧
        s.2 !! od_device_id d = Some (pin_of d)
    | _ => settled trusted d v
    end;
  pa_sound : ∀ id pin, s.2 !! id = Some pin → anchored trusted offered id pin;
  pa_base : ∀ id pin, pinned_anchor offered trusted id pin → s.2 !! id = Some pin;
}.

Lemma trust_pass_ok trusted offered s : trust_ok offered trusted s → pass_ok trusted offered s.
Proof.
  intros [Hl Hv Ha]. split; [done| | |].
  - intros i d v Hd Hvi. specialize (Hv i d v Hd Hvi). by destruct v as [[]|].
  - intros id pin Hp%Ha. by apply anchored_pin.
  - intros id pin. apply Ha.
Qed.

Lemma vouch_ok trusted offered s i d signer : NoDup (od_device_id <$> offered) → pass_ok trusted offered s →
  offered !! i = Some d → s.1 !! i = Some None → vouching_signer d s.2 = Ok (Some signer) →
  pass_ok trusted offered (<[i := Some (Vouched signer)]> s.1, <[od_device_id d := pin_of d]> s.2).
Proof.
  intros Hn [Hl Hv Hs Hb] Hd Hvi Hsig. apply vouching_signer_sound in Hsig as (pin & Hpin & Hc). apply Hs in Hpin.
  destruct (Hv _ _ _ Hd Hvi) as [Hso Hnt]. split; cbn [fst snd].
  - by rewrite length_insert.
  - intros j d' v Hd' Hvj. destruct (decide (i = j)) as [->|Hne].
    + rewrite list_lookup_insert_eq in Hvj by (apply lookup_lt_Some in Hvi; lia). assert (d' = d) as -> by congruence. injection Hvj as <-.
      split_and!; [done|by exists pin|by rewrite lookup_insert_eq].
    + rewrite list_lookup_insert_ne in Hvj by done. specialize (Hv _ _ _ Hd' Hvj). destruct v as [[]|]; try done.
      rewrite lookup_insert_ne; [done|]. intros He. apply Hne. by eapply listed_once.
  - intros id p. destruct (decide (id = od_device_id d)) as [->|Hne].
    + rewrite lookup_insert_eq. intros [= <-]. eapply anchored_cert; try done. by eapply list_elem_of_lookup_2.
    + rewrite lookup_insert_ne by done. apply Hs.
  - intros id p Hp. rewrite lookup_insert_ne; [by apply Hb|]. intros <-. apply Hnt. destruct Hp as (t & Ht & <- & _). by apply list_elem_of_fmap_2.
Qed.

(** No device is left that an anchor vouches for. *)
Definition exhausted (offered : list OfferedDevice) (from : nat) (s : judge_state) : Prop :=
  ∀ j d, (from ≤ j)%nat → offered !! j = Some d → s.1 !! j = Some None → vouching_signer d s.2 = Ok None.

(** What one vouched device at a time preserves, the passes preserve. *)
Section passes.
Context (offered : list OfferedDevice) (P : judge_state → Prop).
Hypothesis P_length : ∀ s, P s → length s.1 = length offered.
Hypothesis P_vouch : ∀ s i d signer, P s → offered !! i = Some d → s.1 !! i = Some None → vouching_signer d s.2 = Ok (Some signer) →
  P (<[i := Some (Vouched signer)]> s.1, <[od_device_id d := pin_of d]> s.2).

Lemma vouch_pass_ok rest : ∀ i s p, drop i offered = rest → P s →
  ∃ s' p', vouch_pass i rest s p = Ok (s', p') ∧ P s' ∧ (undecided s'.1 ≤ undecided s.1)%nat ∧
    (p' = true → p = false → undecided s'.1 < undecided s.1)%nat ∧ (p' = false → p = false ∧ s' = s ∧ exhausted offered i s).
Proof.
  induction rest as [|d rest IH]; intros i s p Hdrop Hok; cbn [vouch_pass].
  { exists s, p. split_and!; try done; [by intros ->|]. intros ->. split_and!; [done..|]. intros j d Hj Hd _.
    apply lookup_lt_Some in Hd. apply (f_equal length) in Hdrop. rewrite length_drop in Hdrop. cbn in Hdrop. lia. }
  assert (offered !! i = Some d) as Hd by (rewrite <- (Nat.add_0_r i), <- lookup_drop, Hdrop; done).
  assert (drop (S i) offered = rest) as Hdrop' by (rewrite <- Nat.add_1_r, <- drop_drop, Hdrop; done).
  destruct (lookup_lt_is_Some_2 s.1 i) as [v Hv]; [rewrite (P_length _ Hok); by eapply lookup_lt_Some|].
  unfold index. rewrite Nat2Z.id, (proj2 (Z.leb_le _ _)), Hv by lia. cbn [mbind res_bind].
  assert (∀ s' p', p' = false → (p' = false → p = false ∧ s' = s ∧ exhausted offered (S i) s) →
    (v = None → vouching_signer d s.2 = Ok None) → p = false ∧ s' = s ∧ exhausted offered i s) as Hskip.
  { intros s' p' Hp' Hex Hvs. destruct (Hex Hp') as (-> & -> & Hx). split_and!; [done..|]. intros j d' Hj Hd' Hvj.
    destruct (decide (i = j)) as [->|]; [|apply (Hx j d'); [lia|done|done]]. assert (d' = d) as -> by congruence. apply Hvs. congruence. }
  destruct v as [v|].
  { destruct (IH (S i) s p Hdrop' Hok) as (s' & p' & -> & Hok' & Hle & Hlt & Hex). exists s', p'.
    split_and!; [done..|]. intros Hp'. by apply (Hskip s' p' Hp' Hex). }
  destruct (vouching_signer_total d s.2) as [[signer|] Hs]; rewrite Hs; cbn [mbind res_bind].
  2: { destruct (IH (S i) s p Hdrop' Hok) as (s' & p' & -> & Hok' & Hle & Hlt & Hex). exists s', p'.
    split_and!; [done..|]. intros Hp'. by apply (Hskip s' p' Hp' Hex). }
  pose proof (P_vouch _ _ _ _ Hok Hd Hv Hs) as Hok1. pose proof (undecided_insert s.1 i (Vouched signer) Hv) as Hu.
  change (hybrid_pin (dk_hybrid_public (od_keys d))) with (pin_of d).
  destruct (IH (S i) _ true Hdrop' Hok1) as (s' & p' & -> & Hok' & Hle & _ & Hex). cbn [fst] in Hle. exists s', p'. split_and!; [done|done|lia|lia|].
  intros ->. by destruct (Hex eq_refl).
Qed.

Lemma vouch_passes_ok fuel : ∀ s, P s → (undecided s.1 < fuel)%nat →
  ∃ s', vouch_passes fuel offered s = Some (Ok s') ∧ P s' ∧ exhausted offered 0 s'.
Proof.
  induction fuel as [|fuel IH]; intros s Hok Hf; [lia|]. cbn [vouch_passes].
  destruct (vouch_pass_ok offered 0 s false (drop_0 _) Hok) as (s' & [] & -> & Hok' & Hle & Hlt & Hex).
  - apply IH; [done|]. specialize (Hlt eq_refl eq_refl). lia.
  - destruct (Hex eq_refl) as (_ & -> & Hx). by exists s.
Qed.
End passes.

(** At the end the anchors are all of the trust there is. *)
Lemma passes_complete trusted offered s : pass_ok trusted offered s → exhausted offered 0 s →
  ∀ id pin, anchored trusted offered id pin → s.2 !! id = Some pin.
Proof.
  intros Hok Hx id pin Ha. induction Ha as [id pin Hp|d signer pin Hd Hs Hnt _ IH Hc]; [by eapply pa_base|].
  apply list_elem_of_lookup in Hd as [j Hd].
  destruct (lookup_lt_is_Some_2 s.1 j) as [v Hv]; [rewrite (pa_length _ _ _ Hok); by eapply lookup_lt_Some|].
  pose proof (pa_verdicts _ _ _ Hok _ _ _ Hd Hv) as Hm. destruct v as [[]|]; cbn [settled] in Hm; try done.
  - destruct Hm as [_ (t & Ht & He & _)]. destruct Hnt. rewrite <- He. by apply list_elem_of_fmap_2.
  - by destruct Hm as (_ & _ & ?).
  - destruct Hm as [_ (t & p & Ht & He & _)]. destruct Hnt. rewrite <- He. by apply list_elem_of_fmap_2.
  - pose proof (Hx j d (Nat.le_0_l _) Hd Hv) as Hno. by rewrite (vouching_signer_complete _ _ _ _ IH Hc) in Hno.
Qed.

Lemma final_verdict trusted offered s i d v : trusted ≠ [] → pass_ok trusted offered s → exhausted offered 0 s →
  offered !! i = Some d → s.1 !! i = Some v → verdict_means trusted offered d (default Unvouched v).
Proof.
  intros Hne Hok Hx Hd Hvi. pose proof (pa_verdicts _ _ _ Hok _ _ _ Hd Hvi) as Hm. destruct v as [[]|]; try done.
  - destruct Hm as (Hs & Hv & _). by split_and!.
  - split_and!; [done..|]. intros signer pin Ha Hc.
    pose proof (Hx i d (Nat.le_0_l _) Hd Hvi) as Hno. by rewrite (vouching_signer_complete _ _ _ _ (passes_complete _ _ _ Hok Hx _ _ Ha) Hc) in Hno.
Qed.

(** *** Any list *)

Record safe (trusted : list TrustedDevice) (offered : list OfferedDevice) (s : judge_state) : Prop := {
  sf_length : length s.1 = length offered;
  sf_verdicts : ∀ i d v, offered !! i = Some d → s.1 !! i = Some v →
    match v with
    | Some (Vouched signer) => sound d ∧ ∃ pin, reached trusted offered signer pin ∧ certified d signer pin
    | Some v => settled trusted d (Some v)
    | None => sound d
    end;
  sf_anchors : ∀ id pin, s.2 !! id = Some pin → reached trusted offered id pin;
}.

(** One more verdict, and an anchor for its device. *)
Lemma safe_insert trusted offered s i d v (an : gmap string bytes) : safe trusted offered s → offered !! i = Some d →
  match v with
  | Vouched signer => sound d ∧ ∃ pin, reached trusted offered signer pin ∧ certified d signer pin
  | _ => settled trusted d (Some v)
  end → (∀ id pin, an !! id = Some pin → reached trusted offered id pin) → safe trusted offered (<[i := Some v]> s.1, an).
Proof.
  intros [Hl Hv Ha] Hd Hn Han. split; cbn [fst snd]; [by rewrite length_insert| |done].
  intros j d' v' Hd' Hvj. destruct (decide (i = j)) as [->|Hne]; [|rewrite list_lookup_insert_ne in Hvj by done; by eapply Hv].
  rewrite list_lookup_insert_eq in Hvj by (apply lookup_lt_Some in Hd; lia). injection Hvj as <-. by assert (d' = d) as -> by congruence.
Qed.
Lemma safe_anchor trusted offered s id pin : safe trusted offered s → reached trusted offered id pin →
  ∀ id' pin', <[id := pin]> s.2 !! id' = Some pin' → reached trusted offered id' pin'.
Proof.
  intros Hs Hr id' pin'. destruct (decide (id' = id)) as [->|Hne]; [rewrite lookup_insert_eq; by intros [= <-]|].
  rewrite lookup_insert_ne by done. apply Hs.
Qed.

Lemma safe_trust_step trusted offered t s : t ∈ trusted → safe trusted offered s → safe trusted offered (trust_step offered s t).
Proof.
  intros Ht Hs. pose proof Hs as [_ Hv _]. destruct s as [vs an]. unfold trust_step.
  destruct (list_find _ _) as [[i [d v]]|] eqn:Hf.
  - apply list_find_Some in Hf as (Hz & [Hv0 Hid] & _). cbn [fst snd] in *. subst v. apply lookup_zip_Some in Hz as [Hd Hvi].
    specialize (Hv _ _ _ Hd Hvi). cbn in Hv. unfold hybrid_pin. fold (pin_of d).
    destruct (match td_hybrid_pin t with Some p => _ | None => _ end) eqn:Hb.
    + destruct (td_hybrid_pin t) as [p|] eqn:Htp; [|done]. apply bool_decide_eq_true in Hb.
      apply (safe_insert trusted offered (vs, an) i d); [done|done| |apply Hs]. split; [done|]. by exists t, p.
    + assert (td_hybrid_pin t = None ∨ td_hybrid_pin t = Some (pin_of d)) as Htp.
      { destruct (td_hybrid_pin t); [|by left]. apply bool_decide_eq_false, dec_stable in Hb. right. by f_equal. }
      apply (safe_insert trusted offered (vs, an) i d); [done|done|split; [done|]; by exists t|].
      apply (safe_anchor trusted offered (vs, an)); [done|].
      destruct Htp; [|by apply reached_pin]. eapply reached_presented; try done. by eapply list_elem_of_lookup_2.
  - destruct (td_hybrid_pin t) as [pin|] eqn:Htp; [|done]. split; [apply Hs|apply Hs|]. apply (safe_anchor trusted offered (vs, an)); [done|].
    by apply reached_pin.
Qed.

Lemma safe_trust_steps trusted offered ts s : (∀ t, t ∈ ts → t ∈ trusted) → safe trusted offered s →
  safe trusted offered (foldl (trust_step offered) s ts).
Proof.
  revert s. induction ts as [|t ts IH]; intros s Hts Hs; [done|]. cbn [foldl].
  apply IH; [set_solver|]. apply safe_trust_step; [set_solver|done].
Qed.

Lemma safe_first trusted offered vs : trust_ok offered [] (vs, ∅) → safe trusted offered (vs, ∅).
Proof.
  intros [Hl Hv _]. split; [done| |by intros ??; cbn; rewrite lookup_empty]. intros i d v Hd Hvi. specialize (Hv i d v Hd Hvi).
  destruct v as [[]|]; cbn [settled] in Hv |- *; try done; [|..|by destruct Hv].
  - destruct Hv as [_ (t & ?%not_elem_of_nil & _)]. done.
  - destruct Hv as [_ (t & ? & ?%not_elem_of_nil & _)]. done.
Qed.

Lemma safe_vouch trusted offered s i d signer : safe trusted offered s → offered !! i = Some d → s.1 !! i = Some None →
  vouching_signer d s.2 = Ok (Some signer) → safe trusted offered (<[i := Some (Vouched signer)]> s.1, <[od_device_id d := pin_of d]> s.2).
Proof.
  intros Hs Hd Hvi (pin & Hpin & Hc)%vouching_signer_sound. pose proof (sf_verdicts _ _ _ Hs _ _ _ Hd Hvi) as Hso. cbn in Hso.
  apply (sf_anchors _ _ _ Hs) in Hpin. apply (safe_insert _ _ _ _ d); [done|done|split; [done|by exists pin]|].
  apply safe_anchor; [done|]. eapply reached_cert; try done. by eapply list_elem_of_lookup_2.
Qed.

End trust.

(** ** Linking a device *)

(** What shows that the keys are those of the device next to the owner. *)
Definition shown `{Sha2Crate} `{HmacCrate} (k : DeviceKeys) (e : LinkEvidence) : Prop :=
  match e with
  | QrFingerprint fingerprint => fingerprint = sha256 (dk_identity_public k ++ dk_hybrid_public k)
  | QrSecret secret proof => len secret = LINK_SECRET_LEN ∧ link_key_proof secret (dk_identity_public k) (dk_hybrid_public k) = Ok proof
  end.

(** A device as a server lists it. *)
Definition listed `{Sha2Crate} `{HexCrate} (k : DeviceKeys) (certificate : option bytes) : OfferedDevice :=
  mkOfferedDevice (derive_device_id (dk_identity_public k)) k certificate.

(** [HybridSuiteProvider::sign(..).ok()] with the signer's key *)
Definition sign_with `{ClassicCrates} `{!MlDsaCrate} (es ms message : bytes) : option bytes :=
  match hybrid_sign (hybrid_signature_keypair_from_seeds es ms).1 message with Ok s => Some s | _ => None end.

Section link.
Context `{ClassicCrates} `{!MlDsaCrate} `{Sha2Crate} `{HmacCrate} `{HexCrate} `{!Ed25519Laws} `{!MlDsaLaws} `{!Sha2Laws} `{!HexLaws}.

Lemma certificate_roundtrip {E} c : len (dc_signer_device_id c) = DEVICE_ID_LEN → is_u64 (dc_issued_at c) →
  len (dc_signer_hybrid_public c) = HYBRID_SIG_PUBLIC_KEY_SIZE → len (dc_signature c) = HYBRID_SIGNATURE_SIZE →
  certificate_decode (E := E) (certificate_encode c) = Ok (Some c).
Proof.
  destruct c as [id t hp sg]. cbn [dc_signer_device_id dc_issued_at dc_signer_hybrid_public dc_signature]. intros Hi Ht Hh Hs.
  unfold certificate_decode, certificate_encode. cbn [dc_signer_device_id dc_issued_at dc_signer_hybrid_public dc_signature].
  rewrite (proj2 (Z.eqb_eq (len _) CERT_LEN)) by (rewrite !len_app, len_be_bytes, Hi, Hh, Hs; done). cbn [negb].
  assert (∀ (x : byte) l, @index E _ 0 ([x] ++ l) = Ok x) as -> by done. cbn [mbind res_bind].
  change (byte_to_Z (byte_of_Z DEVICE_CERT_VERSION) =? DEVICE_CERT_VERSION) with true. cbn [negb].
  rewrite (slice_mid 1 (1 + DEVICE_ID_LEN) [byte_of_Z DEVICE_CERT_VERSION] id) by (rewrite ?Hi; done). cbn [mbind res_bind].
  rewrite app_assoc, (slice_mid (1 + DEVICE_ID_LEN) (1 + DEVICE_ID_LEN + 8) ([byte_of_Z DEVICE_CERT_VERSION] ++ id) (be_bytes 8 t))
    by (rewrite len_app, ?len_be_bytes, Hi; done). cbn [mbind res_bind].
  rewrite app_assoc, (slice_mid (1 + DEVICE_ID_LEN + 8) (1 + DEVICE_ID_LEN + 8 + HYBRID_SIG_PUBLIC_KEY_SIZE) _ hp)
    by (rewrite !len_app, len_be_bytes, ?Hi, ?Hh; done). cbn [mbind res_bind].
  rewrite app_assoc, (slice_from_app _ _ sg) by (rewrite !len_app, len_be_bytes, Hi, Hh; done). cbn [mbind res_bind].
  rewrite be_val_bytes_small; [done|]. change (256 ^ Z.of_nat 8) with (2 ^ 64). unfold is_u64, u64_max in Ht. lia.
Qed.

Lemma check_evidence_means k e : check_evidence k e ≠ Panic ∧ (check_evidence k e = Ok tt ↔ shown k e).
Proof.
  destruct e as [fp|secret proof]; cbn [check_evidence shown]; [case_bool_decide; naive_solver|]. unfold link_key_proof.
  destruct (Z.eqb_spec (len secret) LINK_SECRET_LEN); cbn [negb]; [|naive_solver]. case_bool_decide; naive_solver.
Qed.

Lemma device_id_bytes_len b : len (derive_device_id_bytes b) = DEVICE_ID_LEN.
Proof. unfold derive_device_id_bytes, len. pose proof (sha256_len b). unfold len in *. rewrite length_take. unfold DEVICE_ID_LEN. lia. Qed.

Lemma device_id_inj a b : derive_device_id a = derive_device_id b ↔ derive_device_id_bytes a = derive_device_id_bytes b.
Proof.
  unfold derive_device_id. split; [|by intros ->]. intros He%(f_equal hex_decode). rewrite !hex_decode_encode in He. by injection He.
Qed.

(** What [issue] writes for keys that passed. *)
Lemma issue_writes es ms identity subject evidence t : len es = 32 → len ms = 32 → sound_keys subject → shown subject evidence →
  derive_device_id identity ≠ derive_device_id (dk_identity_public subject) →
  let hybrid := (hybrid_signature_keypair_from_seeds es ms).2 in
  let m := certificate_message (derive_device_id_bytes identity) (derive_device_id_bytes (dk_identity_public subject)) subject t in
  ∃ s, issue identity hybrid subject evidence t (sign_with es ms) =
      Ok (certificate_encode (mkDeviceCertificate (derive_device_id_bytes identity) t hybrid s)) ∧ hybrid_signed hybrid m s.
Proof.
  intros He Hm Hk Hs Hne hybrid m. unfold issue. rewrite (proj2 (proj2 (check_keys_means subject) _) (conj eq_refl Hk)). cbn [mbind res_bind].
  rewrite (proj2 (proj2 (check_evidence_means _ _)) Hs). cbn [mbind res_bind].
  destruct (hybrid_sign_verifies es ms m He Hm) as (s & Hsig & Hl & Hv%hybrid_verify_signed).
  rewrite (proj2 (Z.eqb_eq (len hybrid) _)) by (by eapply hybrid_signed_len). cbn [negb].
  rewrite bool_decide_eq_false_2 by (by rewrite <- device_id_inj). fold m. unfold sign_with. rewrite Hsig. cbn [ok_or mbind res_bind].
  rewrite Hl. exists s. by split.
Qed.
Lemma issue_requires identity hybrid subject evidence t sign : issue identity hybrid subject evidence t sign ≠ Panic ∧
  ∀ b, issue identity hybrid subject evidence t sign = Ok b → sound_keys subject ∧ shown subject evidence ∧
    derive_device_id identity ≠ derive_device_id (dk_identity_public subject).
Proof.
  unfold issue. destruct (check_keys_means subject) as [Hkp Hk], (check_evidence_means subject evidence) as [Hep He].
  destruct (check_keys subject) as [id|e'|]; cbn [mbind res_bind]; [|done..]. destruct (proj1 (Hk id) eq_refl) as [-> Hs].
  destruct (check_evidence subject evidence) as [[]|e'|]; cbn [mbind res_bind]; [|done..]. destruct (negb _); [done|].
  case_bool_decide as Hid; [done|]. rewrite <- device_id_inj in Hid. destruct (sign _) as [s|]; cbn [ok_or mbind res_bind]; [|done].
  destruct (negb _); [done|]. split; [done|]. intros b _. split_and!; [done|by apply He|done].
Qed.

(** C34: Linking a device. The old device, with the hybrid key of the seeds [es] and
    [ms], issues a certificate for [subject] exactly when the keys of [subject] hold
    together, the evidence that came past the server (the fingerprint in the new
    device's code, or the proof keyed by the secret in the old one's) names these very
    keys, and the two devices differ; and the certificate then vouches for the listed
    device, for every client that anchors the old one with its hybrid key. *)
Theorem issued_certificates_vouch es ms identity subject evidence issued_at :
  len es = 32 → len ms = 32 → is_u64 issued_at →
  let hybrid := (hybrid_signature_keypair_from_seeds es ms).2 in
  let r := issue identity hybrid subject evidence issued_at (sign_with es ms) in
  r ≠ Panic ∧
  ((∃ b, r = Ok b) ↔ sound_keys subject ∧ shown subject evidence ∧
     derive_device_id identity ≠ derive_device_id (dk_identity_public subject)) ∧
  ∀ b anchors, r = Ok b → anchors !! derive_device_id identity = Some (sha256 hybrid) →
    sound (listed subject (Some b)) ∧ vouching_signer (listed subject (Some b)) anchors = Ok (Some (derive_device_id identity)).
Proof.
  intros He Hm Ht hybrid r. subst r. destruct (issue_requires identity hybrid subject evidence issued_at (sign_with es ms)) as [Hp Hreq].
  split; [done|]. split.
  { split; [by intros [b Hb%Hreq]|]. intros (Hk & Hs & Hne). destruct (issue_writes es ms identity subject evidence issued_at) as (s & Hi & _); eauto. }
  intros b anchors Hb Ha. destruct (Hreq b Hb) as (Hk & Hs & Hne). split; [by split|].
  destruct (issue_writes es ms identity subject evidence issued_at He Hm Hk Hs Hne) as (s & Hi & Hsig).
  unfold hybrid in Hb. rewrite Hi in Hb. injection Hb as <-. destruct (hybrid_signed_len _ _ _ Hsig) as [Hlh Hls].
  eapply vouching_signer_complete; [exact Ha|].
  eexists _, (mkDeviceCertificate (derive_device_id_bytes identity) issued_at hybrid s), (derive_device_id_bytes (dk_identity_public subject)).
  cbn [listed od_certificate od_device_id od_keys]. split_and!; [done| | | | | | |exact Hsig].
  - apply certificate_roundtrip; [apply device_id_bytes_len|done..].
  - done.
  - done.
  - done.
  - unfold derive_device_id. by rewrite hex_decode_encode.
  - apply device_id_bytes_len.
Qed.
End link.

(** ** An account that evaluates *)

Definition demo_seed (n : Z) : bytes := replicate 32 (byte_of_Z n).
Definition demo_hybrid (n : Z) : bytes := (hybrid_signature_keypair_from_seeds (demo_seed n) (demo_seed (n + 100))).2.
Definition demo_device (n : Z) : DeviceKeys :=
  mkDeviceKeys (demo_seed (n + 50)) (ed25519_public (demo_seed n)) (demo_hybrid n)
    (ed25519_sign (demo_seed n) (build_hybrid_identity_bind_message (demo_hybrid n))).
Definition demo_certificate (signer subject : Z) : res CertError bytes :=
  issue (demo_seed (signer + 50)) (demo_hybrid signer) (demo_device subject)
    (QrFingerprint (qr_fingerprint (demo_seed (subject + 50)) (demo_hybrid subject))) 1700000000
    (sign_with (demo_seed signer) (demo_seed (signer + 100))).
(** [r.ok()] *)
Definition ok_of {E A} (r : res E A) : option A := match r with Ok a => Some a | _ => None end.
(** The first device is pinned, it vouches for the second, the second for the third,
    which is listed before it; the fourth comes from nowhere. *)
Definition demo_trusted : list TrustedDevice :=
  [mkTrustedDevice (derive_device_id (demo_seed 51)) (Some (sha256 (demo_hybrid 1)))].
Definition demo_offered : list OfferedDevice :=
  [listed (demo_device 1) None;
   listed (demo_device 3) (ok_of (demo_certificate 2 3));
   listed (demo_device 2) (ok_of (demo_certificate 1 2));
   listed (demo_device 4) None].

Definition demo_id (n : Z) : string := derive_device_id (demo_seed (n + 50)).
Lemma demo_judged : judge demo_trusted demo_offered = Some (Ok [Pinned; Vouched (demo_id 2); Vouched (demo_id 1); Unvouched]).
Proof. vm_compute. reflexivity. Qed.

(** The server lists the pinned device twice: one copy takes the pin. *)
Example demo_listed_twice : judge demo_trusted [listed (demo_device 1) None; listed (demo_device 1) None] = Some (Ok [Pinned; Unvouched]).
Proof. vm_compute. reflexivity. Qed.

Lemma demo_ids : NoDup (td_device_id <$> demo_trusted) ∧ NoDup (od_device_id <$> demo_offered).
Proof. split; [apply NoDup_singleton|]. apply (bool_decide_unpack _). vm_compute. exact I. Qed.


#[local] Abbreviation demo_signer := (hybrid_signature_keypair_from_seeds (demo_seed 1) (demo_seed 101)).2.
Definition demo_evidence : LinkEvidence := QrFingerprint (qr_fingerprint (demo_seed 52) (demo_hybrid 2)).
#[local] Abbreviation demo_issued :=
  (issue (demo_seed 51) demo_signer (demo_device 2) demo_evidence 1700000000 (sign_with (demo_seed 1) (demo_seed 101))).
Lemma demo_issued_ok : is_Some (ok_of demo_issued).
Proof. apply (bool_decide_unpack _). vm_compute. exact I. Qed.
Lemma ok_of_some {E A} (r : res E A) : is_Some (ok_of r) → ∃ a, r = Ok a.
Proof. destruct r; cbn; [eauto|by intros []..]. Qed.

Lemma issued_certificates_vouch_witness :
  ∃ b, demo_issued = Ok b ∧
    vouching_signer (listed (demo_device 2) (Some b)) {[derive_device_id (demo_seed 51) := sha256 demo_signer]} =
      Ok (Some (derive_device_id (demo_seed 51))).
Proof.
  destruct (ok_of_some _ demo_issued_ok) as [b Hb]. exists b. split; [exact Hb|].
  destruct (issued_certificates_vouch (demo_seed 1) (demo_seed 101) (demo_seed 51) (demo_device 2) demo_evidence 1700000000) as (_ & _ & Hv);
    [done|done|by split|].
  exact (proj2 (Hv b _ Hb (lookup_singleton_eq (M := gmap string) (derive_device_id (demo_seed 51)) _))).
Defined.
