(* ===== verification/SenderCert.v ===== *)
(** * Sender certificates

    Models the checks of [src/src/crypto/sealed_sender/mod.rs] on the certificate that
    comes with a first message: the server's Ed25519 or hybrid signature, the device
    the key makes, the age. Shown: which certificates open a session, and that an
    expired one has passed every other check. The protobuf it is decoded from is not
    modelled. *)

From stdpp Require Import strings.
From S2P Require Import Prelude SuiteId Platform Classic Toy Crates X3dh EnvelopeBook KyberPrekeys KeyManager Client HybridSuite ServerTrust KeyTransparency Router PqPrekeyPlan.

Inductive SenderRefusal := NoTrustedKey | BadSignature | DeviceMismatch | CertExpired.
Inductive CertificateVerdict := CvVouched | CvNoKey | CvBadSignature | CvExpired.

Section checks.
Context `{ClassicCrates} `{!MlDsaCrate} `{!Sha2Crate} `{!HexCrate}.

Definition verify_sender_cert (user_id domain : string) (identity_key : bytes) (device_id : string) (issued_at expires_at : Z)
    (signature server_verifying_key : bytes) : bool :=
  if negb (len server_verifying_key =? 32) then false else
  if negb (ed25519_key_valid server_verifying_key) then false else
  if negb (len signature =? 64) then false else
  let payload := build_cert_sign_payload user_id domain identity_key device_id issued_at expires_at in
  ed25519_verify server_verifying_key payload signature.

Definition check_hybrid (c : SenderCertificate) (ring : ServerKeyRing) (now_secs : Z) : res SenderRefusal unit :=
  if negb (len (sc_server_kid c) =? KID_LEN) then Err BadSignature else
  let lifetime := sat_i64 (sc_expires_at c - sc_issued_at c) in
  if negb ((0 <=? lifetime) && (lifetime <=? SENDER_CERT_MAX_LIFETIME_SECS)) then Err BadSignature else
  body ← map_err (λ _, BadSignature)
    (sender_cert_body (sc_user_id c) (sc_domain c) (sc_identity_key c) (sc_device_id c) (sc_issued_at c) (sc_expires_at c));
  match ring_verify ring SenderCert (sc_server_kid c) body (sc_server_signature_hybrid c) (sc_issued_at c) now_secs with
  | Ok _ => Ok tt
  | Err TeUnknownKey => Err NoTrustedKey
  | Err TeExpired => Err CertExpired
  | Err _ => Err BadSignature
  | Panic => Panic
  end.

(** From the Ed25519 keys on. *)
Definition check_legacy (c : SenderCertificate) (legacy_keys : list bytes) : res SenderRefusal unit :=
  match legacy_keys with
  | [] => Err NoTrustedKey
  | _ =>
      if existsb (verify_sender_cert (sc_user_id c) (sc_domain c) (sc_identity_key c) (sc_device_id c) (sc_issued_at c)
                    (sc_expires_at c) (sc_signature c)) legacy_keys
      then Ok tt else Err BadSignature
  end.

Definition check_signature (c : SenderCertificate) (trust : ServerTrust) (now_secs : Z) : res SenderRefusal unit :=
  if has_roots (st_ring trust) then
    match sc_server_signature_hybrid c with
    | _ :: _ => check_hybrid c (st_ring trust) now_secs
    | [] => if HYBRID_REQUIRED then Err BadSignature else check_legacy c (st_legacy_keys trust)
    end
  else check_legacy c (st_legacy_keys trust).

Definition identity_for_opening (c : SenderCertificate) (trust : ServerTrust) (now_secs : Z) : res SenderRefusal bytes :=
  lapsed ← match check_signature c trust now_secs with
           | Ok _ => Ok false
           | Err CertExpired => Ok true
           | Err e => Err e
           | Panic => Panic
           end;
  if negb (len (sc_identity_key c) =? 32) || bool_decide (derive_device_id (sc_identity_key c) ≠ sc_device_id c)
  then Err DeviceMismatch else
  if lapsed || (sat_i64 (sc_expires_at c + MAX_DELIVERY_AGE_SECS) <=? now_secs) then Err CertExpired else
  Ok (sc_identity_key c).

Definition certificate_verdict (c : SenderCertificate) (trust : ServerTrust) (now_secs : Z) : res SenderRefusal CertificateVerdict :=
  match identity_for_opening c trust now_secs with
  | Ok _ => Ok CvVouched
  | Err NoTrustedKey => Ok CvNoKey
  | Err CertExpired => Ok CvExpired
  | Err (BadSignature | DeviceMismatch) => Ok CvBadSignature
  | Panic => Panic
  end.
End checks.

(** ** What opens a session *)

Section opens.
Context `{ClassicCrates} `{!MlDsaCrate} `{!Sha2Crate} `{!HexCrate}.

Definition cert_body (c : SenderCertificate) : res FormatError bytes :=
  sender_cert_body (sc_user_id c) (sc_domain c) (sc_identity_key c) (sc_device_id c) (sc_issued_at c) (sc_expires_at c).
Definition cert_payload (c : SenderCertificate) : bytes :=
  build_cert_sign_payload (sc_user_id c) (sc_domain c) (sc_identity_key c) (sc_device_id c) (sc_issued_at c) (sc_expires_at c).

(** The key names the device of the certificate. *)
Definition names_device (c : SenderCertificate) : Prop :=
  len (sc_identity_key c) = 32 ∧ derive_device_id (sc_identity_key c) = sc_device_id c.

(** A well-known key of the server signed it. *)
Definition legacy_signed (c : SenderCertificate) (keys : list bytes) : Prop :=
  ∃ key, key ∈ keys ∧ ed_signed key (cert_payload c) (sc_signature c).

(** A key that a root granted for certificates signed it, in its window, and for a
    day at most; [until] is when that key lapses. *)
Definition delegated_signed (c : SenderCertificate) (roots blobs : list bytes) (until : Z) : Prop :=
  len (sc_server_kid c) = KID_LEN ∧ 0 ≤ sat_i64 (sc_expires_at c - sc_issued_at c) ≤ SENDER_CERT_MAX_LIFETIME_SECS ∧
  ∃ body d, cert_body c = Ok body ∧ granted roots blobs d ∧ dg_purpose d = SenderCert ∧ kid d = sc_server_kid c ∧
    hybrid_signed (dg_public_key d) (server_signable SenderCert (sc_server_kid c) body) (sc_server_signature_hybrid c) ∧
    dg_not_before d ≤ sc_issued_at c ≤ dg_not_after d ∧
    until = sat_i64 (dg_not_after d + (SENDER_CERT_MAX_LIFETIME_SECS + MAX_DELIVERY_AGE_SECS)).

Lemma sender_cert_verified c key :
  verify_sender_cert (sc_user_id c) (sc_domain c) (sc_identity_key c) (sc_device_id c) (sc_issued_at c) (sc_expires_at c) (sc_signature c) key = true
  ↔ ed_signed key (cert_payload c) (sc_signature c).
Proof.
  unfold verify_sender_cert, ed_signed. fold (cert_payload c). destruct (Z.eqb_spec (len key) 32); cbn [negb]; [|naive_solver].
  destruct (ed25519_key_valid key); cbn [negb]; [|naive_solver]. destruct (Z.eqb_spec (len (sc_signature c)) 64); cbn [negb]; naive_solver.
Qed.
Lemma check_legacy_means c keys :
  check_legacy c keys ≠ Panic ∧ check_legacy c keys ≠ Err CertExpired ∧ (check_legacy c keys = Ok tt ↔ legacy_signed c keys).
Proof.
  assert (existsb (verify_sender_cert (sc_user_id c) (sc_domain c) (sc_identity_key c) (sc_device_id c) (sc_issued_at c)
    (sc_expires_at c) (sc_signature c)) keys = true ↔ legacy_signed c keys) as He.
  { rewrite existsb_exists. split; intros (k & Hk & Hs); exists k; [apply list_elem_of_In in Hk|rewrite list_elem_of_In in Hk];
      by rewrite sender_cert_verified in *. }
  unfold check_legacy. destruct keys as [|k keys]; [split_and!; [done..|]; split; [done|]; by intros (? & ?%not_elem_of_nil & _)|].
  destruct (existsb _ _); naive_solver.
Qed.

Section rings.
Context (roots blobs : list bytes).
(** No two granted keys have one key id, which is a truncated hash of the key. *)
Hypothesis Hkids : ∀ d d', granted roots blobs d → granted roots blobs d' → kid d = kid d' → dg_public_key d = dg_public_key d'.

Lemma cert_body_no_panic c : cert_body c ≠ Panic.
Proof.
  unfold cert_body, sender_cert_body, put_lp. by repeat (case_match; cbn [mbind res_bind]).
Qed.

Lemma check_hybrid_means c now : let r := check_hybrid c (ring_after roots blobs) now in
  r ≠ Panic ∧ (r = Ok tt ↔ ∃ until, delegated_signed c roots blobs until ∧ now ≤ until) ∧
  (r = Err CertExpired → ∃ until, delegated_signed c roots blobs until).
Proof.
  unfold check_hybrid, delegated_signed. fold (cert_body c). pose proof (cert_body_no_panic c) as Hnp.
  destruct (Z.eqb_spec (len (sc_server_kid c)) KID_LEN) as [Hk|Hk]; cbn [negb]; [|naive_solver].
  destruct ((0 <=? _) && _) eqn:Hlife; cbn [negb]; [|split; [done|]; split; [|done]; split; [done|]; intros (u & (_ & Hl & _) & _); lia].
  assert (0 ≤ sat_i64 (sc_expires_at c - sc_issued_at c) ≤ SENDER_CERT_MAX_LIFETIME_SECS) as Hl by lia.
  destruct (cert_body c) as [body|e'|]; cbn [map_err mbind res_bind]; [|naive_solver|done].
  pose proof (ring_verify_iff roots blobs SenderCert (sc_server_kid c) body (sc_server_signature_hybrid c) (sc_issued_at c) now Hkids) as Hv.
  pose proof (ring_verify_expired roots blobs SenderCert (sc_server_kid c) body (sc_server_signature_hybrid c) (sc_issued_at c) now Hkids) as He.
  pose proof (ring_verify_no_panic (ring_after roots blobs) SenderCert (sc_server_kid c) body (sc_server_signature_hybrid c) (sc_issued_at c) now).
  set (R := ring_verify _ _ _ _ _ _ _) in *.
  assert (R = Ok tt ↔ ∃ until, (len (sc_server_kid c) = KID_LEN ∧ 0 ≤ sat_i64 (sc_expires_at c - sc_issued_at c) ≤ SENDER_CERT_MAX_LIFETIME_SECS ∧
    ∃ body0 d, Ok body = @Ok FormatError _ body0 ∧ granted roots blobs d ∧ dg_purpose d = SenderCert ∧ kid d = sc_server_kid c ∧
      hybrid_signed (dg_public_key d) (server_signable SenderCert (sc_server_kid c) body0) (sc_server_signature_hybrid c) ∧
      dg_not_before d ≤ sc_issued_at c ≤ dg_not_after d ∧
      until = sat_i64 (dg_not_after d + (SENDER_CERT_MAX_LIFETIME_SECS + MAX_DELIVERY_AGE_SECS))) ∧ now ≤ until) as HR.
  { rewrite Hv. split.
    - intros (d & Hd & Hp & Hkid & Hs%hybrid_verify_signed & Hw & Hg). eexists. split; [|by apply Hg]. split_and!; [done|lia|lia|]. by exists body, d.
    - intros (u & (_ & _ & b & d & [= <-] & Hd & Hp & Hkid & Hs & Hw & ->) & Hn). exists d. split; [done|].
      split_and!; [done|done|by apply hybrid_verify_signed|lia|lia|]. by intros g [= <-]. }
  destruct R as [[]|e'|]; [| |done].
  - split; [done|]. split; [|done]. split; [intros _; by apply HR|done].
  - split; [by destruct e'|]. split; [split; [by destruct e'|by intros ?%HR]|]. destruct e'; try done. intros _.
    destruct (He eq_refl) as (d & Hd & Hp & Hkid & Hs%hybrid_verify_signed & Hw). eexists. split_and!; [done|lia|lia|]. by exists body, d.
Qed.

(** Which of the two signatures decides. *)
Definition hybrid_decides (c : SenderCertificate) : Prop := roots ≠ [] ∧ sc_server_signature_hybrid c ≠ [].

Lemma check_signature_cases c legacy now :
  let r := check_signature c (mkServerTrust legacy (ring_after roots blobs)) now in
  (hybrid_decides c ∧ r = check_hybrid c (ring_after roots blobs) now) ∨ (¬ hybrid_decides c ∧ r = check_legacy c legacy).
Proof.
  unfold check_signature, hybrid_decides, has_roots. cbn [st_ring st_legacy_keys]. destruct (ring_keys roots blobs) as (-> & _).
  destruct roots; [right; split; [by intros []|done]|].
  destruct (sc_server_signature_hybrid c); [right; split; [by intros []|done]|]. by left.
Qed.

Definition signed_until (c : SenderCertificate) (legacy : list bytes) (now : Z) : Prop :=
  (hybrid_decides c ∧ ∃ until, delegated_signed c roots blobs until ∧ now ≤ until) ∨ (¬ hybrid_decides c ∧ legacy_signed c legacy).

Lemma check_signature_means c legacy now : let r := check_signature c (mkServerTrust legacy (ring_after roots blobs)) now in
  r ≠ Panic ∧ (r = Ok tt ↔ signed_until c legacy now) ∧
  (r = Err CertExpired → hybrid_decides c ∧ ∃ until, delegated_signed c roots blobs until).
Proof.
  intros r. unfold signed_until. destruct (check_signature_cases c legacy now) as [[Hd Hr]|[Hd Hr]]; subst r; rewrite Hr.
  - destruct (check_hybrid_means c now) as (Hh1 & Hh2 & Hh3). split; [done|]. split; [|by intros Hx%Hh3]. rewrite Hh2. tauto.
  - destruct (check_legacy_means c legacy) as (Hl1 & Hl2 & Hl3). split; [done|]. split; [|done]. rewrite Hl3. tauto.
Qed.

(** C35: Which certificates open a session. The identity key of a certificate is used
    exactly when it makes the device id the certificate names, no more than the
    relay's holding time has passed since the certificate expired, and the deciding
    signature holds: for a client that pins roots and a certificate that carries a
    hybrid signature this is the hybrid one alone, by a key that a pinned root granted
    for certificates, issued in that key's window, living for a day at most, and the key
    not lapsed by now; otherwise an Ed25519 signature by one of the keys handed over. A
    certificate that is called expired has passed the signature and the device check, so
    its key may be pinned. The keys that roots granted are told apart by their ids: two
    grants under one id, a truncated hash of the key, are of the same key. *)
Theorem certificates_that_open c legacy now :
  let r := identity_for_opening c (mkServerTrust legacy (ring_after roots blobs)) now in
  r ≠ Panic ∧
  (∀ k, r = Ok k ↔ k = sc_identity_key c ∧ names_device c ∧ signed_until c legacy now ∧
     now < sat_i64 (sc_expires_at c + MAX_DELIVERY_AGE_SECS)) ∧
  (r = Err CertExpired → names_device c ∧
     ((hybrid_decides c ∧ ∃ until, delegated_signed c roots blobs until) ∨ (¬ hybrid_decides c ∧ legacy_signed c legacy))).
Proof.
  destruct (check_signature_means c legacy now) as (Hp & Ho & Hx). cbv zeta. unfold identity_for_opening.
  set (R := check_signature _ _ _) in *. set (named := _ || bool_decide _).
  assert (named = false ↔ names_device c) as Hn.
  { unfold named, names_device. rewrite orb_false_iff, negb_false_iff, Z.eqb_eq, bool_decide_eq_false.
    destruct (decide (derive_device_id (sc_identity_key c) = sc_device_id c)); naive_solver. }
  set (fresh := sat_i64 _ <=? now). assert (fresh = false ↔ now < sat_i64 (sc_expires_at c + MAX_DELIVERY_AGE_SECS)) as Hf by (unfold fresh; lia).
  clearbody named fresh. destruct R as [[]|e'|]; [| |done].
  - pose proof (proj1 Ho eq_refl) as Hs. cbn [mbind res_bind orb]. destruct named; [split; [done|]; split; [|done]; naive_solver|].
    pose proof (proj1 Hn eq_refl). destruct fresh; (split; [done|]); (split; [naive_solver|]); [|done].
    intros _. split; [done|]. destruct Hs as [(Hd & u & Hu & _)|Hl]; [left; eauto|by right].
  - assert (¬ signed_until c legacy now) as Hns by (by intros ?%Ho).
    destruct e'; cbn [mbind res_bind orb]; try (split; [done|]; split; [naive_solver|done]).
    destruct named; [split; [done|]; split; [naive_solver|done]|]. split; [done|]. split; [naive_solver|].
    intros _. split; [by apply Hn|]. left. by apply Hx.
Qed.
End rings.
End opens.

(** ** Certificates that evaluate *)

Definition demo_cert_key : bytes := replicate 32 Byte.x07.
Definition demo_cert (kid_ hybrid_signature : bytes) : SenderCertificate :=
  mkSenderCertificate "account" "example.org" demo_cert_key (derive_device_id demo_cert_key) 150 86550
    (ed25519_sign demo_cert_key (build_cert_sign_payload "account" "example.org" demo_cert_key (derive_device_id demo_cert_key) 150 86550))
    kid_ hybrid_signature.
#[local] Abbreviation demo_root := (hybrid_signature_keypair_from_seeds (replicate 32 Byte.x01) (replicate 32 Byte.x02)).
#[local] Abbreviation demo_server := (hybrid_signature_keypair_from_seeds (replicate 32 Byte.x03) (replicate 32 Byte.x04)).
Definition demo_grant : bytes :=
  match issue_delegation demo_root.1 SenderCert 100 200 demo_server.2 with Ok d => delegation_encode d | _ => [] end.
Definition demo_hybrid_cert : SenderCertificate :=
  demo_cert (kid_of demo_server.2)
    match cert_body (demo_cert [] []) with
    | Ok body => match sign_as_server SenderCert demo_server.1 demo_server.2 body with Ok s => s | _ => [] end
    | _ => []
    end.

(** It opens by its hybrid signature, no Ed25519 key being known. *)
Lemma demo_hybrid_cert_opens :
  identity_for_opening demo_hybrid_cert (mkServerTrust [] (ring_after [demo_root.2] [demo_grant])) 1000 = Ok demo_cert_key.
Proof. vm_compute. reflexivity. Qed.

Lemma one_grant roots b d d' : granted roots [b] d → granted roots [b] d' → dg_public_key d = dg_public_key d'.
Proof. intros (x & ->%list_elem_of_singleton & Hd & _) (y & ->%list_elem_of_singleton & Hd' & _). congruence. Qed.

Lemma certificates_that_open_witness :
  names_device demo_hybrid_cert ∧ signed_until [demo_root.2] [demo_grant] demo_hybrid_cert [] 1000.
Proof.
  destruct (certificates_that_open [demo_root.2] [demo_grant] (λ d d' Hd Hd' _, one_grant _ _ d d' Hd Hd') demo_hybrid_cert [] 1000)
    as (_ & Ho & _). destruct (proj1 (Ho _) demo_hybrid_cert_opens) as (_ & Hn & Hs & _). by split.
Defined.
