(* ===== verification/Media.v ===== *)
(** * Media blobs

    Models [src/src/media.rs]: the padded size of a blob, sealing a file and opening
    a blob of either format, over the crate [aes_gcm]. Shown: the overhead of the
    padding is within 12 %, a sealed file opens to itself, and a padded file has
    one encoding. *)

From S2P Require Import Prelude Platform Wp Classic Toy Crates.

Definition MEDIA_KEY_LEN : Z := 32.
Definition MEDIA_NONCE_LEN : Z := 12.
Definition MEDIA_TAG_LEN : Z := 16.
Definition LEN_PREFIX : Z := 8.
Definition V1_AD : bytes := as_bytes "konstruct-media-v1".
Definition MEDIA_MAX_BLOB_LEN : Z := 100000000.
Definition MEDIA_MIN_BLOB_LEN : Z := 4096.
Definition V1_OVERHEAD : Z := MEDIA_NONCE_LEN + MEDIA_TAG_LEN + LEN_PREFIX.

(** [Aes256Gcm], in place and with a detached tag. *)
Class AesGcmCrate := {
  (** key, nonce, associated data, message: ciphertext and tag *)
  gcm_encrypt : bytes → bytes → bytes → bytes → option (bytes * bytes);
  (** key, nonce, associated data, ciphertext, tag *)
  gcm_decrypt : bytes → bytes → bytes → bytes → bytes → option bytes;
}.
(** SP 800-38D: up to [2^36 - 32] bytes are encrypted to as many and a tag of 16. *)
Class AesGcmLaws `{AesGcmCrate} : Prop := {
  gcm_encrypt_ok : ∀ k n ad m, len m ≤ 2 ^ 36 - 32 →
    ∃ c t, gcm_encrypt k n ad m = Some (c, t) ∧ len c = len m ∧ len t = 16 ∧ gcm_decrypt k n ad c t = Some m;
  gcm_decrypt_len : ∀ k n ad c t m, gcm_decrypt k n ad c t = Some m → len m = len c;
}.

Inductive MediaError := TooLarge (n : Z) | InvalidKey (n : Z) | MediaUnauthenticated | MalformedPadding.

Record SealedMedia := mkSealedMedia { sm_key : bytes; sm_blob : bytes; sm_sha256 : bytes }.

Definition max_plaintext_len : Z := MEDIA_MAX_BLOB_LEN - V1_OVERHEAD.

(** [leading_zeros] of a [u64] and of a [u32] *)
Definition leading_zeros64 (n : Z) : Z := if n =? 0 then 64 else 63 - Z.log2 n.
Definition leading_zeros32 (n : Z) : Z := if n =? 0 then 32 else 31 - Z.log2 n.

(** The sum panics when it leaves the type. *)
Definition padme {E} (l : Z) : res E Z :=
  if l <? 2 then Ok l else
  let e := 63 - leading_zeros64 l in
  let s := 32 - leading_zeros32 e in
  let mask := Z.shiftl 1 (e - s) - 1 in
  if l + mask >? u64_max then Panic else Ok (Z.land (l + mask) (Z.lnot mask)).

Definition blob_len (plaintext_len : Z) : res MediaError Z :=
  if plaintext_len >? max_plaintext_len then Err (TooLarge plaintext_len) else
  let raw := plaintext_len + V1_OVERHEAD in
  p ← padme raw;
  Ok (Z.max MEDIA_MIN_BLOB_LEN (Z.min MEDIA_MAX_BLOB_LEN p)).

Section media.
Context `{AesGcmCrate} `{Sha2Crate}.

Definition media_seal_with (key nonce plaintext : bytes) : res MediaError SealedMedia :=
  total ← blob_len (len plaintext);
  let blob := nonce ++ be_bytes 8 (len plaintext) ++ plaintext in
  let blob := resize (Z.to_nat (total - MEDIA_TAG_LEN)) Byte.x00 blob in
  body ← slice_from MEDIA_NONCE_LEN blob;
  head ← slice 0 MEDIA_NONCE_LEN blob;
  '(body, tag) ← expect (gcm_encrypt key nonce V1_AD body);
  let blob := head ++ body ++ tag in
  Ok (mkSealedMedia key blob (sha256 blob)).

Definition seal_media `{Platform} (plaintext : bytes) : stm World MediaError SealedMedia :=
  key ← fill_bytes MEDIA_KEY_LEN;
  nonce ← fill_bytes MEDIA_NONCE_LEN;
  lift (media_seal_with key nonce plaintext).

Definition media_unpad (padded : bytes) : res MediaError bytes :=
  if len padded <? LEN_PREFIX then Err MalformedPadding else
  prefix ← slice 0 LEN_PREFIX padded;
  let l := be_val prefix in
  let end_ := l + LEN_PREFIX in
  if (end_ >? u64_max) || (end_ >? len padded) then Err MalformedPadding else
  rest ← slice_from end_ padded;
  if existsb (λ b, bool_decide (b ≠ Byte.x00)) rest then Err MalformedPadding else
  slice LEN_PREFIX end_ padded.

Definition open_media (key blob : bytes) : res MediaError bytes :=
  if negb (len key =? MEDIA_KEY_LEN) then Err (InvalidKey (len key)) else
  if len blob <? MEDIA_NONCE_LEN + MEDIA_TAG_LEN then Err MediaUnauthenticated else
  nonce ← slice 0 MEDIA_NONCE_LEN blob;
  tag ← slice_from (len blob - MEDIA_TAG_LEN) blob;
  body ← slice MEDIA_NONCE_LEN (len blob - MEDIA_TAG_LEN) blob;
  match gcm_decrypt key nonce V1_AD body tag with
  | Some buf => media_unpad buf
  | None => ok_or (gcm_decrypt key nonce [] body tag) MediaUnauthenticated
  end.
End media.

(** ** The size *)

Lemma padme_mask l : 2 ≤ l → let e := Z.log2 l in let k := e - (Z.log2 e + 1) in
  0 ≤ k ∧ (l + (2 ^ k - 1) ≤ u64_max → padme (E := MediaError) l = Ok ((l + (2 ^ k - 1)) / 2 ^ k * 2 ^ k)).
Proof.
  intros Hl e k. assert (1 ≤ e) as He by (apply (Z.log2_le_pow2 l 1); lia).
  assert (Z.log2 e + 1 ≤ e) as Hs.
  { pose proof (Z.log2_lt_lin e). lia. }
  split; [lia|]. intros Hb. unfold padme. destruct (Z.ltb_spec l 2); [lia|].
  assert (63 - leading_zeros64 l = e) as -> by (unfold leading_zeros64, e; destruct (Z.eqb_spec l 0); lia).
  assert (32 - leading_zeros32 e = Z.log2 e + 1) as -> by (unfold leading_zeros32; destruct (Z.eqb_spec e 0); lia).
  fold k. rewrite Z.shiftl_1_l. destruct (Z.gtb_spec (l + (2 ^ k - 1)) u64_max); [lia|]. f_equal.
  rewrite <- Z.ldiff_land. replace (2 ^ k - 1) with (Z.ones k) at 2 by (rewrite Z.ones_equiv; lia).
  rewrite Z.ldiff_ones_r, Z.shiftl_mul_pow2, Z.shiftr_div_pow2 by (unfold k; lia). done.
Qed.

(** The mask of an exponent, against the lengths that have it. *)
Lemma mask_small e : 1 ≤ e → let k := e - (Z.log2 e + 1) in 0 ≤ k → 100 * (2 ^ k - 1) ≤ 12 * (2 ^ e + 1).
Proof.
  intros He k Hk. destruct (decide (e < 8)) as [Hs|Hs].
  - assert (e = 1 ∨ e = 2 ∨ e = 3 ∨ e = 4 ∨ e = 5 ∨ e = 6 ∨ e = 7) as Hc by lia. subst k.
    destruct Hc as [->|[->|[->|[->|[->|[->| ->]]]]]]; by vm_compute.
  - assert (3 ≤ Z.log2 e) as Hlog by (apply (Z.log2_le_pow2 e 3); lia). replace e with (k + (Z.log2 e + 1)) by lia.
    rewrite Z.pow_add_r by lia. assert (2 ^ 4 ≤ 2 ^ (Z.log2 e + 1)) as Hp by (apply Z.pow_le_mono_r; lia).
    pose proof (Z.pow_pos_nonneg 2 k ltac:(lia) Hk). nia.
Qed.

Lemma round_up l m : 0 < m → l ≤ (l + (m - 1)) / m * m ≤ l + (m - 1) ∧ ((m | l) → (l + (m - 1)) / m * m = l).
Proof.
  intros Hm. pose proof (Z.div_mod (l + (m - 1)) m ltac:(lia)) as Hd. pose proof (Z.mod_pos_bound (l + (m - 1)) m Hm). split; [lia|].
  intros [x ->]. replace (x * m + (m - 1)) with (m - 1 + x * m) by lia. rewrite Z.div_add, Z.div_small by lia. lia.
Qed.

(** Padmé itself: a length is rounded up to the next multiple of the unit its own magnitude
    gives, [⌊log₂ ⌊log₂ len⌋⌋ + 1] leading bits being kept. *)
Definition unit_of (l : Z) : Z := 2 ^ (Z.log2 l - (Z.log2 (Z.log2 l) + 1)).
Definition bucket (l p : Z) : Prop := (unit_of l | p) ∧ l ≤ p < l + unit_of l.

Lemma unit_of_spec l : 2 ≤ l → 0 < unit_of l ∧ (unit_of l | 2 ^ Z.log2 l).
Proof.
  intros Hl. destruct (padme_mask l Hl) as [Hk _]. cbv zeta in Hk. unfold unit_of. split; [by apply Z.pow_pos_nonneg|].
  exists (2 ^ (Z.log2 (Z.log2 l) + 1)). rewrite <- Z.pow_add_r by (pose proof (Z.log2_nonneg (Z.log2 l)); lia). f_equal. lia.
Qed.

Lemma bucket_unique l p p' : 2 ≤ l → bucket l p → bucket l p' → p = p'.
Proof. intros Hl [[x ->] Hx] [[y ->] Hy]. destruct (unit_of_spec l Hl) as [Hm _]. assert (x = y) by nia. by subst. Qed.

Lemma padme_bucket l : 2 ≤ l ≤ 2 ^ 63 → ∃ p, padme (E := MediaError) l = Ok p ∧ bucket l p.
Proof.
  intros Hl. destruct (padme_mask l ltac:(lia)) as [Hk Hp]. cbv zeta in Hk, Hp. change (2 ^ (Z.log2 l - _)) with (unit_of l) in Hp.
  destruct (unit_of_spec l ltac:(lia)) as [Hpos Hdiv]. pose proof (Z.log2_spec l ltac:(lia)) as [Hle _].
  assert (unit_of l ≤ 2 ^ Z.log2 l) by (apply Z.divide_pos_le; [apply Z.pow_pos_nonneg; pose proof (Z.log2_nonneg l); lia|done]).
  destruct (round_up l (unit_of l) Hpos) as [Hb _]. eexists. split; [apply Hp; unfold u64_max; lia|]. split; [apply Z.divide_factor_r|lia].
Qed.

(** A bucket ends at the next power of two at the latest, *)
Lemma bucket_below_power l p j : 2 ≤ l → bucket l p → 0 ≤ j → l ≤ 2 ^ j → p ≤ 2 ^ j.
Proof.
  intros Hl [[x ->] Hp] Hj Hlj. destruct (unit_of_spec l Hl) as [Hm Hd]. pose proof (Z.log2_nonneg l).
  assert (Z.log2 l ≤ j) by (rewrite <- (Z.log2_pow2 j) by done; by apply Z.log2_le_mono).
  assert ((unit_of l | 2 ^ j)) as [y Hy].
  { etrans; [exact Hd|]. exists (2 ^ (j - Z.log2 l)). rewrite <- Z.pow_add_r by lia. f_equal. lia. }
  rewrite Hy in *. assert (x ≤ y) by nia. nia.
Qed.

(** so every length between a length and the end of its bucket has the same one. *)
Lemma bucket_same l l' p : 2 ≤ l → bucket l p → l ≤ l' ≤ p → bucket l' p.
Proof.
  intros Hl Hb Hl'. pose proof (Z.log2_nonneg l) as H0. destruct (decide (Z.log2 l' = Z.log2 l)) as [He|He].
  { destruct Hb as [Hd Hp]. unfold bucket, unit_of in *. rewrite He. split; [done|lia]. }
  assert (Z.log2 l < Z.log2 l') as Hlt by (pose proof (Z.log2_le_mono l l'); lia).
  assert (p ≤ 2 ^ (Z.log2 l + 1)) as Hp by (apply (bucket_below_power l); [done|done|lia|pose proof (Z.log2_spec l); lia]).
  assert (2 ^ (Z.log2 l + 1) ≤ 2 ^ Z.log2 l') as Hpow by (apply Z.pow_le_mono_r; lia). pose proof (Z.log2_spec l' ltac:(lia)).
  assert (p = l' ∧ l' = 2 ^ Z.log2 l') as [-> Heq] by lia. destruct (unit_of_spec l' ltac:(lia)) as [Hm Hd]. rewrite <- Heq in Hd.
  split; [done|lia].
Qed.

(** Rounding adds at most 12 %. *)
Lemma bucket_close l p : 2 ≤ l → bucket l p → 100 * (p - l) ≤ 12 * l.
Proof.
  intros Hl Hb. pose proof (Z.log2_spec l ltac:(lia)) as [Hle _]. assert (1 ≤ Z.log2 l) as He by (apply (Z.log2_le_pow2 l 1); lia).
  destruct (padme_mask l Hl) as [Hk _]. cbv zeta in Hk. pose proof (mask_small (Z.log2 l) He Hk) as Hm. cbv zeta in Hm.
  change (2 ^ (Z.log2 l - _)) with (unit_of l) in Hm. destruct (decide (l = 2 ^ Z.log2 l)) as [Heq|Hne]; [|destruct Hb; lia].
  pose proof (bucket_below_power l p (Z.log2 l) Hl Hb ltac:(lia) ltac:(lia)). lia.
Qed.

(** What the server sees: the end of the file's bucket, between the smallest and the
    largest size of a blob. *)
Lemma blob_len_bucket n : 0 ≤ n ≤ max_plaintext_len →
  ∃ p, bucket (n + V1_OVERHEAD) p ∧ blob_len n = Ok (Z.max MEDIA_MIN_BLOB_LEN (Z.min MEDIA_MAX_BLOB_LEN p)).
Proof.
  intros Hn. unfold blob_len. destruct (Z.gtb_spec n max_plaintext_len) as [Hg|_]; [lia|].
  destruct (padme_bucket (n + V1_OVERHEAD)) as (p & -> & Hp); [by unfold max_plaintext_len, MEDIA_MAX_BLOB_LEN, V1_OVERHEAD, MEDIA_NONCE_LEN, MEDIA_TAG_LEN, LEN_PREFIX in *; lia|].
  by exists p.
Qed.

Lemma blob_len_bounds n t : 0 ≤ n → blob_len n = Ok t →
  n + V1_OVERHEAD ≤ t ≤ MEDIA_MAX_BLOB_LEN ∧ MEDIA_MIN_BLOB_LEN ≤ t ∧
  (t = MEDIA_MIN_BLOB_LEN ∨ 100 * (t - (n + V1_OVERHEAD)) ≤ 12 * (n + V1_OVERHEAD)).
Proof.
  intros Hn Ht. destruct (decide (n ≤ max_plaintext_len)) as [Hm|Hm].
  - destruct (blob_len_bucket n) as (p & Hp & Hb); [done|]. rewrite Hb in Ht. injection Ht as <-.
    unfold max_plaintext_len, V1_OVERHEAD, MEDIA_MAX_BLOB_LEN, MEDIA_MIN_BLOB_LEN, MEDIA_NONCE_LEN, MEDIA_TAG_LEN, LEN_PREFIX in *.
    pose proof (bucket_close (n + (12 + 16 + 8)) p ltac:(lia) Hp). destruct Hp as [_ Hp]. lia.
  - unfold blob_len in Ht. by destruct (Z.gtb_spec n max_plaintext_len); [|lia].
Qed.

(** The server cannot tell apart two files of one bucket. *)
Lemma blob_len_same n n' t : 0 ≤ n ≤ n' → blob_len n = Ok t → n' + V1_OVERHEAD ≤ t → blob_len n' = Ok t.
Proof.
  intros Hn Ht Hn'. pose proof (blob_len_bounds n t ltac:(lia) Ht) as (Hb & _ & _).
  destruct (blob_len_bucket n') as (p' & Hp' & ->); [unfold max_plaintext_len; lia|].
  destruct (blob_len_bucket n) as (p & Hp & Hbl); [unfold max_plaintext_len; lia|]. rewrite Hbl in Ht. injection Ht as <-. f_equal.
  unfold V1_OVERHEAD, MEDIA_MAX_BLOB_LEN, MEDIA_MIN_BLOB_LEN, MEDIA_NONCE_LEN, MEDIA_TAG_LEN, LEN_PREFIX in *.
  destruct (decide (n' + (12 + 16 + 8) ≤ p)) as [Hle|Hgt].
  { rewrite (bucket_unique (n' + (12 + 16 + 8)) p' p); [done|lia|done|]. by apply (bucket_same (n + (12 + 16 + 8))); [lia|done|lia]. }
  pose proof (bucket_below_power (n' + (12 + 16 + 8)) p' 12 ltac:(lia) Hp' ltac:(lia)) as H12. change (2 ^ 12) with 4096 in H12.
  destruct Hp as [_ Hp], Hp' as [_ Hp']. lia.
Qed.

(** ** The padding *)

Lemma all_zero (l : bytes) : existsb (λ b, bool_decide (b ≠ Byte.x00)) l = false ↔ l = replicate (length l) Byte.x00.
Proof.
  induction l as [|b l IH]; [done|]. cbn [existsb length replicate]. rewrite orb_false_iff, IH, bool_decide_eq_false. split.
  - intros [Hb%dec_stable Hl]. by rewrite Hb, <- Hl.
  - intros Hl. injection Hl as -> Hl. split; [tauto|done].
Qed.

(** What unpadding accepts: the length, the file and zeros, however many they are. *)
Lemma unpad_exact p f : media_unpad p = Ok f ↔ len f + LEN_PREFIX ≤ u64_max ∧ ∃ z, p = be_bytes 8 (len f) ++ f ++ replicate z Byte.x00.
Proof.
  unfold media_unpad, LEN_PREFIX. split.
  - destruct (Z.ltb_spec (len p) 8); [done|]. destruct (cut_at 8 (len p - 8) p) as (pre & r & -> & Hpre & Hr); [lia..|].
    rewrite slice_here by done. cbn [mbind res_bind]. rewrite len_app, Hpre. pose proof (be_val_range pre) as [Hv _].
    destruct (Z.gtb_spec (be_val pre + 8) u64_max); cbn [orb]; [done|]. destruct (Z.gtb_spec (be_val pre + 8) (8 + len r)); [done|].
    destruct (cut_at (be_val pre) (len r - be_val pre) r) as (x & y & -> & Hx & Hy); [lia..|].
    rewrite app_assoc, (slice_from_app _ (pre ++ x)) by (rewrite len_app; lia). cbn [mbind res_bind].
    destruct (existsb _ y) eqn:Hz; [done|]. apply all_zero in Hz. rewrite <- app_assoc, (slice_mid 8 _ pre x) by lia. intros [= <-].
    split; [lia|]. exists (length y). rewrite Hx, be_bytes_val by done. by rewrite <- Hz.
  - intros [Hb [z ->]]. pose proof (len_nonneg f) as Hf. pose proof (len_nonneg (replicate z Byte.x00)) as Hrep.
    rewrite !len_app, len_be_bytes. destruct (Z.ltb_spec (Z.of_nat 8 + (len f + len (replicate z Byte.x00))) 8); [lia|].
    rewrite slice_here by (by rewrite len_be_bytes). cbn [mbind res_bind].
    rewrite be_val_bytes_small by (change (256 ^ Z.of_nat 8) with (2 ^ 64); unfold u64_max in Hb; lia).
    destruct (Z.gtb_spec (len f + 8) u64_max); cbn [orb]; [lia|].
    destruct (Z.gtb_spec (len f + 8) (Z.of_nat 8 + (len f + len (replicate z Byte.x00)))); [lia|].
    rewrite app_assoc, (slice_from_app _ (be_bytes 8 (len f) ++ f)) by (rewrite len_app, len_be_bytes; lia). cbn [mbind res_bind].
    rewrite (proj2 (all_zero _)) by (by rewrite length_replicate). rewrite <- app_assoc. apply slice_mid; rewrite len_be_bytes; lia.
Qed.

Section laws.
Context `{GL : AesGcmLaws} `{Sha2Crate} `{PL : PlatformLaws}.

Lemma media_unpad_no_panic p : media_unpad p ≠ Panic.
Proof.
  unfold media_unpad, LEN_PREFIX. destruct (Z.ltb_spec (len p) 8); [done|].
  destruct (slice_total (E := MediaError) 0 8 p) as (pre & -> & Hpre); [lia..|]. cbn [mbind res_bind]. pose proof (be_val_range pre) as [Hv _].
  destruct (_ || _) eqn:Hb; [done|]. apply orb_false_iff in Hb as [_ Hb]. rewrite Z.gtb_ltb in Hb. apply Z.ltb_ge in Hb.
  unfold slice_from. destruct (slice_total (E := MediaError) (be_val pre + 8) (len p) p) as (r & -> & _); [lia..|]. cbn [mbind res_bind].
  destruct (existsb _ _); [done|]. by destruct (slice_total (E := MediaError) 8 (be_val pre + 8) p) as (x & -> & _); [lia..|].
Qed.

Lemma open_media_no_panic key blob : open_media key blob ≠ Panic.
Proof.
  unfold open_media, slice_from, MEDIA_NONCE_LEN, MEDIA_TAG_LEN. destruct (negb _); [done|]. destruct (Z.ltb_spec (len blob) (12 + 16)); [done|].
  destruct (slice_total (E := MediaError) 0 12 blob) as (? & -> & _); [lia..|]. cbn [mbind res_bind].
  destruct (slice_total (E := MediaError) (len blob - 16) (len blob) blob) as (? & -> & _); [lia..|]. cbn [mbind res_bind].
  destruct (slice_total (E := MediaError) 12 (len blob - 16) blob) as (? & -> & _); [lia..|]. cbn [mbind res_bind].
  case_match; [apply media_unpad_no_panic|apply ok_or_no_panic].
Qed.

(** A blob of either kind, laid out. *)
Lemma open_media_app key nonce body tag : len key = 32 → len nonce = 12 → len tag = 16 →
  open_media key (nonce ++ body ++ tag) =
    match gcm_decrypt key nonce V1_AD body tag with
    | Some buf => media_unpad buf
    | None => ok_or (gcm_decrypt key nonce [] body tag) MediaUnauthenticated
    end.
Proof.
  intros Hk Hn Ht. unfold open_media, MEDIA_NONCE_LEN, MEDIA_TAG_LEN, MEDIA_KEY_LEN. rewrite Hk. cbn [negb Z.eqb Pos.eqb].
  pose proof (len_nonneg body). rewrite !len_app, Hn, Ht. destruct (Z.ltb_spec (12 + (len body + 16)) (12 + 16)); [lia|].
  rewrite slice_here by done. cbn [mbind res_bind].
  rewrite app_assoc, (slice_from_app _ (nonce ++ body)) by (rewrite len_app; lia). cbn [mbind res_bind].
  by rewrite <- app_assoc, (slice_mid 12 _ nonce body) by lia.
Qed.

Lemma media_seal_with_opens key nonce f t : len key = 32 → len nonce = 12 → blob_len (len f) = Ok t →
  ∃ s, media_seal_with key nonce f = Ok s ∧ sm_key s = key ∧ len (sm_blob s) = t ∧ sm_sha256 s = sha256 (sm_blob s) ∧
    open_media key (sm_blob s) = Ok f.
Proof.
  intros Hk Hn Ht. pose proof (blob_len_bounds (len f) t (len_nonneg f) Ht) as Hb.
  unfold media_seal_with. rewrite Ht. cbn [mbind res_bind]. pose proof (len_nonneg f) as Hf.
  unfold V1_OVERHEAD, MEDIA_NONCE_LEN, MEDIA_TAG_LEN, LEN_PREFIX, MEDIA_MAX_BLOB_LEN in *.
  set (z := (Z.to_nat (t - 16) - (12 + 8 + length f))%nat).
  assert (resize (Z.to_nat (t - 16)) Byte.x00 (nonce ++ be_bytes 8 (len f) ++ f) = nonce ++ be_bytes 8 (len f) ++ f ++ replicate z Byte.x00) as ->.
  { pose proof (len_be_bytes 8 (len f)) as Hbe. unfold len in *. rewrite resize_ge by (rewrite !length_app; lia). rewrite <- !app_assoc. do 4 f_equal.
    rewrite !length_app. lia. }
  set (m := be_bytes 8 (len f) ++ f ++ replicate z Byte.x00).
  assert (len m = t - 28) as Hm.
  { unfold m. rewrite !len_app, len_be_bytes. unfold len in *. rewrite length_replicate. lia. }
  rewrite (slice_from_app _ nonce), slice_here by done. cbn [mbind res_bind].
  destruct (gcm_encrypt_ok key nonce V1_AD m) as (c & tag & -> & Hc & Htag & Hd); [lia|]. cbn [expect mbind res_bind].
  eexists. split; [done|]. cbn [sm_key sm_blob sm_sha256]. split_and!; [done|rewrite !len_app; lia|done|].
  rewrite open_media_app, Hd by done. apply unpad_exact. split; [unfold LEN_PREFIX, u64_max; lia|]. by exists z.
Qed.

Lemma seal_media_opens f w t : blob_len (len f) = Ok t →
  ∃ w' s, seal_media f w = (w', Ok s) ∧ len (sm_blob s) = t ∧ sm_sha256 s = sha256 (sm_blob s) ∧ open_media (sm_key s) (sm_blob s) = Ok f.
Proof.
  intros Ht. unfold seal_media. pose proof (os_rng_len MEDIA_KEY_LEN w) as Hk. unfold fill_bytes, mbind, stm_bind.
  destruct (os_rng MEDIA_KEY_LEN w) as [w1 key]. pose proof (os_rng_len MEDIA_NONCE_LEN w1) as Hn.
  destruct (os_rng MEDIA_NONCE_LEN w1) as [w2 nonce]. cbn [snd] in Hk, Hn.
  destruct (media_seal_with_opens key nonce f t) as (s & Hs & <- & Hlen & Hsha & Ho); [by apply Hk|by apply Hn|done|].
  exists w2, s. unfold lift. by rewrite Hs.
Qed.

(** C39: A file sent as media arrives, and its size is hidden. Sealing succeeds exactly for
    the files that fit a blob. The blob's size is Padmé's: the file's need rounded up to
    the next multiple of the unit of its magnitude, never under the smallest blob nor over
    what the service takes, so at most 12 % above the need unless it is the smallest size;
    and every file that is no shorter and still fits that blob is given the same size.
    Opening the blob with its key gives the file back. Opening never panics, whatever key
    and blob it is given, and unpadding accepts a buffer exactly when it is the length, the
    file and zeros, of any number: a file has more forms that open than the one sealing
    writes. *)
Theorem media_files_arrive f w :
  (len f ≤ max_plaintext_len →
   ∃ w' s p, seal_media f w = (w', Ok s) ∧ open_media (sm_key s) (sm_blob s) = Ok f ∧ sm_sha256 s = sha256 (sm_blob s) ∧
     bucket (len f + V1_OVERHEAD) p ∧ len (sm_blob s) = Z.max MEDIA_MIN_BLOB_LEN (Z.min MEDIA_MAX_BLOB_LEN p) ∧
     len f + V1_OVERHEAD ≤ len (sm_blob s) ∧
     (len (sm_blob s) = MEDIA_MIN_BLOB_LEN ∨ 100 * (len (sm_blob s) - (len f + V1_OVERHEAD)) ≤ 12 * (len f + V1_OVERHEAD)) ∧
     (∀ g w2, len f ≤ len g → len g + V1_OVERHEAD ≤ len (sm_blob s) →
        ∃ w3 s', seal_media g w2 = (w3, Ok s') ∧ len (sm_blob s') = len (sm_blob s))) ∧
  (max_plaintext_len < len f → (seal_media f w).2 = Err (TooLarge (len f))) ∧
  (∀ key blob, open_media key blob ≠ Panic) ∧
  (∀ p g, media_unpad p = Ok g ↔ len g + LEN_PREFIX ≤ u64_max ∧ ∃ z, p = be_bytes 8 (len g) ++ g ++ replicate z Byte.x00).
Proof.
  split_and!.
  - intros Hl. destruct (blob_len_bucket (len f)) as (p & Hp & Hbl); [by pose proof (len_nonneg f)|].
    destruct (seal_media_opens f w _ Hbl) as (w' & s & Hs & Hlen & Hsha & Ho). rewrite <- Hlen in Hbl.
    destruct (blob_len_bounds (len f) _ (len_nonneg f) Hbl) as (Hb & _ & Hc). exists w', s, p. split_and!; try done; [lia|].
    intros g w2 Hg Hfit. destruct (seal_media_opens g w2 (len (sm_blob s))) as (w3 & s' & Hs' & Hlen' & _); [|by exists w3, s'].
    apply (blob_len_same (len f)); [pose proof (len_nonneg f); lia|done|done].
  - intros Hl. unfold seal_media, fill_bytes, mbind, stm_bind. destruct (os_rng _ w) as [w1 key], (os_rng _ w1) as [w2 nonce].
    unfold lift, media_seal_with, blob_len. cbn [snd]. by destruct (Z.gtb_spec (len f) max_plaintext_len); [|lia].
  - apply open_media_no_panic.
  - apply unpad_exact.
Qed.
End laws.

(** ** A concrete cipher *)

Definition toy_gcm_tag (k n ad m : bytes) : bytes := toy_stream 16 (digest (digest (digest (digest 23 k) n) ad) m).
#[global] Instance toy_gcm : AesGcmCrate := {|
  gcm_encrypt k n ad m := Some (m, toy_gcm_tag k n ad m);
  gcm_decrypt k n ad c t := if bool_decide (t = toy_gcm_tag k n ad c) then Some c else None;
|}.
#[global] Instance toy_gcm_laws : AesGcmLaws.
Proof.
  split; cbn [gcm_encrypt gcm_decrypt toy_gcm].
  - intros k n ad m _. exists m, (toy_gcm_tag k n ad m). split_and!; [done|done| |by rewrite bool_decide_eq_true_2].
    unfold toy_gcm_tag, len. by rewrite toy_stream_len.
  - intros k n ad c t m. case_bool_decide; [|done]. by intros [= ->].
Qed.

Lemma media_files_arrive_witness :
  ∃ w' s, seal_media (as_bytes "a voice note") (toy_world 3) = (w', Ok s) ∧
    open_media (sm_key s) (sm_blob s) = Ok (as_bytes "a voice note") ∧ len (sm_blob s) ≤ MEDIA_MAX_BLOB_LEN.
Proof.
  destruct (media_files_arrive (as_bytes "a voice note") (toy_world 3)) as (Hs & _).
  destruct Hs as (w' & s & p & Hs & Ho & _ & _ & Hl & _); [by vm_compute|]. exists w', s. split_and!; [done|done|].
  rewrite Hl. unfold MEDIA_MIN_BLOB_LEN, MEDIA_MAX_BLOB_LEN. lia.
Defined.
