(* ===== verification/Knst.v ===== *)
(** * Plaintext frames

    Models [src/src/knst.rs]: the frame around every message body, its parsing, and the
    splitting of a body into frames. Shown: the frames of a body parse back, in order
    and to the body; parsing never panics. The two text forms of a message id are
    left out. *)

From stdpp Require Import list.
From S2P Require Import Prelude Crates.

Definition KNST_MAGIC : bytes := as_bytes "KNST".
Definition KNST_VERSION : byte := Byte.x01.
Definition KNST_HEADER_LEN : Z := 30.
Definition CHUNK_PAYLOAD_SIZE : Z := 3770.
Definition MAX_CHUNKS : Z := 256.
Definition SILENT_CONTROL_TYPES : list Z := [12; 13; 14; 25; 26; 27; 29; 30].

Definition is_silent_control (content_type : byte) : bool :=
  existsb (λ t, t =? byte_to_Z content_type) SILENT_CONTROL_TYPES.

Record Frame := mkFrame {
  fr_content_type : byte;
  fr_message_id : bytes;
  fr_chunk_index : Z;
  fr_total_chunks : Z;
  fr_plaintext_length : Z;
  fr_payload : bytes;
}.

Definition frame_parse {E} (data : bytes) : res E (option Frame) :=
  if len data <? KNST_HEADER_LEN then Ok None else
  magic ← slice 0 4 data;
  if bool_decide (magic ≠ KNST_MAGIC) then Ok None else
  version ← index 4 data;
  if bool_decide (version ≠ KNST_VERSION) then Ok None else
  message_id ← slice 6 22 data;
  content_type ← index 5 data;
  chunk_index ← slice 22 24 data;
  total_chunks ← slice 24 26 data;
  plaintext_length ← slice 26 30 data;
  payload ← slice_from KNST_HEADER_LEN data;
  Ok (Some (mkFrame content_type message_id (be_val chunk_index) (be_val total_chunks) (be_val plaintext_length) payload)).

(** The slice is within the payload: the length was compared. *)
Definition control_body {E} (f : Frame) : res E (option bytes) :=
  let length := fr_plaintext_length f in
  if (fr_total_chunks f =? 1) && (length <=? len (fr_payload f))
  then body ← slice 0 length (fr_payload f); Ok (Some body) else Ok None.

Definition frame (body : bytes) (content_type : byte) (message_id : bytes) (chunk_index total_chunks plaintext_length : Z) : bytes :=
  KNST_MAGIC ++ [KNST_VERSION] ++ [content_type] ++ message_id ++ be_bytes 2 chunk_index ++ be_bytes 2 total_chunks ++
  be_bytes 4 plaintext_length ++ body.

Definition frame_whole (body : bytes) (content_type : byte) (message_id : bytes) : option bytes :=
  if len body <=? u32_max then Some (frame body content_type message_id 0 1 (len body)) else None.

(** [a.div_ceil(b)] *)
Definition div_ceil (a b : Z) : Z := (a + (b - 1)) / b.

(** One frame of the map of [encode_chunks]. *)
Definition encode_chunk {E} (body : bytes) (content_type : byte) (message_id : bytes) (total i : Z) : res E bytes :=
  let start := i * CHUNK_PAYLOAD_SIZE in
  let end_ := Z.min (start + CHUNK_PAYLOAD_SIZE) (len body) in
  chunk ← slice start end_ body;
  Ok (frame chunk content_type message_id i total (len body)).

Definition encode_chunks {E} (body : bytes) (content_type : byte) (message_id : bytes) : res E (option (list bytes)) :=
  let total := Z.max (div_ceil (len body) CHUNK_PAYLOAD_SIZE) 1 in
  if total >? MAX_CHUNKS then Ok None else
  if len body >? u32_max then Ok None else
  if total >? u16_max then Ok None else
  frames ← mapM (encode_chunk body content_type message_id total) (seqZ 0 total);
  Ok (Some frames).

Definition control_frame {E} (plaintext : bytes) : res E (option (byte * bytes)) :=
  f ← frame_parse (E := E) plaintext;
  match f with
  | None => Ok None
  | Some f => body ← control_body (E := E) f; Ok (option_map (pair (fr_content_type f)) body)
  end.

(** ** Frames read back *)

Lemma frame_parse_frame {E} body ct id i n l : len id = 16 → is_u16 i → is_u16 n → is_u32 l →
  frame_parse (E := E) (frame body ct id i n l) = Ok (Some (mkFrame ct id i n l body)).
Proof.
  intros Hid Hi Hn Hl. unfold frame_parse, frame. set (d := KNST_MAGIC ++ _).
  assert (view 0 d d) as V0 by apply view_start.
  assert (len d = 30 + len body) as Hd by (unfold d; rewrite !len_app, !len_be_bytes, Hid; unfold len; cbn; lia).
  pose proof (len_nonneg body). destruct (Z.ltb_spec (len d) KNST_HEADER_LEN) as [Hlt|_]; [unfold KNST_HEADER_LEN in Hlt; lia|].
  pose proof (view_next 0 4 d _ _ V0 eq_refl) as V4. pose proof (view_next 4 5 d _ _ V4 eq_refl) as V5.
  pose proof (view_next 5 6 d _ _ V5 eq_refl) as V6. assert (22 = 6 + len id) as E22 by lia. pose proof (view_next 6 22 d _ _ V6 E22) as V22.
  assert (24 = 22 + len (be_bytes 2 i)) as E24 by (by rewrite len_be_bytes). pose proof (view_next 22 24 d _ _ V22 E24) as V24.
  assert (26 = 24 + len (be_bytes 2 n)) as E26 by (by rewrite len_be_bytes). pose proof (view_next 24 26 d _ _ V24 E26) as V26.
  assert (30 = 26 + len (be_bytes 4 l)) as E30 by (by rewrite len_be_bytes). pose proof (view_next 26 30 d _ _ V26 E30) as V30.
  rewrite (view_slice 0 4 d _ _ V0 eq_refl). cbn [mbind res_bind]. rewrite bool_decide_eq_false_2 by tauto.
  rewrite (view_index 4 d _ KNST_VERSION V4). cbn [mbind res_bind]. rewrite bool_decide_eq_false_2 by tauto.
  rewrite (view_slice 6 22 d _ _ V6 E22). cbn [mbind res_bind]. rewrite (view_index 5 d _ ct V5). cbn [mbind res_bind].
  rewrite (view_slice 22 24 d _ _ V22 E24). cbn [mbind res_bind]. rewrite (view_slice 24 26 d _ _ V24 E26). cbn [mbind res_bind].
  rewrite (view_slice 26 30 d _ _ V26 E30). cbn [mbind res_bind].
  unfold slice_from, KNST_HEADER_LEN. rewrite <- (app_nil_r body) in V30. rewrite (view_slice 30 (len d) d body [] V30) by lia. cbn [mbind res_bind].
  unfold is_u16, u16_max, is_u32, u32_max in *.
  rewrite !be_val_bytes_small; [done|..]; cbn; lia.
Qed.

Lemma frame_parse_no_panic {E} d : frame_parse (E := E) d ≠ Panic.
Proof.
  unfold frame_parse, slice_from, KNST_HEADER_LEN. destruct (Z.ltb_spec (len d) 30); [done|].
  destruct (slice_total (E := E) 0 4 d) as (? & -> & _); [lia..|]. cbn [mbind res_bind]. case_bool_decide; [done|].
  destruct (index_ok (E := E) 4 d) as (? & ->); [lia|]. cbn [mbind res_bind]. case_bool_decide; [done|].
  destruct (slice_total (E := E) 6 22 d) as (? & -> & _); [lia..|]. cbn [mbind res_bind].
  destruct (index_ok (E := E) 5 d) as (? & ->); [lia|]. cbn [mbind res_bind].
  destruct (slice_total (E := E) 22 24 d) as (? & -> & _); [lia..|]. cbn [mbind res_bind].
  destruct (slice_total (E := E) 24 26 d) as (? & -> & _); [lia..|]. cbn [mbind res_bind].
  destruct (slice_total (E := E) 26 30 d) as (? & -> & _); [lia..|]. cbn [mbind res_bind].
  by destruct (slice_total (E := E) 30 (len d) d) as (? & -> & _); [lia..|].
Qed.

(** ** Bodies read back *)

(** The chunks of [n] bytes, side by side. *)
Lemma chunks_concat {A} (n k : nat) (l : list A) : concat ((λ i, take n (drop (i * n) l)) <$> seq 0 k) = take (k * n) l.
Proof.
  induction k as [|k IH]; [by rewrite take_0|]. rewrite seq_S, fmap_app, concat_app, IH. cbn [fmap list_fmap concat Nat.add].
  rewrite app_nil_r. replace (S k * n)%nat with (k * n + n)%nat by lia. apply take_take_drop.
Qed.

Definition chunk_of (body : bytes) (i : nat) : bytes := take 3770 (drop (i * 3770) body).
Definition total_of (body : bytes) : nat := Z.to_nat (Z.max (div_ceil (len body) CHUNK_PAYLOAD_SIZE) 1).

Lemma total_of_bounds body : (1 ≤ total_of body)%nat ∧ len body ≤ Z.of_nat (total_of body) * 3770 ∧
  (total_of body = 1%nat ∨ (Z.of_nat (total_of body) - 1) * 3770 < len body).
Proof.
  unfold total_of, div_ceil, CHUNK_PAYLOAD_SIZE. pose proof (len_nonneg body).
  pose proof (Z.div_mod (len body + (3770 - 1)) 3770 ltac:(lia)). pose proof (Z.mod_pos_bound (len body + (3770 - 1)) 3770 ltac:(lia)). lia.
Qed.

Lemma encode_chunk_ok {E} body ct id i : (i < total_of body)%nat →
  encode_chunk (E := E) body ct id (Z.of_nat (total_of body)) (Z.of_nat i) =
    Ok (frame (chunk_of body i) ct id (Z.of_nat i) (Z.of_nat (total_of body)) (len body)).
Proof.
  intros Hi. destruct (total_of_bounds body) as (_ & Hu & Hl). unfold encode_chunk, CHUNK_PAYLOAD_SIZE.
  pose proof (len_nonneg body). rewrite slice_inv by lia. cbn [mbind res_bind]. do 2 f_equal. unfold chunk_of.
  replace (Z.to_nat (Z.of_nat i * 3770)) with (i * 3770)%nat by lia.
  destruct (decide (len body ≤ Z.of_nat i * 3770 + 3770)) as [Hs|Hs].
  - rewrite !take_ge; [done|..]; rewrite length_drop; unfold len in *; lia.
  - f_equal. lia.
Qed.

Definition frame_of (body : bytes) (ct : byte) (id : bytes) (i : nat) : Frame :=
  mkFrame ct id (Z.of_nat i) (Z.of_nat (total_of body)) (len body) (chunk_of body i).

(** The frames of a body, or none for one that needs too many. *)
Lemma encode_chunks_means {E} body ct id : encode_chunks (E := E) body ct id =
  Ok (if len body <=? MAX_CHUNKS * CHUNK_PAYLOAD_SIZE
      then Some ((λ i, frame (chunk_of body i) ct id (Z.of_nat i) (Z.of_nat (total_of body)) (len body)) <$> seq 0 (total_of body))
      else None).
Proof.
  destruct (total_of_bounds body) as (H1 & Hu & Hl). unfold encode_chunks, MAX_CHUNKS, u32_max, u16_max, CHUNK_PAYLOAD_SIZE in *.
  assert (Z.max (div_ceil (len body) 3770) 1 = Z.of_nat (total_of body)) as -> by (unfold total_of, CHUNK_PAYLOAD_SIZE; lia).
  destruct (Z.leb_spec (len body) (256 * 3770)) as [Hs|Hs].
  - assert (Z.of_nat (total_of body) ≤ 256) as Ht.
    { unfold total_of, div_ceil, CHUNK_PAYLOAD_SIZE. pose proof (Z.div_le_mono (len body + (3770 - 1)) (256 * 3770 + (3770 - 1)) 3770 ltac:(lia) ltac:(lia)) as Hd.
      change ((256 * 3770 + (3770 - 1)) / 3770) with 256 in Hd. lia. }
    destruct (Z.gtb_spec (Z.of_nat (total_of body)) 256); [lia|]. destruct (Z.gtb_spec (len body) 4294967295); [lia|].
    destruct (Z.gtb_spec (Z.of_nat (total_of body)) 65535); [lia|].
    rewrite (mapM_res_spec _ (λ z, frame (chunk_of body (Z.to_nat z)) ct id z (Z.of_nat (total_of body)) (len body))).
    + cbn [mbind res_bind]. do 2 f_equal. unfold seqZ. rewrite Nat2Z.id, <- list_fmap_compose. apply list_fmap_ext. intros j x _.
      cbn. by rewrite Z.add_0_r, Nat2Z.id.
    + intros z Hz%elem_of_seqZ. rewrite <- (Z2Nat.id z) at 1 by lia. rewrite encode_chunk_ok by lia. by rewrite Z2Nat.id by lia.
  - destruct (Z.gtb_spec (Z.of_nat (total_of body)) 256); [done|lia].
Qed.

Lemma control_frame_whole {E} body body' ct id : len id = 16 → len body ≤ u32_max → body' = body →
  control_frame (E := E) (frame body' ct id 0 1 (len body)) = Ok (Some (ct, body)).
Proof.
  intros Hid Hl ->. unfold control_frame. pose proof (len_nonneg body).
  rewrite frame_parse_frame by (unfold is_u16, is_u32, u16_max; first [done|lia]). cbn [mbind res_bind].
  unfold control_body. cbn [fr_plaintext_length fr_total_chunks fr_payload fr_content_type]. rewrite Z.leb_refl. cbn [Z.eqb Pos.eqb andb].
  by rewrite slice_here_all by done.
Qed.

(** C40: A message body survives its framing. A body is split, without a panic, exactly
    when it fits 256 frames of 3770 bytes; every frame parses, says its place, the
    number of frames, the type, the id and the length of the whole body, and carries at
    most 3770 bytes, and the payloads in order are the body; a body of one frame, and
    one framed whole, is read back as a control frame. Parsing never panics. *)
Theorem bodies_survive_framing {E} body ct id : len id = 16 →
  (∀ d, frame_parse (E := E) d ≠ Panic) ∧
  (∃ frames, encode_chunks (E := E) body ct id = Ok frames ∧ (is_Some frames ↔ len body ≤ MAX_CHUNKS * CHUNK_PAYLOAD_SIZE) ∧
   ∀ l, frames = Some l →
     ∃ fs, Forall2 (λ b f, frame_parse (E := E) b = Ok (Some f)) l fs ∧ concat (fr_payload <$> fs) = body ∧
       (∀ i f, fs !! i = Some f → fr_chunk_index f = Z.of_nat i ∧ fr_total_chunks f = len fs ∧ fr_content_type f = ct ∧
          fr_message_id f = id ∧ fr_plaintext_length f = len body ∧ len (fr_payload f) ≤ CHUNK_PAYLOAD_SIZE) ∧
       (len body ≤ CHUNK_PAYLOAD_SIZE → ∃ b, l = [b] ∧ control_frame (E := E) b = Ok (Some (ct, body)))) ∧
  (∀ b, frame_whole body ct id = Some b → control_frame (E := E) b = Ok (Some (ct, body))).
Proof.
  intros Hid. split_and!.
  - intros d. apply frame_parse_no_panic.
  - eexists. split; [apply encode_chunks_means|]. destruct (total_of_bounds body) as (Ht1 & Hu & Hl).
    destruct (Z.leb_spec (len body) (MAX_CHUNKS * CHUNK_PAYLOAD_SIZE)) as [Hs|Hs]; [|split; [split; [by intros []|lia]|done]].
    split; [split; [lia|eauto]|]. intros l [= <-]. exists (frame_of body ct id <$> seq 0 (total_of body)).
    unfold MAX_CHUNKS, CHUNK_PAYLOAD_SIZE in *. pose proof (len_nonneg body). split_and!.
    + apply Forall2_fmap, Forall_Forall2_diag, Forall_forall. intros i Hi%elem_of_seq.
      apply frame_parse_frame; unfold is_u16, is_u32, u16_max, u32_max; [done|lia..].
    + rewrite <- list_fmap_compose. change (fr_payload ∘ frame_of body ct id) with (λ i, take 3770 (drop (i * 3770) body)).
      rewrite chunks_concat. apply take_ge. unfold len in *. lia.
    + intros i f Hf. apply list_lookup_fmap_Some in Hf as (j & -> & Hj). apply lookup_seq in Hj as [-> Hj]. cbn.
      split_and!; try done; [|unfold len, chunk_of; rewrite length_take; lia]. unfold len. by rewrite length_fmap, length_seq.
    + intros Hone. assert (total_of body = 1%nat) as Ht by lia. rewrite Ht. eexists. split; [done|].
      apply control_frame_whole; [done|unfold u32_max; lia|]. unfold chunk_of. change (drop (0 * 3770) body) with body. apply take_ge. unfold len in *. lia.
  - intros b. unfold frame_whole. destruct (Z.leb_spec (len body) u32_max); [|done]. intros [= <-]. by apply control_frame_whole.
Qed.

Lemma bodies_survive_framing_witness :
  ∃ l, encode_chunks (E := Empty_set) (replicate 4000 Byte.x2a) Byte.x01 (replicate 16 Byte.x07) = Ok (Some l) ∧ length l = 2%nat.
Proof.
  destruct (bodies_survive_framing (E := Empty_set) (replicate 4000 Byte.x2a) Byte.x01 (replicate 16 Byte.x07)) as (_ & (frames & He & Hs & Hl) & _);
    [done|]. destruct (proj2 Hs) as [l ->]; [by vm_compute|]. exists l. split; [done|].
  destruct (Hl l eq_refl) as (fs & Hp & _). revert He. vm_compute. by intros [= <-].
Defined.
